(* ===== verification/_CoqProject ===== *)
-Q . S2P
Prelude.v
External.v
Task.v
Proto.v
Names.v
Net.v
Tun.v
Membership.v
MembershipProps.v
MembershipLookup.v
MembershipSpec.v
Filename.v
Utf8.v
Frame.v
Peers.v
Routes.v
Stats.v
Mesh.v
Overlay.v
Files.v
Transfer.v
TransferProps.v
Node.v
NodeProps.v
Admin.v
AdminProps.v
Wire.v
Win32.v
Authz.v
Winauth.v
Ipc.v
IpcProps.v
Steps.v
HandlerSteps.v
Interleave.v
Schedules.v
Outsider.v
Socket.v
Dns.v
Resolv.v
Registration.v
Startup.v
Winacl.v
Daemon.v
Storage.v
Host.v
Expiry.v
CliFile.v
CliFileProps.v
System.v
Network.v
Elevate.v
Relaunch.v
Format.v
Terminal.v
Service.v
Update.v
Build.v
Commands.v
Client.v
FileCommands.v
Cli.v
EndToEnd.v
