(* ===== verification/Prelude.v ===== *)
(** * A verification of the quix mesh daemon and its CLI

    quix is a peer-to-peer VPN: a daemon, [quixd], keeps a roster of members,
    links to them over QUIC, forwards the packets of a TUN interface and answers
    for the zone [.quix]; a command line, [quix], talks to it over a local
    socket.  This development models the two as functions on explicit state and
    proves what they promise.

    ** How it is modelled

    - State is a record per component and every operation a function from the
      state and what it is given to the new state, what it answers and what it
      causes (frames, closed connections, pushes, commands, reports), in the
      order the code does it.
    - A critical section (a lock held, or a stretch without an await) is one
      step; where the code gives up the lock in between there are several, and
      the theorems quantify over what happens in between.  The daemon's handlers
      are modelled twice: as one function each ([Node], [Admin], [Ipc]), and as
      tasks of critical sections that a scheduler may interleave ([Steps],
      [HandlerSteps]), which alone are those functions.  A [select!] is a
      machine whose inputs are what its branches can see ([Transfer],
      [Registration]).  What talks to Windows is a program over the calls it makes
      ([Win32]): the system's answers are its to choose, and the theorems hold for
      every trace a program can have.
    - Clocks, random bytes, the file system, programs run and the network are
      arguments, so a theorem holds for whatever they give.  Cryptographic and
      encoding crates (endpoint ids, SHA-256, BLAKE3, hex, base58, JSON) are type
      classes whose laws are what the code relies on, with computable instances
      in [External.Concrete] and [TransferProps.Codec] that the witnesses run on.
    - Strings are lists of code points, lengths in bytes are counted as UTF-8
      counts them, bytes are [Z], and machine integers are [Z] with saturation,
      checks and wrap-around written out.
    - Loops that are not structural take fuel where the code has a bound of its
      own (the ten thousand suffixes, the three join attempts, the ten binds), or
      the length of their input where every turn consumes some of it
      ([Frame.read_frames]); the theorems on them are about their results, so fuel
      that ran out would refute them.  Drawing an offer's id is given its draws
      and [admit_functional] says which draws are enough; a wait with a
      deadline is given its turns and [waiting_for_the_daemon_ends] says that a
      hundred and one are enough.

    ** The files and what they model

    - [Prelude]: results, strings, integers, the lemmas all share.  [External]:
      what the crates promise.  [Task]: programs of critical sections, and pools of
      them taking turns.  [Proto]: [proto/src/lib.rs].  [Net]: the standard
      library's IP addresses, read and shown.
    - [Names] ([daemon/src/names.rs]): hostnames, fallbacks and labels.  [Tun]
      ([tun.rs]): addresses from keys, destinations from packets.
    - [Membership] with [MembershipProps] and [MembershipLookup]
      ([membership.rs]): the roster, the names bound to keys, the invites.
      [MembershipSpec]: the registry they refine.  [Storage] ([membership.rs],
      [settings.rs]): the two files on disk, saved, cut short and loaded.
    - [Filename], [Utf8], [Frame] ([proto/src/filename.rs], [frame.rs]).
    - [Peers] ([peers.rs]), [Routes] ([routes.rs]), [Stats] ([stats.rs]): the
      tables behind forwarding; [Mesh] ([mesh.rs], [handler.rs]): forwarding,
      links coming and going, and the dialer.  [Overlay]: any number of
      data planes around one network, of which [Mesh] is the instance.
    - [Files] ([files/mod.rs]): the registry of offers.  [Transfer] and
      [TransferProps] ([files/transfer.rs]): both halves of a transfer, and the two
      of them connected by a stream that may break anywhere.
    - [Node] and [NodeProps] ([state.rs], [settings.rs]): the daemon's whole state
      and the methods that keep its parts together.
    - [Admin] and [AdminProps] ([admin.rs], [connect.rs]): what daemons ask of
      each other; [Wire]: one such call over its stream, from both ends.
    - [Authz], [Ipc] and [IpcProps] ([authz.rs], [ipc.rs]): what local users ask,
      and who may.  [Socket] ([ipc.rs], [tun.rs]): the listener, the loop that
      accepts, and the interface's set-up.
    - [Steps] ([state.rs]) and [HandlerSteps] ([admin.rs], [ipc.rs], [connect.rs],
      [mesh.rs]): the same methods and handlers one lock at a time.  [Interleave]
      and [Schedules]: everything the daemon has in hand, in any order of those
      sections.  [Outsider]: what none of those orders does for somebody who is not
      a member.
    - [Win32], [Winauth], [Winacl] ([winauth.rs], [winacl.rs], [identity.rs]): programs
      that call Windows, who a pipe's client is, and who may read the key.
    - [Dns] ([dns.rs]): the resolver.  [Resolv], [Registration] ([resolv.rs],
      [registration.rs]): pointing the system at it, retrying, and giving it back.
    - [Startup] ([args.rs], [identity.rs]): what an invocation comes to, and the
      node's key.  [Daemon] ([main.rs]): what the daemon starts and takes down.
      [Host] ([service.rs], [log.rs]): what stops it, what the service manager is
      told, and the log.
    - [Expiry], [CliFile], [CliFileProps] ([cli/src/commands/expiry.rs],
      [file/*.rs]): windows on the command line, and files at the two terminals.
    - [System]: a transfer from terminal to terminal, the two terminals and
      [TransferProps.Pair] as one machine, and the specification it refines.
    - [Network]: any number of nodes, each a [Node.State], with the bytes of their
      calls, the roster pushes on their way between them in no order, and the links
      a node is in the middle of serving.
    - [Format] ([file/format.rs]), [Commands] ([client.rs] and the commands that ask
      the daemon one question), [FileCommands] ([file/send.rs], [receive.rs],
      [list.rs], [main.rs]): what the command line prints, asks and exits with.
      [Terminal] ([file/format.rs]): the line redrawn in place.  [Client]
      ([client.rs], [ipc.rs]): both ends of the socket.
    - [Elevate] and [Relaunch] ([elevate.rs]), [Service] ([service_manager.rs],
      [commands/service.rs]), [Update] ([update.rs]): running again as
      Administrator, controlling the service, and installing a release.
      [Build] ([proto/build.rs]): the version a build reports.
    - [Cli] ([commands/mod.rs]): an invocation from its arguments to its end.
      [EndToEnd]: what the command line says about the daemon, and the other
      machine.

    ** How the parts meet

    [Mesh] keeps [Peers]; [Node] keeps [Membership], [Peers], [Routes] and
    [Files], and the invariant [NodeProps.in_step] says that the routed peers,
    the links, the kernel's routes, the offers and the file on disk are the
    roster's.  [Admin] and [Ipc] are the only ways in, and
    [requests_keep_the_node_in_step] takes the invariant through every one of
    their requests.  That is for requests served one after the other; [Schedules] says
    what is left of it when their critical sections alternate: the roster, its file
    and what is installed stay right, and what a schedule leaves out of step the next
    refresh puts back.  [CliFileProps] puts the terminals around [TransferProps.Pair],
    which puts two daemons around a stream made of [Frame]s; [System] lets all four
    take turns in any order.  [Network] composes [Ipc.dispatch], [Admin.dispatch],
    the links of [Mesh] and the methods of [NodeProps] over many nodes.  [Overlay]
    proves what a network of data planes does from the laws of its class, which
    [Mesh] meets.  Whatever one node asks of another in [Network] goes through
    [Wire.serves], with the limits on a message; a link is checked, put in the table and
    caught up in three events, as [Mesh] and [connect.rs] do it.  [Winauth] gives
    [Authz] its Windows callers.  [Client] puts the socket between [Commands] and
    [Ipc], for any encoding of the two that round-trips.  [Cli] calls [Commands], [FileCommands], [Service] and [Update]; [EndToEnd] joins it to
    [Ipc.handle] and [System].

    ** What the theorems show

    - From end to end: an exit code of 0 means the file is on the other machine; a
      transfer refines an atomic delivery; in a network of daemons every node whose
      own saves and route commands succeed stays in step, and a link brings a stale
      member into agreement as far as the roster fits a message; on no schedule of a
      coordinator's tasks, whatever fails, does somebody get in without an invite; a
      prompt for Administrator means a service command, an update, or that the daemon
      refused.
    - Membership: nobody is listed twice, and an invite admits once, in its window, to
      the network it was minted for, in every history; no two keys show one name, a
      bound name stays with its key unless forced, and all of it refines an abstract
      registry, as long as every name assigned was found free ([assigned],
      [never_crowded]: there are ten thousand candidates, and below that many names
      one is always free, [room_free_name]; the last one is taken unchecked, which
      [a_crowded_claim_takes_a_name] exhibits); what each operation does on every
      branch; a restart changes nobody.
    - The node: the parts agree in every state reachable by its methods, by local
      commands and by admin requests; leaving, once it is saved, tears everything down;
      a peer can change only itself (and the name it asks for, if one is free); an unprivileged user nothing; the daemon comes up whole or
      not at all.
    - Handlers that run at once: each alone is its function; on any schedule the
      roster is what the requests asked for one after the other, none lost or doubled,
      and one invite admits one joiner.
    - Packets go only to the member they are addressed to, every one a node reads or
      is sent is counted under one outcome, and they get through where there is a link; of two
      members exactly one dials.
    - On Windows a client of the pipe is who the system says it is, a thread gives
      back whatever it took, whatever fails, and the key is never readable by
      anybody but administrators and the daemon's own user.
    - Files: frames round-trip; offers come from members, within limits, are
      answered once and settle; a delivered file is byte for byte the file that was
      read, under a name nothing had.
    - Names resolve to their members and to nobody else; the zone is registered
      with backoff and handed back at the end whatever happened.
    - The socket adds nothing: a command gets the dispatcher's answer or an error, and
      so does a daemon that calls another, as far as the message fits.
    - The command line: exit codes tell how a transfer ended, tables come apart
      again, sizes are true to a tenth, the elevated copy gets the arguments intact,
      waiting for the daemon ends, no update installs what it has not verified, and
      a build of a release knows that it is one.
    - Where the code does not do what it or its documentation says, a theorem
      exhibits it: [pushed_fallback_redirects], [lost_answer_strands_the_joiner],
      [stale_task_unlinks_a_live_connection], [removed_peer_can_still_be_linked],
      [removed_sender_can_slip_into_receiving], [new_offer_can_reuse_a_receiving_id],
      [failed_add_is_never_retried], [failed_save_splits_the_node],
      [renaming_leaves_the_offer_list_behind], [offline_rename_is_not_reconciled],
      [force_is_dropped_for_members], [numbered_can_outgrow_the_limit],
      [network_label_cut_ends_with_hyphen], [a_broken_first_write_stays],
      [a_late_push_brings_back_a_kicked_member], [a_size_can_read_1024],
      [a_receivers_reason_can_forge_a_row], [a_cancelled_accept_can_leave_the_file],
      [a_service_without_a_runtime_never_stops], [a_failed_revert_stays],
      [a_save_cut_short_keeps_the_daemon_down], [damaged_settings_name_no_operator],
      [a_big_network_strands_the_joiner], [a_big_roster_reaches_nobody],
      [a_slow_refresh_unroutes_a_new_member], [a_checked_push_outlives_its_network],
      [a_checked_kick_takes_the_next_network], [a_crowded_claim_takes_a_name].

    ** What is not modelled

    What the operating system does behind its calls (sockets, the TUN device, what
    Windows makes of a token or a permission list), QUIC, TLS and the HTTP
    downloads, JSON's own text, clap's parsing of arguments, and the installers,
    which are shell and PowerShell: input and output around what is modelled here.
    [Network] lets whole handlers take turns, not their sections.  Some reads that the
    code makes one lock after the other are one step here: the route and the link of
    a packet ([Mesh.forward]), the roster and the names of a DNS answer
    ([Dns.answer_datagram]), the two reads of a stream's close reason
    ([Transfer.answered]).  A transfer's byte counter is an integer, which stays far
    below the 64 bits the code has for it.  [CliFile.place] takes the directory as it
    is while a free name is looked for, and keeps the part file out of it.  The wires
    between nodes in [Network] and [Overlay] are the theorems' setting and model no
    code.
    Rendered error texts are kept as their template and arguments
    ([Proto.message]). *)

From Stdlib Require Export ZArith Lia ZifyBool ZifyN ZifyNat.
From stdpp Require Export base tactics option gmap strings sorting pretty numbers list.

#[global] Open Scope Z_scope.
#[global] Arguments N.eqb : simpl never.
#[global] Arguments N.leb : simpl never.
#[global] Arguments N.ltb : simpl never.

(** ** Results of fallible code ([Result<A, E>] in the source) *)

Inductive result (E A : Type) : Type :=
  | Ok (a : A)
  | Err (e : E).

Arguments Ok {E A} a.
Arguments Err {E A} e.

#[global] Instance result_ret {E} : MRet (result E) := fun _ a => Ok a.
#[global] Instance result_bind {E} : MBind (result E) :=
  fun _ _ f r => match r with Ok a => f a | Err e => Err e end.
#[global] Instance result_fmap {E} : FMap (result E) :=
  fun _ _ f r => match r with Ok a => Ok (f a) | Err e => Err e end.
#[global] Instance result_eq_dec {E A} `{!EqDecision E, !EqDecision A} :
  EqDecision (result E A).
Proof. solve_decision. Defined.

Definition is_ok {E A} (r : result E A) : bool :=
  match r with Ok _ => true | Err _ => false end.

Definition ok_or {E A} (e : E) (o : option A) : result E A :=
  match o with Some a => Ok a | None => Err e end.

Definition map_err {E F A} (f : E -> F) (r : result E A) : result F A :=
  match r with Ok a => Ok a | Err e => Err (f e) end.

Definition to_option {E A} (r : result E A) : option A :=
  match r with Ok a => Some a | Err _ => None end.

Lemma is_ok_spec {E A} (r : result E A) : is_ok r = true <-> exists a, r = Ok a.
Proof. destruct r; naive_solver. Qed.

Lemma bind_ok {E A B} (f : A -> result E B) (r : result E A) b :
  r ≫= f = Ok b <-> exists a, r = Ok a /\ f a = Ok b.
Proof. destruct r; simpl; naive_solver. Qed.

(** ** Machine integers *)

Definition u32_max : Z := 2 ^ 32 - 1.
Definition u64_max : Z := 2 ^ 64 - 1.

(** [saturating_add], [checked_mul] and [clamp] of the integer types. *)
Definition sat_add (max a b : Z) : Z := Z.min max (a + b).
Definition sat_sub (a b : Z) : Z := Z.max 0 (a - b).
Definition checked_mul (max a b : Z) : option Z :=
  if a * b <=? max then Some (a * b) else None.
Definition clamp (lo hi x : Z) : Z := Z.max lo (Z.min x hi).

(** [as i32] of a [u32]. *)
Definition as_i32 (n : Z) : Z := (n + 2 ^ 31) mod 2 ^ 32 - 2 ^ 31.

Lemma clamp_bounds lo hi x : lo <= hi -> lo <= clamp lo hi x <= hi.
Proof. unfold clamp. lia. Qed.

Lemma clamp_id lo hi x : lo <= x <= hi -> clamp lo hi x = x.
Proof. unfold clamp. lia. Qed.

(** ** Strings

    A Rust [str] is a sequence of Unicode scalar values; its length is counted
    in UTF-8 bytes.  [lit] turns an ASCII literal into one. *)

Abbreviation char := N (only parsing).
Abbreviation rstr := (list N) (only parsing).

Definition lit (s : String.string) : rstr :=
  Ascii.N_of_ascii <$> String.list_ascii_of_string s.
Arguments lit s%_string_scope.

Definition show_nat (n : nat) : rstr := lit (pretty n).

(** [char::len_utf8] and [str::len]. *)
Definition utf8_len (c : char) : nat :=
  if (c <? 128)%N then 1
  else if (c <? 2048)%N then 2
  else if (c <? 65536)%N then 3
  else 4.

Fixpoint str_len (s : rstr) : nat :=
  match s with [] => 0 | c :: s' => utf8_len c + str_len s' end.

Definition is_empty (s : rstr) : bool := match s with [] => true | _ => false end.

(** [char] classes used by the source. *)
Definition is_upper (c : char) : bool := ((65 <=? c) && (c <=? 90))%N.
Definition is_lower (c : char) : bool := ((97 <=? c) && (c <=? 122))%N.
Definition is_digit (c : char) : bool := ((48 <=? c) && (c <=? 57))%N.
Definition is_alnum (c : char) : bool := is_upper c || is_lower c || is_digit c.
Definition is_hexdigit (c : char) : bool :=
  is_digit c || ((97 <=? c) && (c <=? 102))%N || ((65 <=? c) && (c <=? 70))%N.
Definition ascii_lower (c : char) : char := if is_upper c then (c + 32)%N else c.
Definition is_ascii (c : char) : bool := (c <? 128)%N.

(** [char::is_whitespace] is the Unicode property White_Space. *)
Definition is_whitespace (c : char) : bool :=
  ((9 <=? c) && (c <=? 13) || (c =? 32) || (c =? 133) || (c =? 160)
   || (c =? 5760) || (8192 <=? c) && (c <=? 8202) || (c =? 8232) || (c =? 8233)
   || (c =? 8239) || (c =? 8287) || (c =? 12288))%N.

(** [char::is_control] is the general category Cc. *)
Definition is_cc (c : char) : bool :=
  ((c <=? 31) || (127 <=? c) && (c <=? 159))%N.

Definition to_ascii_lowercase (s : rstr) : rstr := ascii_lower <$> s.

Fixpoint drop_while (p : char -> bool) (s : rstr) : rstr :=
  match s with
  | [] => []
  | c :: s' => if p c then drop_while p s' else s
  end.

Definition trim_start_matches (p : char -> bool) (s : rstr) : rstr := drop_while p s.
Definition trim_end_matches (p : char -> bool) (s : rstr) : rstr :=
  rev (drop_while p (rev s)).
Definition trim_matches (p : char -> bool) (s : rstr) : rstr :=
  trim_end_matches p (trim_start_matches p s).
Definition trim (s : rstr) : rstr := trim_matches is_whitespace s.

Definition contains_char (c : char) (s : rstr) : bool := existsb (N.eqb c) s.
Definition starts_with_char (c : char) (s : rstr) : bool :=
  match s with x :: _ => (x =? c)%N | [] => false end.
Definition ends_with_char (c : char) (s : rstr) : bool := starts_with_char c (rev s).

Fixpoint str_eqb (s t : rstr) : bool :=
  match s, t with
  | [], [] => true
  | c :: s', d :: t' => (c =? d)%N && str_eqb s' t'
  | _, _ => false
  end.

Definition eq_ignore_ascii_case (s t : rstr) : bool :=
  str_eqb (to_ascii_lowercase s) (to_ascii_lowercase t).

Fixpoint strip_prefix (p s : rstr) : option rstr :=
  match p, s with
  | [], _ => Some s
  | c :: p', d :: s' => if (c =? d)%N then strip_prefix p' s' else None
  | _ :: _, [] => None
  end.

Definition strip_suffix (p s : rstr) : option rstr :=
  (@rev N) <$> strip_prefix (rev p) (rev s).

(** [split_once(c)]: what is before and after the first [c]. *)
Fixpoint split_once (c : char) (s : rstr) : option (rstr * rstr) :=
  match s with
  | [] => None
  | d :: s' =>
      if (d =? c)%N then Some ([], s')
      else match split_once c s' with
           | Some (a, b) => Some (d :: a, b)
           | None => None
           end
  end.

(** [split(c).next()]: the whole string when [c] does not occur. *)
Definition first_part (c : char) (s : rstr) : rstr :=
  match split_once c s with Some (a, _) => a | None => s end.

(** [str::parse::<u64>] / [parse::<u32>]: an optional [+], then decimal digits,
    refusing the empty string and values over [max]. *)
Fixpoint digits (acc : Z) (s : rstr) : option Z :=
  match s with
  | [] => Some acc
  | c :: s' => if is_digit c then digits (acc * 10 + (Z.of_N c - 48)) s' else None
  end.

Definition parse_uint (max : Z) (s : rstr) : option Z :=
  let body := match s with 43%N :: s' => s' | _ => s end in
  match body with
  | [] => None
  | _ => match digits 0 body with
         | Some n => if n <=? max then Some n else None
         | None => None
         end
  end.

(** The order of [str]'s [Ord]: bytewise on UTF-8, which for scalar values is
    the lexicographic order of the code points. *)
Fixpoint str_leb (s t : rstr) : bool :=
  match s, t with
  | [], _ => true
  | _ :: _, [] => false
  | c :: s', d :: t' => (c <? d)%N || (c =? d)%N && str_leb s' t'
  end.

Definition str_le (s t : rstr) : Prop := str_leb s t = true.

(** ** Lemmas on strings *)

Lemma str_eqb_eq s t : str_eqb s t = true <-> s = t.
Proof.
  revert t; induction s as [|c s IH]; destruct t as [|d t]; simpl; try naive_solver.
  rewrite andb_true_iff, N.eqb_eq, IH. naive_solver.
Qed.

Lemma str_eqb_refl s : str_eqb s s = true.
Proof. by apply str_eqb_eq. Qed.

Lemma str_eqb_neq s t : str_eqb s t = false <-> s <> t.
Proof. rewrite <- not_true_iff_false, str_eqb_eq. done. Qed.

#[global] Instance str_le_dec s t : Decision (str_le s t).
Proof. unfold str_le. apply _. Defined.

Lemma str_le_refl s : str_le s s.
Proof.
  unfold str_le. induction s as [|c s IH]; simpl; [done|].
  rewrite N.eqb_refl, IH. by rewrite andb_true_l, orb_true_r.
Qed.

Lemma str_le_total s t : str_le s t \/ str_le t s.
Proof.
  unfold str_le. revert t; induction s as [|c s IH]; destruct t as [|d t]; simpl; auto.
  destruct (N.lt_trichotomy c d) as [Hlt|[->|Hlt]].
  - left. apply N.ltb_lt in Hlt. by rewrite Hlt.
  - rewrite N.eqb_refl, !andb_true_l. destruct (IH t) as [->| ->]; rewrite ?orb_true_r; auto.
  - right. apply N.ltb_lt in Hlt. by rewrite Hlt.
Qed.

Lemma str_le_trans s t u : str_le s t -> str_le t u -> str_le s u.
Proof.
  unfold str_le. revert t u; induction s as [|c s IH]; destruct t as [|d t], u as [|e u];
    simpl; try done.
  rewrite !orb_true_iff, !andb_true_iff, !N.ltb_lt, !N.eqb_eq.
  intros [?|[-> ?]] [?|[-> ?]]; [left; lia|left; lia|left; lia|right; eauto].
Qed.

Lemma str_le_antisym s t : str_le s t -> str_le t s -> s = t.
Proof.
  unfold str_le. revert t; induction s as [|c s IH]; destruct t as [|d t]; simpl; try done.
  rewrite !orb_true_iff, !andb_true_iff, !N.ltb_lt, !N.eqb_eq.
  intros [?|[-> ?]] [?|[? ?]]; [lia|lia|lia|f_equal; eauto].
Qed.

#[global] Instance str_le_preorder : PreOrder str_le.
Proof. split; [exact str_le_refl | exact str_le_trans]. Qed.
#[global] Instance str_le_tot : Total str_le.
Proof. intros s t. apply str_le_total. Qed.

Lemma drop_while_all p s : forallb p s = true -> drop_while p s = [].
Proof. induction s as [|c s IH]; simpl; [done|]. rewrite andb_true_iff. intros [-> ?]; auto. Qed.

Lemma drop_while_head p s c s' : drop_while p s = c :: s' -> p c = false.
Proof.
  induction s as [|d s IH]; simpl; [done|].
  destruct (p d) eqn:E; [done|]. intros [= -> ->]. done.
Qed.

Lemma drop_while_id p s :
  match s with [] => True | c :: _ => p c = false end -> drop_while p s = s.
Proof. destruct s as [|c s]; simpl; [done|]. by intros ->. Qed.

Lemma drop_while_suffix p s : exists pre, s = pre ++ drop_while p s /\ forallb p pre = true.
Proof.
  induction s as [|c s (pre & IH1 & IH2)]; simpl; [by exists []|].
  destruct (p c) eqn:E.
  - exists (c :: pre). split; simpl; [by f_equal|by rewrite E, IH2].
  - by exists [].
Qed.

Lemma trim_end_prefix p s : exists post, s = trim_end_matches p s ++ post /\ forallb p post = true.
Proof.
  unfold trim_end_matches. destruct (drop_while_suffix p (rev s)) as (pre & H1 & H2).
  exists (rev pre). split.
  - rewrite <- rev_app_distr, <- H1. by rewrite rev_involutive.
  - rewrite forallb_forall in *. intros x Hx. apply H2. by apply in_rev.
Qed.

Lemma trim_end_ends p s :
  match rev (trim_end_matches p s) with [] => True | c :: _ => p c = false end.
Proof.
  unfold trim_end_matches. rewrite rev_involutive.
  destruct (drop_while p (rev s)) eqn:E; [done|]. by eapply drop_while_head.
Qed.

Lemma trim_end_id p s :
  match rev s with [] => True | c :: _ => p c = false end -> trim_end_matches p s = s.
Proof.
  intros H. unfold trim_end_matches. rewrite drop_while_id by done. apply rev_involutive.
Qed.

Lemma Forall_trim_end (P : N -> Prop) p s : Forall P s -> Forall P (trim_end_matches p s).
Proof.
  intros H. destruct (trim_end_prefix p s) as (post & Heq & _). rewrite Heq in H.
  by apply Forall_app in H as [? _].
Qed.

Lemma Forall_drop_while (P : N -> Prop) p s : Forall P s -> Forall P (drop_while p s).
Proof.
  intros H. destruct (drop_while_suffix p s) as (pre & Heq & _). rewrite Heq in H.
  by apply Forall_app in H as [_ ?].
Qed.

Lemma length_trim_end p s : (length (trim_end_matches p s) <= length s)%nat.
Proof.
  destruct (trim_end_prefix p s) as (post & Heq & _).
  rewrite Heq at 2. rewrite length_app. lia.
Qed.

Lemma utf8_len_bounds c : (1 <= utf8_len c <= 4)%nat.
Proof. unfold utf8_len. repeat case_match; lia. Qed.

Lemma str_len_app s t : str_len (s ++ t) = (str_len s + str_len t)%nat.
Proof. induction s; simpl; lia. Qed.

Lemma str_len_ascii s : Forall (fun c => is_ascii c = true) s -> str_len s = length s.
Proof.
  induction 1 as [|c s Hc _ IH]; simpl; [done|].
  unfold is_ascii in Hc. unfold utf8_len. rewrite Hc, IH. done.
Qed.

Lemma length_le_str_len s : (length s <= str_len s)%nat.
Proof. induction s as [|c s IH]; simpl; [lia|]. pose proof (utf8_len_bounds c). lia. Qed.

Lemma str_len_zero s : str_len s = 0%nat -> s = [].
Proof. intros H. destruct s as [|c s]; [done|]. pose proof (length_le_str_len (c :: s)). simpl in *; lia. Qed.

Lemma is_empty_spec s : is_empty s = true <-> s = [].
Proof. destruct s; simpl; naive_solver. Qed.

Lemma strip_prefix_spec p s t : strip_prefix p s = Some t <-> s = p ++ t.
Proof.
  revert s; induction p as [|c p IH]; intros s; simpl; [naive_solver|].
  destruct s as [|d s]; [naive_solver|].
  destruct (N.eqb_spec c d) as [->|Hne]; [rewrite IH; naive_solver|].
  split; [done|]. intros [= -> _]. done.
Qed.

Lemma strip_suffix_spec p s t : strip_suffix p s = Some t <-> s = t ++ p.
Proof.
  unfold strip_suffix. rewrite fmap_Some. setoid_rewrite strip_prefix_spec. split.
  - intros (x & H & ->). rewrite <- (rev_involutive s), H, rev_app_distr. by rewrite rev_involutive.
  - intros ->. exists (rev t). rewrite rev_app_distr, rev_involutive. done.
Qed.

Lemma split_once_spec c s a b :
  split_once c s = Some (a, b) <-> s = a ++ c :: b /\ Forall (fun x => x <> c) a.
Proof.
  revert a b; induction s as [|d s IH]; intros a b; simpl.
  - split; [done|]. intros [H _]. by destruct a.
  - destruct (N.eqb_spec d c) as [->|Hne].
    + split; [intros [= <- <-]; done|]. intros [H Hall]. destruct a as [|x a].
      * by injection H as ->.
      * injection H as -> ->. by apply Forall_cons in Hall as [? _].
    + destruct (split_once c s) as [[a' b']|] eqn:E.
      * destruct (IH a' b') as [IH1 _]. destruct (IH1 eq_refl) as [-> Hall]. split.
        -- intros [= <- <-]. auto.
        -- intros [H Hall']. destruct a as [|x a]; injection H as -> H; [done|].
           apply Forall_cons in Hall' as [_ Hall'].
           assert (Some (a', b') = Some (a, b)) as [= -> ->] by (by apply IH). done.
      * split; [done|]. intros [H Hall]. destruct a as [|x a]; injection H as -> H; [done|].
        apply Forall_cons in Hall as [_ Hall].
        assert (@None (rstr * rstr) = Some (a, b)) by (apply IH; auto). done.
Qed.

Lemma split_once_None c s : split_once c s = None <-> Forall (fun x => x <> c) s.
Proof.
  induction s as [|d s IH]; simpl; [done|].
  destruct (N.eqb_spec d c) as [->|Hne].
  - split; [done|]. intros H. by apply Forall_cons in H as [? _].
  - destruct (split_once c s) as [[a b]|] eqn:E.
    + split; [done|]. intros H. apply Forall_cons in H as [_ H]. by apply IH in H.
    + split; [|done]. intros _. constructor; [done|]. by apply IH.
Qed.

(** The part after the last [c] is determined by the whole. *)
Lemma split_last_unique (c : N) (a b s t : rstr) :
  Forall (fun x => x <> c) s -> Forall (fun x => x <> c) t ->
  a ++ c :: s = b ++ c :: t -> s = t.
Proof.
  intros Hs Ht Heq. apply (f_equal (@rev N)) in Heq.
  rewrite !rev_app_distr in Heq. simpl in Heq. rewrite <- !app_assoc in Heq. simpl in Heq.
  assert (split_once c (rev s ++ c :: rev a) = Some (rev s, rev a)) as E1.
  { apply split_once_spec. split; [done|]. by apply Forall_rev. }
  rewrite Heq in E1. apply split_once_spec in E1 as [E1 Hr].
  assert (split_once c (rev t ++ c :: rev b) = Some (rev t, rev b)) as E2.
  { apply split_once_spec. split; [done|]. by apply Forall_rev. }
  assert (split_once c (rev t ++ c :: rev b) = Some (rev s, rev a)) as E3.
  { apply split_once_spec. done. }
  rewrite E2 in E3. injection E3 as E3 _. apply (f_equal (@rev N)) in E3.
  by rewrite !rev_involutive in E3.
Qed.

Lemma contains_char_spec c s : contains_char c s = true <-> c ∈ s.
Proof.
  unfold contains_char. rewrite existsb_exists. setoid_rewrite <- list_elem_of_In.
  split.
  - intros (x & Hin & Heq). apply N.eqb_eq in Heq as ->. done.
  - intros. exists c. by rewrite N.eqb_refl.
Qed.

(** ** Automation shared by the components *)

Create HintDb quix discriminated.
#[export] Hint Constants Transparent : quix.
#[export] Hint Resolve str_eqb_refl str_le_refl : quix.
#[export] Hint Rewrite str_eqb_eq str_eqb_neq is_empty_spec andb_true_iff orb_true_iff
  negb_true_iff Z.leb_le Z.ltb_lt Z.eqb_eq N.eqb_eq Nat.leb_le Nat.ltb_lt : quix_bool.

(** Turn the boolean tests of the source into propositions, everywhere. *)
Ltac reflect_bools := autorewrite with quix_bool in *.

(** Decide a closed proposition by evaluating its decision procedure. *)
Ltac vm_decide :=
  match goal with |- ?P => refine (bool_decide_eq_true_1 P _); vm_compute; reflexivity end.

(** Case on the guard a handler is looking at. *)
Ltac cases := repeat case_match; simplify_eq/=.

(** ** Decimal numbers *)

Lemma lit_append s t : lit (s +:+ t) = lit s ++ lit t.
Proof.
  unfold lit. rewrite <- fmap_app. f_equal.
  induction s as [|a s IH]; simpl; [done|by f_equal].
Qed.

Lemma lit_inj s t : lit s = lit t -> s = t.
Proof.
  revert t; induction s as [|a s IH]; destruct t as [|b t]; simpl; try done.
  unfold lit; simpl. intros [= Ha Hs]. f_equal; [|by apply IH].
  rewrite <- (Ascii.ascii_N_embedding a), <- (Ascii.ascii_N_embedding b). by f_equal.
Qed.

Lemma is_digit_pretty_char (x : N) : is_digit (Ascii.N_of_ascii (pretty_N_char x)) = true.
Proof. unfold pretty_N_char. repeat case_match; done. Qed.

Lemma pretty_N_go_digits (k : nat) (x : N) s :
  (x < 10 ^ N.of_nat k)%N ->
  exists d, lit (pretty_N_go x s) = d ++ lit s
    /\ Forall (fun c => is_digit c = true) d /\ (length d <= k)%nat.
Proof.
  revert x s; induction k as [|k IH]; intros x s Hx.
  { assert (x = 0%N) as -> by (simpl in Hx; lia). rewrite pretty_N_go_0. by exists []. }
  destruct (decide (x = 0%N)) as [->|Hne]; [rewrite pretty_N_go_0; exists []; simpl; auto with lia|].
  rewrite pretty_N_go_step by lia.
  destruct (IH (x `div` 10)%N (String.String (pretty_N_char (x `mod` 10)) s)) as (d & -> & Hd & Hl).
  { rewrite Nat2N.inj_succ, N.pow_succ_r' in Hx. apply N.Div0.div_lt_upper_bound. lia. }
  exists (d ++ [Ascii.N_of_ascii (pretty_N_char (x `mod` 10))]). split; [|split].
  - rewrite <- app_assoc. done.
  - apply Forall_app. split; [done|]. constructor; [|done]. apply is_digit_pretty_char.
  - rewrite length_app. simpl. lia.
Qed.

Lemma show_nat_digits n : Forall (fun c => is_digit c = true) (show_nat n).
Proof.
  unfold show_nat, pretty, pretty_nat, pretty, pretty_N. case_decide; [by repeat constructor|].
  destruct (pretty_N_go_digits (S n) (N.of_nat n) "") as (d & -> & Hd & _).
  - apply (N.le_lt_trans _ (N.of_nat (S n))); [lia|]. apply N.pow_gt_lin_r. lia.
  - by rewrite app_nil_r.
Qed.

Lemma show_nat_nonempty n : show_nat n <> [].
Proof.
  intros H. change [] with (lit "") in H. unfold show_nat in H. apply lit_inj in H.
  unfold pretty, pretty_nat, pretty, pretty_N in H. case_decide as E; [done|].
  rewrite pretty_N_go_step in H by lia.
  destruct (pretty_N_go_digits (S n) (N.of_nat n `div` 10)%N
    (String.String (pretty_N_char (N.of_nat n `mod` 10)) "")) as (d & Hd & _).
  - apply (N.le_lt_trans _ (N.of_nat (S n))); [|apply N.pow_gt_lin_r; lia].
    transitivity (N.of_nat n); [apply N.Div0.div_le_upper_bound; lia|lia].
  - rewrite H in Hd. by destruct d.
Qed.

Lemma length_show_nat (k n : nat) :
  (0 < k)%nat -> (N.of_nat n < 10 ^ N.of_nat k)%N -> (length (show_nat n) <= k)%nat.
Proof.
  intros Hk Hn. unfold show_nat, pretty, pretty_nat, pretty, pretty_N.
  case_decide; [simpl; lia|].
  destruct (pretty_N_go_digits k (N.of_nat n) "" Hn) as (d & -> & _ & Hl).
  by rewrite app_nil_r.
Qed.

#[global] Instance show_nat_inj : Inj (=) (=) show_nat.
Proof. intros i j H. unfold show_nat in H. apply lit_inj in H. by apply (inj pretty) in H. Qed.

(** Reading back a number as it is shown. *)
Lemma pretty_char_value (d : N) : (d < 10)%N -> Z.of_N (Ascii.N_of_ascii (pretty_N_char d)) - 48 = Z.of_N d.
Proof.
  intros Hd. assert (d = 0 \/ d = 1 \/ d = 2 \/ d = 3 \/ d = 4 \/ d = 5 \/ d = 6 \/ d = 7 \/ d = 8 \/ d = 9)%N by lia.
  naive_solver.
Qed.

Lemma digits_pretty_go (x : N) s : digits 0 (lit (pretty_N_go x s)) = digits (Z.of_N x) (lit s).
Proof.
  revert s. induction (N.lt_wf_0 x) as [x _ IH]; intros s. destruct (decide (x = 0%N)) as [->|Hne].
  - by rewrite pretty_N_go_0.
  - rewrite pretty_N_go_step, IH by (try apply N.div_lt; lia).
    change (lit (String.String ?c s)) with (Ascii.N_of_ascii c :: lit s). cbn [digits].
    rewrite is_digit_pretty_char, pretty_char_value by (apply N.mod_lt; lia). f_equal.
    rewrite N2Z.inj_div, N2Z.inj_mod. pose proof (Z.div_mod (Z.of_N x) (Z.of_N 10)). lia.
Qed.

Lemma parse_show_nat max n : Z.of_nat n <= max -> parse_uint max (show_nat n) = Some (Z.of_nat n).
Proof.
  intros Hn. assert (Hd : digits 0 (show_nat n) = Some (Z.of_nat n)).
  { unfold show_nat, pretty, pretty_nat, pretty, pretty_N. case_decide; [by destruct n|].
    rewrite digits_pretty_go. cbn. f_equal. lia. }
  unfold parse_uint. pose proof (show_nat_digits n) as Hall. pose proof (show_nat_nonempty n) as Hne.
  assert (Hbody : match show_nat n with 43%N :: s' => s' | _ => show_nat n end = show_nat n).
  { destruct Hall as [|c l Hc _]; [done|]. unfold is_digit in Hc.
    repeat (case_match; try done). }
  rewrite Hbody, Hd. destruct (show_nat n); [done|]. by destruct (Z.leb_spec (Z.of_nat n) max); [|lia].
Qed.
