(* ===== verification/External.v ===== *)
(** * Code outside the repository, as interfaces

    The daemon and the CLI lean on third-party crates: iroh's identities, the
    [sha2], [blake3], [hex] and [bs58] crates.  Each is a type class of operations
    with the laws of its documentation; every component is parameterised by
    the ones it calls.  Module [Concrete] gives small computable instances, so
    that the witnesses of the other files can be evaluated. *)

From S2P Require Import Prelude.

(** ** Bytes *)

Definition is_byte (b : Z) : Prop := 0 <= b < 256.
Definition bytes_ok (l : list Z) : Prop := Forall is_byte l.

#[export] Hint Unfold is_byte : quix.

Lemma bytes_ok_check l : forallb (fun b => (0 <=? b) && (b <? 256)) l = true -> bytes_ok l.
Proof.
  rewrite forallb_forall. intros Hl. apply Forall_forall. intros b Hb.
  apply list_elem_of_In, Hl in Hb. unfold is_byte. lia.
Qed.

Lemma bytes_ok_app l k : bytes_ok (l ++ k) <-> bytes_ok l /\ bytes_ok k.
Proof. unfold bytes_ok. by rewrite Forall_app. Qed.

Lemma bytes_ok_take n l : bytes_ok l -> bytes_ok (take n l).
Proof. apply Forall_take. Qed.

Lemma bytes_ok_drop n l : bytes_ok l -> bytes_ok (drop n l).
Proof. apply Forall_drop. Qed.

(** ** [iroh::EndpointId]

    A 32-byte public key with a total order; [Display] and [FromStr] are inverse
    one way round (several strings may parse to one key). *)

Class EndpointIds := {
  EndpointId : Type;
  eid_eq_dec :: EqDecision EndpointId;
  eid_countable :: Countable EndpointId;
  id_bytes : EndpointId -> list Z;
  id_from_bytes : list Z -> option EndpointId;
  show_id : EndpointId -> rstr;
  parse_id : rstr -> option EndpointId;
  id_ltb : EndpointId -> EndpointId -> bool;
  id_bytes_len : forall k, length (id_bytes k) = 32%nat;
  id_bytes_ok : forall k, bytes_ok (id_bytes k);
  id_from_to_bytes : forall k, id_from_bytes (id_bytes k) = Some k;
  parse_show_id : forall k, parse_id (show_id k) = Some k;
  id_ltb_irrefl : forall k, id_ltb k k = false;
  id_ltb_asym : forall j k, id_ltb j k = true -> id_ltb k j = false;
  id_ltb_trans : forall i j k, id_ltb i j = true -> id_ltb j k = true -> id_ltb i k = true;
  id_ltb_total : forall j k, j <> k -> id_ltb j k = true \/ id_ltb k j = true;
}.

#[export] Existing Instance eid_eq_dec.
#[export] Existing Instance eid_countable.

(** [Ord] of keys, as a decidable total preorder for sorting. *)
Definition id_le `{!EndpointIds} (j k : EndpointId) : Prop := id_ltb k j = false.
#[export] Instance id_le_dec `{!EndpointIds} j k : Decision (id_le j k).
Proof. unfold id_le. apply _. Defined.
#[export] Instance id_le_total `{!EndpointIds} : Total id_le.
Proof.
  intros j k. unfold id_le. destruct (id_ltb k j) eqn:E; [right|by left]. by apply id_ltb_asym.
Qed.
#[export] Instance id_le_trans `{!EndpointIds} : Transitive id_le.
Proof.
  unfold id_le. intros i j k Hij Hjk. destruct (id_ltb k i) eqn:E; [|done].
  destruct (decide (j = k)) as [->|Hne]; [congruence|].
  destruct (id_ltb_total j k Hne) as [Hjk'|Hkj]; [|congruence].
  pose proof (id_ltb_trans j k i Hjk' E). congruence.
Qed.
Lemma id_le_antisym `{!EndpointIds} j k : id_le j k -> id_le k j -> j = k.
Proof.
  unfold id_le. intros Hjk Hkj. destruct (decide (j = k)) as [|Hne]; [done|].
  destruct (id_ltb_total j k Hne); congruence.
Qed.

Lemma show_id_inj `{!EndpointIds} j k : show_id j = show_id k -> j = k.
Proof. intros Heq. apply (f_equal parse_id) in Heq. rewrite !parse_show_id in Heq. by injection Heq. Qed.

Lemma id_bytes_inj `{!EndpointIds} j k : id_bytes j = id_bytes k -> j = k.
Proof. intros Heq. apply (f_equal id_from_bytes) in Heq. rewrite !id_from_to_bytes in Heq. by injection Heq. Qed.

(** ** [sha2::Sha256::digest] *)

Class Sha256 := {
  sha256 : list Z -> list Z;
  sha256_len : forall l, length (sha256 l) = 32%nat;
  sha256_ok : forall l, bytes_ok (sha256 l);
}.

(** ** [blake3]: a [Hasher] fed in pieces finalizes to the hash of the whole. *)

Class Blake3 := {
  blake3 : list Z -> list Z;
  blake3_len : forall l, length (blake3 l) = 32%nat;
  blake3_ok : forall l, bytes_ok (blake3 l);
}.

(** ** [hex::encode] and [hex::decode] *)

Class HexCrate := {
  hex_encode : list Z -> rstr;
  hex_decode : rstr -> option (list Z);
  hex_decode_encode : forall l, bytes_ok l -> hex_decode (hex_encode l) = Some l;
}.

Lemma hex_encode_inj `{!HexCrate} j k :
  bytes_ok j -> bytes_ok k -> hex_encode j = hex_encode k -> j = k.
Proof.
  intros Hj Hk Heq. apply (f_equal hex_decode) in Heq.
  rewrite !hex_decode_encode in Heq by done. by injection Heq.
Qed.

(** ** [bs58::encode(..).into_string] and [bs58::decode(..).into_vec] *)

Class Bs58 := {
  bs58_encode : list Z -> rstr;
  bs58_decode : rstr -> option (list Z);
  bs58_decode_encode : forall l, bytes_ok l -> bs58_decode (bs58_encode l) = Some l;
}.

(** ** Computable instances *)

Module Concrete.

(** Five identities, written the way the repository's tests write theirs: one
    digit repeated. *)
Inductive key := K1 | K2 | K3 | K4 | K5.

#[export] Instance key_eq_dec : EqDecision key.
Proof. solve_decision. Defined.

Definition key_num (k : key) : nat :=
  match k with K1 => 1 | K2 => 2 | K3 => 3 | K4 => 4 | K5 => 5 end.
Definition key_of (n : nat) : option key :=
  match n with 1 => Some K1 | 2 => Some K2 | 3 => Some K3 | 4 => Some K4 | 5 => Some K5
  | _ => None end%nat.

#[export] Instance key_countable : Countable key.
Proof. apply (inj_countable key_num key_of). by intros []. Defined.

Definition hex_digit (n : Z) : char := Z.to_N (if n <? 10 then 48 + n else 87 + n).
Definition hex_value (c : char) : option Z :=
  if is_digit c then Some (Z.of_N c - 48)
  else if ((97 <=? c) && (c <=? 102))%N then Some (Z.of_N c - 87)
  else None.

Fixpoint hex_enc (l : list Z) : rstr :=
  match l with [] => [] | b :: l' => hex_digit (b / 16) :: hex_digit (b mod 16) :: hex_enc l' end.
Fixpoint hex_dec (s : rstr) : option (list Z) :=
  match s with
  | [] => Some []
  | c :: d :: s' =>
      x ← hex_value c; y ← hex_value d; l ← hex_dec s'; Some (16 * x + y :: l)
  | _ => None
  end.

Lemma hex_value_digit n : 0 <= n < 16 -> hex_value (hex_digit n) = Some n.
Proof.
  intros Hn. unfold hex_digit, hex_value, is_digit.
  destruct (Z.ltb_spec n 10).
  - replace ((48 <=? Z.to_N (48 + n)) && (Z.to_N (48 + n) <=? 57))%N with true by lia.
    f_equal; lia.
  - replace ((48 <=? Z.to_N (87 + n)) && (Z.to_N (87 + n) <=? 57))%N with false by lia.
    replace ((97 <=? Z.to_N (87 + n)) && (Z.to_N (87 + n) <=? 102))%N with true by lia.
    f_equal; lia.
Qed.

Lemma hex_dec_enc l : bytes_ok l -> hex_dec (hex_enc l) = Some l.
Proof.
  induction 1 as [|b l Hb _ IH]; [done|]. red in Hb. cbn [hex_enc hex_dec].
  rewrite !hex_value_digit by (Z.to_euclidean_division_equations; lia).
  simpl. rewrite IH. simpl. do 2 f_equal. Z.to_euclidean_division_equations; lia.
Qed.

#[export] Instance hex_crate : HexCrate :=
  {| hex_encode := hex_enc; hex_decode := hex_dec; hex_decode_encode := hex_dec_enc |}.
#[export] Instance bs58_crate : Bs58 :=
  {| bs58_encode := hex_enc; bs58_decode := hex_dec; bs58_decode_encode := hex_dec_enc |}.

(** Fold the input into one byte, then spread it over 32. *)
Definition mix (l : list Z) : Z := foldl (fun a b => (a * 31 + b) mod 251) 7 l.
Definition digest (l : list Z) : list Z := (fun i => (mix l + Z.of_nat i) mod 256) <$> seq 0 32.

Lemma digest_len l : length (digest l) = 32%nat.
Proof. done. Qed.

Lemma digest_ok l : bytes_ok (digest l).
Proof.
  unfold digest, bytes_ok. apply Forall_fmap, Forall_forall. intros i _.
  red. simpl. apply Z.mod_pos_bound. lia.
Qed.

#[export] Instance sha256_crate : Sha256 :=
  {| sha256 := digest; sha256_len := digest_len; sha256_ok := digest_ok |}.
#[export] Instance blake3_crate : Blake3 :=
  {| blake3 := digest; blake3_len := digest_len; blake3_ok := digest_ok |}.

Definition key_bytes (k : key) : list Z := replicate 32 (17 * Z.of_nat (key_num k)).
Definition key_from_bytes (l : list Z) : option key :=
  match l with
  | b :: _ => k ← key_of (Z.to_nat (b / 17)); if decide (l = key_bytes k) then Some k else None
  | [] => None
  end.
Definition key_show (k : key) : rstr := hex_enc (key_bytes k).
Definition key_parse (s : rstr) : option key := l ← hex_dec s; key_from_bytes l.
Definition key_ltb (j k : key) : bool := (key_num j <? key_num k)%nat.

#[export, refine] Instance endpoint_ids : EndpointIds :=
  {| EndpointId := key; id_bytes := key_bytes; id_from_bytes := key_from_bytes;
     show_id := key_show; parse_id := key_parse; id_ltb := key_ltb |}.
Proof.
  - by intros [].
  - intros []; apply Forall_replicate; by compute.
  - by intros [].
  - by intros [].
  - by intros [].
  - by intros [] [].
  - by intros [] [] [].
  - intros [] []; auto; naive_solver.
Defined.

End Concrete.
