(* ===== verification/Task.v ===== *)
(** * Tasks that take turns

    A task is a program over a state it shares with others: every step is one
    critical section, and whatever was read in it is the task's own from then on.
    Any number of tasks on any schedule; what holds of every step, of every
    task that came to something, and of two tasks that want the same thing. *)

From S2P Require Import Prelude.

Local Abbreviation list := Datatypes.list.

Section Task.
Context {S : Type}.

Inductive task (A : Type) : Type :=
  | Finished (a : A)
  | Act {B : Type} (f : S -> S * B) (k : B -> task A).
Arguments Finished {A} a.
Arguments Act {A B} f k.

Fixpoint then_ {A B} (t : task A) (k : A -> task B) : task B :=
  match t with
  | Finished a => k a
  | Act f next => Act f (fun b => then_ (next b) k)
  end.

#[global] Instance task_bind : MBind task := fun A B k t => then_ t k.

(** One critical section, and one that only looks. *)
Definition atomically {A} (f : S -> S * A) : task A := Act f Finished.
Definition reads {A} (f : S -> A) : task A := atomically (fun s => (s, f s)).

(** A task that nothing comes in between of. *)
Fixpoint alone {A} (t : task A) (s : S) : S * A :=
  match t with
  | Finished a => (s, a)
  | Act f k => let '(s, b) := f s in alone (k b) s
  end.

Lemma alone_bind {A B} (t : task A) (k : A -> task B) s : alone (t ≫= k) s = (let '(s, a) := alone t s in alone (k a) s).
Proof.
  revert s. induction t as [a|C f next IH]; intros s; [done|]. cbn. destruct (f s) as [s' b]. apply IH.
Qed.

(** ** Taking turns *)

Definition pool (A : Type) : Type := S * list (task A).

(** Task [i] does its next step, if there is one. *)
Definition turn {A} (p : pool A) (i : nat) : pool A :=
  let '(s, ts) := p in
  match ts !! i with
  | Some (Act f k) => let '(s, b) := f s in (s, <[i := k b]> ts)
  | _ => p
  end.

Definition turns {A} (p : pool A) (l : list nat) : pool A := foldl turn p l.

(** What task [i] came to, once it has. *)
Definition came_to {A} (p : pool A) (i : nat) : option A :=
  match snd p !! i with Some (Finished a) => Some a | _ => None end.

Lemma turns_app {A} (p : pool A) l l' : turns p (l ++ l') = turns (turns p l) l'.
Proof. apply foldl_app. Qed.

(** A task whose turns all come first, and in one go, runs alone. *)
Lemma turns_alone {A} (ts : list (task A)) s i t : ts !! i = Some t ->
  exists k, turns (s, ts) (replicate k i) = (fst (alone t s), <[i := Finished (snd (alone t s))]> ts).
Proof.
  revert s ts. induction t as [a|B f next IH]; intros s ts Hi.
  - exists 0%nat. cbn. by rewrite list_insert_id.
  - destruct (f s) as [s' b] eqn:Ef. destruct (IH b s' (<[i := next b]> ts)) as [k Hk].
    { apply list_lookup_insert_eq. by eapply lookup_lt_Some. }
    exists (Datatypes.S k). cbn [replicate turns foldl]. unfold turn at 2. rewrite Hi, Ef.
    change (foldl turn (s', <[i := next b]> ts) (replicate k i)) with (turns (s', <[i := next b]> ts) (replicate k i)).
    rewrite Hk. cbn [alone]. rewrite Ef. by rewrite list_insert_insert_eq.
Qed.

(** ** What every step does *)

(** Every step of a task, from any state where [I] holds, is in [R]. *)
Fixpoint always (I : S -> Prop) (R : S -> S -> Prop) {A} (t : task A) : Prop :=
  match t with
  | Finished _ => True
  | Act f k => forall s, I s -> R s (fst (f s)) /\ always I R (k (snd (f s)))
  end.

Lemma always_bind I R {A B} (t : task A) (k : A -> task B) :
  always I R t -> (forall a, always I R (k a)) -> always I R (t ≫= k).
Proof.
  intros Ht Hk. induction t as [a|C f next IH]; [apply Hk|]. intros s Hs. destruct (Ht s Hs) as [Hf Hn]. split; [exact Hf|].
  by apply IH.
Qed.

(** What was looked at is so of a state the rule allows. *)
Lemma always_reads_bind I (R : S -> S -> Prop) {A B} (f : S -> A) (k : A -> task B) :
  (forall s, I s -> R s s) -> (forall s, I s -> always I R (k (f s))) -> always I R (reads f ≫= k).
Proof. intros HR Hk s Hs. split; [by apply HR|by apply Hk]. Qed.

Lemma turn_always I R {A} (p : pool A) i : Forall (always I R) (snd p) -> I (fst p) ->
  Forall (always I R) (snd (turn p i)) /\ (fst (turn p i) = fst p \/ R (fst p) (fst (turn p i))).
Proof.
  destruct p as [s ts]. cbn [fst snd]. intros Hts Hs. unfold turn. destruct (ts !! i) as [[a|B f k]|] eqn:Ei; [by auto| |by auto].
  assert (Ht : always I R (Act f k)) by (rewrite Forall_lookup in Hts; by eapply Hts).
  destruct (Ht s Hs) as [Hf Hk]. destruct (f s) as [s' b]. cbn [fst snd] in *. split; [by apply Forall_insert|by right].
Qed.

(** The rule of interleaving: what every step keeps, every schedule keeps; and what
    every step does once, a schedule does any number of times. *)
Lemma turns_always (I : S -> Prop) R {A} (p : pool A) l :
  (forall s s', I s -> R s s' -> I s') -> Forall (always I R) (snd p) -> I (fst p) ->
  Forall (always I R) (snd (turns p l)) /\ I (fst (turns p l)) /\ rtc R (fst p) (fst (turns p l)).
Proof.
  intros HI. revert p. induction l as [|i l IH]; intros p Hts Hs; [done|]. cbn [turns foldl].
  destruct (turn_always I R p i Hts Hs) as [Hts' Hor].
  assert (Hs' : I (fst (turn p i))) by (destruct Hor as [-> |Hr]; [done|by eapply HI]).
  destruct (IH (turn p i) Hts' Hs') as (Ha & Hb & Hc). split; [done|]. split; [done|].
  destruct Hor as [He|Hr]; [by rewrite <- He|]. by eapply rtc_l.
Qed.

(** ** Two tasks after one thing *)

Section Contest.
Context {A : Type} (I gone : S -> Prop) (won : A -> Prop).

(** Once the thing is gone, this task does not win. *)
Fixpoint loses (t : task A) : Prop :=
  match t with
  | Finished a => ~ won a
  | Act f k => forall s, I s -> gone s -> loses (k (snd (f s)))
  end.

(** It has not won yet, and can only by taking the thing away. *)
Fixpoint contends (t : task A) : Prop :=
  match t with
  | Finished a => ~ won a
  | Act f k => loses (Act f k) /\ forall s, I s -> contends (k (snd (f s))) \/ gone (fst (f s))
  end.

(** What is gone stays so. *)
Definition never_back (s s' : S) : Prop := I s' /\ (gone s -> gone s').

Lemma contends_loses t : contends t -> loses t.
Proof. destruct t as [a|B f k]; [done|]. by intros [? _]. Qed.

Lemma loses_bind {B} (t : task B) (k : B -> task A) : (forall b, loses (k b)) -> loses (t ≫= k).
Proof. intros Hk. induction t as [b|C f next IH]; [apply Hk|]. cbn. intros s _ _. apply IH. Qed.

Lemma contends_bind {B} (t : task B) (k : B -> task A) : (forall b, contends (k b)) -> contends (t ≫= k).
Proof.
  intros Hk. induction t as [b|C f next IH]; [apply Hk|]. split; [|intros s _; left; apply IH].
  intros s _ _. apply contends_loses, IH.
Qed.

(** The section that takes it, if it is there. *)
Lemma contends_take {B} (f : S -> S * B) (k : B -> task A) :
  (forall s, I s -> gone s -> loses (k (snd (f s)))) -> (forall s, I s -> gone (fst (f s))) -> contends (atomically f ≫= k).
Proof. intros Hl Hg. split; [exact Hl|]. intros s Hs. right. by apply Hg. Qed.

Lemma turn_other (p : pool A) i x : i <> x -> snd (turn p x) !! i = snd p !! i.
Proof.
  destruct p as [s ts]. intros Hne. unfold turn. destruct (ts !! x) as [[a|B f k]|]; [done| |done]. destruct (f s) as [s' b].
  cbn. by rewrite list_lookup_insert_ne.
Qed.

Lemma turn_same (p : pool A) i a : snd p !! i = Some (Finished a) -> turn p i = p.
Proof. destruct p as [s ts]. cbn. unfold turn. by intros ->. Qed.

Lemma turn_act (p : pool A) i {B} (f : S -> S * B) k : snd p !! i = Some (Act f k) ->
  fst (turn p i) = fst (f (fst p)) /\ snd (turn p i) !! i = Some (k (snd (f (fst p)))).
Proof.
  destruct p as [s ts]. cbn [fst snd]. intros Hi. unfold turn. rewrite Hi. destruct (f s) as [s' b]. split; [done|].
  apply list_lookup_insert_eq. by eapply lookup_lt_Some.
Qed.

Definition contest (p : pool A) (i j : nat) : Prop :=
  I (fst p) /\ Forall (always I never_back) (snd p) /\ exists ti tj, snd p !! i = Some ti /\ snd p !! j = Some tj
  /\ (contends ti /\ contends tj \/ gone (fst p) /\ (loses ti \/ loses tj)).

Lemma contest_sym (p : pool A) i j : contest p i j -> contest p j i.
Proof. intros (HI & Hk & ti & tj & Hi & Hj & Hor). split; [done|]. split; [done|]. exists tj, ti. naive_solver. Qed.

Lemma contest_kept (p : pool A) x : I (fst p) -> Forall (always I never_back) (snd p) ->
  I (fst (turn p x)) /\ Forall (always I never_back) (snd (turn p x)) /\ (gone (fst p) -> gone (fst (turn p x))).
Proof. intros HI Hk. destruct (turn_always I never_back p x Hk HI) as [Hf [He|[Hi Hg]]]; [by rewrite He|done]. Qed.

(** A turn of the first of the two, and one of anybody else. *)
Lemma contest_turn_first (p : pool A) i j : i <> j -> contest p i j -> contest (turn p i) i j.
Proof.
  intros Hne (HI & Hk & ti & tj & Hi & Hj & Hor). destruct (contest_kept p i HI Hk) as (HI' & Hk' & Hg').
  split; [done|]. split; [done|]. destruct ti as [a|B f k].
  { rewrite (turn_same p i a Hi). by exists (Finished a), tj. }
  destruct (turn_act p i f k Hi) as [Hs Ht]. exists (k (snd (f (fst p)))), tj. rewrite (turn_other p j i) by congruence.
  split; [done|]. split; [done|].
  destruct Hor as [[[_ Ha] Hb]|[Hg [Ha|Hb]]]; [|right; split; [by apply Hg'|left; by apply Ha]|right; split; [by apply Hg'|by right]].
  destruct (Ha (fst p) HI) as [Hc|Hg]; [by left|]. right. rewrite Hs. split; [done|]. right. by apply contends_loses.
Qed.

Lemma contest_turn_other (p : pool A) i j x : i <> x -> j <> x -> contest p i j -> contest (turn p x) i j.
Proof.
  intros Hi Hj (HI & Hk & ti & tj & Hti & Htj & Hor). destruct (contest_kept p x HI Hk) as (HI' & Hk' & Hg').
  split; [done|]. split; [done|]. exists ti, tj. rewrite !turn_other by done. split; [done|]. split; [done|].
  destruct Hor as [?|[Hg ?]]; [by left|]. right. by split; [apply Hg'|].
Qed.

(** Of two that want it, at most one gets it, whoever else is about. *)
Lemma at_most_one_wins (p : pool A) i j l : i <> j -> contest p i j ->
  ~ (exists a b, came_to (turns p l) i = Some a /\ came_to (turns p l) j = Some b /\ won a /\ won b).
Proof.
  intros Hne Hp. assert (Hc : contest (turns p l) i j).
  { revert p Hp. induction l as [|x l IH]; intros p Hp; [done|]. cbn [turns foldl]. apply IH.
    destruct (decide (x = i)) as [->|]; [by apply contest_turn_first|].
    destruct (decide (x = j)) as [->|]; [by apply contest_sym, contest_turn_first, contest_sym|]. by apply contest_turn_other. }
  destruct Hc as (_ & _ & ti & tj & Hi & Hj & Hor). unfold came_to. rewrite Hi, Hj. intros (a & b & Ha & Hb & Hwa & Hwb).
  destruct ti as [a'|]; [|done]. destruct tj as [b'|]; [|done]. injection Ha as ->. injection Hb as ->.
  destruct Hor as [[? _]|[_ [?|?]]]; done.
Qed.
End Contest.
End Task.

Arguments task S A : clear implicits.
Arguments pool S A : clear implicits.
Arguments Finished {S A} a.
Arguments Act {S A B} f k.
