(* ===== verification/Proto.v ===== *)
(** * What the CLI and the daemon say to each other ([proto/src/lib.rs])

    The data of the local protocol and its limits.  Text shown to a person is a
    [message]: either words produced elsewhere, or a [format!] call kept as its
    template and arguments, so that two different refusals stay different. *)

From S2P Require Import Prelude.

Inductive message :=
  | Text (s : rstr)
  | Fmt (template : String.string) (args : list message).
Arguments Fmt template%_string_scope args.

Definition num (n : Z) : message := Text (lit (pretty n)).

(** [anyhow]'s [context], as ["{e:#}"] shows it. *)
Definition context (c : message) (e : message) : message := Fmt "{}: {}" [c; e].

(** Constants of [lib.rs]. *)
Definition ZONE : rstr := lit "quix".
Definition DEFAULT_INVITE_TTL : Z := 5 * 60.
Definition MAX_INVITE_TTL : Z := 30 * 24 * 60 * 60.
Definition DEFAULT_FILE_TTL : Z := 10 * 60.
Definition MAX_FILE_TTL : Z := 24 * 60 * 60.
Definition MAX_PENDING_PER_PEER : nat := 20.

Inductive Request :=
  | Ping (peer : rstr)
  | Status
  | CreateNetwork (name : rstr) (hostname : option rstr)
  | Invite (ttl_secs : Z)
  | Join (code : rstr) (hostname : option rstr)
  | Leave
  | SetOperator (user : rstr)
  | SetHostname (hostname : rstr) (force : bool)
  | Kick (peer : rstr)
  | FileSend (name : rstr) (size : Z) (target : rstr) (ttl_secs : Z)
  | FileList
  | FileAccept (id : rstr)
  | FileReject (id : rstr).

(** The [#[serde(default = ..)]] functions: a request from a CLI that does not
    send the field is read with these. *)
Definition default_invite_ttl : Z := DEFAULT_INVITE_TTL.
Definition default_file_ttl : Z := DEFAULT_FILE_TTL.

Inductive FileEvent := Accepted | Rejected | Expired | Delivered.

#[export] Instance FileEvent_eq_dec : EqDecision FileEvent.
Proof. solve_decision. Defined.

Inductive OfferState :=
  | Offered | Transferring | Done | StRejected | StExpired | Cancelled | Failed.

#[export] Instance OfferState_eq_dec : EqDecision OfferState.
Proof. solve_decision. Defined.

Definition label (s : OfferState) : rstr :=
  match s with
  | Offered => lit "offered"
  | Transferring => lit "transferring"
  | Done => lit "done"
  | StRejected => lit "rejected"
  | StExpired => lit "expired"
  | Cancelled => lit "cancelled"
  | Failed => lit "failed"
  end.

Definition is_finished (s : OfferState) : bool :=
  match s with Offered | Transferring => false | _ => true end.

Record IncomingOffer := {
  in_id : rstr;
  in_from : rstr;
  in_name : rstr;
  in_size : Z;
  in_expires_in_secs : Z;
}.

Record OutgoingOffer := {
  out_id : rstr;
  out_to : rstr;
  out_name : rstr;
  out_size : Z;
  out_state : OfferState;
  out_expires_in_secs : option Z;
  out_detail : option rstr;
}.

Record PeerStatus := {
  ps_id : rstr;
  ps_name : rstr;
  ps_named : bool;
  ps_v6 : rstr;
  ps_v4 : rstr;
  ps_linked : bool;
  ps_datagram_max : option Z;
}.

Record Traffic := {
  tun_rx : Z; tun_tx : Z; mesh_tx : Z; mesh_rx : Z;
  no_route : Z; no_link : Z; oversize : Z; send_err : Z; tun_tx_err : Z;
}.

Inductive DnsRegistration :=
  | Registered
  | Retrying (fallback : rstr)
  | Unavailable (fallback : option rstr) (remedy : option rstr)
  | Unknown.

#[export] Instance DnsRegistration_eq_dec : EqDecision DnsRegistration.
Proof. solve_decision. Defined.

(** [#[default]]: what a status without the field is read as. *)
Definition dns_default : DnsRegistration := Unknown.

(** [RInvite] keeps the instant whose RFC 3339 form the daemon sends: rendering it
    is [chrono]'s. *)
Inductive Response :=
  | ROk (echo : rstr)
  | RStatus (endpoint_id name : rstr) (named : bool) (v6 v4 : rstr)
      (network : option rstr) (coordinator : bool) (peers : list PeerStatus)
      (zone : rstr) (traffic : Traffic) (conflicts : list message)
      (dns : DnsRegistration)
  | RPong (v6 v4 : rstr) (rtt_ms : option Z)
  | RInvite (code : rstr) (expires_at : Z)
  | RJoined (network_name hostname : option rstr) (zone : rstr)
  | RLeft (network_name : option rstr) (coordinator_notified : bool)
  | ROperatorSet (user : rstr) (uid : Z)
  | RHostnameSet (hostname requested : rstr)
  | RKicked (name id : rstr) (notified : bool)
  | RFileOffered (id to : rstr) (expires_in_secs : Z)
  | RFileIncoming (id from name : rstr) (size : Z)
  | RFiles (incoming : list IncomingOffer) (outgoing : list OutgoingOffer)
  | RFileRejected (id name from : rstr)
  | RUnauthorized (m : message)
  | RError (m : message).

(** [socket_name]: the environment and the platform are its inputs. *)
Definition socket_name (QUIX_SOCKET : option rstr) (windows : bool) : rstr :=
  match QUIX_SOCKET with
  | Some custom => custom
  | None => if windows then lit "quix-daemon" else lit "/run/quix/quixd.sock"
  end.

(** A finished state is the end of an offer: nothing live is finished. *)
Lemma is_finished_spec s : is_finished s = false <-> s = Offered \/ s = Transferring.
Proof. destruct s; simpl; naive_solver. Qed.
