(* ===== verification/Names.v ===== *)
(** * Hostnames, fallbacks and labels ([daemon/src/names.rs])

    The naming rules every other component goes through, and what they promise:
    a name the coordinator assigns is always a legal DNS label, is free whenever
    one of the ten thousand candidates is, and never imitates another peer's
    fallback. *)

From S2P Require Import Prelude Proto.

Definition MAX_LEN : nat := 63.
Definition FALLBACK_LEN : nat := 8.
Definition MAX_SUFFIX : nat := N.to_nat 9999.
Definition HYPHEN : char := 45%N.

Definition fallback (endpoint_id : rstr) : rstr := take FALLBACK_LEN endpoint_id.

Definition display (endpoint_id : rstr) (hostname : option rstr) : rstr :=
  match hostname with Some h => h | None => fallback endpoint_id end.

Definition looks_like_fallback (name : rstr) : bool :=
  (str_len name =? FALLBACK_LEN)%nat
  && forallb (fun c => is_hexdigit c && negb (is_upper c)) name.

Definition validate (requested claimant_id : rstr) : result message rstr :=
  let name := to_ascii_lowercase (trim requested) in
  if is_empty name then Err (Fmt "hostname cannot be empty" [])
  else if (MAX_LEN <? str_len name)%nat then
    Err (Fmt "hostname is {} characters; the DNS label limit is {MAX_LEN}"
      [num (Z.of_nat (str_len name))])
  else
    match List.find (fun c => negb (is_lower c) && negb (is_digit c) && negb (c =? HYPHEN)%N) name with
    | Some bad =>
        Err (Fmt "hostname may only contain letters, digits and hyphens; found {bad:?}" [Text [bad]])
    | None =>
        if starts_with_char HYPHEN name || ends_with_char HYPHEN name then
          Err (Fmt "hostname cannot start or end with a hyphen" [])
        else if looks_like_fallback name && negb (str_eqb name (fallback claimant_id)) then
          Err (Fmt "{name} is another peer's fallback identifier, which cannot be reassigned" [Text name])
        else Ok name
    end.

Definition network_label (network : rstr) : rstr :=
  let label := (fun c => if is_alnum c then c else HYPHEN) <$> to_ascii_lowercase (trim network) in
  let label := trim_matches (N.eqb HYPHEN) label in
  if is_empty label then lit "network" else take MAX_LEN label.

Definition validate_network (name : rstr) : result message rstr :=
  let trimmed := trim name in
  if is_empty trimmed then Err (Fmt "network name cannot be empty" [])
  else if (MAX_LEN <? str_len trimmed)%nat then
    Err (Fmt "network name is {} characters; it becomes a DNS label, so the limit is {MAX_LEN}"
      [num (Z.of_nat (str_len trimmed))])
  else
    let label := network_label trimmed in
    if negb (str_eqb label (to_ascii_lowercase trimmed)) then
      Err (Fmt "network name may only contain letters, digits and hyphens (it becomes {label}.quix)" [Text label])
    else Ok (to_ascii_lowercase trimmed).

Definition with_suffix (base suffix : rstr) : rstr :=
  let tag := HYPHEN :: suffix in
  let keep := (MAX_LEN - str_len tag)%nat in
  let trimmed := trim_end_matches (N.eqb HYPHEN) (take keep base) in
  if is_empty trimmed then suffix else trimmed ++ tag.

(** The loop over [1..=MAX_SUFFIX], [fuel] rounds left, then the last resort. *)
Fixpoint dedupe_from (taken : rstr -> bool) (requested claimant_id : rstr) (fuel suffix : nat) : rstr :=
  match fuel with
  | O => with_suffix requested (fallback claimant_id)
  | S fuel' =>
      let candidate := with_suffix requested (show_nat suffix) in
      if negb (taken candidate) then candidate
      else dedupe_from taken requested claimant_id fuel' (S suffix)
  end.

Definition dedupe (requested claimant_id : rstr) (taken : rstr -> bool) : rstr :=
  if negb (taken requested) then requested
  else dedupe_from taken requested claimant_id MAX_SUFFIX 1.

Lemma MAX_SUFFIX_val : N.of_nat MAX_SUFFIX = 9999%N.
Proof. unfold MAX_SUFFIX. lia. Qed.

(** Ten thousand rounds are never unfolded in a proof. *)
#[global] Opaque MAX_SUFFIX.

(** ** What a legal label is *)

Definition label_char (c : char) : bool := is_lower c || is_digit c || (c =? HYPHEN)%N.

Record legal_label (s : rstr) : Prop := {
  legal_nonempty : s <> [];
  legal_length : (length s <= MAX_LEN)%nat;
  legal_chars : Forall (fun c => label_char c = true) s;
  legal_start : starts_with_char HYPHEN s = false;
  legal_end : ends_with_char HYPHEN s = false;
}.

Lemma label_char_ascii c : label_char c = true -> is_ascii c = true.
Proof. unfold label_char, is_lower, is_digit, is_ascii, HYPHEN. lia. Qed.

Lemma label_chars_ascii s :
  Forall (fun c => label_char c = true) s -> Forall (fun c => is_ascii c = true) s.
Proof. intros H. eapply Forall_impl; [done|]. apply label_char_ascii. Qed.

Lemma label_char_lower c : label_char c = true -> ascii_lower c = c.
Proof. unfold label_char, ascii_lower, is_lower, is_digit, is_upper, HYPHEN. case_match; lia. Qed.

Lemma label_char_not_ws c : label_char c = true -> is_whitespace c = false.
Proof. unfold label_char, is_lower, is_digit, is_whitespace, HYPHEN. lia. Qed.

Lemma digit_label_char c : is_digit c = true -> label_char c = true.
Proof. unfold label_char. by intros ->; rewrite orb_true_r. Qed.

Lemma digits_not_hyphen s : Forall (fun c => is_digit c = true) s -> Forall (fun c => c <> HYPHEN) s.
Proof. intros H; eapply Forall_impl; [done|]. unfold is_digit, HYPHEN. simpl. lia. Qed.

Lemma map_lower_id s : Forall (fun c => label_char c = true) s -> to_ascii_lowercase s = s.
Proof.
  unfold to_ascii_lowercase. induction 1 as [|c s Hc _ IH]; [done|].
  by rewrite fmap_cons, label_char_lower, IH.
Qed.

Lemma trim_id s : Forall (fun c => is_whitespace c = false) s -> trim s = s.
Proof.
  intros H. unfold trim, trim_matches, trim_start_matches. rewrite drop_while_id.
  - apply trim_end_id. apply Forall_rev in H. destruct (rev s); [done|]. by apply Forall_cons in H as [? _].
  - destruct s; [done|]. by apply Forall_cons in H as [? _].
Qed.

Lemma find_None_Forall (p : N -> bool) s : List.find p s = None <-> Forall (fun c => p c = false) s.
Proof.
  induction s as [|c s IH]; simpl; [done|]. rewrite Forall_cons, <- IH.
  destruct (p c); naive_solver.
Qed.

Lemma validate_spec requested claimant name :
  validate requested claimant = Ok name <->
  name = to_ascii_lowercase (trim requested) /\ legal_label name
  /\ (looks_like_fallback name = true -> name = fallback claimant).
Proof.
  unfold validate. set (n := to_ascii_lowercase (trim requested)).
  assert (Hfind : List.find (fun c => negb (is_lower c) && negb (is_digit c) && negb (c =? HYPHEN)%N) n = None
    <-> Forall (fun c => label_char c = true) n).
  { rewrite find_None_Forall. unfold label_char.
    split; intros H; (eapply Forall_impl; [done|]); simpl; intros c; lia. }
  destruct (is_empty n) eqn:E1; [apply is_empty_spec in E1|].
  { split; [done|]. intros (-> & [? ? ? ? ?] & _). done. }
  destruct (Nat.ltb_spec MAX_LEN (str_len n)) as [E2|E2].
  { split; [done|]. intros (-> & [? ? ? ? ?] & _). rewrite str_len_ascii in E2; [lia|by apply label_chars_ascii]. }
  destruct (List.find _ n) as [bad|] eqn:E3.
  { split; [done|]. intros (-> & [? ? Hc ? ?] & _). by apply Hfind in Hc. }
  assert (E7 : Forall (fun c => label_char c = true) n) by (by apply Hfind). clear Hfind E3.
  destruct (starts_with_char HYPHEN n || ends_with_char HYPHEN n) eqn:E4.
  { split; [done|]. intros (-> & [? ? ? Hs He] & _). by rewrite Hs, He in E4. }
  apply orb_false_iff in E4 as [E4 E5].
  rewrite str_len_ascii in E2 by (by apply label_chars_ascii).
  destruct (looks_like_fallback n && negb (str_eqb n (fallback claimant))) eqn:E6.
  { split; [done|]. intros (-> & _ & Hf). apply andb_true_iff in E6 as [Hl Hn].
    rewrite negb_true_iff, str_eqb_neq in Hn. naive_solver. }
  split; [intros [= <-]|by intros [-> _]]. split; [done|]. split.
  { split; auto. intros Hn. rewrite Hn in E1. done. }
  intros Hl. rewrite Hl in E6. apply negb_false_iff, str_eqb_eq in E6. done.
Qed.

Lemma legal_fixed s : legal_label s -> to_ascii_lowercase (trim s) = s.
Proof.
  intros [_ _ Hc _ _]. rewrite trim_id; [by apply map_lower_id|].
  eapply Forall_impl; [done|]. apply label_char_not_ws.
Qed.

Lemma validate_fixed name claimant :
  legal_label name -> (looks_like_fallback name = true -> name = fallback claimant) ->
  validate name claimant = Ok name.
Proof. intros Hl Hf. apply validate_spec. by rewrite legal_fixed. Qed.

Lemma validate_legal requested claimant name :
  validate requested claimant = Ok name -> legal_label name.
Proof. rewrite validate_spec. naive_solver. Qed.

#[export] Hint Resolve validate_legal : quix.

(** ** Suffixes *)

Lemma ends_with_app c s t : t <> [] -> ends_with_char c (s ++ t) = ends_with_char c t.
Proof.
  intros Ht. unfold ends_with_char. rewrite rev_app_distr.
  destruct (rev t) eqn:E; [|done].
  apply (f_equal (@rev N)) in E. by rewrite rev_involutive in E.
Qed.

Lemma ends_with_hyphen_digits s :
  s <> [] -> Forall (fun c => c <> HYPHEN) s -> ends_with_char HYPHEN s = false.
Proof.
  intros Hs H. apply Forall_rev in H. unfold ends_with_char.
  destruct (rev s) as [|c r] eqn:E; [done|]. apply Forall_cons in H as [H _]. simpl. lia.
Qed.

(** The kept part of a legal base is never empty: its first character is not
    a hyphen and there is always room for it. *)
Lemma with_suffix_eq base suffix :
  legal_label base -> Forall (fun c => label_char c = true) suffix ->
  (length suffix + 1 < MAX_LEN)%nat ->
  exists c kept, with_suffix base suffix = (c :: kept) ++ HYPHEN :: suffix
    /\ c <> HYPHEN /\ Forall (fun c => label_char c = true) (c :: kept)
    /\ (length (c :: kept) + length suffix + 1 <= MAX_LEN)%nat
    /\ ends_with_char HYPHEN (c :: kept) = false.
Proof.
  intros [Hne Hlen Hc Hs He] Hsuf Hroom. unfold with_suffix.
  assert (Htag : str_len (HYPHEN :: suffix) = S (length suffix)).
  { simpl. rewrite str_len_ascii by (by apply label_chars_ascii). done. }
  rewrite Htag. set (kept := trim_end_matches (N.eqb HYPHEN) (take (MAX_LEN - S (length suffix)) base)).
  assert (Hk : Forall (fun c => label_char c = true) kept) by (by apply Forall_trim_end, Forall_take).
  assert (Hkl : (length kept <= MAX_LEN - S (length suffix))%nat).
  { etransitivity; [apply length_trim_end|]. rewrite length_take. lia. }
  pose proof (trim_end_ends (N.eqb HYPHEN) (take (MAX_LEN - S (length suffix)) base)) as Hend.
  fold kept in Hend. destruct base as [|c base]; [done|]. simpl in Hs.
  destruct (MAX_LEN - S (length suffix))%nat as [|m] eqn:Em; [lia|].
  destruct kept as [|c' kept'] eqn:Ek.
  - exfalso. subst kept. unfold trim_end_matches in Ek.
    apply (f_equal (@rev N)) in Ek. rewrite rev_involutive in Ek. simpl in Ek.
    destruct (drop_while_suffix (N.eqb HYPHEN) (rev (take m base) ++ [c])) as (pre & Heq & Hall).
    rewrite Ek, app_nil_r in Heq. rewrite <- Heq, forallb_app in Hall.
    apply andb_true_iff in Hall as [_ Hall]. simpl in Hall. rewrite andb_true_r in Hall.
    apply N.eqb_eq in Hall as <-. done.
  - assert (c' = c) as ->.
    { subst kept. destruct (trim_end_prefix (N.eqb HYPHEN) (take (S m) (c :: base))) as (post & Heq & _).
      rewrite Ek in Heq. simpl in Heq. congruence. }
    exists c, kept'. split; [done|]. split; [by apply N.eqb_neq|].
    split; [done|]. split; [lia|].
    unfold ends_with_char. destruct (rev (c :: kept')); [done|]. simpl. by rewrite N.eqb_sym.
Qed.

Lemma with_suffix_legal base suffix :
  legal_label base -> suffix <> [] -> Forall (fun c => label_char c = true) suffix ->
  Forall (fun c => c <> HYPHEN) suffix -> (length suffix + 1 < MAX_LEN)%nat ->
  legal_label (with_suffix base suffix).
Proof.
  intros Hb Hne Hsc Hsh Hl. destruct (with_suffix_eq base suffix) as (c & kept & -> & Hc & Hk & Hkl & He); auto.
  split.
  - done.
  - rewrite length_app. change (length (HYPHEN :: suffix)) with (S (length suffix)). lia.
  - apply Forall_app. split; [done|]. by constructor.
  - simpl. lia.
  - rewrite ends_with_app by done. change (HYPHEN :: suffix) with ([HYPHEN] ++ suffix).
    rewrite ends_with_app by done. by apply ends_with_hyphen_digits.
Qed.

Lemma with_suffix_not_fallback base suffix :
  legal_label base -> Forall (fun c => label_char c = true) suffix ->
  (length suffix + 1 < MAX_LEN)%nat -> looks_like_fallback (with_suffix base suffix) = false.
Proof.
  intros Hb Hs Hl. destruct (with_suffix_eq base suffix) as (c & kept & -> & _ & _ & _ & _); auto.
  unfold looks_like_fallback. rewrite forallb_app. simpl.
  by rewrite !andb_false_r.
Qed.

(** ** Deduplication *)

Definition candidate (requested : rstr) (i : nat) : rstr := with_suffix requested (show_nat i).

Lemma dedupe_from_cases taken requested claimant fuel i :
  let r := dedupe_from taken requested claimant fuel i in
  (exists j, (i <= j < i + fuel)%nat /\ r = candidate requested j /\ taken r = false
     /\ forall k, (i <= k < j)%nat -> taken (candidate requested k) = true)
  \/ (r = with_suffix requested (fallback claimant)
     /\ forall k, (i <= k < i + fuel)%nat -> taken (candidate requested k) = true).
Proof.
  revert i; induction fuel as [|fuel IH]; intros i; simpl.
  { right. split; [done|]. lia. }
  destruct (taken (with_suffix requested (show_nat i))) eqn:E; simpl.
  - destruct (IH (S i)) as [(j & Hj & -> & Hf & Hb)|[-> Hb]].
    + left. exists j. repeat split; auto; try lia. intros k Hk.
      destruct (decide (k = i)) as [->|]; [done|]. apply Hb. lia.
    + right. split; [done|]. intros k Hk.
      destruct (decide (k = i)) as [->|]; [done|]. apply Hb. lia.
  - left. exists i. repeat split; auto; lia.
Qed.

Lemma MAX_SUFFIX_digits i : (i <= MAX_SUFFIX)%nat -> (length (show_nat i) <= 4)%nat.
Proof. intros Hi. apply length_show_nat; [lia|]. pose proof MAX_SUFFIX_val. lia. Qed.

Lemma show_nat_label i : Forall (fun c => label_char c = true) (show_nat i).
Proof. eapply Forall_impl; [apply show_nat_digits|]. apply digit_label_char. Qed.

#[export] Hint Resolve show_nat_label show_nat_nonempty MAX_SUFFIX_digits show_nat_digits : quix.

Lemma candidate_inj requested i j :
  legal_label requested -> (i <= MAX_SUFFIX)%nat -> (j <= MAX_SUFFIX)%nat ->
  candidate requested i = candidate requested j -> i = j.
Proof.
  intros Hl Hi Hj. unfold candidate.
  destruct (with_suffix_eq requested (show_nat i)) as (c & k & -> & _); auto with quix.
  { pose proof (MAX_SUFFIX_digits i Hi). unfold MAX_LEN. lia. }
  destruct (with_suffix_eq requested (show_nat j)) as (d & k' & -> & _); auto with quix.
  { pose proof (MAX_SUFFIX_digits j Hj). unfold MAX_LEN. lia. }
  intros Heq. apply (split_last_unique HYPHEN) in Heq; [by apply (inj show_nat)|..];
    apply digits_not_hyphen, show_nat_digits.
Qed.

(** If fewer than [MAX_SUFFIX] names are spoken for, some candidate is not. *)
Lemma some_candidate_free (taken : rstr -> bool) requested (l : list rstr) :
  legal_label requested -> (forall n, taken n = true -> n ∈ l) -> (length l < MAX_SUFFIX)%nat ->
  ~ forall k, (1 <= k <= MAX_SUFFIX)%nat -> taken (candidate requested k) = true.
Proof.
  intros Hl Hin Hlen Hall. assert (Hsub : candidate requested <$> seq 1 MAX_SUFFIX ⊆ l).
  { intros x Hx. apply list_elem_of_fmap in Hx as (i & -> & Hi). apply elem_of_seq in Hi.
    apply Hin, Hall. lia. }
  assert (Hnd : NoDup (candidate requested <$> seq 1 MAX_SUFFIX)).
  { apply NoDup_fmap_2_strong; [|apply NoDup_seq].
    intros i j Hi Hj. apply elem_of_seq in Hi, Hj. apply candidate_inj; [done|lia|lia]. }
  pose proof (submseteq_length _ _ (NoDup_submseteq _ _ Hnd Hsub)) as Hc.
  rewrite length_fmap, length_seq in Hc. lia.
Qed.

Lemma candidate_validates requested claimant i :
  legal_label requested -> (i <= MAX_SUFFIX)%nat ->
  validate (candidate requested i) claimant = Ok (candidate requested i).
Proof.
  intros Hl Hi. pose proof (MAX_SUFFIX_digits i Hi). apply validate_fixed.
  - apply with_suffix_legal; auto with quix; [apply digits_not_hyphen, show_nat_digits|unfold MAX_LEN; lia].
  - unfold candidate. rewrite with_suffix_not_fallback; [done|auto with quix..|]. unfold MAX_LEN. lia.
Qed.

Lemma fallback_length id : (length (fallback id) <= FALLBACK_LEN)%nat.
Proof. unfold fallback. rewrite length_take. lia. Qed.

Lemma alnum_label_char c : is_lower c || is_digit c = true -> label_char c = true /\ c <> HYPHEN.
Proof. unfold label_char, is_lower, is_digit, HYPHEN. lia. Qed.

(** An endpoint id in text is lower-case hexadecimal. *)
Definition id_text (id : rstr) : Prop :=
  id <> [] /\ Forall (fun c => is_lower c || is_digit c = true) id.

Lemma last_resort_validates requested claimant :
  legal_label requested -> id_text claimant ->
  validate (with_suffix requested (fallback claimant)) claimant
  = Ok (with_suffix requested (fallback claimant)).
Proof.
  intros Hl [Hne Hid]. pose proof (fallback_length claimant).
  assert (Hf : Forall (fun c => is_lower c || is_digit c = true) (fallback claimant)) by (by apply Forall_take).
  assert (Forall (fun c => label_char c = true) (fallback claimant)).
  { eapply Forall_impl; [exact Hf|]. intros c Hc. by apply alnum_label_char in Hc as [? _]. }
  apply validate_fixed.
  - apply with_suffix_legal; auto.
    + destruct claimant; [done|]. by unfold fallback.
    + eapply Forall_impl; [exact Hf|]. intros c Hc. by apply alnum_label_char in Hc as [_ ?].
    + unfold FALLBACK_LEN, MAX_LEN in *. lia.
  - rewrite with_suffix_not_fallback; [done|auto..|]. unfold FALLBACK_LEN, MAX_LEN in *. lia.
Qed.

Lemma dedupe_cases taken requested claimant :
  let r := dedupe requested claimant taken in
  (r = requested /\ taken r = false)
  \/ (taken requested = true /\ exists j, (1 <= j <= MAX_SUFFIX)%nat /\ r = candidate requested j
      /\ taken r = false /\ forall k, (1 <= k < j)%nat -> taken (candidate requested k) = true)
  \/ (taken requested = true /\ r = with_suffix requested (fallback claimant)
      /\ forall k, (1 <= k <= MAX_SUFFIX)%nat -> taken (candidate requested k) = true).
Proof.
  intros r. unfold r, dedupe. destruct (taken requested) eqn:E; simpl; [|by left].
  right. destruct (dedupe_from_cases taken requested claimant MAX_SUFFIX 1) as [(j & Hj & -> & Hf & Hb)|[-> Hb]].
  - left. split; [done|]. exists j. repeat split; auto; lia.
  - right. repeat split; auto. intros k Hk. apply Hb. lia.
Qed.

(** With room left, the last resort is never reached. *)
Lemma dedupe_free_cases taken requested claimant (l : list rstr) :
  legal_label requested -> (forall n, taken n = true -> n ∈ l) -> (length l < MAX_SUFFIX)%nat ->
  let r := dedupe requested claimant taken in
  (r = requested /\ taken r = false)
  \/ (taken requested = true /\ exists j, (1 <= j <= MAX_SUFFIX)%nat /\ r = candidate requested j
      /\ taken r = false /\ forall k, (1 <= k < j)%nat -> taken (candidate requested k) = true).
Proof.
  intros Hl Hin Hlen. destruct (dedupe_cases taken requested claimant) as [?|[?|(_ & _ & Hb)]]; [by left|by right|].
  by destruct (some_candidate_free taken requested l Hl Hin Hlen).
Qed.

(** ** Network names *)

Lemma drop_while_length_id p s : length (drop_while p s) = length s -> drop_while p s = s.
Proof.
  intros H. destruct (drop_while_suffix p s) as (pre & Heq & _).
  apply (f_equal length) in Heq as Hl. rewrite length_app in Hl.
  destruct pre; [done|simpl in Hl; lia].
Qed.

Lemma length_drop_while p s : (length (drop_while p s) <= length s)%nat.
Proof.
  destruct (drop_while_suffix p s) as (pre & Heq & _).
  rewrite Heq at 2. rewrite length_app. lia.
Qed.

Lemma length_trim_matches p s : (length (trim_matches p s) <= length s)%nat.
Proof.
  unfold trim_matches, trim_start_matches. etransitivity; [apply length_trim_end|]. apply length_drop_while.
Qed.

Lemma trim_matches_length_id p s :
  length (trim_matches p s) = length s -> trim_matches p s = s.
Proof.
  unfold trim_matches, trim_start_matches. intros H.
  pose proof (length_trim_end p (drop_while p s)). pose proof (length_drop_while p s).
  destruct (trim_end_prefix p (drop_while p s)) as (post & Heq & _).
  apply (f_equal length) in Heq as Hl. rewrite length_app in Hl.
  destruct post; [|simpl in Hl; lia]. rewrite app_nil_r in Heq.
  rewrite <- Heq. apply drop_while_length_id. lia.
Qed.

Lemma trim_end_head p c s : p c = false -> exists s', trim_end_matches p (c :: s) = c :: s'.
Proof.
  intros Hc. destruct (trim_end_prefix p (c :: s)) as (post & Heq & Hall).
  destruct (trim_end_matches p (c :: s)) as [|d s']; simpl in Heq.
  - subst post. simpl in Hall. by rewrite Hc in Hall.
  - injection Heq as -> _. by eexists.
Qed.

Lemma trim_matches_start p s :
  match trim_matches p s with [] => True | c :: _ => p c = false end.
Proof.
  unfold trim_matches, trim_start_matches.
  destruct (drop_while p s) as [|c s'] eqn:E; [done|].
  apply drop_while_head in E. destruct (trim_end_head p c s' E) as (t & ->). done.
Qed.

Lemma trim_matches_end p s :
  match rev (trim_matches p s) with [] => True | c :: _ => p c = false end.
Proof. apply trim_end_ends. Qed.

Lemma trim_matches_idem p s : trim_matches p (trim_matches p s) = trim_matches p s.
Proof.
  pose proof (trim_matches_start p s) as H1. pose proof (trim_matches_end p s) as H2.
  set (t := trim_matches p s) in *. unfold trim_matches, trim_start_matches.
  rewrite drop_while_id by done. by apply trim_end_id.
Qed.

Lemma hyphen_ends p s :
  (match s with [] => True | c :: _ => (HYPHEN =? c)%N = false end) -> p = s ->
  starts_with_char HYPHEN p = false.
Proof. intros H ->. destruct s; simpl in *; [done|]. by rewrite N.eqb_sym. Qed.

Lemma trim_hyphen_starts s : starts_with_char HYPHEN (trim_matches (N.eqb HYPHEN) s) = false.
Proof. eapply hyphen_ends; [apply trim_matches_start|done]. Qed.

Lemma trim_hyphen_ends s : ends_with_char HYPHEN (trim_matches (N.eqb HYPHEN) s) = false.
Proof. unfold ends_with_char. eapply hyphen_ends; [apply trim_matches_end|done]. Qed.

(** The characters of [network_label] before truncation. *)
Definition sanitise (network : rstr) : rstr :=
  (fun c => if is_alnum c then c else HYPHEN) <$> to_ascii_lowercase (trim network).

Lemma sanitise_chars network : Forall (fun c => label_char c = true) (sanitise network).
Proof.
  unfold sanitise, to_ascii_lowercase. rewrite Forall_fmap, Forall_fmap. apply Forall_forall.
  intros c _. unfold compose, ascii_lower, is_alnum, label_char, is_upper, is_lower, is_digit, HYPHEN. cases; lia.
Qed.

Lemma network_label_eq network :
  network_label network =
  let l := trim_matches (N.eqb HYPHEN) (sanitise network) in
  if is_empty l then lit "network" else take MAX_LEN l.
Proof. done. Qed.

Lemma legal_network : legal_label (lit "network").
Proof. split; try done; [simpl; unfold MAX_LEN; lia|]. by repeat constructor. Qed.

Lemma Forall_trim_matches (P : N -> Prop) p s : Forall P s -> Forall P (trim_matches p s).
Proof. intros H. by apply Forall_trim_end, Forall_drop_while. Qed.

Lemma starts_with_take c n s : starts_with_char c s = false -> starts_with_char c (take n s) = false.
Proof. by destruct n, s. Qed.

Lemma to_ascii_lowercase_length s : length (to_ascii_lowercase s) = length s.
Proof. apply length_fmap. Qed.

Lemma sanitise_fixed n : Forall (fun c => label_char c = true) n ->
  (fun c => if is_alnum c then c else HYPHEN) <$> n = n.
Proof.
  induction 1 as [|c n Hc _ IH]; [done|]. rewrite fmap_cons, IH. f_equal.
  unfold label_char, is_alnum, is_upper, is_lower, is_digit, HYPHEN in *. case_match; lia.
Qed.

(** A label that is already legal is its own label. *)
Lemma network_label_legal t : legal_label (to_ascii_lowercase (trim t)) ->
  network_label t = to_ascii_lowercase (trim t).
Proof.
  intros [Hne Hlen Hc Hs He]. rewrite network_label_eq. unfold sanitise.
  rewrite sanitise_fixed by done. set (n := to_ascii_lowercase (trim t)) in *.
  assert (trim_matches (N.eqb HYPHEN) n = n) as ->.
  { unfold trim_matches, trim_start_matches. rewrite drop_while_id.
    - apply trim_end_id. unfold ends_with_char in He. destruct (rev n); [done|]. simpl in *. by rewrite N.eqb_sym.
    - destruct n; [done|]. simpl in *. by rewrite N.eqb_sym. }
  simpl. destruct (is_empty n) eqn:E; [by apply is_empty_spec in E|]. apply take_ge. lia.
Qed.

Lemma network_label_fixpoint t :
  network_label t = to_ascii_lowercase (trim t) -> legal_label (to_ascii_lowercase (trim t)).
Proof.
  rewrite network_label_eq. simpl. set (n := to_ascii_lowercase (trim t)).
  assert (Hlen : length (sanitise t) = length n) by apply length_fmap.
  pose proof (length_trim_matches (N.eqb HYPHEN) (sanitise t)) as Hl.
  pose proof (trim_hyphen_starts (sanitise t)) as Hs. pose proof (trim_hyphen_ends (sanitise t)) as He.
  pose proof (Forall_trim_matches _ (N.eqb HYPHEN) _ (sanitise_chars t)) as Hc.
  set (l := trim_matches (N.eqb HYPHEN) (sanitise t)) in *.
  destruct (is_empty l) eqn:E; intros Heq.
  { rewrite <- Heq. apply legal_network. }
  assert (Hln : length (take MAX_LEN l) = length n) by congruence.
  rewrite length_take in Hln.
  assert (Hle : (length l <= MAX_LEN)%nat) by lia.
  rewrite take_ge in Heq by lia. rewrite <- Heq.
  split; auto. by intros Hn; rewrite Hn in E.
Qed.

Lemma lower_ascii s :
  Forall (fun c => is_ascii c = true) (to_ascii_lowercase s) -> Forall (fun c => is_ascii c = true) s.
Proof.
  unfold to_ascii_lowercase. rewrite Forall_fmap. intros H; eapply Forall_impl; [exact H|].
  intros c. unfold compose, ascii_lower, is_ascii, is_upper. case_match; lia.
Qed.

Lemma validate_network_spec s n :
  validate_network s = Ok n <-> n = to_ascii_lowercase (trim s) /\ legal_label n.
Proof.
  unfold validate_network.
  assert (Htt : trim (trim s) = trim s) by apply trim_matches_idem.
  destruct (is_empty (trim s)) eqn:E1.
  { apply is_empty_spec in E1. rewrite E1. split; [done|]. intros [-> [H _ _ _ _]]. done. }
  destruct (Nat.ltb_spec MAX_LEN (str_len (trim s))) as [E2|E2].
  { split; [done|]. intros [-> [_ Hl Hc _ _]]. exfalso. apply label_chars_ascii, lower_ascii in Hc.
    rewrite to_ascii_lowercase_length in Hl. rewrite str_len_ascii in E2 by done. lia. }
  destruct (str_eqb (network_label (trim s)) (to_ascii_lowercase (trim s))) eqn:E3; simpl.
  - apply str_eqb_eq in E3. rewrite <- Htt in E3 at 2. apply network_label_fixpoint in E3.
    rewrite Htt in E3. split; [intros [= <-]; done|by intros [-> _]].
  - apply str_eqb_neq in E3. split; [done|]. intros [-> Hl]. destruct E3.
    rewrite <- Htt at 2. apply network_label_legal. by rewrite Htt.
Qed.

Lemma network_label_shape network :
  network_label network <> [] /\ (length (network_label network) <= MAX_LEN)%nat
  /\ Forall (fun c => label_char c = true) (network_label network)
  /\ starts_with_char HYPHEN (network_label network) = false.
Proof.
  rewrite network_label_eq. simpl.
  pose proof (trim_hyphen_starts (sanitise network)) as Hs.
  pose proof (Forall_trim_matches _ (N.eqb HYPHEN) _ (sanitise_chars network)) as Hc.
  set (l := trim_matches (N.eqb HYPHEN) (sanitise network)) in *.
  destruct (is_empty l) eqn:E.
  { destruct legal_network. auto. }
  split; [by destruct l|]. split; [rewrite length_take; lia|].
  split; [by apply Forall_take|]. by apply starts_with_take.
Qed.

(** ** Properties *)

(** C36: a hostname is accepted exactly when, trimmed and lower-cased, it is a
    legal DNS label (1 to 63 lower-case letters, digits and inner hyphens) that
    does not imitate another key's fallback; that normal form is what is
    returned, and it is a fixed point of the check. *)
Theorem validate_accepts_exactly_labels requested claimant name :
  validate requested claimant = Ok name <->
  name = to_ascii_lowercase (trim requested)
  /\ validate name claimant = Ok name
  /\ legal_label name
  /\ (looks_like_fallback name = true -> name = fallback claimant).
Proof.
  split.
  - intros Hv. apply validate_spec in Hv as (Hn & Hl & Hf). auto using validate_fixed.
  - intros (Hn & _ & Hl & Hf). by apply validate_spec.
Qed.

(** whatever hostname passed the check, [dedupe] hands out a name nobody
    holds, provided fewer than [MAX_SUFFIX] names are spoken for: the requested
    one when it is free, else the first free [name-i] and no earlier one.  The
    result passes the check again, so suffixing never produces an illegal label
    nor another peer's fallback. *)
Theorem dedupe_hands_out_a_free_label requested wanted claimant taken (names : list rstr) :
  validate requested claimant = Ok wanted ->
  (forall n, taken n = true -> n ∈ names) -> (length names < MAX_SUFFIX)%nat ->
  let r := dedupe wanted claimant taken in
  taken r = false /\ validate r claimant = Ok r
  /\ (r = wanted \/ taken wanted = true /\ exists i, (1 <= i <= MAX_SUFFIX)%nat
        /\ r = candidate wanted i /\ forall k, (1 <= k < i)%nat -> taken (candidate wanted k) = true).
Proof.
  intros Hv Hin Hlen r. apply validate_spec in Hv as (_ & Hl & Hf).
  destruct (dedupe_free_cases taken wanted claimant names Hl Hin Hlen) as [[Hr Ht]|(Ht & j & Hj & Hr & Htr & Hb)];
    fold r in Hr; [fold r in Ht|fold r in Htr]; (split; [done|]); rewrite Hr.
  - split; [by apply validate_fixed|by left].
  - split; [apply candidate_validates; [done|lia]|]. right. split; [done|]. by exists j.
Qed.

(** a network name is accepted exactly when its trimmed, lower-cased form
    is a legal DNS label, and then it is the label its zone uses. *)
Theorem validate_network_accepts_exactly_labels name n :
  validate_network name = Ok n <->
  n = to_ascii_lowercase (trim name) /\ legal_label n /\ network_label n = n.
Proof.
  rewrite validate_network_spec. split; [|naive_solver].
  intros [-> Hl]. split; [done|]. split; [done|].
  pose proof (legal_fixed _ Hl) as Hx. rewrite network_label_legal; by rewrite Hx.
Qed.

(** Three peers ask for [web]: the third gets [web-2]. *)
Example dedupe_hands_out_a_free_label_witness :
  let taken n := bool_decide (n ∈ [lit "web"; lit "web-1"]) in
  taken (dedupe (lit "web") (lit "k") taken) = false
  /\ dedupe (lit "web") (lit "k") taken = lit "web-2".
Proof.
  intros taken. split; [|by vm_compute].
  apply (dedupe_hands_out_a_free_label (lit " WEB ") (lit "web") (lit "k") taken [lit "web"; lit "web-1"]).
  - by vm_compute.
  - intros n Hn. by apply bool_decide_eq_true in Hn.
  - pose proof MAX_SUFFIX_val. simpl. lia.
Defined.

(** a network whose name was never checked (a joiner takes the one it is
    given) can get a label that is not a legal DNS label: cutting to [MAX_LEN]
    characters may leave a hyphen at the end. *)
Theorem network_label_cut_ends_with_hyphen :
  exists name, ends_with_char HYPHEN (network_label name) = true
    /\ (length (network_label name) = MAX_LEN)%nat.
Proof. exists (replicate 62 97%N ++ lit "-b"). by vm_compute. Qed.
