(* ===== verification/Net.v ===== *)
(** * IP addresses of the standard library ([std::net])

    [IpAddr] and its [FromStr], which [find_member] uses to tell an address
    from a name.  The parser follows the library's: at most three decimal digits
    without a leading zero per IPv4 octet, at most four hexadecimal digits per
    IPv6 group, one [::], and an IPv4 address as the last two groups. *)

From S2P Require Import Prelude External.

(** Octets in network order: four of them, or sixteen. *)
Inductive IpAddr := V4 (octets : list Z) | V6 (octets : list Z).

#[export] Instance IpAddr_eq_dec : EqDecision IpAddr.
Proof. solve_decision. Defined.

#[export] Instance IpAddr_countable : Countable IpAddr.
Proof.
  apply (inj_countable' (fun a => match a with V4 o => inl o | V6 o => inr o end)
    (fun s => match s with inl o => V4 o | inr o => V6 o end)). by intros [].
Defined.

(** ** [u32] and [u16] as big-endian bytes *)

Definition u32_from_be_bytes (b : list Z) : Z := foldl (fun a x => a * 256 + x) 0 b.

Definition u32_to_be_bytes (n : Z) : list Z :=
  [Z.land (Z.shiftr n 24) 255; Z.land (Z.shiftr n 16) 255; Z.land (Z.shiftr n 8) 255; Z.land n 255].

Lemma land_255 n : Z.land n 255 = n mod 256.
Proof. change 255 with (Z.ones 8). by rewrite Z.land_ones. Qed.

Lemma u32_to_be_bytes_ok n : bytes_ok (u32_to_be_bytes n).
Proof.
  unfold u32_to_be_bytes, bytes_ok, is_byte.
  repeat constructor; rewrite land_255; apply Z.mod_pos_bound; lia.
Qed.

Lemma u32_be_roundtrip n : 0 <= n <= u32_max -> u32_from_be_bytes (u32_to_be_bytes n) = n.
Proof.
  unfold u32_to_be_bytes, u32_from_be_bytes, u32_max. simpl. intros H.
  rewrite !land_255, !Z.shiftr_div_pow2 by lia. change (2 ^ 24) with 16777216.
  change (2 ^ 16) with 65536. change (2 ^ 8) with 256. Z.to_euclidean_division_equations; lia.
Qed.

Lemma u32_to_from_be a b c d :
  is_byte a -> is_byte b -> is_byte c -> is_byte d ->
  u32_to_be_bytes (u32_from_be_bytes [a; b; c; d]) = [a; b; c; d].
Proof.
  unfold is_byte, u32_to_be_bytes, u32_from_be_bytes. simpl. intros.
  rewrite !land_255, !Z.shiftr_div_pow2 by lia. change (2 ^ 24) with 16777216.
  change (2 ^ 16) with 65536. change (2 ^ 8) with 256.
  repeat f_equal; Z.to_euclidean_division_equations; lia.
Qed.

Lemma u32_from_be_bounds b : length b = 4%nat -> bytes_ok b -> 0 <= u32_from_be_bytes b <= u32_max.
Proof.
  destruct b as [|? [|? [|? [|? [|]]]]]; try done. intros _ Hb.
  unfold bytes_ok in Hb. rewrite !Forall_cons in Hb. unfold is_byte in Hb.
  unfold u32_from_be_bytes, u32_max. simpl. lia.
Qed.

(** ** The parser: what was read and what is left *)

Definition reader (A : Type) := rstr -> option (A * rstr).

(** [char::to_digit]. *)
Definition to_digit (radix : Z) (c : char) : option Z :=
  let d := if is_digit c then Z.of_N c - 48
           else if ((97 <=? c) && (c <=? 122))%N then Z.of_N c - 87
           else if ((65 <=? c) && (c <=? 90))%N then Z.of_N c - 55
           else radix in
  if d <? radix then Some d else None.

(** The digits of [read_number]: value and count, refused once more than [max]
    have been read. *)
Fixpoint read_digits (radix : Z) (max : nat) (acc : Z) (count : nat) (s : rstr)
    : option (Z * nat * rstr) :=
  match s with
  | c :: s' =>
      match to_digit radix c with
      | Some d =>
          if (max <? S count)%nat then None
          else read_digits radix max (acc * radix + d) (S count) s'
      | None => Some (acc, count, s)
      end
  | [] => Some (acc, count, s)
  end.

Definition read_number (radix : Z) (max : nat) (allow_zero_prefix : bool) (limit : Z) : reader Z :=
  fun s =>
    '(n, count, rest) ← read_digits radix max 0 0 s;
    if (count =? 0)%nat then None
    else if negb allow_zero_prefix && starts_with_char 48 s && (1 <? count)%nat then None
    else if limit <? n then None
    else Some (n, rest).

Definition read_given_char (c : char) : reader () :=
  fun s => match s with d :: s' => if (d =? c)%N then Some (tt, s') else None | [] => None end.

(** [read_separator]: the separator comes before every element but the first. *)
Definition read_separator {A} (sep : char) (index : nat) (inner : reader A) : reader A :=
  fun s =>
    match index with
    | O => inner s
    | S _ => '(_, s') ← read_given_char sep s; inner s'
    end.

Definition read_ipv4_addr : reader (list Z) :=
  fun s =>
    let octet := read_number 10 3 false 255 in
    '(a, s) ← read_separator 46 0 octet s;
    '(b, s) ← read_separator 46 1 octet s;
    '(c, s) ← read_separator 46 2 octet s;
    '(d, s) ← read_separator 46 3 octet s;
    Some ([a; b; c; d], s).

(** [read_groups]: [slots] of [limit] left from index [i]; what was read (as
    16-bit groups), whether it ended in an IPv4 address, and the rest. *)
Fixpoint read_groups (limit i slots : nat) (s : rstr) : list Z * bool * rstr :=
  match slots with
  | O => ([], false, s)
  | S slots' =>
      let ipv4 := if (i <? limit - 1)%nat then read_separator 58 i read_ipv4_addr s else None in
      match ipv4 with
      | Some ([a; b; c; d], s') => ([a * 256 + b; c * 256 + d], true, s')
      | _ =>
          match read_separator 58 i (read_number 16 4 true 65535) s with
          | Some (g, s') =>
              let '(gs, v4, rest) := read_groups limit (S i) slots' s' in (g :: gs, v4, rest)
          | None => ([], false, s)
          end
      end
  end.

Definition group_octets (gs : list Z) : list Z :=
  mjoin ((fun g => [g / 256; g mod 256]) <$> gs).

Definition read_ipv6_addr : reader (list Z) :=
  fun s =>
    let '(head, head_ipv4, s) := read_groups 8 0 8 s in
    if (length head =? 8)%nat then Some (group_octets head, s)
    else if head_ipv4 then None
    else
      '(_, s) ← read_given_char 58 s;
      '(_, s) ← read_given_char 58 s;
      let limit := (8 - (length head + 1))%nat in
      let '(tail, _, s) := read_groups limit 0 limit s in
      Some (group_octets (head ++ replicate (8 - length head - length tail) 0 ++ tail), s).

(** [IpAddr::from_str]: the whole string, as IPv4 or else as IPv6. *)
Definition parse_ip (s : rstr) : option IpAddr :=
  let read :=
    match read_ipv4_addr s with
    | Some (o, rest) => Some (V4 o, rest)
    | None => match read_ipv6_addr s with Some (o, rest) => Some (V6 o, rest) | None => None end
    end in
  match read with Some (a, []) => Some a | _ => None end.

Example parse_ip_v4 : parse_ip (lit "10.1.2.254") = Some (V4 [10; 1; 2; 254]).
Proof. reflexivity. Qed.
Example parse_ip_v6 :
  parse_ip (lit "200:0:0:0:0:0:a:b1") = parse_ip (lit "200::A:00b1")
  /\ parse_ip (lit "200::a:b1") = Some (V6 ([2; 0; 0; 0; 0; 0; 0; 0; 0; 0; 0; 0; 0; 10; 0; 177])).
Proof. split; reflexivity. Qed.
Example parse_ip_no :
  parse_ip (lit "10.1.2") = None /\ parse_ip (lit "10.1.2.256") = None /\ parse_ip (lit "10.01.2.3") = None
  /\ parse_ip (lit "nas") = None /\ parse_ip (lit "a1b2c3d4") = None /\ parse_ip (lit "1::2::3") = None.
Proof. repeat split; reflexivity. Qed.
Example parse_ip_embedded :
  parse_ip (lit "::ffff:1.2.3.4") = Some (V6 ([0; 0; 0; 0; 0; 0; 0; 0; 0; 0; 255; 255; 1; 2; 3; 4])).
Proof. reflexivity. Qed.

Lemma not_elem_first (c d : N) s : c ∉ d :: s -> (d =? c)%N = false.
Proof. intros H. apply N.eqb_neq. intros ->. apply H. constructor. Qed.

(** An address contains a dot or a colon, so no DNS label is one. *)
Lemma read_digits_rest radix max acc count s n k rest :
  read_digits radix max acc count s = Some (n, k, rest) -> exists pre, s = pre ++ rest.
Proof.
  revert acc count; induction s as [|c s IH]; intros acc count; simpl.
  { intros [= <- <- <-]. by exists []. }
  destruct (to_digit radix c).
  - case_match; [done|]. intros H'. apply IH in H' as (pre & ->). by exists (c :: pre).
  - intros [= <- <- <-]. by exists [].
Qed.

Lemma read_number_rest radix max z limit s n rest :
  read_number radix max z limit s = Some (n, rest) -> exists pre, s = pre ++ rest.
Proof.
  unfold read_number. destruct (read_digits radix max 0 0 s) as [[[m k] r]|] eqn:E; simpl; [|done].
  repeat case_match; try done. intros [= <- <-]. by eapply read_digits_rest.
Qed.

Lemma read_ipv4_dot s o rest : read_ipv4_addr s = Some (o, rest) -> 46%N ∈ s.
Proof.
  unfold read_ipv4_addr. simpl.
  destruct (read_number 10 3 false 255 s) as [[a s1]|] eqn:E1; simpl; [|done].
  apply read_number_rest in E1 as (pre & ->).
  destruct s1 as [|c s1]; simpl; [done|].
  destruct (N.eqb_spec c 46) as [->|]; simpl; [|done]. intros _. set_solver.
Qed.

Lemma read_groups_plain limit i slots s gs v4 rest :
  46%N ∉ s -> 58%N ∉ s -> read_groups limit i slots s = (gs, v4, rest) ->
  (length gs <= 1)%nat /\ v4 = false /\ (i <> 0%nat -> gs = []) /\ 58%N ∉ rest.
Proof.
  intros Hdot Hcol. destruct slots as [|slots]; simpl; [intros [= <- <- <-]; simpl; auto with lia|].
  assert (Hno : forall A j (r : reader A), j <> 0%nat -> read_separator 58 j r s = None).
  { intros A [|j] r Hj; [done|]. destruct s as [|c s']; simpl; [done|].
    by rewrite (not_elem_first _ _ _ Hcol). }
  assert ((if (i <? limit - 1)%nat then read_separator 58 i read_ipv4_addr s else None) = None) as ->.
  { case_match; [|done]. destruct i; [|by apply Hno]. simpl.
    destruct (read_ipv4_addr s) as [[o r]|] eqn:E; [|done]. by apply read_ipv4_dot in E. }
  destruct (decide (i = 0%nat)) as [->|Hi].
  - simpl. destruct (read_number 16 4 true 65535 s) as [[g s']|] eqn:E; [|intros [= <- <- <-]; simpl; auto with lia].
    apply read_number_rest in E as (pre & ->).
    assert (H1 : 58%N ∉ s') by (intros Hx; apply Hcol; apply elem_of_app; by right).
    assert (read_groups limit 1 slots s' = ([], false, s')) as ->.
    { destruct slots as [|slots]; [done|]. simpl.
      destruct s' as [|c s']; simpl; [|rewrite (not_elem_first _ _ _ H1)];
        by destruct (1 <? limit - 1)%nat. }
    intros [= <- <- <-]. simpl. repeat split; auto; lia.
  - rewrite Hno by done. intros [= <- <- <-]. simpl. auto with lia.
Qed.

Lemma parse_ip_not_label s : 46%N ∉ s -> 58%N ∉ s -> parse_ip s = None.
Proof.
  intros Hdot Hcol. unfold parse_ip.
  destruct (read_ipv4_addr s) as [[o r]|] eqn:E; [by apply read_ipv4_dot in E|].
  unfold read_ipv6_addr. destruct (read_groups 8 0 8 s) as [[gs v4] rest] eqn:Eg.
  apply read_groups_plain in Eg as (Hl & -> & _ & Hr); [|done..].
  destruct (Nat.eqb_spec (length gs) 8); [lia|].
  destruct rest as [|c rest]; simpl; [done|].
  by rewrite (not_elem_first _ _ _ Hr).
Qed.

(** An address is made of hexadecimal digits, dots and colons. *)
Definition addr_char (c : char) : bool := is_hexdigit c || (c =? 46)%N || (c =? 58)%N.

(** What a reader consumed is made of those. *)
Definition consumes {A} (r : reader A) : Prop :=
  forall s a rest, r s = Some (a, rest) -> exists pre, s = pre ++ rest /\ Forall (fun c => addr_char c = true) pre.

Lemma to_digit_hex radix c d : radix <= 16 -> to_digit radix c = Some d -> addr_char c = true.
Proof. unfold to_digit, addr_char, is_hexdigit, is_digit. intros Hr. repeat case_match; intros; simplify_eq; lia. Qed.

Lemma read_digits_chars radix max acc count s n k rest :
  radix <= 16 -> read_digits radix max acc count s = Some (n, k, rest) ->
  exists pre, s = pre ++ rest /\ Forall (fun c => addr_char c = true) pre.
Proof.
  intros Hr. revert acc count; induction s as [|c s IH]; intros acc count; simpl.
  { intros [= <- <- <-]. by exists []. }
  destruct (to_digit radix c) eqn:E.
  - case_match; [done|]. intros (pre & -> & Hp)%IH. exists (c :: pre). split; [done|].
    constructor; [by eapply to_digit_hex|done].
  - intros [= <- <- <-]. by exists [].
Qed.

Lemma read_number_consumes radix max z limit : radix <= 16 -> consumes (read_number radix max z limit).
Proof.
  intros Hr s n rest. unfold read_number. destruct (read_digits radix max 0 0 s) as [[[m k] r]|] eqn:E; simpl; [|done].
  repeat case_match; try done. intros [= <- <-]. by eapply read_digits_chars.
Qed.

Lemma read_given_char_consumes c : addr_char c = true -> consumes (read_given_char c).
Proof.
  intros Hc s a rest. destruct s as [|d s]; simpl; [done|]. destruct (N.eqb_spec d c) as [->|]; [|done].
  intros [= <- <-]. exists [c]. by repeat constructor.
Qed.

Lemma consumes_bind {A B} (r : reader A) (f : A -> reader B) :
  consumes r -> (forall a, consumes (f a)) -> consumes (fun s => '(a, s) ← r s; f a s).
Proof.
  intros Hr Hf s b rest Hb. destruct (r s) as [[a s']|] eqn:E; simpl in Hb; [|done].
  apply Hr in E as (p & -> & Hp). apply Hf in Hb as (p' & -> & Hp').
  exists (p ++ p'). rewrite <- app_assoc. split; [done|]. by apply Forall_app.
Qed.

Lemma consumes_ret {A} (a : A) : consumes (fun s => Some (a, s)).
Proof. intros s x rest [= <- <-]. by exists []. Qed.

Lemma read_separator_consumes {A} sep i (r : reader A) :
  addr_char sep = true -> consumes r -> consumes (read_separator sep i r).
Proof.
  intros Hs Hr. destruct i; [done|].
  apply (consumes_bind (read_given_char sep) (fun _ => r)); [by apply read_given_char_consumes|done].
Qed.

Lemma read_ipv4_consumes : consumes read_ipv4_addr.
Proof.
  unfold read_ipv4_addr. cbv zeta.
  repeat first [ apply consumes_ret
               | apply read_separator_consumes; [done|by apply read_number_consumes]
               | refine (consumes_bind _ (fun _ => _) _ _); [|intros ?] ].
Qed.

(** The embedded IPv4 address tried before a group. *)
Definition read_embedded (limit i : nat) (s : rstr) : option (list Z * rstr) :=
  if (i <? limit - 1)%nat then read_separator 58 i read_ipv4_addr s else None.

Lemma read_embedded_consumes limit i : consumes (read_embedded limit i).
Proof.
  intros s o rest. unfold read_embedded. destruct (i <? limit - 1)%nat; [|done].
  by apply (read_separator_consumes 58 i read_ipv4_addr); [|exact read_ipv4_consumes].
Qed.

Lemma read_groups_step limit i slots s :
  read_groups limit i (S slots) s =
  match read_embedded limit i s with
  | Some ([a; b; c; d], s') => ([a * 256 + b; c * 256 + d], true, s')
  | _ =>
      match read_separator 58 i (read_number 16 4 true 65535) s with
      | Some (g, s') =>
          let '(gs, v4, rest) := read_groups limit (S i) slots s' in (g :: gs, v4, rest)
      | None => ([], false, s)
      end
  end.
Proof. done. Qed.

Lemma read_groups_consumes limit i slots s gs v4 rest :
  read_groups limit i slots s = (gs, v4, rest) ->
  exists pre, s = pre ++ rest /\ Forall (fun c => addr_char c = true) pre.
Proof.
  revert i s gs v4 rest; induction slots as [|slots IH]; intros i s gs v4 rest.
  { intros [= <- <- <-]. by exists []. }
  rewrite read_groups_step. pose proof (read_embedded_consumes limit i s) as He.
  assert (Hg : match read_separator 58 i (read_number 16 4 true 65535) s with
    | Some (g, s') => let '(gs, v4, rest) := read_groups limit (S i) slots s' in (g :: gs, v4, rest)
    | None => ([], false, s) end = (gs, v4, rest) ->
    exists pre, s = pre ++ rest /\ Forall (fun c => addr_char c = true) pre).
  { destruct (read_separator 58 i _ s) as [[g r]|] eqn:E; [|intros [= <- <- <-]; by exists []].
    apply (read_separator_consumes 58 i) in E as (p & -> & Hp); [|done|by apply read_number_consumes].
    destruct (read_groups limit (S i) slots r) as [[gs' v4'] rest'] eqn:Er. intros [= <- <- <-].
    apply IH in Er as (p' & -> & Hp'). exists (p ++ p'). rewrite <- app_assoc. split; [done|by apply Forall_app]. }
  destruct (read_embedded limit i s) as [[o s']|]; [|exact Hg].
  destruct o as [|a [|b [|c [|d [|]]]]]; try exact Hg.
  intros [= <- <- <-]. by eapply He.
Qed.

Lemma read_ipv6_consumes : consumes read_ipv6_addr.
Proof.
  intros s o rest. unfold read_ipv6_addr.
  destruct (read_groups 8 0 8 s) as [[head hv4] s1] eqn:E1. apply read_groups_consumes in E1 as (p1 & -> & Hp1).
  destruct (length head =? 8)%nat; [intros [= <- <-]; by exists p1|]. destruct hv4; [done|].
  destruct (read_given_char 58 s1) as [[u s2]|] eqn:E2; simpl; [|done].
  apply (read_given_char_consumes 58) in E2 as (p2 & -> & Hp2); [|done].
  destruct (read_given_char 58 s2) as [[u' s3]|] eqn:E3; simpl; [|done].
  apply (read_given_char_consumes 58) in E3 as (p3 & -> & Hp3); [|done].
  destruct (read_groups _ 0 _ s3) as [[tail b] s4] eqn:E4. apply read_groups_consumes in E4 as (p4 & -> & Hp4).
  intros [= <- <-]. exists (p1 ++ p2 ++ p3 ++ p4). rewrite <- !app_assoc. split; [done|].
  rewrite !Forall_app. auto.
Qed.

Lemma parse_ip_chars s a : parse_ip s = Some a -> Forall (fun c => addr_char c = true) s.
Proof.
  unfold parse_ip. destruct (read_ipv4_addr s) as [[o rest]|] eqn:E.
  - apply read_ipv4_consumes in E as (p & -> & Hp). destruct rest; [|done]. by rewrite app_nil_r.
  - destruct (read_ipv6_addr s) as [[o rest]|] eqn:E6; [|done].
    apply read_ipv6_consumes in E6 as (p & -> & Hp). destruct rest; [|done]. by rewrite app_nil_r.
Qed.

(** ** [Display] of addresses *)

Fixpoint join (sep : rstr) (l : list rstr) : rstr :=
  match l with [] => [] | [s] => s | s :: l' => s ++ sep ++ join sep l' end.

Definition show_Z (n : Z) : rstr := show_nat (Z.to_nat n).

Definition hex_char (n : Z) : char := Z.to_N (if n <? 10 then 48 + n else 87 + n).

(** [{:x}] of a 16-bit segment. *)
Definition show_hex (n : Z) : rstr :=
  if n <? 16 then [hex_char n]
  else if n <? 256 then [hex_char (n / 16); hex_char (n mod 16)]
  else if n <? 4096 then [hex_char (n / 256); hex_char (n / 16 mod 16); hex_char (n mod 16)]
  else [hex_char (n / 4096); hex_char (n / 256 mod 16); hex_char (n / 16 mod 16); hex_char (n mod 16)].

Fixpoint segments (octets : list Z) : list Z :=
  match octets with a :: b :: o => a * 256 + b :: segments o | _ => [] end.

(** The longest run of zero segments, the first of them when several are as
    long: where it starts and its length. *)
Fixpoint longest_zeros (i : nat) (current longest : nat * nat) (segs : list Z) : nat * nat :=
  match segs with
  | [] => longest
  | s :: segs' =>
      if s =? 0 then
        let current := if (snd current =? 0)%nat then (i, 1%nat) else (fst current, S (snd current)) in
        let longest := if (snd longest <? snd current)%nat then current else longest in
        longest_zeros (S i) current longest segs'
      else longest_zeros (S i) (0%nat, 0%nat) longest segs'
  end.

Definition show_v4 (octets : list Z) : rstr := join (lit ".") (show_Z <$> octets).

Definition show_v6 (octets : list Z) : rstr :=
  match octets with
  | [0; 0; 0; 0; 0; 0; 0; 0; 0; 0; 255; 255; a; b; c; d] => lit "::ffff:" ++ show_v4 [a; b; c; d]
  | _ =>
      let segs := segments octets in
      let '(start, len) := longest_zeros 0 (0%nat, 0%nat) (0%nat, 0%nat) segs in
      let subslice l := join (lit ":") (show_hex <$> l) in
      if (1 <? len)%nat then subslice (take start segs) ++ lit "::" ++ subslice (drop (start + len) segs)
      else subslice segs
  end.

Definition show_ip (a : IpAddr) : rstr := match a with V4 o => show_v4 o | V6 o => show_v6 o end.

Definition is_ipv4 (a : IpAddr) : bool := match a with V4 _ => true | V6 _ => false end.

Example show_ip_examples :
  show_ip (V4 [10; 1; 2; 254]) = lit "10.1.2.254"
  /\ show_ip (V6 [2; 0; 0; 0; 0; 0; 0; 0; 0; 0; 0; 0; 0; 10; 0; 177]) = lit "200::a:b1"
  /\ parse_ip (show_ip (V6 [2; 0; 17; 34; 51; 68; 85; 102; 119; 136; 153; 170; 187; 204; 221; 238]))
     = Some (V6 [2; 0; 17; 34; 51; 68; 85; 102; 119; 136; 153; 170; 187; 204; 221; 238]).
Proof. repeat split; reflexivity. Qed.
