(* ===== verification/Tun.v ===== *)
(** * Overlay addresses and packets ([daemon/src/tun.rs])

    The two addresses derived from a peer's key, and the destination of an IP
    packet.  The set-up of the interface is in [Socket]. *)

From Stdlib Require Import Zbitwise.
From S2P Require Import Prelude External Net.

Definition DEFAULT_INTERFACE_NAME : rstr := lit "quix".
Definition MTU : Z := 1280.
Definition V4_PREFIX_LEN : Z := 32.
Definition V6_PREFIX_LEN : Z := 128.

(** [interface_name]: the environment variable is its input. *)
Definition interface_name (QUIX_IFACE : option rstr) : rstr :=
  match QUIX_IFACE with Some n => n | None => DEFAULT_INTERFACE_NAME end.

Section Addresses.
Context `{!Sha256}.

Definition virtual_ipv6 (public_key : list Z) : IpAddr :=
  let hash := sha256 public_key in
  let octets := take 16 hash in
  V6 (<[0%nat := 2]> octets).

Definition virtual_ipv4 (public_key : list Z) : IpAddr :=
  let hash := sha256 public_key in
  let BASE := Z.shiftl 10 24 in
  let HOST_MASK := Z.shiftl 1 24 - 1 in
  let host := Z.land (u32_from_be_bytes (take 4 hash)) HOST_MASK in
  let host := Z.lor (Z.land host (u32_max - 255)) (clamp 1 254 (Z.land host 255)) in
  V4 (u32_to_be_bytes (Z.lor BASE host)).

Definition virtual_addrs (public_key : list Z) : IpAddr * IpAddr :=
  (virtual_ipv4 public_key, virtual_ipv6 public_key).
End Addresses.

Definition dst_addr (packet : list Z) : option IpAddr :=
  match packet with
  | [] => None
  | first :: _ =>
      let version := Z.shiftr first 4 in
      if (version =? 4) && (20 <=? length packet)%nat then Some (V4 (take 4 (drop 16 packet)))
      else if (version =? 6) && (40 <=? length packet)%nat then Some (V6 (take 16 (drop 24 packet)))
      else None
  end.

(** ** The bits of an overlay address *)

Lemma testbit_small b n i : 0 <= b < 2 ^ n -> 0 <= n <= i -> Z.testbit b i = false.
Proof.
  intros Hb Hi. rewrite <- (Z.mod_small b (2 ^ n)) by done. apply Z.mod_pow2_bits_high. done.
Qed.

Lemma lor_disjoint a b n : 0 <= n -> 0 <= b < 2 ^ n -> Z.lor (a * 2 ^ n) b = a * 2 ^ n + b.
Proof.
  intros Hn Hb.
  assert (Hz : Z.land (a * 2 ^ n) b = 0).
  { apply Z.bits_inj'. intros i Hi. rewrite Z.land_spec, Z.bits_0.
    destruct (Z.lt_ge_cases i n).
    - by rewrite Z.mul_pow2_bits_low.
    - by rewrite (testbit_small b n i), andb_false_r. }
  pose proof (Z.add_lor_land (a * 2 ^ n) b) as Hadd. lia.
Qed.

Lemma land_high_mask m : 0 <= m <= u32_max -> Z.land m (u32_max - 255) = m / 256 * 2 ^ 8.
Proof.
  intros Hm. unfold u32_max in *.
  replace (2 ^ 32 - 1 - 255) with (Z.ones 24 * 2 ^ 8) by done.
  replace (m / 256) with (Z.shiftr m 8) by (by rewrite Z.shiftr_div_pow2).
  apply Z.bits_inj'. intros i Hi. rewrite Z.land_spec.
  destruct (Z.lt_ge_cases i 8).
  { rewrite !Z.mul_pow2_bits_low by done. by rewrite andb_false_r. }
  rewrite !Z.mul_pow2_bits by lia. rewrite Z.shiftr_spec by lia.
  replace (i - 8 + 8) with i by lia.
  destruct (Z.lt_ge_cases i 32).
  - rewrite Z.ones_spec_low by lia. by rewrite andb_true_r.
  - rewrite (testbit_small m 32 i) by lia. done.
Qed.

(** The arithmetic of [virtual_ipv4], octet by octet. *)
Lemma ipv4_bits a b c d :
  is_byte a -> is_byte b -> is_byte c -> is_byte d ->
  let host := Z.land (u32_from_be_bytes [a; b; c; d]) (Z.shiftl 1 24 - 1) in
  u32_to_be_bytes (Z.lor (Z.shiftl 10 24)
    (Z.lor (Z.land host (u32_max - 255)) (clamp 1 254 (Z.land host 255)))) = [10; b; c; clamp 1 254 d].
Proof.
  intros Ha Hb Hc Hd host. unfold is_byte in *.
  assert (host = (b * 256 + c) * 256 + d) as ->.
  { unfold host. change (Z.shiftl 1 24 - 1) with (Z.ones 24). rewrite Z.land_ones by lia.
    unfold u32_from_be_bytes. simpl foldl. change (2 ^ 24) with 16777216.
    Z.to_euclidean_division_equations; lia. }
  assert (Hd' : 0 <= clamp 1 254 d < 256) by (pose proof (clamp_bounds 1 254 d); lia).
  rewrite land_high_mask, land_255 by (unfold u32_max; lia).
  replace (((b * 256 + c) * 256 + d) / 256) with (b * 256 + c) by (Z.to_euclidean_division_equations; lia).
  replace (((b * 256 + c) * 256 + d) mod 256) with d by (Z.to_euclidean_division_equations; lia).
  rewrite lor_disjoint by (change (2 ^ 8) with 256; lia).
  change (Z.shiftl 10 24) with (10 * 2 ^ 24).
  rewrite lor_disjoint by (change (2 ^ 24) with 16777216; change (2 ^ 8) with 256; lia).
  rewrite <- (u32_to_from_be 10 b c (clamp 1 254 d)) by (unfold is_byte; lia).
  f_equal. unfold u32_from_be_bytes. simpl foldl. change (2 ^ 24) with 16777216. change (2 ^ 8) with 256. lia.
Qed.

Section AddressLemmas.
Context `{!Sha256}.

Lemma sha256_head key : exists a b c d rest,
  sha256 key = a :: b :: c :: d :: rest
  /\ is_byte a /\ is_byte b /\ is_byte c /\ is_byte d /\ bytes_ok rest /\ length rest = 28%nat.
Proof.
  pose proof (sha256_len key) as Hl. pose proof (sha256_ok key) as Hok.
  destruct (sha256 key) as [|a [|b [|c [|d rest]]]]; try done.
  unfold bytes_ok in Hok. rewrite !Forall_cons in Hok.
  destruct Hok as (? & ? & ? & ? & ?). exists a, b, c, d, rest. split_and!; try done.
  by injection Hl.
Qed.

Lemma virtual_ipv4_octets key : exists a b c d rest,
  sha256 key = a :: b :: c :: d :: rest /\ is_byte b /\ is_byte c
  /\ virtual_ipv4 key = V4 [10; b; c; clamp 1 254 d].
Proof.
  destruct (sha256_head key) as (a & b & c & d & rest & Heq & Ha & Hb & Hc & Hd & _ & _).
  exists a, b, c, d, rest. split_and!; [done..|].
  unfold virtual_ipv4. rewrite Heq. simpl take. by rewrite ipv4_bits.
Qed.

Lemma virtual_ipv6_octets key : exists a o,
  sha256 key = a :: o ++ drop 16 (sha256 key) /\ length o = 15%nat /\ bytes_ok o
  /\ virtual_ipv6 key = V6 (2 :: o).
Proof.
  destruct (sha256_head key) as (a & b & c & d & rest & Heq & _ & Hb & Hc & Hd & Hr & Hl).
  exists a, (take 15 (b :: c :: d :: rest)). rewrite Heq. split_and!.
  - simpl drop. simpl take. simpl. by rewrite take_drop.
  - simpl. rewrite length_take. lia.
  - apply bytes_ok_take. by do 3 (apply Forall_cons; split; [done|]).
  - unfold virtual_ipv6. by rewrite Heq.
Qed.
End AddressLemmas.

(** ** Properties *)

(** An IP packet to [addr], at least a header long: the destination sits where
    the protocol puts it. *)
Definition well_formed_packet (addr : IpAddr) (packet : list Z) : Prop :=
  match addr with
  | V4 o => length o = 4%nat /\ exists ihl head rest, 64 <= ihl < 80 /\ length head = 15%nat
      /\ packet = ihl :: head ++ o ++ rest
  | V6 o => length o = 16%nat /\ exists tc head rest, 96 <= tc < 112 /\ length head = 23%nat
      /\ packet = tc :: head ++ o ++ rest
  end.

Lemma version_nibble b v : 16 * v <= b < 16 * v + 16 -> Z.shiftr b 4 = v.
Proof. intros Hb. rewrite Z.shiftr_div_pow2 by lia. change (2 ^ 4) with 16. Z.to_euclidean_division_equations; lia. Qed.

Lemma nibble_version b v : Z.shiftr b 4 = v -> 16 * v <= b < 16 * v + 16.
Proof. rewrite Z.shiftr_div_pow2 by lia. change (2 ^ 4) with 16. intros <-. Z.to_euclidean_division_equations; lia. Qed.

Lemma slice_app {A} (head o rest : list A) :
  take (length o) (drop (length head) (head ++ o ++ rest)) = o.
Proof. by rewrite drop_app_length, take_app_length. Qed.

Lemma slice_split {A} n m (l : list A) : (n + m <= length l)%nat ->
  exists head o rest, l = head ++ o ++ rest /\ length head = n /\ length o = m /\ take m (drop n l) = o.
Proof.
  intros Hl. exists (take n l), (take m (drop n l)), (drop m (drop n l)).
  rewrite !take_drop, !length_take, length_drop. repeat split; lia.
Qed.

(** the destination the daemon forwards on is read exactly when the packet
    is a complete IPv4 or IPv6 header, and it is the header's destination field;
    every other packet has none. *)
Theorem dst_addr_reads_the_header packet addr :
  dst_addr packet = Some addr <-> well_formed_packet addr packet.
Proof.
  split.
  - destruct packet as [|b0 p]; [done|]. unfold dst_addr.
    destruct ((Z.shiftr b0 4 =? 4) && (20 <=? length (b0 :: p))%nat) eqn:E4;
      [|destruct ((Z.shiftr b0 4 =? 6) && (40 <=? length (b0 :: p))%nat) eqn:E6; [|done]].
    + apply andb_true_iff in E4 as [Hv Hl]. apply Z.eqb_eq, nibble_version in Hv. apply Nat.leb_le in Hl.
      destruct (slice_split 15 4 p ltac:(simpl in Hl; lia)) as (h & o & r & -> & Hh & Ho & Hs).
      change (drop 16 (b0 :: h ++ o ++ r)) with (drop 15 (h ++ o ++ r)). rewrite Hs. intros [= <-]. split; [done|].
      exists b0, h, r. repeat split; auto; lia.
    + apply andb_true_iff in E6 as [Hv Hl]. apply Z.eqb_eq, nibble_version in Hv. apply Nat.leb_le in Hl.
      destruct (slice_split 23 16 p ltac:(simpl in Hl; lia)) as (h & o & r & -> & Hh & Ho & Hs).
      change (drop 24 (b0 :: h ++ o ++ r)) with (drop 23 (h ++ o ++ r)). rewrite Hs. intros [= <-]. split; [done|].
      exists b0, h, r. repeat split; auto; lia.
  - destruct addr as [o|o]; intros (Ho & b0 & h & r & Hb & Hh & ->); unfold dst_addr.
    + rewrite (version_nibble b0 4) by lia. pose proof (slice_app h o r) as Hs. rewrite Ho, Hh in Hs.
      replace (20 <=? length (b0 :: h ++ o ++ r))%nat with true by (simpl length; rewrite !length_app; lia).
      change (drop 16 (b0 :: h ++ o ++ r)) with (drop 15 (h ++ o ++ r)). by rewrite Hs.
    + rewrite (version_nibble b0 6) by lia. pose proof (slice_app h o r) as Hs. rewrite Ho, Hh in Hs.
      replace (40 <=? length (b0 :: h ++ o ++ r))%nat with true by (simpl length; rewrite !length_app; lia).
      change (drop 24 (b0 :: h ++ o ++ r)) with (drop 23 (h ++ o ++ r)). by rewrite Hs.
Qed.

(** C40: whatever the key, its IPv4 address lies in 10.0.0.0/8 and never ends in
    .0 or .255, the middle octets being the hash's second and third bytes, and
    its IPv6 address is [02] followed by the next 15 bytes of the hash: inside
    200::/7, with 120 bits of the key's hash in it. *)
Theorem virtual_addrs_stay_in_their_ranges `{!Sha256} key :
  (exists h1 h2 last, sha256 key !! 1%nat = Some h1 /\ sha256 key !! 2%nat = Some h2
    /\ is_byte h1 /\ is_byte h2 /\ 1 <= last <= 254
    /\ fst (virtual_addrs key) = V4 [10; h1; h2; last])
  /\ exists o, o = take 15 (drop 1 (sha256 key)) /\ length o = 15%nat /\ bytes_ok o
    /\ snd (virtual_addrs key) = V6 (2 :: o).
Proof.
  split.
  - destruct (virtual_ipv4_octets key) as (a & b & c & d & rest & Heq & Hb & Hc & Hv).
    exists b, c, (clamp 1 254 d). rewrite Heq. split_and!; auto;
      apply (clamp_bounds 1 254); lia.
  - destruct (virtual_ipv6_octets key) as (a & o & Heq & Hl & Ho & Hv).
    exists o. split_and!; auto. rewrite Heq. symmetry. by apply take_app_length'.
Qed.
