(* ===== verification/Membership.v ===== *)
(** * The roster, the binding table and invites ([daemon/src/membership.rs])

    [Membership] is what a node knows of its network.  Instants are integers on
    any fixed scale; the random token and network id, which the source draws with
    [getrandom], are arguments of the operations that draw them. *)

From S2P Require Import Prelude External Proto Names Net Tun.

(** ** State *)

Record PendingInvite := {
  pi_network_id : option rstr;
  expires_at : Z;
}.

Record Member := {
  m_id : rstr;
  m_hostname : option rstr;
}.

#[export] Instance PendingInvite_eq_dec : EqDecision PendingInvite.
Proof. solve_decision. Defined.
#[export] Instance Member_eq_dec : EqDecision Member.
Proof. solve_decision. Defined.

Record Membership := {
  network_name : option rstr;
  coordinator_id : option rstr;
  network_id : option rstr;
  members : list Member;
  pending_invites : gmap (list Z) PendingInvite;
  bindings : gmap rstr rstr;
}.

(** [#[derive(Default)]]. *)
Definition Membership_default : Membership :=
  {| network_name := None; coordinator_id := None; network_id := None;
     members := []; pending_invites := ∅; bindings := ∅ |}.

Definition with_members (f : list Member -> list Member) (m : Membership) : Membership :=
  {| network_name := network_name m; coordinator_id := coordinator_id m; network_id := network_id m;
     members := f (members m); pending_invites := pending_invites m; bindings := bindings m |}.
Definition with_invites f (m : Membership) : Membership :=
  {| network_name := network_name m; coordinator_id := coordinator_id m; network_id := network_id m;
     members := members m; pending_invites := f (pending_invites m); bindings := bindings m |}.
Definition with_bindings f (m : Membership) : Membership :=
  {| network_name := network_name m; coordinator_id := coordinator_id m; network_id := network_id m;
     members := members m; pending_invites := pending_invites m; bindings := f (bindings m) |}.

Definition Member_new (id : rstr) : Member := {| m_id := id; m_hostname := None |}.

(** [iter_mut().find(p)] and an assignment through it. *)
Fixpoint update_first (p : Member -> bool) (f : Member -> Member) (l : list Member) : list Member :=
  match l with
  | [] => []
  | x :: l' => if p x then f x :: l' else x :: update_first p f l'
  end.

(** ** Reading the roster file *)

(** [Repr] of [Member]'s [Deserialize]. *)
Inductive MemberRepr := Legacy (id : rstr) | Full (id : rstr) (hostname : option rstr).

Definition Member_deserialize (r : MemberRepr) : Member :=
  match r with
  | Legacy id => Member_new id
  | Full id hostname => {| m_id := id; m_hostname := hostname |}
  end.

(** [hex_tokens]: entries of the [pending_invites] array. *)
Record Entry := { e_token : rstr; e_invite : PendingInvite }.
Inductive InviteRepr := IFull (e : Entry) | ILegacy (token : rstr).

#[export] Instance Entry_eq_dec : EqDecision Entry.
Proof. solve_decision. Defined.

Section Membership.
Context `{!EndpointIds, !Sha256, !HexCrate, !Bs58}.

Definition entry_le (a b : Entry) : Prop := str_le (e_token a) (e_token b).
#[global] Instance entry_le_dec a b : Decision (entry_le a b).
Proof. unfold entry_le. apply _. Defined.

Definition hex_tokens_serialize (invites : gmap (list Z) PendingInvite) : list Entry :=
  merge_sort entry_le
    ((fun '(token, invite) => {| e_token := hex_encode token; e_invite := invite |}) <$> map_to_list invites).

Fixpoint hex_tokens_deserialize_into (out : gmap (list Z) PendingInvite) (entries : list InviteRepr)
    : result message (gmap (list Z) PendingInvite) :=
  match entries with
  | [] => Ok out
  | ILegacy _ :: rest => hex_tokens_deserialize_into out rest
  | IFull entry :: rest =>
      match hex_decode (e_token entry) with
      | None => Err (Fmt "{hex::FromHexError}" [])
      | Some bytes =>
          if (length bytes =? 16)%nat then
            hex_tokens_deserialize_into (<[bytes := e_invite entry]> out) rest
          else Err (Fmt "invite token must be 16 bytes" [])
      end
  end.
Definition hex_tokens_deserialize := hex_tokens_deserialize_into ∅.

(** [Membership::parse]: [serde_json]'s reader is the argument. *)
Definition parse (from_str : rstr -> result message Membership) (data : rstr) : result message Membership :=
  from_str (trim_start_matches (N.eqb 65279) data).

(** What reading the file gave [load]. *)
Inductive read_outcome := Read (data : rstr) | NotFound | ReadError (e : message).

Definition load (from_str : rstr -> result message Membership) (file : read_outcome) : result message Membership :=
  match file with
  | Read data => map_err (fun e => Fmt "parse {}" [e]) (parse from_str data)
  | NotFound => Ok Membership_default
  | ReadError e => Err (Fmt "read {}" [e])
  end.

(** ** Operations *)

(** [new_network_id] of the sixteen random bytes it draws. *)
Definition new_network_id (bytes : list Z) : rstr := hex_encode bytes.

Definition is_live (i : PendingInvite) (network_id : option rstr) (now : Z) : bool :=
  bool_decide (pi_network_id i = network_id) && bool_decide (is_Some (pi_network_id i))
  && (now <? expires_at i).

Definition is_coordinator (m : Membership) (own_id : rstr) : bool :=
  bool_decide (coordinator_id m = Some own_id).

Definition member (m : Membership) (id : rstr) : option Member :=
  List.find (fun x => str_eqb (m_id x) id) (members m).
Definition is_member (m : Membership) (id : rstr) : bool :=
  match member m id with Some _ => true | None => false end.
Definition hostname_of (m : Membership) (id : rstr) : option rstr :=
  x ← member m id; m_hostname x.

Definition member_le (a b : Member) : Prop := str_le (m_id a) (m_id b).
#[global] Instance member_le_dec a b : Decision (member_le a b).
Proof. unfold member_le. apply _. Defined.
Definition roster (m : Membership) : list Member := merge_sort member_le (members m).

Definition bind (m : Membership) (id hostname : rstr) : Membership :=
  let m := with_bindings <[hostname := id]> m in
  with_members (update_first (fun x => str_eqb (m_id x) id)
    (fun x => {| m_id := m_id x; m_hostname := Some hostname |})) m.

Definition create (m : Membership) (name own_id : rstr) (hostname : option rstr) (random : list Z) : Membership :=
  let m := {| network_name := Some name; coordinator_id := Some own_id;
              network_id := Some (new_network_id random);
              members := [Member_new own_id]; pending_invites := ∅; bindings := bindings m |} in
  match hostname with Some h => bind m own_id h | None => m end.

Definition prune_expired (m : Membership) (now : Z) : Membership :=
  with_invites (filter (fun '(_, i) => now < expires_at i)) m.

Definition generate_invite (m : Membership) (own_id : EndpointId) (ttl now : Z) (token : list Z)
    : Membership * (rstr * Z) :=
  let m := prune_expired m now in
  let expires := now + ttl in
  let m' := with_invites <[token := {| pi_network_id := network_id m; expires_at := expires |}]> m in
  (m', (bs58_encode (id_bytes own_id ++ token), expires)).

Definition decode_invite (code : rstr) : result message (EndpointId * list Z) :=
  bytes ← ok_or (Fmt "invalid invite code" []) (bs58_decode code);
  if negb (length bytes =? 48)%nat then Err (Fmt "invalid invite code length" [])
  else
    let id_bytes := take 32 bytes in
    let token := drop 32 bytes in
    id ← ok_or (Fmt "invalid endpoint id in code" []) (id_from_bytes id_bytes);
    Ok (id, token).

Definition spoken_for (m : Membership) (name claimant : rstr) : bool :=
  let bound_elsewhere :=
    match bindings m !! name with Some owner => negb (str_eqb owner claimant) | None => false end in
  let shadows_a_fallback :=
    existsb (fun x => negb (str_eqb (m_id x) claimant) && str_eqb (fallback (m_id x)) name) (members m) in
  bound_elsewhere || shadows_a_fallback.

Definition has_hostname (h : rstr) (x : Member) : bool :=
  match m_hostname x with Some h' => str_eqb h' h | None => false end.

(** The [if force] block of [claim_hostname]. *)
Definition force_release (m : Membership) (wanted : rstr) : Membership :=
  let m := with_bindings (delete wanted) m in
  with_members (update_first (has_hostname wanted) (fun x => {| m_id := m_id x; m_hostname := None |})) m.

Definition claim_hostname (m : Membership) (claimant requested : rstr) (force : bool)
    : Membership * result message rstr :=
  match validate requested claimant with
  | Err e => (m, Err e)
  | Ok wanted =>
      let m := if force then force_release m wanted else m in
      let assigned := dedupe wanted claimant (fun candidate => spoken_for m candidate claimant) in
      (bind m claimant assigned, Ok assigned)
  end.

Definition redeem_invite (m : Membership) (token : list Z) (requester_id : rstr) (now : Z) : Membership * bool :=
  let current := network_id m in
  match pending_invites m !! token with
  | None => (m, false)
  | Some invite =>
      let m := with_invites (delete token) m in
      let m := prune_expired m now in
      if negb (is_live invite current now) then (m, false)
      else
        let m := if negb (is_member m requester_id)
                 then with_members (fun l => l ++ [Member_new requester_id]) m else m in
        (m, true)
  end.

Definition push_absent (m : Membership) (x : Member) : Membership :=
  if negb (is_member m (m_id x)) then with_members (fun l => l ++ [x]) m else m.

(** The body of [apply_roster]'s loop over the pushed roster. *)
Definition apply_member (st : Membership * list message) (x : Member) : Membership * list message :=
  let '(m, conflicts) := st in
  let '(m, x, conflicts) :=
    match m_hostname x with
    | None => (m, x, conflicts)
    | Some hostname =>
        match bindings m !! hostname with
        | Some owner =>
            if negb (str_eqb owner (m_id x)) then
              (m, {| m_id := m_id x; m_hostname := None |},
               conflicts ++ [Fmt "{hostname} belongs to {}; refused to rebind it to {}"
                 [Text hostname; Text (fallback owner); Text (fallback (m_id x))]])
            else (with_bindings <[hostname := m_id x]> m, x, conflicts)
        | None => (with_bindings <[hostname := m_id x]> m, x, conflicts)
        end
    end in
  (push_absent m x, conflicts).

Definition apply_roster (m : Membership) (own_id : rstr) (roster : list Member) : Membership * list message :=
  let '(m, conflicts) := foldl apply_member (m, []) roster in
  let ids := own_id :: option_list (coordinator_id m) in
  (foldl (fun m id => push_absent m (Member_new id)) m ids, conflicts).

Definition set_joined (m : Membership) (coordinator own_id : rstr) (name : option rstr) (roster : list Member)
    : Membership :=
  fst (apply_roster
    {| network_name := name; coordinator_id := Some coordinator; network_id := None;
       members := []; pending_invites := ∅; bindings := ∅ |} own_id roster).

Definition set_roster (m : Membership) (own_id : rstr) (name : option rstr) (roster : list Member)
    : Membership * list message :=
  let m := {| network_name := match name with Some _ => name | None => network_name m end;
              coordinator_id := coordinator_id m; network_id := network_id m;
              members := []; pending_invites := pending_invites m; bindings := bindings m |} in
  apply_roster m own_id roster.

Definition leave (m : Membership) : Membership := Membership_default.

Definition remove_member (m : Membership) (id : rstr) : Membership * bool :=
  let m' := with_members (filter (fun x => m_id x <> id)) m in
  (m', negb (length (members m) =? length (members m'))%nat).

(** [m.id.parse::<EndpointId>()] and its two addresses. *)
Definition owns_addr (addr : IpAddr) (x : Member) : bool :=
  match parse_id (m_id x) with
  | None => false
  | Some key =>
      let '(v4, v6) := virtual_addrs (id_bytes key) in
      bool_decide (addr = v4) || bool_decide (addr = v6)
  end.

(** What a query is looked up as once it is not an address. *)
Definition query_name (m : Membership) (query : rstr) : rstr :=
  let name := to_ascii_lowercase (trim_end_matches (N.eqb 46) (trim query)) in
  match network_name m with
  | Some network =>
      let zone := lit "." ++ network_label network ++ lit "." ++ ZONE in
      match strip_suffix zone name with Some bare => bare | None => name end
  | None => name
  end.

Definition answers_to (name : rstr) (x : Member) : bool :=
  str_eqb (m_id x) name || has_hostname name x || str_eqb (fallback (m_id x)) name.

Definition find_member (m : Membership) (query : rstr) : option Member :=
  match parse_ip (trim query) with
  | Some addr => List.find (owns_addr addr) (members m)
  | None =>
      let name := query_name m query in
      if is_empty name then None else List.find (answers_to name) (members m)
  end.

Definition kick (m : Membership) (query own_id : rstr) : Membership * result message Member :=
  match find_member m query with
  | None => (m, Err (Fmt "{} is not a member of this network" [Text (trim query)]))
  | Some x =>
      if str_eqb (m_id x) own_id then
        (m, Err (Fmt "that is this node — to take it out of the network, use `quix leave`" []))
      else (fst (remove_member m (m_id x)), Ok x)
  end.

Definition member_ids (m : Membership) : list EndpointId := omap (fun x => parse_id (m_id x)) (members m).

End Membership.
