(* ===== verification/MembershipProps.v ===== *)
(** * Properties of the roster, bindings and invites

    The well-formedness invariant of [Membership.v] under every operation, what
    each operation does to names and invites, and whom a query can find. *)

From S2P Require Import Prelude External Proto Names Net Tun Membership.

(** ** Lists of members *)

Definition ids (l : list Member) : list rstr := m_id <$> l.

Lemma ids_update_first p f l :
  (forall x, m_id (f x) = m_id x) -> ids (update_first p f l) = ids l.
Proof.
  intros Hf. unfold ids. induction l as [|x l IH]; [done|]. cbn [update_first].
  destruct (p x); rewrite !fmap_cons; [by rewrite Hf|by rewrite IH].
Qed.

(** With distinct ids, an update by id changes exactly that member. *)
Lemma elem_of_update_first p f l y :
  y ∈ update_first p f l -> y ∈ l \/ exists x, x ∈ l /\ p x = true /\ y = f x.
Proof.
  induction l as [|x l IH]; simpl; [auto|].
  destruct (p x) eqn:E; rewrite !elem_of_cons.
  - intros [->|?]; [right; exists x; rewrite elem_of_cons; auto|auto].
  - intros [->|H]; [auto|]. destruct (IH H) as [?|(z & ? & ? & ?)]; [auto|].
    right. exists z. rewrite elem_of_cons. auto.
Qed.

Lemma elem_of_ids x l : x ∈ l -> m_id x ∈ ids l.
Proof. intros. unfold ids. apply list_elem_of_fmap. eauto. Qed.

Lemma NoDup_ids_eq l x y : NoDup (ids l) -> x ∈ l -> y ∈ l -> m_id x = m_id y -> x = y.
Proof.
  unfold ids. induction l as [|z l IH]; [by rewrite elem_of_nil|].
  rewrite fmap_cons, NoDup_cons, !elem_of_cons. intros [Hz Hnd] [->|Hx] [->|Hy] Heq; auto.
  - destruct Hz. rewrite Heq. by apply elem_of_ids.
  - destruct Hz. rewrite <- Heq. by apply elem_of_ids.
Qed.

(** The entry an update by id leaves behind is the updated one. *)
Lemma update_first_by_id id f l y :
  (forall x, m_id (f x) = m_id x) -> NoDup (ids l) ->
  y ∈ update_first (fun x => str_eqb (m_id x) id) f l <->
  (m_id y <> id /\ y ∈ l) \/ (m_id y = id /\ exists x, x ∈ l /\ m_id x = id /\ y = f x).
Proof.
  intros Hf. unfold ids. induction l as [|x l IH]; cbn [update_first]; rewrite ?fmap_cons.
  { intros _. rewrite elem_of_nil. split; [done|]. intros [[_ ?]|(_ & x & Hx & _)]; [done|by apply elem_of_nil in Hx]. }
  rewrite NoDup_cons. intros [Hnin Hnd]. specialize (IH Hnd).
  destruct (str_eqb (m_id x) id) eqn:E.
  - apply str_eqb_eq in E as <-. rewrite !elem_of_cons. split.
    + intros [->|Hy]; [right; split; [by rewrite Hf|]; exists x; by rewrite elem_of_cons; auto|].
      left. split; [|auto]. intros Heq. apply Hnin. rewrite <- Heq. by apply elem_of_ids.
    + intros [[Hne [->|Hy]]|(_ & z & Hz & Hid & ->)]; [done|by right|].
      apply elem_of_cons in Hz as [->|Hz]; [by left|].
      destruct Hnin. rewrite <- Hid. by apply elem_of_ids.
  - apply str_eqb_neq in E. rewrite !elem_of_cons, IH. split.
    + intros [->|[[? ?]|(? & z & ? & ? & ?)]]; [auto|auto|].
      right. split; [done|]. exists z. rewrite elem_of_cons. auto.
    + intros [[? [->|?]]|(? & z & Hz & Hid & ->)]; [auto|auto|].
      apply elem_of_cons in Hz as [->|Hz]; [done|]. right; right. split; [done|]. by exists z.
Qed.

Lemma find_str_Some l id x :
  List.find (fun y => str_eqb (m_id y) id) l = Some x -> x ∈ l /\ m_id x = id.
Proof.
  intros H. apply List.find_some in H as [Hin Heq]. apply list_elem_of_In in Hin.
  by apply str_eqb_eq in Heq.
Qed.

Lemma find_str_None l id : List.find (fun y => str_eqb (m_id y) id) l = None <-> id ∉ ids l.
Proof.
  unfold ids. induction l as [|y l IH]; simpl List.find; rewrite ?fmap_cons; [split; [intros _; apply not_elem_of_nil|done]|].
  rewrite not_elem_of_cons. destruct (str_eqb (m_id y) id) eqn:E.
  - apply str_eqb_eq in E. naive_solver.
  - apply str_eqb_neq in E. rewrite IH. naive_solver.
Qed.

Section Props.
Context `{!EndpointIds, !Sha256, !HexCrate, !Bs58}.
Implicit Types m : Membership.

Lemma is_member_spec m id : is_member m id = true <-> id ∈ ids (members m).
Proof.
  unfold is_member, member. destruct (List.find _ _) as [x|] eqn:E.
  - apply find_str_Some in E as [Hin <-]. split; [intros _; by apply elem_of_ids|done].
  - apply find_str_None in E. done.
Qed.

Lemma is_member_false m id : is_member m id = false <-> id ∉ ids (members m).
Proof. rewrite <- is_member_spec. by destruct (is_member m id). Qed.

Lemma member_elem m x : NoDup (ids (members m)) -> x ∈ members m -> member m (m_id x) = Some x.
Proof.
  intros Hnd Hx. unfold member. destruct (List.find _ _) as [y|] eqn:E.
  - apply find_str_Some in E as [Hy Heq]. f_equal. by apply (NoDup_ids_eq (members m)).
  - apply find_str_None in E. destruct E. by apply elem_of_ids.
Qed.

Lemma has_hostname_spec h x : has_hostname h x = true <-> m_hostname x = Some h.
Proof. unfold has_hostname. destruct (m_hostname x); [rewrite str_eqb_eq|]; naive_solver. Qed.

(** ** The invariant *)

Record wf m : Prop := {
  (** nobody is listed twice *)
  wf_ids : NoDup (ids (members m));
  (** a name in the roster is bound to the key it is shown for *)
  wf_bound : forall x h, x ∈ members m -> m_hostname x = Some h -> bindings m !! h = Some (m_id x);
  (** every outstanding invite was minted for the network we are in *)
  wf_invites : forall t i, pending_invites m !! t = Some i -> pi_network_id i = network_id m;
}.

(** Two members never show the same name. *)
Lemma wf_hostname_unique m x y h :
  wf m -> x ∈ members m -> y ∈ members m ->
  m_hostname x = Some h -> m_hostname y = Some h -> x = y.
Proof.
  intros [Hnd Hb _] Hx Hy Hhx Hhy. apply (NoDup_ids_eq (members m)); auto.
  pose proof (Hb x h Hx Hhx). pose proof (Hb y h Hy Hhy). congruence.
Qed.

Lemma wf_default : wf Membership_default.
Proof. split; [constructor|..]; intros *; [by rewrite elem_of_nil|done]. Qed.

Lemma wf_with_invites f m :
  wf m -> (forall t i, f (pending_invites m) !! t = Some i -> exists t', pending_invites m !! t' = Some i) ->
  wf (with_invites f m).
Proof.
  intros [W1 W2 W3] Hf. split; auto. simpl. intros t i Hi. destruct (Hf t i Hi) as (t' & Ht'). eauto.
Qed.

Lemma wf_prune m now : wf m -> wf (prune_expired m now).
Proof. intros Hm. apply wf_with_invites; [done|]. intros t i Hi. apply map_lookup_filter_Some in Hi as [? _]. eauto. Qed.

Lemma NoDup_push_absent m x : NoDup (ids (members m)) -> NoDup (ids (members (push_absent m x))).
Proof.
  intros Hnd. unfold push_absent. destruct (is_member m (m_id x)) eqn:E; simpl; [done|].
  apply is_member_false in E. unfold ids. rewrite fmap_app. apply NoDup_app. split; [done|]. split; [|apply NoDup_singleton].
  intros i Hi Hi'. simpl in Hi'. apply list_elem_of_singleton in Hi' as ->. done.
Qed.

Lemma wf_push_absent m x :
  wf m -> (forall h, m_hostname x = Some h -> bindings m !! h = Some (m_id x)) -> wf (push_absent m x).
Proof.
  intros Hm Hx. pose proof (NoDup_push_absent m x (wf_ids _ Hm)) as Hnd. revert Hnd.
  unfold push_absent. destruct (is_member m (m_id x)) eqn:E; simpl; [done|].
  intros Hnd. destruct Hm as [W1 W2 W3]. split; simpl; auto.
  - intros y h Hy Hh. apply elem_of_app in Hy as [Hy|Hy]; [by apply W2|].
    apply list_elem_of_singleton in Hy as ->. auto.
Qed.

Lemma wf_insert_same m h id :
  wf m -> (bindings m !! h = None \/ bindings m !! h = Some id) -> wf (with_bindings <[h := id]> m).
Proof.
  intros [W1 W2 W3] Hh. split; simpl; auto. intros x h' Hx Hx'. specialize (W2 x h' Hx Hx').
  destruct (decide (h' = h)) as [->|]; [|by rewrite lookup_insert_ne].
  rewrite lookup_insert_eq. naive_solver.
Qed.

Lemma wf_bind m id h :
  wf m -> (bindings m !! h = None \/ bindings m !! h = Some id) -> wf (bind m id h).
Proof.
  intros Hm Hh. apply (wf_insert_same m h id) in Hm as [W1 W2 W3]; [|done].
  unfold bind. split; simpl; auto.
  - by rewrite ids_update_first.
  - intros y h' Hy Hh'. apply update_first_by_id in Hy as [[Hne Hy]|(Hid & x & Hx & Hxid & ->)]; [by apply W2| |done|].
    + simpl in *. injection Hh' as <-. rewrite lookup_insert_eq. by subst.
    + exact W1.
Qed.

Lemma spoken_for_false m name claimant :
  spoken_for m name claimant = false ->
  (bindings m !! name = None \/ bindings m !! name = Some claimant)
  /\ forall x, x ∈ members m -> m_id x <> claimant -> fallback (m_id x) <> name.
Proof.
  unfold spoken_for. rewrite orb_false_iff. intros [Hb Hf]. split.
  - destruct (bindings m !! name) as [o|]; [|by left]. right.
    apply negb_false_iff, str_eqb_eq in Hb. by subst.
  - intros x Hx Hne Heq. rewrite <- not_true_iff_false in Hf. apply Hf. apply existsb_exists.
    exists x. split; [by apply list_elem_of_In|]. rewrite Heq, str_eqb_refl, andb_true_r.
    apply negb_true_iff. by apply str_eqb_neq.
Qed.

(** Names [spoken_for] can refuse: bound ones and members' fallbacks. *)
Definition spoken_names m : list rstr := (fst <$> map_to_list (bindings m)) ++ (fallback <$> ids (members m)).

Lemma spoken_for_spoken m n claimant : spoken_for m n claimant = true -> n ∈ spoken_names m.
Proof.
  unfold spoken_for, spoken_names. rewrite orb_true_iff, elem_of_app, !list_elem_of_fmap.
  intros [Hb|Hf].
  - left. destruct (bindings m !! n) as [o|] eqn:E; [|done]. exists (n, o). split; [done|].
    by apply elem_of_map_to_list.
  - right. apply existsb_exists in Hf as (x & Hx & Heq). apply andb_true_iff in Heq as [_ Heq].
    apply str_eqb_eq in Heq. exists (m_id x). split; [done|]. apply elem_of_ids. by apply list_elem_of_In.
Qed.

(** There is room for one more name: the ten thousand candidates are not all
    spoken for. *)
Definition room m : Prop := (size (bindings m) + length (members m) < MAX_SUFFIX)%nat.

Lemma room_spoken_names m : room m -> (length (spoken_names m) < MAX_SUFFIX)%nat.
Proof.
  unfold room, spoken_names, ids. rewrite length_app, !length_fmap.
  by rewrite length_map_to_list.
Qed.

Lemma force_release_members m w : wf m ->
  ids (members (force_release m w)) = ids (members m)
  /\ forall y, y ∈ members (force_release m w) -> m_hostname y <> Some w
      /\ (y ∈ members m \/ m_hostname y = None).
Proof.
  intros [Hnd Hb _]. unfold force_release; simpl. split; [by apply ids_update_first|].
  assert (Hown : forall x y, x ∈ members m -> y ∈ members m -> m_hostname x = Some w ->
    m_hostname y = Some w -> m_id x = m_id y).
  { intros x y Hx Hy Hhx Hhy. pose proof (Hb x w Hx Hhx). pose proof (Hb y w Hy Hhy). congruence. }
  clear Hb. unfold ids in Hnd. induction (members m) as [|x l IH]; simpl; [by intros y Hy%elem_of_nil|].
  rewrite fmap_cons, NoDup_cons in Hnd. destruct Hnd as [Hx Hnd].
  destruct (has_hostname w x) eqn:E.
  - apply has_hostname_spec in E. intros y Hy. apply elem_of_cons in Hy as [->|Hy]; [simpl; auto|].
    split; [|left; by apply elem_of_cons; right]. intros Hw. apply Hx.
    rewrite (Hown x y); auto; [by apply elem_of_ids|by constructor|by apply elem_of_cons; right].
  - intros y Hy. apply elem_of_cons in Hy as [->|Hy].
    + split; [|left; constructor]. intros Hw. apply has_hostname_spec in Hw. congruence.
    + destruct (IH Hnd) with (y := y) as [Hw Hor]; [|done|].
      { intros; apply Hown; auto; by apply elem_of_cons; right. }
      split; [done|]. destruct Hor; [left; by apply elem_of_cons; right|by right].
Qed.

Lemma wf_force_release m w : wf m -> wf (force_release m w).
Proof.
  intros Hm. destruct (force_release_members m w Hm) as [Hids Hmem]. destruct Hm as [W1 W2 W3].
  split; [by rewrite Hids| |done]. intros x h Hx Hh. destruct (Hmem x Hx) as [Hw [Hin|Hn]]; [|congruence].
  simpl. rewrite lookup_delete_ne by congruence. auto.
Qed.

Lemma room_force_release m w : room m -> room (force_release m w).
Proof.
  unfold room, force_release; simpl. intros Hr.
  rewrite map_size_delete. replace (length (update_first _ _ (members m))) with (length (members m)).
  - case_match; unfold id; lia.
  - symmetry. rewrite <- !(length_fmap m_id). apply (f_equal length), ids_update_first. done.
Qed.

Definition claim_base m (wanted : rstr) (force : bool) : Membership :=
  if force then force_release m wanted else m.

Lemma wf_claim_base m wanted force : wf m -> wf (claim_base m wanted force).
Proof. destruct force; [apply wf_force_release|done]. Qed.

(** A claim is not crowded out: the name it asks for, or one of its numbered
    forms, is not spoken for.  Past those the source takes its last resort
    without looking whether that is free. *)
Definition free_name m (claimant requested : rstr) (force : bool) : Prop :=
  forall wanted, validate requested claimant = Ok wanted ->
    let base := claim_base m wanted force in
    spoken_for base wanted claimant = false
    \/ exists i, (1 <= i <= MAX_SUFFIX)%nat /\ spoken_for base (candidate wanted i) claimant = false.

(** With fewer names about than there are numbered forms, no claim is. *)
Lemma room_free_name m claimant requested force : room m -> free_name m claimant requested force.
Proof.
  intros Hroom wanted Hv base. apply validate_spec in Hv as (_ & Hl & _).
  assert (Hrb : room base) by (unfold base, claim_base; destruct force; [by apply room_force_release|done]).
  destruct (dedupe_free_cases (fun c => spoken_for base c claimant) wanted claimant (spoken_names base) Hl)
    as [[Hr Hfree]|(_ & j & Hj & Hr & Hfree & _)]; [intros n; apply spoken_for_spoken|by apply room_spoken_names|..];
    rewrite Hr in Hfree; [by left|right; by exists j].
Qed.

(** Where a claim may end: with the name asked for, its first free numbered
    form, or, when all of those are spoken for, the last resort. *)
Definition assigned m (claimant wanted name : rstr) : Prop :=
  let taken n := spoken_for m n claimant in
  (name = wanted /\ taken name = false)
  \/ (taken wanted = true /\ exists i, (1 <= i <= MAX_SUFFIX)%nat /\ name = candidate wanted i
        /\ taken name = false /\ forall k, (1 <= k < i)%nat -> taken (candidate wanted k) = true)
  \/ (taken wanted = true /\ name = with_suffix wanted (fallback claimant)
        /\ forall k, (1 <= k <= MAX_SUFFIX)%nat -> taken (candidate wanted k) = true).

Lemma claim_hostname_cases m claimant requested force m' a :
  claim_hostname m claimant requested force = (m', Ok a) ->
  exists wanted, let base := claim_base m wanted force in
    validate requested claimant = Ok wanted /\ m' = bind base claimant a /\ assigned base claimant wanted a.
Proof.
  unfold claim_hostname. destruct (validate requested claimant) as [wanted|] eqn:Hv; [|done].
  fold (claim_base m wanted force). intros [= <- <-]. exists wanted. split_and!; [done..|].
  apply (dedupe_cases (fun c => spoken_for (claim_base m wanted force) c claimant)).
Qed.

Lemma claim_crowded_out m claimant requested wanted :
  validate requested claimant = Ok wanted -> spoken_for m wanted claimant = true ->
  (forall k, (1 <= k <= MAX_SUFFIX)%nat -> spoken_for m (candidate wanted k) claimant = true) ->
  let last_resort := with_suffix wanted (fallback claimant) in
  claim_hostname m claimant requested false = (bind m claimant last_resort, Ok last_resort).
Proof.
  intros Hv Hw Hall. unfold claim_hostname. rewrite Hv.
  destruct (dedupe_cases (fun c => spoken_for m c claimant) wanted claimant) as [[Hr Hf]|[(_ & j & Hj & Hr & Hf & _)|(_ & Hr & _)]].
  - rewrite Hr in Hf. congruence.
  - rewrite Hr, Hall in Hf; done.
  - by rewrite Hr.
Qed.

Lemma claim_hostname_ok m claimant requested force m' a :
  free_name m claimant requested force -> claim_hostname m claimant requested force = (m', Ok a) ->
  exists wanted, let base := claim_base m wanted force in
    validate requested claimant = Ok wanted /\ m' = bind base claimant a
    /\ spoken_for base a claimant = false /\ validate a claimant = Ok a
    /\ (a = wanted \/ spoken_for base wanted claimant = true
          /\ exists i, (1 <= i <= MAX_SUFFIX)%nat /\ a = candidate wanted i).
Proof.
  intros Hfree (wanted & Hv & -> & Ha)%claim_hostname_cases. exists wanted. specialize (Hfree wanted Hv).
  pose proof Hv as (_ & Hl & Hf)%validate_spec.
  destruct Ha as [[-> Ht]|[(Ht & i & Hi & -> & Hf' & _)|(Ht & _ & Hall)]].
  - split_and!; auto. by apply validate_fixed.
  - split_and!; auto; [by apply candidate_validates; [|lia]|]. right. split; [done|]. by exists i.
  - destruct Hfree as [?|(i & Hi & Hfi)]; [congruence|]. rewrite Hall in Hfi; [done|lia].
Qed.

Lemma claim_hostname_err m claimant requested force m' e :
  claim_hostname m claimant requested force = (m', Err e) ->
  m' = m /\ validate requested claimant = Err e.
Proof. unfold claim_hostname. destruct (validate requested claimant); [done|]. by intros [= <- <-]. Qed.

Lemma wf_claim_hostname m claimant requested force :
  wf m -> free_name m claimant requested force -> wf (fst (claim_hostname m claimant requested force)).
Proof.
  intros Hm Hr. destruct (claim_hostname m claimant requested force) as [m' [a|e]] eqn:E.
  - apply claim_hostname_ok in E as (wanted & _ & -> & Hs & _); [|done].
    apply wf_bind; [by apply wf_claim_base|]. by apply spoken_for_false in Hs as [? _].
  - by apply claim_hostname_err in E as [-> _].
Qed.

Lemma push_absent_fields m x :
  bindings (push_absent m x) = bindings m /\ pending_invites (push_absent m x) = pending_invites m
  /\ network_id (push_absent m x) = network_id m /\ coordinator_id (push_absent m x) = coordinator_id m
  /\ network_name (push_absent m x) = network_name m.
Proof. unfold push_absent. by case_match. Qed.

Lemma wf_apply_member m cs x : wf m -> wf (fst (apply_member (m, cs) x)).
Proof.
  intros Hm. unfold apply_member. destruct (m_hostname x) as [h|] eqn:Eh; simpl.
  - destruct (bindings m !! h) as [o|] eqn:Eb; [destruct (str_eqb o (m_id x)) eqn:Eo|]; simpl;
      apply wf_push_absent; simpl; try done.
    + apply str_eqb_eq in Eo as ->. apply wf_insert_same; auto.
    + intros h' Hh'. rewrite Eh in Hh'. injection Hh' as <-. by rewrite lookup_insert_eq.
    + apply wf_insert_same; auto.
    + intros h' Hh'. rewrite Eh in Hh'. injection Hh' as <-. by rewrite lookup_insert_eq.
  - apply wf_push_absent; [done|]. by rewrite Eh.
Qed.

Lemma wf_foldl_apply m cs l : wf m -> wf (fst (foldl apply_member (m, cs) l)).
Proof.
  revert m cs; induction l as [|x l IH]; intros m cs Hm; cbn [foldl]; [done|].
  pose proof (wf_apply_member m cs x Hm). destruct (apply_member (m, cs) x). by apply IH.
Qed.

Lemma wf_foldl_push m l : wf m -> wf (foldl (fun m id => push_absent m (Member_new id)) m l).
Proof. revert m; induction l as [|i l IH]; intros m Hm; simpl; [done|]. apply IH, wf_push_absent; done. Qed.

Lemma wf_apply_roster m own l : wf m -> wf (fst (apply_roster m own l)).
Proof.
  intros Hm. unfold apply_roster. pose proof (wf_foldl_apply m [] l Hm) as Hf.
  destruct (foldl apply_member (m, []) l) as [m' cs]. by apply wf_foldl_push.
Qed.

Lemma wf_no_members m :
  members m = [] -> (forall t i, pending_invites m !! t = Some i -> pi_network_id i = network_id m) -> wf m.
Proof. intros Hm Hi. split; [rewrite Hm; constructor| |done]. rewrite Hm. by intros x h Hx%elem_of_nil. Qed.

Lemma wf_create m name own hostname random : wf (create m name own hostname random).
Proof.
  unfold create. destruct hostname as [h|].
  - unfold bind. split; simpl; rewrite ?str_eqb_refl; [apply NoDup_singleton| |done].
    intros x h' Hx. apply list_elem_of_singleton in Hx as ->. intros [= <-]. simpl. by rewrite lookup_insert_eq.
  - split; simpl; [apply NoDup_singleton| |done].
    intros x h' Hx. by apply list_elem_of_singleton in Hx as ->.
Qed.

Lemma wf_generate_invite m own ttl now token : wf m -> wf (fst (generate_invite m own ttl now token)).
Proof.
  intros Hm. apply (wf_prune m now) in Hm as [W1 W2 W3]. split; simpl; auto.
  intros t i Hi. apply lookup_insert_Some in Hi as [[_ <-]|[_ Hi]]; [done|]. by apply (W3 t).
Qed.

Lemma wf_redeem_invite m token requester now : wf m -> wf (fst (redeem_invite m token requester now)).
Proof.
  intros Hm. unfold redeem_invite. destruct (pending_invites m !! token) as [i|]; [|done].
  assert (Hm' : wf (prune_expired (with_invites (delete token) m) now)).
  { apply wf_prune, wf_with_invites; [done|]. intros t j Hj. apply lookup_delete_Some in Hj as [_ ?]. eauto. }
  case_match; [done|]. by apply (wf_push_absent _ (Member_new requester)) in Hm'.
Qed.

Lemma wf_set_joined m coordinator own name l : wf (set_joined m coordinator own name l).
Proof. apply wf_apply_roster. by apply wf_no_members. Qed.

Lemma wf_set_roster m own name l : wf m -> wf (fst (set_roster m own name l)).
Proof. intros Hm. apply wf_apply_roster. apply wf_no_members; [done|]. apply Hm. Qed.

Lemma NoDup_ids_filter (P : Member -> Prop) `{!forall x, Decision (P x)} l : NoDup (ids l) -> NoDup (ids (filter P l)).
Proof.
  intros Hnd. unfold ids in *. eapply sublist_NoDup; [exact Hnd|]. apply fmap_sublist, sublist_filter.
Qed.

Lemma wf_remove_member m id : wf m -> wf (fst (remove_member m id)).
Proof.
  intros [W1 W2 W3]. split; simpl; auto; [by apply NoDup_ids_filter|].
  intros x h Hx. apply list_elem_of_filter in Hx as [_ Hx]. by apply W2.
Qed.

Lemma wf_kick m query own : wf m -> wf (fst (kick m query own)).
Proof.
  intros Hm. unfold kick. destruct (find_member m query); [|done].
  case_match; [done|]. by apply wf_remove_member.
Qed.

(** The three ways a redemption ends. *)
Lemma redeem_cases m t r now :
  (pending_invites m !! t = None /\ redeem_invite m t r now = (m, false))
  \/ exists i, pending_invites m !! t = Some i
    /\ let m1 := prune_expired (with_invites (delete t) m) now in
       (is_live i (network_id m) now = false /\ redeem_invite m t r now = (m1, false))
       \/ (is_live i (network_id m) now = true /\ redeem_invite m t r now = (push_absent m1 (Member_new r), true)).
Proof.
  unfold redeem_invite. destruct (pending_invites m !! t) as [i|]; [right|by left].
  exists i. split; [done|]. destruct (is_live i (network_id m) now); simpl; auto.
Qed.

(** ** Histories of a node *)

(** The operations, with everything the outside decides as arguments. *)
Inductive op :=
  | OpCreate (name : rstr) (hostname : option rstr) (random : list Z)
  | OpInvite (ttl now : Z) (token : list Z)
  | OpClaim (claimant requested : rstr) (force : bool)
  | OpRedeem (token : list Z) (requester : rstr) (now : Z)
  | OpJoined (coordinator : rstr) (name : option rstr) (pushed : list Member)
  | OpRoster (name : option rstr) (pushed : list Member)
  | OpLeave
  | OpRemove (id : rstr)
  | OpKick (query : rstr).

Definition apply (own : EndpointId) m (o : op) : Membership :=
  match o with
  | OpCreate name hostname random => create m name (show_id own) hostname random
  | OpInvite ttl now token => fst (generate_invite m own ttl now token)
  | OpClaim claimant requested force => fst (claim_hostname m claimant requested force)
  | OpRedeem token requester now => fst (redeem_invite m token requester now)
  | OpJoined coordinator name pushed => set_joined m coordinator (show_id own) name pushed
  | OpRoster name pushed => fst (set_roster m (show_id own) name pushed)
  | OpLeave => leave m
  | OpRemove id => fst (remove_member m id)
  | OpKick query => fst (kick m query (show_id own))
  end.

(** A history and where it leads. *)
Inductive history (own : EndpointId) : list op -> Membership -> Membership -> Prop :=
  | history_nil m : history own [] m m
  | history_cons o os m m' : history own os (apply own m o) m' -> history own (o :: os) m m'.

(** No claim of a history is crowded out. *)
Definition uncrowded m (o : op) : Prop :=
  match o with OpClaim claimant requested force => free_name m claimant requested force | _ => True end.

Fixpoint never_crowded (own : EndpointId) (os : list op) m : Prop :=
  match os with
  | [] => True
  | o :: os => uncrowded m o /\ never_crowded own os (apply own m o)
  end.

Lemma wf_apply own m o : wf m -> uncrowded m o -> wf (apply own m o).
Proof.
  intros Hm He. destruct o; cbn [apply].
  - apply wf_create.
  - by apply wf_generate_invite.
  - by apply wf_claim_hostname.
  - by apply wf_redeem_invite.
  - apply wf_set_joined.
  - by apply wf_set_roster.
  - apply wf_default.
  - by apply wf_remove_member.
  - by apply wf_kick.
Qed.

Lemma wf_history own os m m' : history own os m m' -> never_crowded own os m -> wf m -> wf m'.
Proof. induction 1; cbn [never_crowded]; [done|]. intros [? ?] ?. eauto using wf_apply. Qed.

(** ** Bindings over a history *)

(** Operations that neither change network nor force a name. *)
Definition unforced (o : op) : Prop :=
  match o with
  | OpCreate _ _ _ | OpJoined _ _ _ | OpLeave => False
  | OpClaim _ _ force => force = false
  | _ => True
  end.

Lemma bindings_bind m id h h' o :
  bindings m !! h' = Some o -> (bindings m !! h = None \/ bindings m !! h = Some id) ->
  bindings (bind m id h) !! h' = Some o.
Proof.
  intros Ho Hh. simpl. destruct (decide (h = h')) as [->|]; [|by rewrite lookup_insert_ne].
  rewrite lookup_insert_eq. destruct Hh; congruence.
Qed.

Lemma bindings_apply_member m cs x h o :
  bindings m !! h = Some o -> bindings (fst (apply_member (m, cs) x)) !! h = Some o.
Proof.
  intros Ho. unfold apply_member. destruct (m_hostname x) as [h'|] eqn:Eh.
  - destruct (bindings m !! h') as [o'|] eqn:Eb; [destruct (str_eqb o' (m_id x)) eqn:Eo|];
      simpl; rewrite (proj1 (push_absent_fields _ _)); simpl; try done.
    + apply str_eqb_eq in Eo as ->. destruct (decide (h' = h)) as [->|]; [|by rewrite lookup_insert_ne].
      rewrite lookup_insert_eq. congruence.
    + rewrite lookup_insert_ne by congruence. done.
  - simpl. by rewrite (proj1 (push_absent_fields _ _)).
Qed.

Lemma bindings_foldl_apply m cs l h o :
  bindings m !! h = Some o -> bindings (fst (foldl apply_member (m, cs) l)) !! h = Some o.
Proof.
  revert m cs; induction l as [|x l IH]; intros m cs Ho; cbn [foldl]; [done|].
  apply (bindings_apply_member m cs x) in Ho. destruct (apply_member (m, cs) x). by apply IH.
Qed.

Lemma foldl_push_fields m l :
  let m' := foldl (fun m id => push_absent m (Member_new id)) m l in
  bindings m' = bindings m /\ pending_invites m' = pending_invites m
  /\ network_id m' = network_id m /\ coordinator_id m' = coordinator_id m /\ network_name m' = network_name m.
Proof.
  revert m; induction l as [|i l IH]; intros m; simpl; [done|].
  destruct (IH (push_absent m (Member_new i))) as (-> & -> & -> & -> & ->).
  apply push_absent_fields.
Qed.

Lemma apply_roster_fields m own l :
  let folded := fst (foldl apply_member (m, []) l) in
  let m' := fst (apply_roster m own l) in
  bindings m' = bindings folded /\ pending_invites m' = pending_invites folded
  /\ network_id m' = network_id folded.
Proof.
  unfold apply_roster. destruct (foldl apply_member (m, []) l) as [m' cs]. cbn [fst].
  destruct (foldl_push_fields m' (own :: option_list (coordinator_id m'))) as (? & ? & ? & _). auto.
Qed.

Lemma bindings_set_roster m own name l h o :
  bindings m !! h = Some o -> bindings (fst (set_roster m own name l)) !! h = Some o.
Proof.
  intros Ho. unfold set_roster. rewrite (proj1 (apply_roster_fields _ _ _)). by apply bindings_foldl_apply.
Qed.

Lemma bindings_redeem m t r now : bindings (fst (redeem_invite m t r now)) = bindings m.
Proof.
  destruct (redeem_cases m t r now) as [[_ ->]|(i & _ & [[_ ->]|[_ ->]])]; [done..|].
  cbn [fst]. by rewrite (proj1 (push_absent_fields _ _)).
Qed.

Lemma bindings_kick m q own : bindings (fst (kick m q own)) = bindings m.
Proof. unfold kick. destruct (find_member m q); [|done]. by destruct (str_eqb _ _). Qed.

Lemma bindings_claim m claimant requested h o :
  free_name m claimant requested false -> bindings m !! h = Some o ->
  bindings (fst (claim_hostname m claimant requested false)) !! h = Some o.
Proof.
  intros Hr Ho. destruct (claim_hostname m claimant requested false) as [m' [a|e]] eqn:E.
  - apply claim_hostname_ok in E as (w & _ & -> & Hs & _); [|done].
    apply spoken_for_false in Hs as [Hs _]. by apply bindings_bind.
  - by apply claim_hostname_err in E as [-> _].
Qed.

Lemma bindings_apply own m o h id :
  uncrowded m o -> unforced o -> bindings m !! h = Some id -> bindings (apply own m o) !! h = Some id.
Proof.
  destruct o; simpl; try done; intros He Hu Hb; subst;
    rewrite ?bindings_redeem, ?bindings_kick; auto using bindings_claim, bindings_set_roster.
Qed.

Lemma bindings_history own os m m' h id :
  history own os m m' -> never_crowded own os m -> Forall unforced os ->
  bindings m !! h = Some id -> bindings m' !! h = Some id.
Proof.
  induction 1; cbn [never_crowded]; [done|]. intros [? ?] Hu. apply Forall_cons in Hu as [? ?]. eauto using bindings_apply.
Qed.

(** ** Invites over a history *)

Definition mints (t : list Z) (o : op) : Prop :=
  match o with OpInvite _ _ token => token = t | _ => False end.
Definition changes_network (o : op) : Prop :=
  match o with OpCreate _ _ _ | OpJoined _ _ _ | OpLeave => True | _ => False end.

Lemma invites_apply_member m cs x :
  pending_invites (fst (apply_member (m, cs) x)) = pending_invites m
  /\ network_id (fst (apply_member (m, cs) x)) = network_id m.
Proof.
  unfold apply_member.
  destruct (m_hostname x); [|destruct (push_absent_fields m x); simpl; naive_solver].
  destruct (bindings m !! l); [destruct (negb _)|];
    match goal with |- context [push_absent ?m' ?x'] => destruct (push_absent_fields m' x') end; simpl in *; naive_solver.
Qed.

Lemma invites_apply_roster m own l :
  pending_invites (fst (apply_roster m own l)) = pending_invites m.
Proof.
  rewrite (proj1 (proj2 (apply_roster_fields _ _ _))). generalize (@nil message).
  revert m; induction l as [|x l IH]; intros m cs; cbn [foldl]; [done|].
  destruct (invites_apply_member m cs x) as [Hx _]. destruct (apply_member (m, cs) x). simpl in *. by rewrite IH.
Qed.

Lemma redeem_lookup m t r now t' i :
  pending_invites (fst (redeem_invite m t r now)) !! t' = Some i -> t' <> t /\ pending_invites m !! t' = Some i.
Proof.
  assert (Hp : pending_invites (prune_expired (with_invites (delete t) m) now) !! t' = Some i ->
    t' <> t /\ pending_invites m !! t' = Some i).
  { simpl. intros Hl. apply map_lookup_filter_Some in Hl as [Hl _]. by apply lookup_delete_Some in Hl as [? ?]. }
  destruct (redeem_cases m t r now) as [[Hn ->]|(j & _ & [[_ ->]|[_ ->]])]; [|done|].
  - intros Hi. split; [|done]. intros ->. simpl in Hi. congruence.
  - cbn [fst]. by rewrite (proj1 (proj2 (push_absent_fields _ _))).
Qed.

Lemma invites_apply own m o t i :
  ~ mints t o -> pending_invites (apply own m o) !! t = Some i ->
  ~ changes_network o /\ pending_invites m !! t = Some i.
Proof.
  destruct o; simpl; intros Hm Hi.
  - unfold create in Hi. destruct hostname; by simpl in Hi.
  - rewrite lookup_insert_ne in Hi by done. apply map_lookup_filter_Some in Hi as [? _]. auto.
  - split; [auto|]. unfold claim_hostname in Hi. destruct (validate requested claimant), force; exact Hi.
  - split; [auto|]. by apply redeem_lookup in Hi as [_ ?].
  - unfold set_joined in Hi. by rewrite invites_apply_roster in Hi.
  - unfold set_roster in Hi. rewrite invites_apply_roster in Hi. auto.
  - done.
  - auto.
  - split; [auto|]. unfold kick in Hi. destruct (find_member m query); [|exact Hi]. destruct (str_eqb _ _); exact Hi.
Qed.

(** A token not minted again is pending only if it was, and through no change
    of network. *)
Lemma invites_history own os m m' t i :
  history own os m m' -> Forall (fun o => ~ mints t o) os -> pending_invites m' !! t = Some i ->
  Forall (fun o => ~ changes_network o) os /\ pending_invites m !! t = Some i.
Proof.
  induction 1 as [|o os m m' _ IH]; intros Hm Hi; [auto|].
  apply Forall_cons in Hm as [Ho Hm]. destruct (IH Hm Hi) as [Hn Hi'].
  apply invites_apply in Hi' as [? ?]; auto.
Qed.

Lemma redeem_absent m t r now : pending_invites m !! t = None -> redeem_invite m t r now = (m, false).
Proof. unfold redeem_invite. by intros ->. Qed.

Lemma redeem_spends m t r now : pending_invites (fst (redeem_invite m t r now)) !! t = None.
Proof. apply eq_None_not_Some. intros [i Hi]. by apply redeem_lookup in Hi as [? _]. Qed.

Lemma is_live_spec i n now :
  is_live i n now = true <-> pi_network_id i = n /\ is_Some n /\ now < expires_at i.
Proof.
  unfold is_live. rewrite !andb_true_iff, !bool_decide_eq_true, Z.ltb_lt.
  split; [intros [[-> ?] ?]; auto|intros (-> & ? & ?); auto].
Qed.

(** ** Nobody is listed twice, crowded or not *)

Lemma NoDup_foldl_push m l :
  NoDup (ids (members m)) -> NoDup (ids (members (foldl (fun m id => push_absent m (Member_new id)) m l))).
Proof. revert m; induction l as [|i l IH]; intros m Hm; cbn [foldl]; [done|]. by apply IH, NoDup_push_absent. Qed.

Lemma NoDup_apply_roster m own l : NoDup (ids (members m)) -> NoDup (ids (members (fst (apply_roster m own l)))).
Proof.
  intros Hm. unfold apply_roster.
  assert (Hf : forall cs, NoDup (ids (members (fst (foldl apply_member (m, cs) l))))).
  { revert m Hm; induction l as [|x l IH]; intros m Hm cs; cbn [foldl]; [done|].
    assert (Hx : NoDup (ids (members (fst (apply_member (m, cs) x))))).
    { unfold apply_member. repeat case_match; simplify_eq; by apply NoDup_push_absent. }
    destruct (apply_member (m, cs) x) as [m1 cs1]. by apply IH. }
  specialize (Hf []). destruct (foldl apply_member (m, []) l) as [m1 cs1]. by apply NoDup_foldl_push.
Qed.

(** What a crowded claim leaves of the invariant. *)
Definition listed m : Prop :=
  NoDup (ids (members m)) /\ forall t i, pending_invites m !! t = Some i -> pi_network_id i = network_id m.

Lemma wf_listed m : wf m -> listed m.
Proof. intros [? _ ?]. by split. Qed.

Lemma network_id_set_roster m own name l : network_id (fst (set_roster m own name l)) = network_id m.
Proof.
  unfold set_roster. rewrite (proj2 (proj2 (apply_roster_fields _ _ _))).
  set (m0 := {| network_name := _; members := [] |}). change (network_id m) with (network_id m0).
  generalize (@nil message). generalize m0. clear. induction l as [|x l IH]; intros m cs; cbn [foldl]; [done|].
  destruct (invites_apply_member m cs x) as [_ Hx]. destruct (apply_member (m, cs) x). simpl in *. by rewrite IH.
Qed.

Lemma listed_claim m claimant requested force : listed m -> listed (fst (claim_hostname m claimant requested force)).
Proof.
  intros [Hnd Hi]. unfold claim_hostname. destruct (validate requested claimant); [|by split]. cbn [fst]. split.
  - unfold bind. simpl. rewrite ids_update_first by done. destruct force; [|done]. simpl. by rewrite ids_update_first.
  - by destruct force.
Qed.

Lemma listed_redeem m token requester now : listed m -> listed (fst (redeem_invite m token requester now)).
Proof.
  intros [Hnd Hi]. destruct (redeem_cases m token requester now) as [[_ E]|(j & _ & [[_ E]|[_ E]])];
    pose proof (redeem_lookup m token requester now) as Hl; rewrite E in *; cbn [fst] in *; split.
  1, 3: done. 1, 2: by intros t i (_ & ?%Hi)%Hl.
  - by apply NoDup_push_absent.
  - intros t i (_ & ?%Hi)%Hl. by rewrite (proj1 (proj2 (proj2 (push_absent_fields _ _)))).
Qed.

Lemma listed_remove m id : listed m -> listed (fst (remove_member m id)).
Proof. intros [Hnd Hi]. split; [by apply NoDup_ids_filter|done]. Qed.

Lemma listed_apply own m o : listed m -> listed (apply own m o).
Proof.
  intros Hm. destruct o; cbn [apply].
  - apply wf_listed, wf_create.
  - destruct Hm as [Hnd Hi]. split; [done|]. intros t i Ht. cbn in *.
    apply lookup_insert_Some in Ht as [[_ <-]|[_ Ht]]; [done|]. apply map_lookup_filter_Some in Ht as [Ht _]. by apply (Hi t).
  - by apply listed_claim.
  - by apply listed_redeem.
  - apply wf_listed, wf_set_joined.
  - destruct Hm as [Hnd Hi]. split; [apply NoDup_apply_roster; constructor|].
    rewrite network_id_set_roster. unfold set_roster. rewrite invites_apply_roster. exact Hi.
  - apply wf_listed, wf_default.
  - by apply listed_remove.
  - unfold kick. destruct (find_member m query); [|done]. case_match; [done|]. by apply listed_remove.
Qed.

Lemma listed_history own os m m' : history own os m m' -> listed m -> listed m'.
Proof. induction 1; eauto using listed_apply. Qed.

(** ** What a pushed roster does *)

(** Who ends up holding [h]: whoever held it, else the first entry claiming it. *)
Definition pinned (b : gmap rstr rstr) (l : list Member) (h : rstr) : option rstr :=
  match b !! h with Some o => Some o | None => m_id <$> List.find (has_hostname h) l end.

(** The refusal an entry earns under the bindings [b]. *)
Definition refusal (b : rstr -> option rstr) (x : Member) : option message :=
  h ← m_hostname x; o ← b h;
  if str_eqb o (m_id x) then None
  else Some (Fmt "{hostname} belongs to {}; refused to rebind it to {}"
    [Text h; Text (fallback o); Text (fallback (m_id x))]).

(** An entry with the name it may keep under the bindings [b]. *)
Definition settle (b : rstr -> option rstr) (x : Member) : Member :=
  match refusal b x with
  | Some _ => {| m_id := m_id x; m_hostname := None |}
  | None => x
  end.

Lemma push_absent_members m x :
  members (push_absent m x) = if is_member m (m_id x) then members m else members m ++ [x].
Proof. unfold push_absent. by destruct (is_member m (m_id x)). Qed.

Lemma ids_push_absent m x i : i ∈ ids (members (push_absent m x)) <-> i ∈ ids (members m) \/ i = m_id x.
Proof.
  rewrite push_absent_members. destruct (is_member m (m_id x)) eqn:E.
  - apply is_member_spec in E. split; [auto|]. intros [?| ->]; done.
  - unfold ids. rewrite fmap_app, elem_of_app. simpl. by rewrite list_elem_of_singleton.
Qed.

(** One entry, by the bindings it leaves. *)
Lemma apply_member_spec m cs x :
  let m' := fst (apply_member (m, cs) x) in
  let b h := bindings m' !! h in
  (forall h, b h = pinned (bindings m) [x] h)
  /\ members m' = members (push_absent m (settle b x))
  /\ snd (apply_member (m, cs) x) = cs ++ option_list (refusal b x).
Proof.
  unfold apply_member, settle, refusal, pinned. destruct (m_hostname x) as [h|] eqn:Eh.
  2:{ simpl. rewrite (proj1 (push_absent_fields m x)). split_and!; [|done|by rewrite app_nil_r].
      intros h'. unfold has_hostname. rewrite Eh. by destruct (bindings m !! h'). }
  destruct (bindings m !! h) as [o|] eqn:Eb; [destruct (str_eqb o (m_id x)) eqn:Eo|]; simpl;
    rewrite (proj1 (push_absent_fields _ _)); simpl;
    rewrite ?lookup_insert_eq, ?Eb; simpl; rewrite ?str_eqb_refl, ?Eo; simpl; rewrite ?app_nil_r; split_and!; try done; try (by rewrite !push_absent_members).
  - apply str_eqb_eq in Eo as ->. intros h'. destruct (decide (h = h')) as [->|].
    + by rewrite lookup_insert_eq, Eb.
    + rewrite lookup_insert_ne by done. destruct (bindings m !! h'); [done|].
      unfold has_hostname. rewrite Eh. destruct (str_eqb h h') eqn:E; [by apply str_eqb_eq in E|done].
  - intros h'. destruct (bindings m !! h') eqn:Eb'; [done|].
    unfold has_hostname. rewrite Eh. destruct (str_eqb h h') eqn:E; [|done]. apply str_eqb_eq in E. congruence.
  - intros h'. unfold has_hostname. rewrite Eh. destruct (decide (h = h')) as [->|].
    + rewrite lookup_insert_eq, Eb, str_eqb_refl. done.
    + rewrite lookup_insert_ne by done. destruct (bindings m !! h'); [done|].
      destruct (str_eqb h h') eqn:E; [by apply str_eqb_eq in E|done].
Qed.

Lemma pinned_cons (b b' : gmap rstr rstr) x l h :
  (forall h, b' !! h = pinned b [x] h) -> pinned b' l h = pinned b (x :: l) h.
Proof.
  intros Hb. unfold pinned. rewrite Hb. unfold pinned. simpl.
  destruct (b !! h); [done|]. by destruct (has_hostname h x).
Qed.

Lemma settle_id b x : m_id (settle b x) = m_id x.
Proof. unfold settle. by destruct (refusal b x). Qed.

Lemma refusal_stable (b b' : rstr -> option rstr) x :
  (forall h o, b h = Some o -> b' h = Some o) -> (forall h, m_hostname x = Some h -> is_Some (b h)) ->
  refusal b' x = refusal b x.
Proof.
  intros Hb Hs. unfold refusal. destruct (m_hostname x) as [h|]; simpl; [|done].
  destruct (Hs h eq_refl) as [o Ho]. by rewrite Ho, (Hb _ _ Ho).
Qed.

Lemma pinned_self b x l h : m_hostname x = Some h -> is_Some (pinned b (x :: l) h).
Proof.
  intros Hx. unfold pinned. destruct (b !! h); [eauto|]. simpl.
  rewrite (proj2 (has_hostname_spec h x) Hx). simpl. eauto.
Qed.

(** The whole loop of [apply_roster]. *)
Lemma foldl_apply_spec m cs l :
  let m' := fst (foldl apply_member (m, cs) l) in
  let b h := bindings m' !! h in
  (forall h, b h = pinned (bindings m) l h)
  /\ (forall i, i ∈ ids (members m') <-> i ∈ ids (members m) \/ i ∈ ids l)
  /\ (forall y, y ∈ members m' -> y ∈ members m \/ exists x, x ∈ l /\ y = settle b x)
  /\ snd (foldl apply_member (m, cs) l) = cs ++ omap (refusal b) l
  /\ coordinator_id m' = coordinator_id m.
Proof.
  revert m cs; induction l as [|x l IH]; intros m cs; cbn [foldl].
  { simpl. split_and!; auto; [|set_solver|by rewrite app_nil_r].
    intros h. unfold pinned. by destruct (bindings m !! h). }
  destruct (apply_member_spec m cs x) as (Hb & Hmem & Hcs).
  assert (Hco : coordinator_id (fst (apply_member (m, cs) x)) = coordinator_id m).
  { unfold apply_member. repeat case_match; simpl; simplify_eq;
      rewrite (proj1 (proj2 (proj2 (proj2 (push_absent_fields _ _))))); done. }
  destruct (apply_member (m, cs) x) as [m1 cs1]. cbn [fst snd] in *.
  destruct (IH m1 cs1) as (Hb' & Hids & Hys & Hcs' & Hco').
  set (m' := fst (foldl apply_member (m1, cs1) l)) in *. cbv zeta.
  assert (Hr : refusal (fun h => bindings m' !! h) x = refusal (fun h => bindings m1 !! h) x).
  { apply refusal_stable.
    - intros h o Ho. rewrite Hb'. unfold pinned. by rewrite Ho.
    - intros h Hx. rewrite Hb. by apply pinned_self. }
  split_and!.
  - intros h. rewrite Hb'. by apply pinned_cons.
  - intros i. rewrite Hids, Hmem, ids_push_absent, settle_id. unfold ids. rewrite fmap_cons, elem_of_cons. tauto.
  - intros y Hy. destruct (Hys y Hy) as [Hy1|(z & Hz & ->)]; [|right; exists z; split; [by right|done]].
    rewrite Hmem, push_absent_members in Hy1. destruct (is_member m _); [by left|].
    apply elem_of_app in Hy1 as [?|Hy1]; [by left|]. apply list_elem_of_singleton in Hy1 as ->.
    right. exists x. split; [constructor|]. unfold settle. by rewrite Hr.
  - rewrite Hcs', Hcs. simpl. rewrite Hr. rewrite <- app_assoc. f_equal. by destruct (refusal _ x).
  - by rewrite Hco'.
Qed.

Lemma foldl_push_members m l y :
  y ∈ members (foldl (fun m id => push_absent m (Member_new id)) m l) ->
  y ∈ members m \/ exists i, i ∈ l /\ y = Member_new i.
Proof.
  revert m; induction l as [|i l IH]; intros m; cbn [foldl]; [auto|]. intros Hy.
  destruct (IH _ Hy) as [Hy'|(j & Hj & ->)]; [|right; exists j; split; [by right|done]].
  rewrite push_absent_members in Hy'. destruct (is_member m _); [by left|].
  apply elem_of_app in Hy' as [?|Hy']; [by left|]. apply list_elem_of_singleton in Hy' as ->.
  right. exists i. split; [constructor|done].
Qed.

Lemma foldl_push_ids m l i :
  i ∈ ids (members (foldl (fun m id => push_absent m (Member_new id)) m l)) <-> i ∈ ids (members m) \/ i ∈ l.
Proof.
  revert m; induction l as [|j l IH]; intros m; cbn [foldl]; [rewrite elem_of_nil; tauto|].
  rewrite IH, ids_push_absent, elem_of_cons. simpl. tauto.
Qed.

Lemma set_roster_spec m own name l :
  let m' := fst (set_roster m own name l) in
  let b h := bindings m' !! h in
  (forall h, b h = pinned (bindings m) l h)
  /\ (forall i, i ∈ ids (members m') <-> i ∈ ids l \/ i = own \/ coordinator_id m = Some i)
  /\ (forall y h, y ∈ members m' -> m_hostname y = Some h -> b h = Some (m_id y) /\ y ∈ l)
  /\ snd (set_roster m own name l) = omap (refusal b) l.
Proof.
  unfold set_roster, apply_roster.
  set (m0 := {| network_name := _; coordinator_id := _; network_id := _; members := []; pending_invites := _; bindings := _ |}).
  destruct (foldl_apply_spec m0 [] l) as (Hb & Hids & Hys & Hcs & Hco).
  destruct (foldl apply_member (m0, []) l) as [m1 cs]. cbn [fst snd] in *.
  destruct (foldl_push_fields m1 (own :: option_list (coordinator_id m1))) as (Hfb & _).
  cbv zeta. rewrite Hfb. split_and!.
  - done.
  - intros i. rewrite foldl_push_ids, Hids, Hco, elem_of_cons.
    change (coordinator_id m0) with (coordinator_id m). change (ids (members m0)) with (@nil rstr).
    rewrite elem_of_nil. destruct (coordinator_id m); simpl;
      rewrite ?list_elem_of_singleton, ?elem_of_nil; naive_solver.
  - intros y h Hy Hh. apply foldl_push_members in Hy as [Hy|(i & _ & ->)]; [|done].
    destruct (Hys y Hy) as [Hn|(x & Hx & ->)]; [by apply elem_of_nil in Hn|].
    unfold settle in *. destruct (refusal _ x) as [e|] eqn:Er; [done|]. split; [|done].
    unfold refusal in Er. rewrite Hh in Er. simpl in Er.
    destruct (bindings m1 !! h) as [o|] eqn:Eo; simpl in Er.
    + destruct (str_eqb o (m_id x)) eqn:E; [|done]. apply str_eqb_eq in E. by subst.
    + exfalso. rewrite Hb in Eo. unfold pinned in Eo. destruct (bindings m0 !! h); [done|].
      destruct (List.find (has_hostname h) l) eqn:Ef; [done|].
      apply list_elem_of_In, (List.find_none _ _ Ef) in Hx.
      by rewrite (proj2 (has_hostname_spec h x) Hh) in Hx.
  - done.
Qed.

(** ** Members over a history *)

Lemma ids_bind m id h : ids (members (bind m id h)) = ids (members m).
Proof. unfold bind. cbn. by apply ids_update_first. Qed.

Lemma ids_claim m claimant requested force :
  ids (members (fst (claim_hostname m claimant requested force))) = ids (members m).
Proof.
  unfold claim_hostname. destruct (validate requested claimant); [|done]. cbn [fst].
  rewrite ids_bind. destruct force; [|done]. cbn. by apply ids_update_first.
Qed.

Lemma foldl_apply_fields m cs l :
  let m' := fst (foldl apply_member (m, cs) l) in network_name m' = network_name m /\ coordinator_id m' = coordinator_id m.
Proof.
  revert m cs; induction l as [|x l IH]; intros m cs; cbn [foldl]; [done|].
  rewrite (surjective_pairing (apply_member (m, cs) x)). destruct (IH (fst (apply_member (m, cs) x)) (snd (apply_member (m, cs) x))) as [-> ->].
  unfold apply_member. repeat case_match; simplify_eq; cbn [fst];
    match goal with |- context [push_absent ?a ?b] => by destruct (push_absent_fields a b) as (_ & _ & _ & -> & ->) end.
Qed.

Lemma coordinator_apply own m o : ~ changes_network o -> coordinator_id (apply own m o) = coordinator_id m.
Proof.
  destruct o; simpl; intros Ho; try done.
  - unfold claim_hostname. by destruct (validate requested claimant), force.
  - destruct (redeem_cases m token requester now) as [[_ ->]|(i & _ & [[_ ->]|[_ ->]])]; [done..|].
    cbn [fst]. by rewrite (proj1 (proj2 (proj2 (proj2 (push_absent_fields _ _))))).
  - unfold set_roster, apply_roster.
    match goal with |- context [foldl apply_member (?m0, []) pushed] => destruct (foldl_apply_fields m0 [] pushed) as [_ Hc] end.
    destruct (foldl apply_member _ pushed) as [m2 cs]. cbn [fst] in *.
    by rewrite (proj1 (proj2 (proj2 (proj2 (foldl_push_fields m2 _))))).
  - unfold kick. destruct (find_member m query); [|done]. by destruct (str_eqb _ _).
Qed.

(** Who an operation can bring in. *)
Lemma ids_apply own m o i :
  ~ changes_network o -> (forall name l, o <> OpRoster name l) -> i ∈ ids (members (apply own m o)) ->
  i ∈ ids (members m) \/ exists t now, o = OpRedeem t i now /\ is_Some (pending_invites m !! t).
Proof.
  destruct o; simpl; intros Ho Hr Hi; try done; try (by left).
  - left. by rewrite ids_claim in Hi.
  - destruct (redeem_cases m token requester now) as [[_ E]|(j & Hj & [[_ E]|[_ E]])]; rewrite E in Hi; [by left..|].
    cbn [fst] in Hi. apply ids_push_absent in Hi as [Hi| ->]; [by left|]. right. exists token, now. split; [done|eauto].
  - by destruct (Hr name pushed).
  - left. unfold ids in *. apply list_elem_of_fmap in Hi as (x & -> & Hx). apply list_elem_of_filter in Hx as [_ Hx].
    by apply elem_of_ids.
  - left. revert Hi. unfold kick. destruct (find_member m query); [|done]. destruct (str_eqb _ _); [done|].
    cbn. unfold ids. intros Hi. apply list_elem_of_fmap in Hi as (x & -> & Hx). apply list_elem_of_filter in Hx as [_ Hx].
    by apply elem_of_ids.
Qed.

End Props.

(** ** Properties *)

Section Theorems.
Context `{!EndpointIds, !Sha256, !HexCrate, !Bs58}.
Implicit Types m : Membership.

(** C5: in every state a node can reach, nobody is listed twice and every
    outstanding invite was minted for the present network; and as long as every
    claim so far found its name or one of its 9,999 numbered forms free, a name
    shown in the roster is bound to the key it is shown for and no two members
    show the same name. *)
Theorem roster_invariant own os m :
  history own os Membership_default m ->
  NoDup (ids (members m))
  /\ (forall t i, pending_invites m !! t = Some i -> pi_network_id i = network_id m)
  /\ (never_crowded own os Membership_default ->
       (forall x h, x ∈ members m -> m_hostname x = Some h -> bindings m !! h = Some (m_id x))
       /\ (forall x y h, x ∈ members m -> y ∈ members m -> m_hostname x = Some h -> m_hostname y = Some h -> x = y)).
Proof.
  intros Hh. destruct (listed_history own os _ m Hh (wf_listed _ wf_default)) as [Hnd Hi].
  split; [done|]. split; [done|]. intros Hc. pose proof (wf_history own os _ m Hh Hc wf_default) as Hm.
  split; [apply Hm|]. intros x y h. by apply wf_hostname_unique.
Qed.

(** C6: as long as a node stays in its network, nobody forces a name and every
    claim finds its name or one of its 9,999 numbered forms free, a name once
    bound to a key stays bound to that key, through pushed rosters, claims,
    departures and kicks alike. *)
Theorem names_never_move own os m m' h id :
  history own os m m' -> never_crowded own os m -> Forall unforced os ->
  bindings m !! h = Some id -> bindings m' !! h = Some id.
Proof. apply bindings_history. Qed.

(** C13: applying a pushed roster, name by name: a name already bound keeps its
    key and an unbound one goes to the first entry claiming it; the members are
    exactly the pushed ids, this node and its coordinator; a name is shown only
    by the key it is bound to, as pushed; and the conflicts reported are exactly
    the entries whose name belongs to another key, in order. *)
Theorem set_roster_functional m own name l :
  let m' := fst (set_roster m own name l) in
  (forall h, bindings m' !! h = match bindings m !! h with
                                | Some o => Some o
                                | None => m_id <$> List.find (has_hostname h) l end)
  /\ (forall i, i ∈ ids (members m') <-> i ∈ ids l \/ i = own \/ coordinator_id m = Some i)
  /\ (forall y h, y ∈ members m' -> m_hostname y = Some h -> bindings m' !! h = Some (m_id y) /\ y ∈ l)
  /\ snd (set_roster m own name l) = omap (refusal (fun h => bindings m' !! h)) l.
Proof. apply set_roster_spec. Qed.

(** C24: a hostname claim fails only when the name is not valid, and then changes
    nothing.  Otherwise it ends with the name asked for, the first of its
    numbered forms nobody else speaks for, or, when none of those is free, the
    last resort, which nobody checks; the claimant's roster entry shows that
    name and it is bound to the claimant, the roster's ids are unchanged, and
    every binding of another name is kept, short of the one a forced claim takes
    over.  As long as the name or a numbered form of it was free, what the claim
    ends with is a valid name that no other key was bound to, no other member
    shows and no other member has as its fallback. *)
Theorem claim_hostname_functional m claimant requested force :
  wf m ->
  let '(m', r) := claim_hostname m claimant requested force in
  match r with
  | Err e => m' = m /\ validate requested claimant = Err e
  | Ok name =>
      (exists wanted, validate requested claimant = Ok wanted /\ assigned (claim_base m wanted force) claimant wanted name)
      /\ ids (members m') = ids (members m)
      /\ bindings m' !! name = Some claimant
      /\ (forall y, y ∈ members m' -> m_id y = claimant -> m_hostname y = Some name)
      /\ (forall h o, h <> name -> bindings m !! h = Some o ->
            bindings m' !! h = Some o \/ force = true /\ validate requested claimant = Ok h)
      /\ (free_name m claimant requested force ->
            validate name claimant = Ok name
            /\ (forall o, bindings m !! name = Some o -> o = claimant \/ force = true /\ validate requested claimant = Ok name)
            /\ (forall y, y ∈ members m' -> m_hostname y = Some name -> m_id y = claimant)
            /\ (forall y, y ∈ members m' -> m_id y <> claimant -> fallback (m_id y) <> name))
  end.
Proof.
  intros Hm. destruct (claim_hostname m claimant requested force) as [m' [a|e]] eqn:E.
  2: by apply claim_hostname_err in E.
  pose proof E as (w & Hv & -> & Ha)%claim_hostname_cases.
  assert (Hb : wf (claim_base m w force)) by (by apply wf_claim_base).
  assert (Hold : forall h, (force = true /\ h = w) \/ bindings (claim_base m w force) !! h = bindings m !! h).
  { intros h. destruct force; [|by right]. destruct (decide (h = w)) as [->|]; [by left|right; cbn; by rewrite lookup_delete_ne]. }
  split_and!.
  - by exists w.
  - rewrite ids_bind. destruct force; [by apply force_release_members|done].
  - simpl. by rewrite lookup_insert_eq.
  - intros y Hy Hid. simpl in Hy. apply update_first_by_id in Hy as [[? _]|(_ & x & _ & _ & ->)]; [done|done|done|apply Hb].
  - intros h o Hne Ho. destruct (Hold h) as [[-> ->]|Hk]; [by right|]. left. simpl. by rewrite lookup_insert_ne, Hk.
  - intros Hfree. apply claim_hostname_ok in E as (w' & Hv' & _ & Hs & Hva & _); [|done].
    assert (w' = w) as -> by congruence. apply spoken_for_false in Hs as [Hs Hfb]. split_and!; [done|..].
    + intros o Ho. destruct (Hold a) as [[-> ->]|Hk]; [by right|]. left. rewrite Hk, Ho in Hs. naive_solver.
    + intros y Hy Hh. apply (wf_bound _ (wf_bind _ claimant a Hb Hs) y a Hy) in Hh. simpl in Hh.
      rewrite lookup_insert_eq in Hh. congruence.
    + intros y Hy Hne. simpl in Hy. apply update_first_by_id in Hy as [[_ Hy]|[? _]]; [by apply Hfb|done|done|apply Hb].
Qed.

(** C22: redeeming an invite admits the bearer exactly when the token is pending,
    was minted for the network this node is now in, and its window is still
    open; the bearer is then a member, everyone else stays, and nobody else is
    admitted.  Either way a pending token is spent. *)
Theorem redeem_invite_functional m token requester now :
  let '(m', admitted) := redeem_invite m token requester now in
  (admitted = true <-> exists i, pending_invites m !! token = Some i
     /\ pi_network_id i = network_id m /\ is_Some (network_id m) /\ now < expires_at i)
  /\ pending_invites m' !! token = None
  /\ members m' = (if admitted then if is_member m requester then members m
                                    else members m ++ [Member_new requester]
                   else members m)
  /\ bindings m' = bindings m.
Proof.
  pose proof (redeem_spends m token requester now) as Hspent.
  pose proof (bindings_redeem m token requester now) as Hbind.
  destruct (redeem_cases m token requester now) as [[Hn E]|(i & Hi & [[Hl E]|[Hl E]])]; rewrite E in *;
    cbn [fst] in *; split_and!; try done.
  - split; [done|]. naive_solver.
  - split; [done|]. intros (j & Hj & Hlive). assert (j = i) as -> by congruence.
    apply is_live_spec in Hlive. congruence.
  - split; [|done]. intros _. exists i. split; [done|]. by apply is_live_spec.
  - by rewrite push_absent_members.
Qed.

(** C20: a token presented once is spent: however the first presentation ended,
    whatever happens afterwards short of minting the very same token again,
    presenting it admits nobody and changes nothing. *)
Theorem invites_are_single_use own os m1 m2 token first second t1 t2 :
  history own os (fst (redeem_invite m1 token first t1)) m2 ->
  Forall (fun o => ~ mints token o) os ->
  redeem_invite m2 token second t2 = (m2, false).
Proof.
  intros Hh Hm. apply redeem_absent. apply eq_None_not_Some. intros [i Hi].
  apply (invites_history own os _ _ token i Hh Hm) in Hi as [_ Hi]. by rewrite redeem_spends in Hi.
Qed.

(** no invite outlives its network: once the node has created or joined
    another network or left this one, a token minted before admits nobody. *)
Theorem invites_die_with_their_network own os m1 m2 token requester now :
  history own os m1 m2 -> Forall (fun o => ~ mints token o) os ->
  Exists changes_network os ->
  redeem_invite m2 token requester now = (m2, false).
Proof.
  intros Hh Hm Hc. apply redeem_absent. apply eq_None_not_Some. intros [i Hi].
  apply (invites_history own os m1 m2 token i Hh Hm) in Hi as [Hn _].
  apply Exists_exists in Hc as (o & Ho & Hoc). rewrite Forall_forall in Hn. by apply (Hn o).
Qed.

End Theorems.

(** ** Witnesses *)

Lemma room_small m : (size (bindings m) + length (members m) <? 100)%nat = true -> room m.
Proof. unfold room. pose proof MAX_SUFFIX_val. lia. Qed.

Import Concrete.

Module Demo.

Definition id1 : rstr := show_id K1.
Definition id2 : rstr := show_id K2.
Definition id3 : rstr := show_id K3.
Definition id4 : rstr := show_id K4.
Definition token : list Z := [1; 2; 3; 4; 5; 6; 7; 8; 9; 10; 11; 12; 13; 14; 15; 16].
Definition random : list Z := replicate 16 9.

(** K1 makes a network, invites K2, and K2 comes in and asks for a taken name. *)
Definition ops : list op :=
  [OpCreate (lit "home") (Some (lit "web")) random;
   OpInvite 300 0 token;
   OpRedeem token (id2) 299;
   OpClaim (id2) (lit "WEB") false].
Definition state : Membership := foldl (apply K1) Membership_default ops.

Definition takeover : op :=
  OpRoster None [{| m_id := id3; m_hostname := Some (lit "web") |}].
Definition rename : op := OpClaim (id2) (lit "WEB") false.
Definition again : op := OpCreate (lit "home") None random.
Definition minted : Membership := foldl (apply K1) Membership_default (take 2 ops).

Lemma history_demo : history K1 ops Membership_default state.
Proof.
  unfold ops. do 4 apply history_cons. apply history_nil.
Qed.

Lemma never_crowded_demo : never_crowded K1 ops Membership_default.
Proof. repeat split. apply room_free_name, room_small. by vm_compute. Qed.

Lemma wf_state : wf state.
Proof. eapply wf_history; [exact history_demo|exact never_crowded_demo|apply wf_default]. Qed.

Definition member1 : Member := {| m_id := id1; m_hostname := Some (lit "web") |}.
Definition member2 : Member := {| m_id := id2; m_hostname := Some (lit "web-1") |}.

Lemma members_state : members state = [member1; member2].
Proof. by vm_compute. Qed.

Lemma room_state : room state.
Proof. apply room_small. by vm_compute. Qed.
End Demo.

(** K1 has claimed every name that K2 could be given. *)
Module Crowded.

Definition last_resort : rstr := with_suffix (lit "web") (fallback Demo.id2).
Definition taken : list rstr := lit "web" :: last_resort :: (candidate (lit "web") <$> seq 1 MAX_SUFFIX).
Definition member1 : Member := {| m_id := Demo.id1; m_hostname := Some last_resort |}.
Definition state : Membership :=
  {| network_name := Some (lit "home"); coordinator_id := Some Demo.id1; network_id := None;
     members := [member1; Member_new Demo.id2]; pending_invites := ∅;
     bindings := gset_to_gmap Demo.id1 (list_to_set taken) |}.

Lemma ids_differ : Demo.id1 <> Demo.id2.
Proof. by apply (bool_decide_unpack _). Qed.

Lemma bound n : n ∈ taken -> bindings state !! n = Some Demo.id1.
Proof. intros Hn. apply lookup_gset_to_gmap_Some. split; [by apply elem_of_list_to_set|done]. Qed.

Lemma spoken n : n ∈ taken -> spoken_for state n Demo.id2 = true.
Proof.
  intros Hn. unfold spoken_for. rewrite bound by done.
  rewrite (proj2 (str_eqb_neq _ _)) by exact ids_differ. done.
Qed.

Lemma last_resort_taken : last_resort ∈ taken.
Proof. apply elem_of_cons. right. apply elem_of_cons. by left. Qed.

Lemma candidate_taken i : (1 <= i <= MAX_SUFFIX)%nat -> candidate (lit "web") i ∈ taken.
Proof.
  intros Hi. apply elem_of_cons. right. apply elem_of_cons. right. apply list_elem_of_fmap. exists i.
  split; [done|]. apply elem_of_seq. lia.
Qed.

Lemma web_validates : validate (lit "web") Demo.id2 = Ok (lit "web").
Proof. by vm_compute. Qed.

Lemma wf_crowded : wf state.
Proof.
  split; [|..]; cbn [members pending_invites network_id state].
  - unfold ids. cbn. apply NoDup_cons. split; [|apply NoDup_singleton].
    rewrite list_elem_of_singleton. exact ids_differ.
  - intros x h Hx Hh. apply elem_of_cons in Hx as [->|Hx].
    + apply Some_inj in Hh as <-. exact (bound _ last_resort_taken).
    + apply list_elem_of_singleton in Hx as ->. discriminate Hh.
  - intros t i. by rewrite lookup_empty.
Qed.

Lemma claimed : claim_hostname state Demo.id2 (lit "web") false = (bind state Demo.id2 last_resort, Ok last_resort).
Proof.
  apply claim_crowded_out; [exact web_validates|apply spoken, elem_of_cons; by left|].
  intros k Hk. by apply spoken, candidate_taken.
Qed.
End Crowded.

(** when a name and all 9,999 numbered forms of it are spoken for, the last
    resort is handed out without a look: an unforced claim then takes over a name
    bound to another key, and two members show it. *)
Theorem a_crowded_claim_takes_a_name : exists m name,
  let '(m', r) := claim_hostname m Demo.id2 (lit "web") false in
  wf m /\ bindings m !! name = Some Demo.id1
  /\ r = Ok name /\ bindings m' !! name = Some Demo.id2
  /\ m_hostname <$> members m' = [Some name; Some name].
Proof.
  exists Crowded.state, Crowded.last_resort. rewrite Crowded.claimed. split_and!.
  - exact Crowded.wf_crowded.
  - apply Crowded.bound, Crowded.last_resort_taken.
  - done.
  - cbn [bind bindings with_members with_bindings]. by rewrite lookup_insert_eq.
  - cbn [bind members with_members with_bindings Crowded.state update_first m_id Crowded.member1 Member_new].
    rewrite (proj2 (str_eqb_neq _ _)) by exact Crowded.ids_differ. by rewrite str_eqb_refl.
Qed.

Example roster_invariant_witness :
  m_hostname <$> members Demo.state = [Some (lit "web"); Some (lit "web-1")]
  /\ NoDup (ids (members Demo.state)).
Proof.
  split; [by vm_compute|]. apply (roster_invariant _ Demo.ops _ Demo.history_demo).
Defined.

Example names_never_move_witness :
  bindings Demo.state !! lit "web" = Some Demo.id1
  /\ bindings (apply K1 Demo.state Demo.takeover) !! lit "web" = Some Demo.id1.
Proof.
  split; [by vm_compute|]. apply (@names_never_move endpoint_ids sha256_crate hex_crate bs58_crate K1 [Demo.takeover] Demo.state).
  - apply history_cons, history_nil.
  - by split.
  - by repeat constructor.
  - by vm_compute.
Defined.

Example claim_hostname_functional_witness :
  exists m', claim_hostname Demo.state (Demo.id2) (lit "web") true = (m', Ok (lit "web"))
    /\ bindings m' !! lit "web" = Some (Demo.id2).
Proof.
  pose proof (claim_hostname_functional Demo.state (Demo.id2) (lit "web") true
    Demo.wf_state) as Hc.
  destruct (claim_hostname Demo.state (Demo.id2) (lit "web") true) as [m' r] eqn:E.
  assert (Hr : snd (m', r) = Ok (lit "web")) by (rewrite <- E; by vm_compute).
  simpl in Hr. subst r. exists m'. split; [done|apply Hc].
Defined.

Example invites_are_single_use_witness :
  snd (redeem_invite Demo.minted Demo.token (Demo.id2) 299) = true
  /\ redeem_invite Demo.state Demo.token (Demo.id3) 299 = (Demo.state, false).
Proof.
  split; [by vm_compute|].
  apply (@invites_are_single_use endpoint_ids sha256_crate hex_crate bs58_crate K1 [Demo.rename] Demo.minted _ _ (Demo.id2) _ 299).
  - apply history_cons, history_nil.
  - apply Forall_singleton. intros [].
Defined.

Example invites_die_with_their_network_witness :
  let new := apply K1 Demo.minted Demo.again in
  snd (redeem_invite Demo.minted Demo.token (Demo.id2) 1) = true
  /\ redeem_invite new Demo.token (Demo.id2) 1 = (new, false).
Proof.
  intros new. split; [by vm_compute|].
  apply (@invites_die_with_their_network endpoint_ids sha256_crate hex_crate bs58_crate K1 [Demo.again] Demo.minted).
  - apply history_cons, history_nil.
  - apply Forall_singleton. intros [].
  - by constructor.
Defined.
