(* ===== verification/MembershipLookup.v ===== *)
(** * Finding, kicking and inviting members

    Whom a query means ([find_member]), what a kick does, and the two encodings
    an invite goes through: the code a person pastes and the roster file. *)

From S2P Require Import Prelude External Proto Names Net Tun Membership MembershipProps.

Section Lookup.
Context `{!EndpointIds, !Sha256, !HexCrate, !Bs58}.
Implicit Types m : Membership.

(** ** Queries *)

Lemma label_no_char (c : char) s :
  label_char c = false -> Forall (fun c => label_char c = true) s -> c ∉ s.
Proof. intros Hc Hs Hin. rewrite Forall_forall in Hs. apply Hs in Hin. congruence. Qed.

Lemma legal_not_ip s : legal_label s -> parse_ip s = None.
Proof. intros Hl. apply parse_ip_not_label; by apply label_no_char, Hl. Qed.

(** A query made of label characters and inner dots is left as it is. *)
Lemma dotted_fixed s :
  Forall (fun c => label_char c = true \/ c = 46%N) s -> to_ascii_lowercase (trim s) = s.
Proof.
  intros Hs. rewrite trim_id.
  - unfold to_ascii_lowercase. induction Hs as [|c s Hc _ IH]; [done|]. rewrite fmap_cons, IH. f_equal.
    destruct Hc as [Hc| ->]; [by apply label_char_lower|done].
  - eapply Forall_impl; [exact Hs|]. intros c [Hc| ->]; [by apply label_char_not_ws|done].
Qed.

Lemma trim_end_snoc p s c : p c = false -> trim_end_matches p (s ++ [c]) = s ++ [c].
Proof. intros Hc. apply trim_end_id. by rewrite rev_app_distr. Qed.

Lemma trim_end_label s : Forall (fun c => label_char c = true) s -> trim_end_matches (N.eqb 46) s = s.
Proof.
  intros Hs. apply trim_end_id. apply Forall_rev in Hs. destruct (rev s); [done|].
  apply Forall_cons in Hs as [Hc _]. unfold label_char, is_lower, is_digit, HYPHEN in Hc. lia.
Qed.

(** The zone of a network, as [find_member] spells it. *)
Definition zone_of (network : rstr) : rstr := lit "." ++ network_label network ++ lit "." ++ ZONE.

Lemma query_name_label m h : legal_label h -> query_name m h = h.
Proof.
  intros Hl. unfold query_name.
  assert (Ht : trim h = h) by (apply trim_id; eapply Forall_impl; [apply Hl|]; apply label_char_not_ws).
  rewrite Ht, trim_end_label by apply Hl. rewrite (map_lower_id h) by apply Hl.
  destruct (network_name m) as [n|]; [|done].
  destruct (strip_suffix (lit "." ++ _) h) as [bare|] eqn:E; [|done].
  apply strip_suffix_spec in E. exfalso. apply (label_no_char 46%N h); [done|apply Hl|].
  rewrite E. apply elem_of_app. right. constructor.
Qed.

Lemma query_name_zone m h network :
  legal_label h -> network_name m = Some network -> query_name m (h ++ zone_of network) = h.
Proof.
  intros Hl Hn. destruct (network_label_shape network) as (_ & _ & Hc & _).
  assert (Hall : Forall (fun c => label_char c = true \/ c = 46%N) (h ++ zone_of network)).
  { unfold zone_of. rewrite !Forall_app. split_and!.
    - eapply Forall_impl; [apply Hl|auto].
    - apply Forall_singleton. by right.
    - eapply Forall_impl; [exact Hc|auto].
    - apply Forall_singleton. by right.
    - eapply Forall_impl; [|intros c Hz; left; exact Hz]. by repeat constructor. }
  assert (Hdot : trim_end_matches (N.eqb 46) (h ++ zone_of network) = h ++ zone_of network).
  { unfold zone_of. change ZONE with (lit "qui" ++ [120%N]). rewrite !app_assoc. by apply trim_end_snoc. }
  assert (Ht : trim (h ++ zone_of network) = h ++ zone_of network).
  { apply trim_id. eapply Forall_impl; [exact Hall|]. intros c [Hc'| ->]; [by apply label_char_not_ws|done]. }
  unfold query_name. rewrite Ht, Hdot, Hn.
  pose proof (dotted_fixed _ Hall) as Hlow. rewrite Ht in Hlow. rewrite Hlow.
  fold (zone_of network). by rewrite (proj2 (strip_suffix_spec (zone_of network) _ h) eq_refl).
Qed.

Lemma answers_to_spec name x :
  answers_to name x = true <-> m_id x = name \/ m_hostname x = Some name \/ fallback (m_id x) = name.
Proof. unfold answers_to. rewrite !orb_true_iff, !str_eqb_eq, has_hostname_spec. tauto. Qed.

Lemma find_unique {A} (p : A -> bool) l x :
  x ∈ l -> p x = true -> (forall y, y ∈ l -> p y = true -> y = x) -> List.find p l = Some x.
Proof.
  intros Hx Hp Hu. destruct (List.find p l) as [y|] eqn:E.
  - apply List.find_some in E as [Hy Hpy]. f_equal. apply Hu; [by apply list_elem_of_In|done].
  - apply list_elem_of_In, (List.find_none _ _ E) in Hx. congruence.
Qed.

Lemma find_member_elem m q x : find_member m q = Some x -> x ∈ members m.
Proof.
  unfold find_member. intros Hf. apply list_elem_of_In.
  destruct (parse_ip (trim q)); [by apply List.find_some in Hf as [? _]|].
  destruct (is_empty _); [done|]. by apply List.find_some in Hf as [? _].
Qed.

Lemma find_member_label m h : legal_label h -> find_member m h = List.find (answers_to h) (members m).
Proof.
  intros Hl. unfold find_member. rewrite query_name_label by done.
  assert (trim h = h) as -> by (apply trim_id; eapply Forall_impl; [apply Hl|]; apply label_char_not_ws).
  rewrite legal_not_ip by done. destruct (is_empty h) eqn:E; [|done].
  apply is_empty_spec in E. by destruct (legal_nonempty _ Hl).
Qed.

Lemma find_member_zone m h network :
  legal_label h -> network_name m = Some network ->
  find_member m (h ++ zone_of network) = List.find (answers_to h) (members m).
Proof.
  intros Hl Hn. unfold find_member. rewrite (query_name_zone m h network) by done.
  destruct (parse_ip (trim (h ++ zone_of network))) as [a|] eqn:E.
  - exfalso. apply parse_ip_chars in E.
    assert (Hx : 120%N ∈ trim (h ++ zone_of network)).
    { unfold trim, trim_matches, trim_start_matches.
      destruct h as [|c h]; [by destruct (legal_nonempty _ Hl)|].
      rewrite <- app_comm_cons, drop_while_id.
      - unfold zone_of. change ZONE with (lit "qui" ++ [120%N]). rewrite !app_assoc, app_comm_cons.
        rewrite trim_end_snoc by done. apply elem_of_app. right. constructor.
      - simpl. apply label_char_not_ws. pose proof (legal_chars _ Hl) as Hc. by apply Forall_cons in Hc as [? _]. }
    rewrite Forall_forall in E. by apply E in Hx.
  - destruct (is_empty h) eqn:Ee; [|done]. apply is_empty_spec in Ee. by destruct (legal_nonempty _ Hl).
Qed.

(** ** Kicks *)

Lemma kick_ok m query own m' x :
  kick m query own = (m', Ok x) ->
  find_member m query = Some x /\ m_id x <> own /\ m' = fst (remove_member m (m_id x)).
Proof.
  unfold kick. destruct (find_member m query) as [y|] eqn:E; [|done].
  destruct (str_eqb (m_id y) own) eqn:Eo; [done|]. intros [= <- <-].
  by apply str_eqb_neq in Eo.
Qed.

Lemma kick_err m query own m' e : kick m query own = (m', Err e) -> m' = m.
Proof.
  unfold kick. destruct (find_member m query) as [y|] eqn:E; [|by intros [= <- _]].
  destruct (str_eqb _ _); [by intros [= <- _]|done].
Qed.

(** ** Invite codes *)

Lemma decode_encode_invite (own : EndpointId) token :
  bytes_ok token -> length token = 16%nat ->
  decode_invite (bs58_encode (id_bytes own ++ token)) = Ok (own, token).
Proof.
  intros Hok Hlen. unfold decode_invite.
  rewrite bs58_decode_encode by (apply bytes_ok_app; split; [apply id_bytes_ok|done]). simpl.
  rewrite length_app, id_bytes_len, Hlen. cbn [Nat.eqb negb Nat.add].
  rewrite <- (id_bytes_len own), take_app_length, drop_app_length. by rewrite id_from_to_bytes.
Qed.

(** ** The roster file *)

Definition entry_of (p : list Z * PendingInvite) : Entry :=
  let '(token, invite) := p in {| e_token := hex_encode token; e_invite := invite |}.

Lemma deserialize_entries out (l : list (list Z * PendingInvite)) :
  Forall (fun p => length (fst p) = 16%nat /\ bytes_ok (fst p)) l ->
  hex_tokens_deserialize_into out (IFull <$> (entry_of <$> l))
  = Ok (foldl (fun out p => <[fst p := snd p]> out) out l).
Proof.
  intros Hl. revert out. induction Hl as [|[t i] l [Hlen Hok] _ IH]; intros out; [done|].
  rewrite !fmap_cons. cbn [hex_tokens_deserialize_into foldl]. simpl e_token. simpl in Hlen, Hok.
  rewrite hex_decode_encode by done. rewrite Hlen. simpl. apply IH.
Qed.

Lemma foldl_insert_lookup (l : list (list Z * PendingInvite)) (out : gmap (list Z) PendingInvite) t i :
  NoDup l.*1 ->
  foldl (fun out p => <[fst p := snd p]> out) out l !! t = Some i <->
  (t, i) ∈ l \/ (t ∉ l.*1 /\ out !! t = Some i).
Proof.
  revert out; induction l as [|[t' i'] l IH]; intros out; simpl.
  { intros _. rewrite !elem_of_nil. tauto. }
  rewrite NoDup_cons. intros [Hn Hnd]. rewrite IH by done. rewrite !elem_of_cons.
  destruct (decide (t = t')) as [->|Hne].
  - rewrite lookup_insert_eq. split.
    + intros [Hin|[_ [= ->]]]; [|auto]. destruct Hn. apply list_elem_of_fmap. by exists (t', i).
    + intros [[[= ->]|Hin]|[Hx _]]; [right; auto|by left|]. destruct Hx. auto.
  - rewrite lookup_insert_ne by done. split.
    + intros [?|[? ?]]; [auto|]. right. split; [|done]. intros [?|?]; done.
    + intros [[[= -> ->]|?]|[Hx ?]]; [done|auto|]. right. split; [|done]. intros ?. apply Hx. auto.
Qed.

Lemma serialize_perm invites : hex_tokens_serialize invites ≡ₚ entry_of <$> map_to_list invites.
Proof. unfold hex_tokens_serialize. apply merge_sort_Permutation. Qed.

Lemma hex_tokens_roundtrip invites :
  map_Forall (fun t (_ : PendingInvite) => length t = 16%nat /\ bytes_ok t) invites ->
  hex_tokens_deserialize (IFull <$> hex_tokens_serialize invites) = Ok invites.
Proof.
  intros Hall. destruct (Permutation_map_inv entry_of _ (serialize_perm invites)) as (l & Hl & Hp).
  rewrite Hl. unfold hex_tokens_deserialize. change (List.map entry_of l) with (entry_of <$> l).
  rewrite deserialize_entries.
  - f_equal. apply map_eq. intros t. apply option_eq. intros i. rewrite foldl_insert_lookup.
    + rewrite <- Hp, elem_of_map_to_list. rewrite lookup_empty. naive_solver.
    + rewrite <- Hp. apply NoDup_fst_map_to_list.
  - rewrite <- Hp. apply map_Forall_to_list in Hall. eapply Forall_impl; [exact Hall|]. by intros [t i].
Qed.

(** ** Properties *)

(** a member's hostname finds that member, typed bare or under the network's
    zone, unless another member's id or fallback is that very name. *)
Theorem find_member_by_hostname m x h :
  wf m -> x ∈ members m -> m_hostname x = Some h -> legal_label h ->
  (forall y, y ∈ members m -> m_id y = h \/ fallback (m_id y) = h -> y = x) ->
  find_member m h = Some x
  /\ forall network, network_name m = Some network ->
       find_member m (h ++ lit "." ++ network_label network ++ lit "." ++ ZONE) = Some x.
Proof.
  intros Hm Hx Hh Hl Hother.
  assert (Hf : List.find (answers_to h) (members m) = Some x).
  { apply find_unique; [done|apply answers_to_spec; auto|].
    intros y Hy Ha. apply answers_to_spec in Ha as [?|[?|?]]; auto.
    by apply (wf_hostname_unique m y x h). }
  split; [by rewrite find_member_label|].
  intros network Hn. fold (zone_of network). by rewrite find_member_zone.
Qed.

(** a kick removes exactly the member the query finds, never this node, and
    otherwise changes nothing; the name the kicked member showed stays reserved:
    nobody else is given it by a claim that is not forced and finds a free name. *)
Theorem kick_functional m query own :
  wf m ->
  let '(m', r) := kick m query own in
  match r with
  | Err _ => m' = m
  | Ok x =>
      find_member m query = Some x /\ m_id x <> own
      /\ members m' = filter (fun y => m_id y <> m_id x) (members m)
      /\ bindings m' = bindings m /\ pending_invites m' = pending_invites m
      /\ forall h claimant requested a, m_hostname x = Some h -> claimant <> m_id x ->
           free_name m' claimant requested false -> snd (claim_hostname m' claimant requested false) = Ok a -> a <> h
  end.
Proof.
  intros Hm. destruct (kick m query own) as [m' [x|e]] eqn:E; [|by apply kick_err in E].
  apply kick_ok in E as (Hf & Hne & ->). split_and!; try done.
  intros h claimant requested a Hh Hc Hfree Ha ->.
  apply (wf_bound _ Hm x h) in Hh; [|by eapply find_member_elem].
  destruct (claim_hostname _ claimant requested false) as [m2 r] eqn:E. simpl in Ha. subst r.
  apply claim_hostname_ok in E as (w & _ & _ & Hs & _); [|exact Hfree].
  apply spoken_for_false in Hs as [[Hs|Hs] _]; simpl in Hs; congruence.
Qed.

(** an invite does what it says: the code decodes to this node and the token,
    the token admits its bearer at any time before the moment announced, in the
    network it was minted in, and at that moment or later it admits nobody. *)
Theorem invite_window own m ttl now token requester later :
  bytes_ok token -> length token = 16%nat -> is_Some (network_id m) ->
  let '(m', (code, expires)) := generate_invite m own ttl now token in
  decode_invite code = Ok (own, token) /\ expires = now + ttl
  /\ snd (redeem_invite m' token requester later) = (later <? expires)
  /\ is_member (fst (redeem_invite m' token requester later)) requester
     = is_member m requester || (later <? expires).
Proof.
  intros Hok Hlen [n Hn]. unfold generate_invite. cbv zeta.
  split; [by apply decode_encode_invite|]. split; [done|].
  set (m' := with_invites _ _).
  assert (Hnid : network_id m' = Some n) by exact Hn.
  assert (Hl : pending_invites m' !! token = Some {| pi_network_id := Some n; expires_at := now + ttl |}).
  { simpl. rewrite lookup_insert_eq. by rewrite Hn. }
  assert (Hmem : forall id, is_member m' id = is_member m id) by done.
  clearbody m'. destruct (redeem_cases m' token requester later) as [[? _]|(i & Hi & [[Hv E]|[Hv E]])]; [congruence| |];
    rewrite E; rewrite Hl in Hi; injection Hi as <-; rewrite Hnid in Hv; cbn [fst snd].
  - destruct (Z.ltb_spec later (now + ttl)).
    + exfalso. apply not_true_iff_false in Hv. apply Hv, is_live_spec. eauto.
    + split; [done|]. rewrite orb_false_r. by rewrite <- Hmem.
  - apply is_live_spec in Hv as (_ & _ & Hv). simpl in Hv. apply Z.ltb_lt in Hv. rewrite Hv, orb_true_r.
    split; [done|]. apply is_member_spec. apply ids_push_absent. by right.
Qed.

(** the roster file keeps invites: the entries written, sorted by token, read
    back as the same invites, and bare tokens of older files are dropped. *)
Theorem invites_survive_the_file invites (legacy : list rstr) :
  map_Forall (fun t (_ : PendingInvite) => length t = 16%nat /\ bytes_ok t) invites ->
  Sorted entry_le (hex_tokens_serialize invites)
  /\ hex_tokens_deserialize ((ILegacy <$> legacy) ++ (IFull <$> hex_tokens_serialize invites)) = Ok invites.
Proof.
  intros Hall. split; [apply Sorted_merge_sort; intros a b; apply str_le_total|].
  induction legacy as [|t legacy IH]; [by apply hex_tokens_roundtrip|exact IH].
Qed.
End Lookup.

(** ** Witnesses *)

Import Concrete.

Lemma demo_no_shadow y :
  y ∈ members Demo.state -> m_id y = lit "web-1" \/ fallback (m_id y) = lit "web-1" -> y = Demo.member2.
Proof.
  rewrite Demo.members_state, !elem_of_cons. intros [->|[->|Hy%elem_of_nil]]; [|done..].
  intros [Hid|Hid]; by vm_compute in Hid.
Qed.

Example find_member_by_hostname_witness :
  find_member Demo.state (lit "web-1") = Some Demo.member2
  /\ find_member Demo.state (lit "web-1.home.quix") = find_member Demo.state (lit "web-1").
Proof.
  destruct (find_member_by_hostname Demo.state Demo.member2 (lit "web-1")) as [Hf Hz].
  - exact Demo.wf_state.
  - rewrite Demo.members_state. do 2 constructor.
  - done.
  - by apply (validate_legal (lit "web-1") []).
  - exact demo_no_shadow.
  - split; [exact Hf|]. rewrite Hf. apply (Hz (lit "home")). by vm_compute.
Defined.

Example kick_functional_witness :
  exists m' x, kick Demo.state (lit "web-1") Demo.id1 = (m', Ok x) /\ bindings m' = bindings Demo.state.
Proof.
  pose proof (kick_functional Demo.state (lit "web-1") Demo.id1 Demo.wf_state) as Hk.
  destruct (kick Demo.state (lit "web-1") Demo.id1) as [m' r] eqn:E.
  assert (Hr : is_ok (snd (m', r)) = true) by (rewrite <- E; by vm_compute).
  destruct r as [x|e]; [|done]. exists m', x. split; [done|apply Hk].
Defined.

Example invite_window_witness :
  let m := foldl (apply K1) Membership_default (take 1 Demo.ops) in
  let m' := fst (generate_invite m K1 300 1000 Demo.token) in
  snd (redeem_invite m' Demo.token Demo.id2 1299) = true
  /\ snd (redeem_invite m' Demo.token Demo.id2 1300) = false.
Proof.
  intros m m'.
  assert (Hok : bytes_ok Demo.token) by (unfold Demo.token; repeat constructor; unfold is_byte; lia).
  split; apply (@invite_window endpoint_ids bs58_crate K1 m 300 1000); try done; by eexists.
Defined.

Example invites_survive_the_file_witness :
  hex_tokens_deserialize ((ILegacy <$> [lit "00ff"]) ++
    (IFull <$> hex_tokens_serialize (pending_invites Demo.minted))) = Ok (pending_invites Demo.minted).
Proof.
  apply invites_survive_the_file. apply map_Forall_to_list. vm_compute map_to_list.
  apply Forall_singleton. split; [done|]. repeat constructor; unfold is_byte; lia.
Defined.

(** a coordinator that hands out another member's fallback as a hostname
    (rosters are pushed unchecked) redirects it: both members are in the roster,
    yet the first's own fallback finds the second. *)
Theorem pushed_fallback_redirects :
  exists pushed own_id victim thief,
    let m := set_joined Membership_default Demo.id1 own_id (Some (lit "home")) pushed in
    victim ∈ members m /\ thief ∈ members m /\ m_id victim <> m_id thief
    /\ find_member m (fallback (m_id victim)) = Some thief.
Proof.
  exists [{| m_id := Demo.id3; m_hostname := Some (fallback Demo.id2) |}; Member_new Demo.id2], Demo.id4,
    (Member_new Demo.id2), {| m_id := Demo.id3; m_hostname := Some (fallback Demo.id2) |}.
  split_and!; [apply list_elem_of_In; vm_compute; auto..|by vm_compute|by vm_compute].
Qed.
