(* ===== verification/MembershipSpec.v ===== *)
(** * What a membership promises: the rolls of a network

    An abstract registry (who is in, which name is whose, what each member is
    shown as, which invites are out, who leads) that knows nothing of lists,
    expiry times or rosters, changed only by small steps each of which has a
    condition; and that [Membership.v] refines it, operation by operation. *)

From S2P Require Import Prelude External Proto Names Net Tun Membership MembershipProps.

(** ** The registry *)

Record Rolls := {
  people : gset rstr;
  owner : gmap rstr rstr;           (* of a name *)
  shows : gmap rstr rstr;           (* a member's name *)
  tokens : gset (list Z);
  leader : option rstr;
  home : option rstr;               (* the network's id, at the node that made it *)
}.

Definition nobody : Rolls :=
  {| people := ∅; owner := ∅; shows := ∅; tokens := ∅; leader := None; home := None |}.

(** What can happen. *)
Inductive label :=
  | Founds (id network : rstr)      (* a network of one *)
  | Follows (id : rstr)             (* a network somebody else leads, with nothing known yet *)
  | Forgets
  | Enters (id : rstr)
  | Seats (id : rstr)               (* its leader *)
  | Goes (id : rstr)
  | Disperses                       (* all go, names stay reserved *)
  | Reserves (id name : rstr)
  | Shows (id name : rstr)
  | Frees (name : rstr)
  | Mints (token : list Z)
  | Lapses (lapsed : gset (list Z))
  | Redeems (token : list Z) (id : rstr).

Definition with_people f g (r : Rolls) : Rolls :=
  {| people := f (people r); owner := owner r; shows := g (shows r); tokens := tokens r; leader := leader r; home := home r |}.
Definition with_names f g (r : Rolls) : Rolls :=
  {| people := people r; owner := f (owner r); shows := g (shows r); tokens := tokens r; leader := leader r; home := home r |}.
Definition with_tokens f (r : Rolls) : Rolls :=
  {| people := people r; owner := owner r; shows := shows r; tokens := f (tokens r); leader := leader r; home := home r |}.

Definition when (P : Prop) `{!Decision P} (r : Rolls) : option Rolls := if decide P then Some r else None.

Definition perform (l : label) (r : Rolls) : option Rolls :=
  match l with
  | Founds id network =>
      Some {| people := {[id]}; owner := owner r; shows := ∅; tokens := ∅; leader := Some id; home := Some network |}
  | Follows id => Some {| people := ∅; owner := ∅; shows := ∅; tokens := ∅; leader := Some id; home := None |}
  | Forgets => Some nobody
  | Enters id => when (id ∉ people r) (with_people (fun p => p ∪ {[id]}) (fun s => s) r)
  | Seats id => when (id ∉ people r /\ leader r = Some id) (with_people (fun p => p ∪ {[id]}) (fun s => s) r)
  | Goes id => when (id ∈ people r) (with_people (fun p => p ∖ {[id]}) (delete id) r)
  | Disperses => Some (with_people (fun _ => ∅) (fun _ => ∅) r)
  | Reserves id name => when (default id (owner r !! name) = id) (with_names <[name := id]> (fun s => s) r)
  | Shows id name => when (id ∈ people r /\ owner r !! name = Some id) (with_names (fun o => o) <[id := name]> r)
  | Frees name => Some (with_names (delete name) (filter (fun '(_, n) => n <> name)) r)
  | Mints token => Some (with_tokens (fun t => {[token]} ∪ t) r)
  | Lapses lapsed => when (lapsed ⊆ tokens r) (with_tokens (fun t => t ∖ lapsed) r)
  | Redeems token id =>
      when (token ∈ tokens r /\ home r <> None)
        (with_people (fun p => p ∪ {[id]}) (fun s => s) (with_tokens (fun t => t ∖ {[token]}) r))
  end.

Fixpoint performs (ls : list label) (r : Rolls) : option Rolls :=
  match ls with [] => Some r | l :: ls => r' ← perform l r; performs ls r' end.

Lemma performs_app ls ls' r : performs (ls ++ ls') r = performs ls r ≫= performs ls'.
Proof. revert r; induction ls as [|l ls IH]; intros r; [done|]. cbn. destruct (perform l r); cbn; [apply IH|done]. Qed.

Lemma when_true (P : Prop) `{!Decision P} r : P -> when P r = Some r.
Proof. intros. unfold when. by rewrite decide_True. Qed.

(** ** Its invariant: everybody shown has their name *)

Definition rolls_ok (r : Rolls) : Prop :=
  forall id name, shows r !! id = Some name -> id ∈ people r /\ owner r !! name = Some id.

Lemma when_inv (P : Prop) `{!Decision P} r r' : when P r = Some r' -> P /\ r' = r.
Proof. unfold when. destruct (decide P); [|done]. by intros [= <-]. Qed.

Lemma perform_ok l r r' : rolls_ok r -> perform l r = Some r' -> rolls_ok r'.
Proof.
  intros Hr Hl. destruct l; cbn [perform] in Hl; try (apply when_inv in Hl as [Hg ->]); try injection Hl as <-;
    intros i n; cbn [people owner shows with_people with_names with_tokens nobody]; intros Hs; try done.
  - destruct (Hr i n Hs). set_solver.
  - destruct (Hr i n Hs). set_solver.
  - apply lookup_delete_Some in Hs as [Hne Hs]. destruct (Hr i n Hs). set_solver.
  - destruct (Hr i n Hs) as [Hi Ho]. split; [done|]. destruct (decide (n = name)) as [->|Hn]; [|by rewrite lookup_insert_ne].
    rewrite lookup_insert_eq. rewrite Ho in Hg. cbn in Hg. by subst.
  - apply lookup_insert_Some in Hs as [[<- <-]|[Hne Hs]]; [done|by apply Hr].
  - apply map_lookup_filter_Some in Hs as [Hs Hn]. destruct (Hr i n Hs). split; [done|]. by rewrite lookup_delete_ne.
  - by apply Hr.
  - by apply Hr.
  - destruct (Hr i n Hs). set_solver.
Qed.

(** ** The rolls of a membership *)

(** What each member is shown as. *)
Definition shown (l : list Member) : gmap rstr rstr :=
  list_to_map (omap (fun x => (fun h => (m_id x, h)) <$> m_hostname x) l).

Definition rolls (m : Membership) : Rolls :=
  {| people := list_to_set (ids (members m)); owner := bindings m; shows := shown (members m);
     tokens := dom (pending_invites m); leader := coordinator_id m; home := network_id m |}.

Lemma shown_spec l id name : NoDup (ids l) ->
  shown l !! id = Some name <-> {| m_id := id; m_hostname := Some name |} ∈ l.
Proof.
  unfold shown. induction l as [|x l IH]; unfold ids; [rewrite elem_of_nil; by intros _|].
  rewrite fmap_cons, NoDup_cons. intros [Hx Hnd]. specialize (IH Hnd). rewrite elem_of_cons.
  assert (Hskip : (shown l !! id = Some name <-> ({| m_id := id; m_hostname := Some name |} : Member) ∈ l)) by exact IH.
  destruct x as [i [h|]]; cbn [omap list_omap m_hostname fmap option_fmap option_map m_id].
  - cbn [list_to_map foldr fst snd]. rewrite lookup_insert_Some. fold (shown l).
    split; [intros [[-> ->]|[Hne Hs]]; [by left|right; by apply Hskip]|].
    intros [[= -> ->]|Hin]; [by left|]. right. split; [|by apply Hskip]. intros <-. apply Hx. cbn. by apply (elem_of_ids {| m_id := i; m_hostname := Some name |}).
  - rewrite Hskip. split; [by right|]. intros [Heq|?]; done.
Qed.

Lemma shown_eq l l' : NoDup (ids l) -> NoDup (ids l') ->
  (forall id name, {| m_id := id; m_hostname := Some name |} ∈ l <-> {| m_id := id; m_hostname := Some name |} ∈ l') ->
  shown l = shown l'.
Proof.
  intros H1 H2 Heq. apply map_eq. intros id. apply option_eq. intros name. rewrite !shown_spec by done. apply Heq.
Qed.

(** ** Refinement *)

Section Refinement.
Context `{!EndpointIds, !Sha256, !HexCrate, !Bs58}.
Implicit Types m : Membership.

(** From [m] to [m'] by steps that are all [P]. *)
Definition by_steps (P : label -> Prop) m m' : Prop :=
  exists ls, performs ls (rolls m) = Some (rolls m') /\ Forall P ls.

#[global] Instance by_steps_preorder P : PreOrder (by_steps P).
Proof.
  split.
  - intros m. by exists [].
  - intros m m' m'' (l & Hl & Fl) (l' & Hl' & Fl'). exists (l ++ l'). split; [|by apply Forall_app].
    rewrite performs_app, Hl. exact Hl'.
Qed.

Lemma by_step P m m' l : perform l (rolls m) = Some (rolls m') -> P l -> by_steps P m m'.
Proof. intros Hl Hp. exists [l]. split; [cbn; by rewrite Hl|by constructor]. Qed.

Lemma by_steps_mono (P Q : label -> Prop) m m' : (forall l, P l -> Q l) -> by_steps P m m' -> by_steps Q m m'.
Proof. intros HPQ (l & Hl & Fl). exists l. split; [done|]. by eapply Forall_impl. Qed.

Lemma reserves_step m id h : (bindings m !! h = None \/ bindings m !! h = Some id) ->
  perform (Reserves id h) (rolls m) = Some (rolls (with_bindings <[h := id]> m)).
Proof. intros Hh. cbn [perform]. rewrite when_true; [done|]. cbn. by destruct Hh as [->| ->]. Qed.

Lemma shows_step m id h : wf m -> id ∈ ids (members m) -> bindings m !! h = Some id ->
  perform (Shows id h) (rolls m)
  = Some (rolls (with_members (update_first (fun x => str_eqb (m_id x) id) (fun x => {| m_id := m_id x; m_hostname := Some h |})) m)).
Proof.
  intros [W1 _ _] Hid Hh. cbn [perform]. rewrite when_true by (split; [by apply elem_of_list_to_set|done]).
  f_equal. unfold with_names, rolls. cbn [people owner shows tokens leader home members bindings pending_invites coordinator_id network_id with_members].
  rewrite ids_update_first by done. f_equal.
  apply map_eq. intros i. apply option_eq. intros n. rewrite shown_spec by (by rewrite ids_update_first).
  rewrite lookup_insert_Some, shown_spec, update_first_by_id by done. cbn [m_id].
  split.
  - intros [[<- <-]|[Hne Hi]]; [right|left; done]. split; [done|].
    apply list_elem_of_fmap in Hid as (x & -> & Hx). by exists x.
  - intros [[Hne Hi]|(-> & x & Hx & Hxi & [= Hi ->])]; [right; done|by left].
Qed.

Lemma enters_step m id : id ∉ ids (members m) ->
  perform (Enters id) (rolls m) = Some (rolls (push_absent m (Member_new id))).
Proof.
  intros Hid. cbn [perform]. rewrite when_true by (cbn; by rewrite elem_of_list_to_set). f_equal.
  unfold push_absent. rewrite (proj2 (is_member_false m _)) by done. cbn [negb].
  unfold with_people, rolls. cbn [people owner shows tokens leader home members bindings pending_invites coordinator_id network_id with_members].
  unfold ids. rewrite fmap_app, list_to_set_app_L. f_equal; [cbn; set_solver|].
  unfold shown. rewrite omap_app. cbn. by rewrite app_nil_r.
Qed.

(** Entering under a name that is one's own. *)
Lemma enters_named m id h : wf m -> id ∉ ids (members m) -> bindings m !! h = Some id ->
  performs [Enters id; Shows id h] (rolls m) = Some (rolls (push_absent m {| m_id := id; m_hostname := Some h |})).
Proof.
  intros Hm Hid Hh. cbn [performs]. rewrite enters_step by done. cbn [mbind option_bind].
  assert (Hw : wf (push_absent m (Member_new id))) by (apply wf_push_absent; [done|by intros ?]).
  rewrite shows_step; [|done|..].
  - cbn. do 2 f_equal. unfold push_absent. cbn [m_id Member_new]. rewrite (proj2 (is_member_false m _)) by done. cbn [negb].
    unfold with_members. cbn [members network_name coordinator_id network_id pending_invites bindings]. f_equal.
    clear -Hid. unfold ids in Hid. induction (members m) as [|x l IH]; cbn [app update_first].
    + by rewrite str_eqb_refl.
    + rewrite fmap_cons, not_elem_of_cons in Hid. destruct Hid as [Hne Hid].
      rewrite (proj2 (str_eqb_neq _ _)) by done. by rewrite IH.
  - unfold push_absent. cbn [m_id Member_new]. rewrite (proj2 (is_member_false m _)) by done. cbn. unfold ids.
    rewrite fmap_app. apply elem_of_app. right. constructor.
  - by rewrite (proj1 (push_absent_fields _ _)).
Qed.

Lemma bind_steps P m id h : wf m -> (bindings m !! h = None \/ bindings m !! h = Some id) ->
  P (Reserves id h) -> P (Shows id h) -> by_steps P m (bind m id h).
Proof.
  intros Hm Hh Hr Hs. transitivity (with_bindings <[h := id]> m); [by eapply by_step; [apply reserves_step|]|].
  unfold bind. destruct (decide (id ∈ ids (members m))) as [Hid|Hid].
  - eapply by_step; [apply shows_step; [by apply wf_insert_same|done|cbn; apply lookup_insert_eq]|done].
  - replace (with_members _ _) with (with_bindings <[h := id]> m); [reflexivity|].
    unfold with_members. cbn. unfold with_bindings. f_equal. unfold ids in Hid. induction (members m) as [|x l IH]; [done|].
    rewrite fmap_cons, not_elem_of_cons in Hid. destruct Hid as [Hne Hid]. cbn [update_first].
    rewrite (proj2 (str_eqb_neq _ _)) by done. by rewrite <- IH.
Qed.

Lemma frees_step m h : wf m -> perform (Frees h) (rolls m) = Some (rolls (force_release m h)).
Proof.
  intros Hm. pose proof (wf_force_release m h Hm) as [W1' _ _]. destruct (force_release_members m h Hm) as [Hids Hmem].
  pose proof Hm as [W1 W2 _]. cbn [perform]. f_equal. unfold with_names, rolls. cbn [people owner shows tokens leader home].
  rewrite Hids. f_equal. apply map_eq. intros i. apply option_eq. intros n.
  rewrite map_lookup_filter_Some, !shown_spec by done. split.
  - intros [Hi Hn]. clear -Hi Hn. unfold force_release; cbn [members with_members with_bindings].
    induction (members m) as [|x l IH]; [by apply elem_of_nil in Hi|]. cbn [update_first].
    destruct (has_hostname h x) eqn:E; rewrite elem_of_cons in *.
    + destruct Hi as [<-|Hi]; [|by right]. apply has_hostname_spec in E. cbn in E. congruence.
    + destruct Hi as [<-|Hi]; [by left|right; by apply IH].
  - intros Hi. destruct (Hmem _ Hi) as [Hn [Hin|Hno]]; [|done]. split; [done|]. cbn in Hn. congruence.
Qed.

Lemma lapses_step m (f : gmap (list Z) PendingInvite -> gmap (list Z) PendingInvite) :
  dom (f (pending_invites m)) ⊆ dom (pending_invites m) ->
  perform (Lapses (dom (pending_invites m) ∖ dom (f (pending_invites m)))) (rolls m) = Some (rolls (with_invites f m)).
Proof.
  intros Hf. cbn [perform]. rewrite when_true by (cbn; set_solver). f_equal. unfold with_tokens, rolls. cbn.
  f_equal. apply set_eq. intros t. destruct (decide (t ∈ dom (f (pending_invites m)))); set_solver.
Qed.

Definition is_lapse (l : label) : Prop := match l with Lapses _ => True | _ => False end.

Lemma prune_steps m now : by_steps is_lapse m (prune_expired m now).
Proof. eapply by_step; [apply lapses_step; apply dom_filter_subseteq|done]. Qed.

(** Somebody enters who is not in yet, with a name that is theirs. *)
Lemma push_absent_steps (P : label -> Prop) m x : wf m ->
  (forall h, m_hostname x = Some h -> bindings m !! h = Some (m_id x) /\ P (Shows (m_id x) h)) ->
  P (Enters (m_id x)) -> by_steps P m (push_absent m x).
Proof.
  intros Hm Hx He. destruct (is_member m (m_id x)) eqn:E; [unfold push_absent; by rewrite E|].
  apply is_member_false in E. destruct x as [id [h|]]; cbn [m_id m_hostname] in *.
  - destruct (Hx h eq_refl) as [Hh Hs]. exists [Enters id; Shows id h]. split; [by apply enters_named|by repeat constructor].
  - eapply by_step; [by apply enters_step|done].
Qed.

(** Steps that take on an entry of a pushed roster. *)
Definition takes_on (x : Member) (l : label) : Prop :=
  match l with
  | Enters id => id = m_id x
  | Reserves id h | Shows id h => id = m_id x /\ m_hostname x = Some h
  | _ => False
  end.

Lemma apply_member_steps m cs x : wf m -> by_steps (takes_on x) m (fst (apply_member (m, cs) x)).
Proof.
  intros Hm. unfold apply_member. destruct (m_hostname x) as [h|] eqn:Eh; cbn [fst].
  2: { apply push_absent_steps; [done| |done]. intros h Hh. congruence. }
  assert (Hfree : bindings m !! h = None \/ bindings m !! h = Some (m_id x) ->
    by_steps (takes_on x) m (push_absent (with_bindings <[h := m_id x]> m) x)).
  { intros Hb. transitivity (with_bindings <[h := m_id x]> m); [by eapply by_step; [apply reserves_step|]|].
    apply push_absent_steps; [by apply wf_insert_same| |done].
    intros h' Hh'. rewrite Eh in Hh'. injection Hh' as <-. split; [apply lookup_insert_eq|done]. }
  destruct (bindings m !! h) as [o|] eqn:Eb; [destruct (str_eqb o (m_id x)) eqn:Eo|]; cbn [negb fst].
  - apply Hfree. right. by apply str_eqb_eq in Eo as ->.
  - by apply push_absent_steps.
  - apply Hfree. by left.
Qed.

Lemma foldl_apply_steps m cs l : wf m ->
  by_steps (fun s => exists x, x ∈ l /\ takes_on x s) m (fst (foldl apply_member (m, cs) l)).
Proof.
  revert m cs; induction l as [|x l IH]; intros m cs Hm; cbn [foldl]; [reflexivity|].
  pose proof (wf_apply_member m cs x Hm) as Hw. pose proof (apply_member_steps m cs x Hm) as Hs.
  destruct (apply_member (m, cs) x) as [m' cs']. cbn [fst] in *. transitivity m'.
  - eapply by_steps_mono; [|exact Hs]. intros s ?. exists x. split; [constructor|done].
  - eapply by_steps_mono; [|by apply IH]. intros s (y & ? & ?). exists y. split; [by constructor|done].
Qed.

(** A pushed roster, this node and the leader. *)
Definition rosters (me : rstr) (pushed : list Member) (l : label) : Prop :=
  match l with Seats _ => True | Enters id => id = me \/ id ∈ ids pushed
  | Reserves id h | Shows id h => {| m_id := id; m_hostname := Some h |} ∈ pushed | _ => False end.

Lemma takes_on_rosters me pushed l : (exists x, x ∈ pushed /\ takes_on x l) -> rosters me pushed l.
Proof.
  intros ([i h'] & Hx & Hl). destruct l; cbn in *; try done.
  - right. subst. by apply elem_of_ids in Hx.
  - by destruct Hl as [-> ->].
  - by destruct Hl as [-> ->].
Qed.

Lemma apply_roster_steps m me l : wf m -> by_steps (rosters me l) m (fst (apply_roster m me l)).
Proof.
  intros Hm. unfold apply_roster. pose proof (wf_foldl_apply m [] l Hm) as Hw.
  pose proof (foldl_apply_steps m [] l Hm) as Hf. destruct (foldl apply_member (m, []) l) as [m' cs]. cbn [fst] in *.
  transitivity m'; [eapply by_steps_mono; [apply takes_on_rosters|done]|]. cbn [foldl].
  transitivity (push_absent m' (Member_new me)); [apply push_absent_steps; [done|done|by left]|].
  destruct (coordinator_id m') as [c|] eqn:Ec; [|reflexivity]. cbn [option_list option_rect foldl].
  set (m2 := push_absent m' (Member_new me)).
  destruct (is_member m2 c) eqn:E; [unfold push_absent at 1; cbn [m_id Member_new]; by rewrite E|].
  apply is_member_false in E. exists [Seats c]. split; [|by repeat constructor].
  pose proof (enters_step m2 c E) as He. cbn [perform performs] in *.
  assert (Hc : coordinator_id m2 = Some c) by (unfold m2; by destruct (push_absent_fields m' (Member_new me)) as (_ & _ & _ & -> & _)).
  rewrite when_true in He by (cbn; by rewrite elem_of_list_to_set).
  rewrite when_true by (split; [cbn; by rewrite elem_of_list_to_set|done]). exact He.
Qed.

(** Which steps each operation may take. *)
Definition may (own : EndpointId) (o : op) (l : label) : Prop :=
  let me := show_id own in
  match o, l with
  | OpCreate _ _ random, Founds id network => id = me /\ network = new_network_id random
  | OpCreate _ hostname _, Frees h => hostname = Some h
  | OpCreate _ hostname _, (Reserves id h | Shows id h) => id = me /\ hostname = Some h
  | OpInvite _ _ token, Mints t => t = token
  | OpInvite _ _ _, Lapses _ => True
  | OpClaim _ _ force, Frees _ => force = true
  | OpClaim claimant _ _, (Reserves id _ | Shows id _) => id = claimant
  | OpRedeem token requester _, Redeems t id => t = token /\ id = requester
  | OpRedeem _ _ _, Lapses _ => True
  | OpJoined coordinator _ _, Follows id => id = coordinator
  | OpJoined _ _ pushed, l => rosters me pushed l
  | OpRoster _ _, Disperses => True
  | OpRoster _ pushed, l => rosters me pushed l
  | OpLeave, Forgets => True
  | OpRemove id, Goes i => i = id
  | OpKick _, Goes i => i <> me
  | _, _ => False
  end.

Lemma remove_steps (P : label -> Prop) m id : wf m -> P (Goes id) -> by_steps P m (fst (remove_member m id)).
Proof.
  intros Hm Hp. pose proof (wf_remove_member m id Hm) as [W1' _ _]. destruct Hm as [W1 _ _].
  cbn [remove_member fst] in *. destruct (decide (id ∈ ids (members m))) as [Hid|Hid].
  - eapply by_step; [|exact Hp]. cbn [perform]. rewrite when_true by (cbn; by rewrite elem_of_list_to_set). f_equal.
    unfold with_people, rolls. cbn [people owner shows tokens leader home members bindings pending_invites coordinator_id network_id with_members].
    f_equal.
    + apply set_eq. intros i. rewrite elem_of_difference, !elem_of_list_to_set, elem_of_singleton. unfold ids.
      rewrite !list_elem_of_fmap. setoid_rewrite list_elem_of_filter. naive_solver.
    + apply map_eq. intros i. apply option_eq. intros n. rewrite lookup_delete_Some, !shown_spec by done.
      rewrite list_elem_of_filter. cbn [m_id]. naive_solver.
  - replace (with_members _ m) with m; [reflexivity|]. destruct m as [a b c l d e]. unfold with_members. cbn in *. f_equal.
    unfold ids in Hid. clear -Hid. induction l as [|x l IH]; [done|].
    rewrite fmap_cons, not_elem_of_cons in Hid. destruct Hid as [Hne Hid]. rewrite filter_cons_True by congruence. by rewrite <- IH.
Qed.

Lemma create_steps own m name hostname random :
  by_steps (may own (OpCreate name hostname random)) m (create m name (show_id own) hostname random).
Proof.
  transitivity (create m name (show_id own) None random).
  - apply (by_step _ _ _ (Founds (show_id own) (new_network_id random))); [|by split].
    cbn [perform]. f_equal. unfold rolls, create. cbn. f_equal. set_solver.
  - destruct hostname as [h|]; [|reflexivity].
    set (m1 := create m name (show_id own) None random). assert (W1 : wf m1) by apply wf_create.
    transitivity (force_release m1 h); [by eapply by_step; [apply frees_step|]|].
    replace (create m name (show_id own) (Some h) random) with (bind (force_release m1 h) (show_id own) h).
    + apply bind_steps; [by apply wf_force_release|left; cbn; apply lookup_delete_eq|done|done].
    + unfold bind, force_release, m1, create, with_bindings, with_members. cbn. by rewrite insert_delete_eq.
Qed.

Lemma claim_steps own m claimant requested force : wf m -> free_name m claimant requested force ->
  by_steps (may own (OpClaim claimant requested force)) m (fst (claim_hostname m claimant requested force)).
Proof.
  intros Hm Hr. destruct (claim_hostname m claimant requested force) as [m' [a|e]] eqn:E; cbn [fst].
  - apply claim_hostname_ok in E as (w & _ & -> & Hs & _); [|done]. apply spoken_for_false in Hs as [Hs _].
    transitivity (claim_base m w force).
    + destruct force; [|reflexivity]. eapply by_step; [by apply frees_step|done].
    + by apply bind_steps; [apply wf_claim_base|..].
  - by apply claim_hostname_err in E as [-> _].
Qed.

Lemma redeem_steps own m t r now : by_steps (may own (OpRedeem t r now)) m (fst (redeem_invite m t r now)).
Proof.
  destruct (redeem_cases m t r now) as [[_ ->]|(i & Hi & [[_ ->]|[Hl ->]])]; cbn [fst]; [reflexivity|..].
  - eapply by_step; [apply (lapses_step m (fun p => filter (fun '(_, i) => now < expires_at i) (delete t p)))|done].
    etrans; [apply dom_filter_subseteq|]. rewrite dom_delete_L. set_solver.
  - transitivity (push_absent (with_invites (delete t) m) (Member_new r)).
    + apply (by_step _ _ _ (Redeems t r)); [|by split]. cbn [perform]. rewrite when_true.
      * f_equal. unfold push_absent, with_people, with_tokens, rolls. cbn [m_id Member_new].
        change (is_member (with_invites (delete t) m) r) with (is_member m r).
        destruct (is_member m r) eqn:E; cbn [negb with_members with_invites members bindings pending_invites coordinator_id network_id
          people owner shows tokens leader home]; rewrite dom_delete_L; f_equal.
        -- apply is_member_spec in E. set_solver.
        -- unfold ids. rewrite fmap_app, list_to_set_app_L. cbn. set_solver.
        -- unfold shown. rewrite omap_app. cbn. by rewrite app_nil_r.
      * split; [by apply elem_of_dom_2 in Hi|]. unfold is_live in Hl. cbn.
        apply andb_true_iff in Hl as [Hl _]. apply andb_true_iff in Hl as [Hn Hs].
        apply bool_decide_eq_true_1 in Hn, Hs. rewrite <- Hn. by destruct Hs as [? ->].
    + replace (push_absent (prune_expired _ now) _) with (prune_expired (push_absent (with_invites (delete t) m) (Member_new r)) now).
      * eapply by_steps_mono; [|apply prune_steps]. by (intros s Hs; destruct s).
      * unfold push_absent. cbn [m_id Member_new]. change (is_member (prune_expired _ now) r) with (is_member m r).
        change (is_member (with_invites (delete t) m) r) with (is_member m r). by destruct (is_member m r).
Qed.

Lemma apply_steps own m o : wf m -> uncrowded m o -> by_steps (may own o) m (apply own m o).
Proof.
  intros Hm He. destruct o; cbn [apply].
  - apply create_steps.
  - transitivity (prune_expired m now); [eapply by_steps_mono; [|apply prune_steps]; by (intros s Hs; destruct s)|].
    apply (by_step _ _ _ (Mints token)); [|done]. cbn [perform]. f_equal. unfold with_tokens, rolls. cbn. by rewrite dom_insert_L.
  - by apply claim_steps.
  - apply redeem_steps.
  - set (m0 := {| network_name := name; coordinator_id := Some coordinator; network_id := None;
                  members := []; pending_invites := ∅; bindings := ∅ |}).
    transitivity m0; [by apply (by_step _ _ _ (Follows coordinator))|].
    eapply by_steps_mono; [|apply apply_roster_steps; by apply wf_no_members]. by (intros s Hs; destruct s).
  - unfold set_roster. set (m0 := {| network_name := _; members := [] |}).
    transitivity m0; [by apply (by_step _ _ _ Disperses)|].
    eapply by_steps_mono; [|apply apply_roster_steps; apply wf_no_members; [done|apply Hm]]. by (intros s Hs; destruct s).
  - by apply (by_step _ _ _ Forgets).
  - by apply remove_steps.
  - unfold kick. destruct (find_member m query) as [x|]; [|reflexivity].
    destruct (str_eqb (m_id x) (show_id own)) eqn:E; [reflexivity|]. cbn [fst].
    apply remove_steps; [done|]. cbn. by apply str_eqb_neq in E.
Qed.

Lemma history_steps own os m m' : wf m -> history own os m m' -> never_crowded own os m -> exists lss,
  Forall2 (fun o ls => Forall (may own o) ls) os lss /\ performs (concat lss) (rolls m) = Some (rolls m').
Proof.
  intros Hm Hh. induction Hh as [m|o os m m' Hh IH]; [by exists []|]. intros [He Hc].
  destruct (apply_steps own m o Hm He) as (ls & Hl & Fl). destruct (IH (wf_apply own m o Hm He) Hc) as (lss & HF & Hp).
  exists (ls :: lss). split; [by constructor|]. cbn [concat]. rewrite performs_app, Hl. exact Hp.
Qed.

Lemma performs_ok ls r r' : rolls_ok r -> performs ls r = Some r' -> rolls_ok r'.
Proof.
  revert r; induction ls as [|l ls IH]; intros r Hr; cbn; [by intros [= <-]|].
  destruct (perform l r) as [r1|] eqn:E; [|done]. cbn. apply IH. by eapply perform_ok.
Qed.

(** C4: whatever a node does with its network, as long as every hostname claim
    finds its name or one of its 9,999 numbered forms free, its membership
    implements the registry: the rolls it keeps come about from nothing by the
    registry's steps, each operation taking only those that are its own (only
    redeeming an invite, a pushed roster or founding a network lets anybody in,
    only a kick or a departure sends them away, a name is taken only while it is
    free or one's own, and freed only by a forced claim or when a network is
    made), and everybody shown under a name is in and owns it. *)
Theorem membership_implements_the_registry own os m :
  history own os Membership_default m -> never_crowded own os Membership_default -> exists lss,
  Forall2 (fun o ls => Forall (may own o) ls) os lss
  /\ performs (concat lss) nobody = Some (rolls m)
  /\ rolls_ok (rolls m)
  /\ NoDup (ids (members m)).
Proof.
  intros Hh Hc. destruct (history_steps own os _ m wf_default Hh Hc) as (lss & HF & Hp).
  exists lss. split; [done|]. split; [exact Hp|]. split; [|apply (wf_history _ _ _ _ Hh Hc wf_default)].
  eapply performs_ok; [|exact Hp]. by intros i n.
Qed.
End Refinement.

(** ** A network with an invite *)

Import Concrete.

Example membership_implements_the_registry_witness : exists lss,
  performs (concat lss) nobody = Some (rolls Demo.state) /\ people (rolls Demo.state) = {[Demo.id1; Demo.id2]}
  /\ rolls_ok (rolls Demo.state).
Proof.
  destruct (@membership_implements_the_registry endpoint_ids sha256_crate hex_crate bs58_crate K1 Demo.ops Demo.state Demo.history_demo Demo.never_crowded_demo) as (lss & _ & Hp & Ho & _).
  exists lss. split; [exact Hp|]. split; [|exact Ho]. apply (bool_decide_eq_true_1 _). by vm_compute.
Defined.
