(* ===== verification/Filename.v ===== *)
(** * File names a peer may choose ([proto/src/filename.rs])

    The check both ends run on an offered name, and the numbering used when a
    name is taken. *)

From S2P Require Import Prelude Proto.

Inductive Platform := Unix | Windows.

#[export] Instance Platform_eq_dec : EqDecision Platform.
Proof. solve_decision. Defined.

(** [Platform::current]: [cfg!(windows)] is its input. *)
Definition current (windows : bool) : Platform := if windows then Windows else Unix.

Definition MAX_LEN : nat := 255.

(** [¹], [²] and [³] are U+00B9, U+00B2 and U+00B3. *)
Definition WINDOWS_RESERVED : list rstr :=
  (lit <$> ["CON"; "PRN"; "AUX"; "NUL"; "CONIN$"; "CONOUT$"; "COM1"; "COM2"; "COM3"; "COM4"; "COM5";
            "COM6"; "COM7"; "COM8"; "COM9"]%string)
  ++ ((fun c => lit "COM" ++ [c]) <$> [185; 178; 179]%N)
  ++ (lit <$> ["LPT1"; "LPT2"; "LPT3"; "LPT4"; "LPT5"; "LPT6"; "LPT7"; "LPT8"; "LPT9"]%string)
  ++ ((fun c => lit "LPT" ++ [c]) <$> [185; 178; 179]%N).

(** [< > : ␞ | ? *], with [␞] the double quote. *)
Definition WINDOWS_INVALID : list char := [60; 62; 58; 34; 124; 63; 42]%N.

Definition is_control (c : char) : bool :=
  is_cc c
  || ((c =? 8206) || (c =? 8207) || (8234 <=? c) && (c <=? 8238) || (8294 <=? c) && (c <=? 8297))%N.

Definition check (name : rstr) (platform : Platform) : result message () :=
  if is_empty name then Err (Fmt "the file name is empty" [])
  else if str_eqb name (lit ".") || str_eqb name (lit "..") then
    Err (Fmt "{name:?} is not a file name" [Text name])
  else if contains_char 47 name || contains_char 92 name then
    Err (Fmt "{name:?} contains a path separator" [Text name])
  else if (MAX_LEN <? str_len name)%nat then
    Err (Fmt "the file name is {} bytes; the limit is {MAX_LEN}" [num (Z.of_nat (str_len name))])
  else
    match List.find is_control name with
    | Some bad =>
        Err (Fmt "the file name contains the control character U+{:04X}" [num (Z.of_N bad)])
    | None =>
        if bool_decide (platform = Windows) then
          match List.find (fun c => existsb (N.eqb c) WINDOWS_INVALID) name with
          | Some bad =>
              Err (Fmt "the file name contains {bad:?}, which Windows does not allow" [Text [bad]])
          | None =>
              if ends_with_char 46 name || ends_with_char 32 name then
                Err (Fmt "the file name ends in a dot or a space, which Windows drops" [])
              else
                let stem := trim_end_matches (N.eqb 32) (first_part 46 name) in
                if existsb (fun reserved => eq_ignore_ascii_case reserved stem) WINDOWS_RESERVED then
                  Err (Fmt "{name:?} is a reserved device name on Windows" [Text name])
                else Ok tt
          end
        else Ok tt
    end.

(** [rfind('.')] and [split_at]: what is before the last dot, and the rest. *)
Definition stem_ext (name : rstr) : rstr * rstr :=
  match split_once 46 (rev name) with
  | Some (after, c :: before) => (rev (c :: before), 46%N :: rev after)
  | _ => (name, [])
  end.

(** [&stem[..cut]] with [cut] moved down to a character boundary. *)
Fixpoint take_bytes (cut : nat) (s : rstr) : rstr :=
  match s with
  | [] => []
  | c :: s' => if (utf8_len c <=? cut)%nat then c :: take_bytes (cut - utf8_len c) s' else []
  end.

Definition numbered (name : rstr) (n : nat) : rstr :=
  let '(stem, ext) := stem_ext name in
  let tag := lit " (" ++ show_nat n ++ lit ")" in
  let room := (MAX_LEN - (str_len tag + str_len ext))%nat in
  let cut := Nat.min (str_len stem) room in
  take_bytes cut stem ++ tag ++ ext.

Example numbered_photo : numbered (lit "photo.jpg") 12 = lit "photo (12).jpg".
Proof. reflexivity. Qed.
Example numbered_dotfile : numbered (lit ".bashrc") 1 = lit ".bashrc (1)".
Proof. reflexivity. Qed.

(** ** What a safe name is *)

Record safe_name (name : rstr) : Prop := {
  safe_nonempty : name <> [];
  safe_dot : name <> lit "." /\ name <> lit "..";
  safe_separators : 47%N ∉ name /\ 92%N ∉ name;
  safe_length : (str_len name <= MAX_LEN)%nat;
  safe_controls : Forall (fun c => is_control c = false) name;
}.

Definition device (name : rstr) : Prop :=
  Exists (fun reserved => eq_ignore_ascii_case reserved (trim_end_matches (N.eqb 32) (first_part 46 name)) = true)
    WINDOWS_RESERVED.

Record safe_windows_name (name : rstr) : Prop := {
  win_chars : Forall (fun c => c ∉ WINDOWS_INVALID) name;
  win_end : ends_with_char 46 name = false /\ ends_with_char 32 name = false;
  win_device : ~ device name;
}.

Lemma find_None (p : N -> bool) s : List.find p s = None <-> Forall (fun c => p c = false) s.
Proof.
  induction s as [|c s IH]; simpl; [done|]. rewrite Forall_cons, <- IH. destruct (p c); naive_solver.
Qed.

Lemma contains_char_false c s : contains_char c s = false <-> c ∉ s.
Proof. rewrite <- contains_char_spec. by destruct (contains_char c s). Qed.

Lemma existsb_Exists {A} (p : A -> bool) l : existsb p l = true <-> Exists (fun x => p x = true) l.
Proof.
  induction l as [|x l IH]; simpl.
  - split; [done|]. by intros H%Exists_nil.
  - by rewrite orb_true_iff, Exists_cons, IH.
Qed.

Lemma existsb_eq_false c l : existsb (N.eqb c) l = false <-> c ∉ l.
Proof. apply contains_char_false. Qed.

Lemma check_windows_spec name :
  (match List.find (fun c => existsb (N.eqb c) WINDOWS_INVALID) name with
   | Some _ => False
   | None => ends_with_char 46 name || ends_with_char 32 name = false
             /\ existsb (fun reserved => eq_ignore_ascii_case reserved
                  (trim_end_matches (N.eqb 32) (first_part 46 name))) WINDOWS_RESERVED = false
   end) <-> safe_windows_name name.
Proof.
  destruct (List.find _ name) eqn:E.
  - split; [done|]. intros [Hc _ _]. assert (List.find (fun c => existsb (N.eqb c) WINDOWS_INVALID) name = None); [|congruence].
    apply find_None. eapply Forall_impl; [exact Hc|]. intros c. apply existsb_eq_false.
  - apply find_None in E.
    rewrite orb_false_iff, <- (not_true_iff_false (existsb _ WINDOWS_RESERVED)), existsb_Exists. split.
    + intros [[? ?] ?]. split; auto. eapply Forall_impl; [exact E|]. intros c. by apply existsb_eq_false.
    + intros [_ [? ?] ?]. auto.
Qed.

Lemma check_spec name platform :
  check name platform = Ok () <-> safe_name name /\ (platform = Windows -> safe_windows_name name).
Proof.
  unfold check.
  destruct (is_empty name) eqn:E1; [apply is_empty_spec in E1; split; [done|intros [[? _ _ _ _] _]; done]|].
  assert (name <> []) by (intros ->; done).
  destruct (str_eqb name (lit ".") || _) eqn:E2.
  { apply orb_true_iff in E2. rewrite !str_eqb_eq in E2. split; [done|]. intros [[_ [? ?] _ _ _] _]. naive_solver. }
  apply orb_false_iff in E2. rewrite !str_eqb_neq in E2.
  destruct (contains_char 47 name || _) eqn:E3.
  { apply orb_true_iff in E3. rewrite !contains_char_spec in E3. split; [done|]. intros [[_ _ [? ?] _ _] _]. naive_solver. }
  apply orb_false_iff in E3. rewrite !contains_char_false in E3.
  destruct (Nat.ltb_spec MAX_LEN (str_len name)) as [E4|E4].
  { split; [done|]. intros [[_ _ _ ? _] _]. lia. }
  destruct (List.find is_control name) eqn:E5.
  { split; [done|]. intros [[_ _ _ _ Hc] _]. apply find_None in Hc. congruence. }
  apply find_None in E5. assert (safe_name name) by (split; auto).
  case_bool_decide as E6.
  - rewrite <- check_windows_spec. destruct (List.find _ name); [naive_solver|].
    destruct (ends_with_char 46 name || _); [naive_solver|]. destruct (existsb _ WINDOWS_RESERVED); naive_solver.
  - naive_solver.
Qed.

(** ** Numbering *)

Lemma stem_ext_spec name stem ext : stem_ext name = (stem, ext) ->
  name = stem ++ ext /\ (ext = [] \/ stem <> [] /\ exists e, ext = 46%N :: e).
Proof.
  unfold stem_ext. destruct (split_once 46 (rev name)) as [[after [|c before]]|] eqn:E;
    [intros [= <- <-]; rewrite app_nil_r; auto| |intros [= <- <-]; rewrite app_nil_r; auto].
  apply split_once_spec in E as [E _]. intros [= <- <-]. split.
  - rewrite <- (rev_involutive name), E, rev_app_distr. simpl. by rewrite <- !app_assoc.
  - right. split; [by destruct (rev before)|by eexists].
Qed.

Lemma take_bytes_prefix cut s : exists post, s = take_bytes cut s ++ post.
Proof.
  revert cut; induction s as [|c s IH]; intros cut; simpl; [by exists []|].
  destruct (utf8_len c <=? cut)%nat; [|by eexists].
  destruct (IH (cut - utf8_len c)%nat) as (post & Heq). exists post. simpl. by f_equal.
Qed.

Lemma take_bytes_len cut s : (str_len (take_bytes cut s) <= cut)%nat.
Proof.
  revert cut; induction s as [|c s IH]; intros cut; simpl; [lia|].
  destruct (Nat.leb_spec (utf8_len c) cut); simpl; [|lia]. specialize (IH (cut - utf8_len c)%nat). lia.
Qed.

Definition tag (n : nat) : rstr := lit " (" ++ show_nat n ++ lit ")".

Lemma numbered_eq name n stem ext : stem_ext name = (stem, ext) ->
  exists cut post, numbered name n = take_bytes cut stem ++ tag n ++ ext
    /\ name = (take_bytes cut stem ++ post) ++ ext
    /\ (str_len (tag n) + str_len ext <= MAX_LEN -> str_len (numbered name n) <= MAX_LEN)%nat.
Proof.
  intros E. unfold numbered. rewrite E. fold (tag n).
  set (cut := Nat.min _ _). destruct (take_bytes_prefix cut stem) as (post & Heq).
  exists cut, post. split; [done|]. apply stem_ext_spec in E as [-> _]. split; [by rewrite <- Heq|].
  intros Hle. rewrite !str_len_app. pose proof (take_bytes_len cut stem). unfold cut in *. lia.
Qed.

Lemma tag_chars n : Forall (fun c => is_digit c = true \/ c ∈ [32; 40; 41]%N) (tag n).
Proof.
  unfold tag. change (lit " (") with [32; 40]%N. change (lit ")") with [41%N].
  rewrite !Forall_app, Forall_cons, !Forall_singleton. split_and!; try (right; set_solver).
  eapply Forall_impl; [apply show_nat_digits|auto].
Qed.

Lemma Forall_numbered (P : N -> Prop) name n :
  (forall c, is_digit c = true \/ c ∈ [32; 40; 41]%N -> P c) -> Forall P name -> Forall P (numbered name n).
Proof.
  intros Hp Hname. destruct (stem_ext name) as [stem ext] eqn:E.
  destruct (numbered_eq name n stem ext E) as (cut & post & -> & Hn & _). rewrite Hn, !Forall_app in Hname.
  rewrite !Forall_app. destruct Hname as [[? _] ?]. split_and!; [done| |done].
  eapply Forall_impl; [apply tag_chars|exact Hp].
Qed.

Lemma not_elem_Forall (c : N) s : c ∉ s <-> Forall (fun x => x <> c) s.
Proof.
  rewrite Forall_forall. split.
  - intros Hc x Hx ->. done.
  - intros Hall Hc. by apply (Hall c).
Qed.

Lemma first_part_app_in c a b : c ∈ a -> first_part c (a ++ b) = first_part c a.
Proof.
  intros Hc. unfold first_part. destruct (split_once c a) as [[x y]|] eqn:E.
  - apply split_once_spec in E as [-> Hx].
    assert (split_once c ((x ++ c :: y) ++ b) = Some (x, y ++ b)) as ->; [|done].
    apply split_once_spec. split; [by rewrite <- app_assoc|done].
  - apply split_once_None in E. rewrite Forall_forall in E. by apply E in Hc.
Qed.

Lemma first_part_app_notin c a b : c ∉ a -> first_part c (a ++ b) = a ++ first_part c b.
Proof.
  intros Hc. apply not_elem_Forall in Hc. unfold first_part.
  destruct (split_once c b) as [[x y]|] eqn:E.
  - apply split_once_spec in E as [-> Hx].
    assert (split_once c (a ++ x ++ c :: y) = Some (a ++ x, y)) as ->; [|done].
    apply split_once_spec. split; [by rewrite <- app_assoc|by apply Forall_app].
  - apply split_once_None in E. rewrite (proj2 (split_once_None c (a ++ b))); [done|by apply Forall_app].
Qed.

(** No device name ends in a parenthesis. *)
Lemma not_device_paren x : ~ Exists (fun r => eq_ignore_ascii_case r (x ++ [41%N]) = true) WINDOWS_RESERVED.
Proof.
  assert (Hall : Forall (fun r => last (to_ascii_lowercase r) <> Some 41%N) WINDOWS_RESERVED).
  { by repeat (apply Forall_cons; split; [by vm_compute|]). }
  intros Hex. apply Exists_exists in Hex as (r & Hr & Heq). rewrite Forall_forall in Hall.
  apply (Hall r Hr). unfold eq_ignore_ascii_case in Heq. apply str_eqb_eq in Heq. rewrite Heq.
  unfold to_ascii_lowercase. rewrite fmap_app. change (ascii_lower <$> [41%N]) with [41%N]. by rewrite last_snoc.
Qed.

Lemma ends_with_snoc c s d : ends_with_char c (s ++ [d]) = (d =? c)%N.
Proof. unfold ends_with_char. by rewrite rev_app_distr. Qed.

Lemma numbered_ends name n c stem ext : stem_ext name = (stem, ext) -> c <> 41%N ->
  ends_with_char c name = false -> ends_with_char c (numbered name n) = false.
Proof.
  intros E Hc He. destruct (numbered_eq name n stem ext E) as (cut & post & -> & Hn & _).
  destruct ext as [|d ext].
  - rewrite app_nil_r. unfold tag. change (lit ")") with [41%N]. rewrite !app_assoc, ends_with_snoc. by apply N.eqb_neq.
  - unfold ends_with_char in *. rewrite Hn in He. rewrite rev_app_distr in He.
    rewrite app_assoc, rev_app_distr. destruct (rev (d :: ext)) as [|e r] eqn:Er; [|exact He].
    apply (f_equal (@rev N)) in Er. by rewrite rev_involutive in Er.
Qed.

Lemma trim_spaces_paren s : trim_end_matches (N.eqb 32) (s ++ [41%N]) = s ++ [41%N].
Proof. apply trim_end_id. by rewrite rev_app_distr. Qed.

Lemma numbered_not_device name n : ~ device name -> ~ device (numbered name n).
Proof.
  intros Hd. destruct (stem_ext name) as [stem ext] eqn:E. apply stem_ext_spec in E as Hse.
  destruct (numbered_eq name n stem ext E) as (cut & post & Hnum & Hn & _). unfold device. rewrite Hnum.
  destruct (decide (46%N ∈ take_bytes cut stem)) as [Hin|Hnin].
  - rewrite first_part_app_in by done. unfold device in Hd. rewrite Hn, <- app_assoc in Hd.
    by rewrite first_part_app_in in Hd.
  - rewrite first_part_app_notin by done.
    assert (Htag : 46%N ∉ tag n).
    { apply not_elem_Forall. eapply Forall_impl; [apply tag_chars|]. intros c [Hc|Hc] ->; [done|set_solver]. }
    rewrite first_part_app_notin by done.
    assert (first_part 46 ext = []) as ->.
    { destruct Hse as [_ [->|[_ [e ->]]]]; done. }
    rewrite app_nil_r. unfold tag. change (lit ")") with [41%N]. rewrite !app_assoc, trim_spaces_paren. apply not_device_paren.
Qed.

Lemma tag_len n : Z.of_nat n <= u32_max -> (str_len (tag n) <= 13)%nat.
Proof.
  intros Hn. rewrite str_len_ascii.
  - unfold tag. rewrite !length_app. assert ((length (show_nat n) <= 10)%nat); [|simpl; lia].
    apply length_show_nat; [lia|]. unfold u32_max in Hn. change (10 ^ N.of_nat 10)%N with 10000000000%N. lia.
  - eapply Forall_impl; [apply tag_chars|]. intros c [Hc|Hc]; unfold is_ascii, is_digit in *; [lia|].
    rewrite !elem_of_cons in Hc. destruct Hc as [->|[->|[->|Hc%elem_of_nil]]]; done.
Qed.

(** ** Properties *)

(** a name is accepted exactly when it is safe to create: not empty, [.] or
    [..], free of both path separators, at most 255 bytes, free of control and
    bidirectional-override characters and, on Windows, free of the characters
    NTFS refuses, not ending in a dot or space, and not a device name. *)
Theorem check_accepts_exactly_safe_names name platform :
  check name platform = Ok () <-> safe_name name /\ (platform = Windows -> safe_windows_name name).
Proof. apply check_spec. Qed.

(** numbering a name that passed the check gives one that passes it again on
    the same platform, with the same extension, whatever the 32-bit number, as
    long as the extension leaves room for the number. *)
Theorem numbered_is_safe name platform n stem ext :
  check name platform = Ok () -> Z.of_nat n <= u32_max ->
  stem_ext name = (stem, ext) -> (str_len ext <= 242)%nat ->
  check (numbered name n) platform = Ok ()
  /\ exists kept, numbered name n = kept ++ tag n ++ ext /\ exists post, stem = kept ++ post.
Proof.
  intros Hc Hn E Hext. apply check_spec in Hc as [[S1 S2 S3 S4 S5] Hw].
  destruct (numbered_eq name n stem ext E) as (cut & post & Hnum & Hname & Hlen).
  split; [|exists (take_bytes cut stem); split; [done|apply take_bytes_prefix]].
  apply check_spec. split.
  - assert (H40 : 40%N ∈ numbered name n).
    { rewrite Hnum. apply elem_of_app. right. apply elem_of_app. left. unfold tag. simpl. do 2 constructor. }
    split.
    + intros Hz. rewrite Hz in H40. by apply elem_of_nil in H40.
    + split; intros Hz; rewrite Hz in H40; by apply contains_char_spec in H40.
    + rewrite !not_elem_Forall in *. destruct S3.
      split; (apply Forall_numbered; [intros c [Hd|Hd] ->; [done|set_solver]|done]).
    + apply Hlen. pose proof (tag_len n Hn). unfold MAX_LEN. lia.
    + apply Forall_numbered; [|done]. intros c [Hd|Hd].
      * unfold is_control, is_cc, is_digit in *. lia.
      * rewrite !elem_of_cons in Hd. destruct Hd as [->|[->|[->|Hd%elem_of_nil]]]; done.
  - intros Hp. destruct (Hw Hp) as [W1 [W2 W3] W4]. split.
    + apply Forall_numbered; [|done]. intros c [Hd|Hd].
      * unfold WINDOWS_INVALID. intros Hin. rewrite !elem_of_cons in Hin. unfold is_digit in Hd.
        destruct Hin as [->|[->|[->|[->|[->|[->|[->|Hin%elem_of_nil]]]]]]]; done.
      * rewrite !elem_of_cons in Hd. destruct Hd as [->|[->|[->|Hd%elem_of_nil]]]; unfold WINDOWS_INVALID;
          [set_solver..|done].
    + split; by apply (numbered_ends name n _ stem ext).
    + by apply numbered_not_device.
Qed.

Example numbered_is_safe_witness :
  check (lit "photo.jpg") Windows = Ok () /\ check (numbered (lit "photo.jpg") 7) Windows = Ok ().
Proof.
  split; [by vm_compute|].
  apply (numbered_is_safe (lit "photo.jpg") Windows 7 (lit "photo") (lit ".jpg")); [by vm_compute|done|by vm_compute|].
  simpl. lia.
Defined.

(** with an extension of more than 251 bytes the numbered name is over
    [MAX_LEN], and the check refuses it. *)
Theorem numbered_can_outgrow_the_limit :
  exists name, check name Unix = Ok () /\ (MAX_LEN < str_len (numbered name 1))%nat.
Proof.
  exists (lit "a." ++ replicate 252 98%N). split; [by vm_compute|]. apply Nat.ltb_lt. by vm_compute.
Qed.
