(* ===== verification/Utf8.v ===== *)
(** * UTF-8 ([str::as_bytes] and [String::from_utf8_lossy])

    The standard library's encoding of a string and its lossy decoding, which
    replaces each maximal invalid run by U+FFFD. *)

From S2P Require Import Prelude External.

(** A Unicode scalar value, which is what a [char] is. *)
Definition scalar (c : char) : Prop := (c < 55296 \/ 57344 <= c < 1114112)%N.

Definition encode_char (c : char) : list Z :=
  let n := Z.of_N c in
  if n <? 128 then [n]
  else if n <? 2048 then [192 + n / 64; 128 + n mod 64]
  else if n <? 65536 then [224 + n / 4096; 128 + n / 64 mod 64; 128 + n mod 64]
  else [240 + n / 262144; 128 + n / 4096 mod 64; 128 + n / 64 mod 64; 128 + n mod 64].

Fixpoint as_bytes (s : rstr) : list Z :=
  match s with [] => [] | c :: s' => encode_char c ++ as_bytes s' end.

Definition REPLACEMENT : char := 65533%N.

Definition cont (b : Z) : bool := (128 <=? b) && (b <? 192).
Definition inside (lo b hi : Z) : bool := (lo <=? b) && (b <=? hi).

(** The second byte allowed after the first of a three- or four-byte sequence. *)
Definition second3 (b b1 : Z) : bool :=
  ((b =? 224) && inside 160 b1 191) || (inside 225 b 236 && inside 128 b1 191)
  || ((b =? 237) && inside 128 b1 159) || (inside 238 b 239 && inside 128 b1 191).
Definition second4 (b b1 : Z) : bool :=
  ((b =? 240) && inside 144 b1 191) || (inside 241 b 243 && inside 128 b1 191)
  || ((b =? 244) && inside 128 b1 143).

Fixpoint from_utf8_lossy (bytes : list Z) : rstr :=
  match bytes with
  | [] => []
  | b :: l1 =>
      if b <? 128 then Z.to_N b :: from_utf8_lossy l1
      else if inside 194 b 223 then
        match l1 with
        | b1 :: l2 =>
            if cont b1 then Z.to_N ((b - 192) * 64 + (b1 - 128)) :: from_utf8_lossy l2
            else REPLACEMENT :: from_utf8_lossy l1
        | [] => [REPLACEMENT]
        end
      else if inside 224 b 239 then
        match l1 with
        | b1 :: l2 =>
            if second3 b b1 then
              match l2 with
              | b2 :: l3 =>
                  if cont b2 then
                    Z.to_N ((b - 224) * 4096 + (b1 - 128) * 64 + (b2 - 128)) :: from_utf8_lossy l3
                  else REPLACEMENT :: from_utf8_lossy l2
              | [] => [REPLACEMENT]
              end
            else REPLACEMENT :: from_utf8_lossy l1
        | [] => [REPLACEMENT]
        end
      else if inside 240 b 244 then
        match l1 with
        | b1 :: l2 =>
            if second4 b b1 then
              match l2 with
              | b2 :: l3 =>
                  if cont b2 then
                    match l3 with
                    | b3 :: l4 =>
                        if cont b3 then
                          Z.to_N ((b - 240) * 262144 + (b1 - 128) * 4096 + (b2 - 128) * 64 + (b3 - 128))
                          :: from_utf8_lossy l4
                        else REPLACEMENT :: from_utf8_lossy l3
                    | [] => [REPLACEMENT]
                    end
                  else REPLACEMENT :: from_utf8_lossy l2
              | [] => [REPLACEMENT]
              end
            else REPLACEMENT :: from_utf8_lossy l1
        | [] => [REPLACEMENT]
        end
      else REPLACEMENT :: from_utf8_lossy l1
  end.

Lemma length_encode_char c : length (encode_char c) = utf8_len c.
Proof. unfold encode_char, utf8_len. repeat case_match; simpl; lia. Qed.

Lemma length_as_bytes s : length (as_bytes s) = str_len s.
Proof. induction s as [|c s IH]; simpl; [done|]. by rewrite length_app, length_encode_char, IH. Qed.

Ltac divs := Z.to_euclidean_division_equations; lia.

Lemma encode_char_ok c : scalar c -> bytes_ok (encode_char c).
Proof.
  unfold scalar, encode_char, bytes_ok, is_byte. intros Hc.
  repeat case_match; repeat apply Forall_cons_2; try apply Forall_nil_2; divs.
Qed.

Lemma as_bytes_ok s : Forall scalar s -> bytes_ok (as_bytes s).
Proof. induction 1; simpl; [constructor|]. apply bytes_ok_app. auto using encode_char_ok. Qed.

Lemma lossy_encode_char c rest : scalar c -> from_utf8_lossy (encode_char c ++ rest) = c :: from_utf8_lossy rest.
Proof.
  intros Hc. unfold scalar in Hc. unfold encode_char. set (n := Z.of_N c).
  assert (Hn : n < 55296 \/ 57344 <= n < 1114112) by lia. assert (Hn0 : 0 <= n) by lia.
  assert (Hback : Z.to_N n = c) by lia. clearbody n.
  destruct (Z.ltb_spec n 128) as [H1|H1].
  { simpl. replace (n <? 128) with true by lia. by rewrite Hback. }
  destruct (Z.ltb_spec n 2048) as [H2|H2].
  { simpl. unfold inside, cont.
    replace (192 + n / 64 <? 128) with false by (symmetry; apply Z.ltb_ge; divs).
    replace ((194 <=? 192 + n / 64) && (192 + n / 64 <=? 223)) with true
      by (symmetry; apply andb_true_iff; split; apply Z.leb_le; divs).
    replace ((128 <=? 128 + n mod 64) && (128 + n mod 64 <? 192)) with true
      by (symmetry; apply andb_true_iff; split; [apply Z.leb_le|apply Z.ltb_lt]; divs).
    f_equal. rewrite <- Hback. f_equal. divs. }
  destruct (Z.ltb_spec n 65536) as [H3|H3].
  { simpl. unfold second3, inside, cont.
    replace (224 + n / 4096 <? 128) with false by (symmetry; apply Z.ltb_ge; divs).
    set (q := n / 4096). set (r := n / 64 mod 64). set (t := n mod 64).
    assert (Hq : 0 <= q < 16) by (unfold q; divs). assert (Hr : 0 <= r < 64) by (unfold r; divs).
    assert (Ht : 0 <= t < 64) by (unfold t; divs). assert (Hnq : n = q * 4096 + r * 64 + t) by (unfold q, r, t; divs).
    clearbody q r t.
    replace ((194 <=? 224 + q) && (224 + q <=? 223)) with false by lia.
    replace ((224 <=? 224 + q) && (224 + q <=? 239)) with true by lia.
    match goal with |- (if ?b then _ else _) = _ => replace b with true by lia end.
    replace ((128 <=? 128 + t) && (128 + t <? 192)) with true by lia.
    f_equal. rewrite <- Hback. f_equal. lia. }
  simpl. unfold second4, inside, cont.
  replace (240 + n / 262144 <? 128) with false by (symmetry; apply Z.ltb_ge; divs).
  set (p := n / 262144). set (q := n / 4096 mod 64). set (r := n / 64 mod 64). set (t := n mod 64).
  assert (Hp : 0 <= p < 5) by (unfold p; divs).
  assert (Hq : 0 <= q < 64) by (unfold q; divs). assert (Hr : 0 <= r < 64) by (unfold r; divs).
  assert (Ht : 0 <= t < 64) by (unfold t; divs).
  assert (Hnq : n = p * 262144 + q * 4096 + r * 64 + t) by (unfold p, q, r, t; divs).
  clearbody p q r t.
  replace ((194 <=? 240 + p) && (240 + p <=? 223)) with false by lia.
  replace ((224 <=? 240 + p) && (240 + p <=? 239)) with false by lia.
  replace ((240 <=? 240 + p) && (240 + p <=? 244)) with true by lia.
  match goal with |- (if ?b then _ else _) = _ => replace b with true by lia end.
  replace ((128 <=? 128 + r) && (128 + r <? 192)) with true by lia.
  replace ((128 <=? 128 + t) && (128 + t <? 192)) with true by lia.
  f_equal. rewrite <- Hback. f_equal. lia.
Qed.

(** Decoding what was encoded loses nothing. *)
Lemma lossy_as_bytes s : Forall scalar s -> from_utf8_lossy (as_bytes s) = s.
Proof. induction 1 as [|c s Hc _ IH]; simpl; [done|]. by rewrite lossy_encode_char, IH. Qed.

(** ** Strict decoding *)

(** [String::from_utf8]: the bytes that are some string's. *)
Definition from_utf8 (bytes : list Z) : option rstr :=
  let s := from_utf8_lossy bytes in if bool_decide (as_bytes s = bytes) then Some s else None.

Lemma from_utf8_as_bytes s : Forall scalar s -> from_utf8 (as_bytes s) = Some s.
Proof. intros Hs. unfold from_utf8. rewrite lossy_as_bytes by done. by rewrite bool_decide_eq_true_2. Qed.

Lemma from_utf8_inv bytes s : from_utf8 bytes = Some s -> as_bytes s = bytes /\ s = from_utf8_lossy bytes.
Proof. unfold from_utf8. case_bool_decide as H; [|done]. by intros [= <-]. Qed.

(** A character cut short decodes to a replacement. *)
Lemma lossy_cut_char c n : (0 < n < length (encode_char c))%nat ->
  exists r, from_utf8_lossy (take n (encode_char c)) = REPLACEMENT :: r.
Proof.
  unfold encode_char. set (m := Z.of_N c). assert (Hm : 0 <= m) by lia. clearbody m.
  assert (Hd : 0 <= m / 64 /\ 0 <= m / 4096 /\ 0 <= m / 262144) by (split_and!; apply Z.div_pos; lia).
  destruct (m <? 128); [cbn; lia|]. destruct (m <? 2048); [|destruct (m <? 65536)]; cbn [length]; intros Hn;
    (destruct n as [|[|[|[|n]]]]; [lia|..]; try lia); cbn [take from_utf8_lossy];
    match goal with |- context [?b <? 128] => replace (b <? 128) with false by lia end; unfold inside;
    repeat match goal with |- context [if ?b then _ else _] => destruct b eqn:? end; try (by eexists); lia.
Qed.

Lemma as_bytes_replacement r : as_bytes (REPLACEMENT :: r) = 239 :: 191 :: 189 :: as_bytes r.
Proof. reflexivity. Qed.

(** So a string's bytes cut short are a string's only where a character ends. *)
Lemma from_utf8_cut s n t : Forall scalar s -> (n < length (as_bytes s))%nat -> from_utf8 (take n (as_bytes s)) = Some t ->
  exists k, (k < length s)%nat /\ t = take k s.
Proof.
  intros Hs. revert n t. induction Hs as [|c s Hc Hs IH]; intros n t; cbn [as_bytes]; [cbn; lia|].
  rewrite length_app. intros Hn Ht. apply from_utf8_inv in Ht as [Hb Hl].
  destruct (decide (n < length (encode_char c))%nat) as [Hlt|Hge].
  - rewrite take_app_le in Hb, Hl by lia. destruct n as [|n]; [exists 0%nat; cbn in *; split; [lia|by subst]|].
    exfalso. destruct (lossy_cut_char c (S n)) as [r Hr]; [lia|]. rewrite Hl, Hr, as_bytes_replacement in Hb.
    revert Hlt Hb. unfold encode_char. set (m := Z.of_N c). assert (Hm : 0 <= m) by lia. clearbody m.
    assert (0 <= m / 262144) by (apply Z.div_pos; lia).
    destruct (m <? 128); [cbn; lia|]. destruct (m <? 2048); [|destruct (m <? 65536)]; cbn [length]; intros Hlt;
      (destruct n as [|[|[|n]]]; try lia); cbn [take]; try discriminate. intros [= Hq _]. lia.
  - rewrite take_app_ge in Hb, Hl by lia. rewrite lossy_encode_char in Hl by done. subst t.
    cbn [as_bytes] in Hb. apply app_inv_head in Hb.
    destruct (IH (n - length (encode_char c))%nat (from_utf8_lossy (take (n - length (encode_char c)) (as_bytes s)))) as (k & Hk & ->); [lia| |].
    { unfold from_utf8. by rewrite bool_decide_eq_true_2. }
    exists (S k). split; [cbn; lia|done].
Qed.
