(* ===== verification/Frame.v ===== *)
(** * The framing of file transfers ([proto/src/frame.rs])

    [frame := tag:u8 len:u32be payload[len]].  A byte stream is the list of bytes
    still to come; its end is an unexpected EOF wherever a frame is not complete. *)

From S2P Require Import Prelude External Proto Net Utf8.

Definition MAX_PAYLOAD : Z := 2 ^ 20.
Definition CHUNK : Z := 64 * 1024.
Definition TAG_DATA : Z := 68.
Definition TAG_HASH : Z := 72.
Definition TAG_END : Z := 69.
Definition TAG_CONTROL : Z := 67.
Definition TAG_ERROR : Z := 88.

Inductive Frame :=
  | Data (data : list Z)
  | Hash (hash : list Z)
  | End_
  | Control (json : list Z)
  | Error (reason : rstr).

#[export] Instance Frame_eq_dec : EqDecision Frame.
Proof. solve_decision. Defined.

Inductive io_error := UnexpectedEof | InvalidData (m : message).

(** The [match] of [write]. *)
Definition tag_payload (frame : Frame) : Z * list Z :=
  match frame with
  | Data data => (TAG_DATA, data)
  | Hash hash => (TAG_HASH, hash)
  | End_ => (TAG_END, [])
  | Control json => (TAG_CONTROL, json)
  | Error message => (TAG_ERROR, as_bytes message)
  end.

(** What [write] puts on the wire. *)
Definition write (frame : Frame) : result io_error (list Z) :=
  let '(tag, payload) := tag_payload frame in
  let len := Z.of_nat (length payload) in
  if MAX_PAYLOAD <? len then
    Err (InvalidData (Fmt "a {}-byte frame is over the limit" [num len]))
  else Ok (tag :: u32_to_be_bytes (len mod 2 ^ 32) ++ payload).

Definition read_exact (n : nat) (stream : list Z) : result io_error (list Z * list Z) :=
  if (n <=? length stream)%nat then Ok (take n stream, drop n stream) else Err UnexpectedEof.

(** The [match header[0]] of [read]. *)
Definition frame_of (tag : Z) (payload : list Z) : result io_error Frame :=
  if tag =? TAG_DATA then Ok (Data payload)
  else if tag =? TAG_HASH then
    if (length payload =? 32)%nat then Ok (Hash payload)
    else Err (InvalidData (Fmt "a hash frame must carry 32 bytes" []))
  else if tag =? TAG_END then
    if (length payload =? 0)%nat then Ok End_
    else Err (InvalidData (Fmt "an end frame carries nothing" []))
  else if tag =? TAG_CONTROL then Ok (Control payload)
  else if tag =? TAG_ERROR then Ok (Error (from_utf8_lossy payload))
  else Err (InvalidData (Fmt "unknown frame tag {other:#04x}" [num tag])).

Definition read (stream : list Z) : result io_error (Frame * list Z) :=
  '(header, stream) ← read_exact 5 stream;
  let len := u32_from_be_bytes (drop 1 header) in
  if MAX_PAYLOAD <? len then
    Err (InvalidData (Fmt "a {len}-byte frame is over the limit" [num len]))
  else
    '(payload, stream) ← read_exact (Z.to_nat len) stream;
    frame ← frame_of (hd 0 header) payload;
    Ok (frame, stream).

(** [FrameReader::spawn]'s loop: frames until the first failure.  A frame takes at
    least five bytes, so the length of the stream is fuel enough. *)
Fixpoint read_frames (fuel : nat) (stream : list Z) : list Frame * io_error :=
  match fuel with
  | O => ([], UnexpectedEof)
  | S fuel' =>
      match read stream with
      | Err e => ([], e)
      | Ok (frame, stream) => let '(fs, e) := read_frames fuel' stream in (frame :: fs, e)
      end
  end.
Definition frames_of (stream : list Z) : list Frame * io_error := read_frames (S (length stream)) stream.

(** What the task has sent and [next] has not taken yet: frames, then the failure,
    after which the channel is closed and every call is an error. *)
Record FrameReader := { fr_frames : list Frame; fr_error : option io_error }.

Definition spawn (stream : list Z) : FrameReader :=
  let '(fs, e) := frames_of stream in {| fr_frames := fs; fr_error := Some e |}.

Definition next (r : FrameReader) : result io_error Frame * FrameReader :=
  match fr_frames r, fr_error r with
  | f :: fs, e => (Ok f, {| fr_frames := fs; fr_error := e |})
  | [], Some e => (Err e, {| fr_frames := []; fr_error := None |})
  | [], None => (Err UnexpectedEof, r)
  end.

Fixpoint write_all (frames : list Frame) : result io_error (list Z) :=
  match frames with
  | [] => Ok []
  | f :: fs => b ← write f; bs ← write_all fs; Ok (b ++ bs)
  end.

(** ** Frames the code can hold *)

Definition well_formed (frame : Frame) : Prop :=
  match frame with
  | Data d | Control d => bytes_ok d
  | Hash h => bytes_ok h /\ length h = 32%nat
  | End_ => True
  | Error m => Forall scalar m
  end.

Definition payload_len (frame : Frame) : Z := Z.of_nat (length (snd (tag_payload frame))).

Lemma frame_of_tag_payload frame :
  well_formed frame -> frame_of (fst (tag_payload frame)) (snd (tag_payload frame)) = Ok frame.
Proof.
  destruct frame; simpl; unfold frame_of; simpl; intros Hw; try done.
  - destruct Hw as [_ ->]. done.
  - by rewrite lossy_as_bytes.
Qed.

Lemma read_exact_app n a b : length a = n -> read_exact n (a ++ b) = Ok (a, b).
Proof.
  intros <-. unfold read_exact. rewrite length_app.
  replace (length a <=? length a + length b)%nat with true by lia.
  by rewrite take_app_length, drop_app_length.
Qed.

Lemma read_exact_ok n s a b : read_exact n s = Ok (a, b) <-> s = a ++ b /\ length a = n.
Proof.
  split.
  - unfold read_exact. destruct (Nat.leb_spec n (length s)); [|done]. intros [= <- <-].
    by rewrite take_drop, length_take_le.
  - intros [-> Hl]. by apply read_exact_app.
Qed.

Lemma read_exact_short n s : (length s < n)%nat -> read_exact n s = Err UnexpectedEof.
Proof. intros Hl. unfold read_exact. by replace (n <=? length s)%nat with false by lia. Qed.

Lemma write_ok frame bytes :
  write frame = Ok bytes <->
  payload_len frame <= MAX_PAYLOAD
  /\ bytes = fst (tag_payload frame) :: u32_to_be_bytes (payload_len frame) ++ snd (tag_payload frame).
Proof.
  unfold write, payload_len. destruct (tag_payload frame) as [tag payload]; cbn [fst snd].
  destruct (Z.ltb_spec MAX_PAYLOAD (Z.of_nat (length payload))); [split; [done|lia]|].
  rewrite Z.mod_small by (unfold MAX_PAYLOAD in *; lia). naive_solver.
Qed.

(** Reading a header and its payload. *)
Lemma read_header tag len payload rest :
  0 <= len -> Z.to_nat len = length payload -> len <= MAX_PAYLOAD ->
  read (tag :: u32_to_be_bytes len ++ payload ++ rest) = frame ← frame_of tag payload; Ok (frame, rest).
Proof.
  intros H0 Hl Hm. unfold read.
  change (tag :: u32_to_be_bytes len ++ payload ++ rest) with ((tag :: u32_to_be_bytes len) ++ payload ++ rest).
  rewrite (read_exact_app 5) by done. cbn [mbind result_bind skipn drop hd]; rewrite ?drop_0.
  rewrite u32_be_roundtrip by (unfold u32_max, MAX_PAYLOAD in *; lia).
  replace (MAX_PAYLOAD <? len) with false by lia.
  rewrite read_exact_app by lia. done.
Qed.

Lemma read_written frame bytes rest :
  well_formed frame -> write frame = Ok bytes -> read (bytes ++ rest) = Ok (frame, rest).
Proof.
  intros Hw Hb. apply write_ok in Hb as [Hm ->]. rewrite <- app_comm_cons, <- app_assoc.
  unfold payload_len in *. rewrite read_header by lia. by rewrite frame_of_tag_payload.
Qed.

(** Anything short of a whole frame is an unexpected EOF. *)
Lemma read_truncated frame bytes part missing :
  well_formed frame -> write frame = Ok bytes -> bytes = part ++ missing -> missing <> [] ->
  read part = Err UnexpectedEof.
Proof.
  intros Hw Hb Hp Hne. apply write_ok in Hb as [Hm ->]. unfold payload_len in *.
  set (payload := snd (tag_payload frame)) in *. set (tag := fst (tag_payload frame)) in *.
  assert (Hlen : (length part < 5 + length payload)%nat).
  { apply (f_equal length) in Hp. rewrite length_app in Hp. simpl in Hp. destruct missing; [done|]. simpl in Hp. lia. }
  unfold read. destruct (Nat.lt_ge_cases (length part) 5) as [H5|H5]; [by rewrite read_exact_short|].
  assert (Hpart : part = (tag :: u32_to_be_bytes (Z.of_nat (length payload))) ++ drop 5 part).
  { apply (f_equal (take 5)) in Hp as Ht. rewrite take_app_le in Ht by lia.
    rewrite <- (take_drop 5 part) at 1. by rewrite <- Ht. }
  rewrite Hpart, (read_exact_app 5) by done. cbn [mbind result_bind skipn drop hd]; rewrite ?drop_0.
  rewrite u32_be_roundtrip by (unfold u32_max, MAX_PAYLOAD in *; lia).
  replace (MAX_PAYLOAD <? _) with false by lia. rewrite read_exact_short; [done|].
  change (drop 5 (_ ++ ?x)) with x. rewrite length_drop. lia.
Qed.

Lemma read_ok stream frame rest :
  bytes_ok stream -> read stream = Ok (frame, rest) ->
  exists tag payload, stream = tag :: u32_to_be_bytes (Z.of_nat (length payload)) ++ payload ++ rest
    /\ Z.of_nat (length payload) <= MAX_PAYLOAD /\ frame_of tag payload = Ok frame /\ bytes_ok payload.
Proof.
  intros Hok. unfold read. rewrite bind_ok. intros ([header s1] & H1 & H2).
  apply read_exact_ok in H1 as [-> Hl]. apply bytes_ok_app in Hok as [Hh Hs1].
  destruct header as [|tag [|a [|b [|c [|d [|]]]]]]; try done. cbn [drop hd] in H2. rewrite ?drop_0 in H2.
  unfold bytes_ok in Hh. rewrite !Forall_cons in Hh. destruct Hh as (Ht & Ha & Hb & Hc & Hd & _).
  set (len := u32_from_be_bytes [a; b; c; d]) in *.
  assert (Hlen : 0 <= len <= u32_max) by (apply u32_from_be_bounds; [done|by do 4 (apply Forall_cons; split; [done|])]).
  destruct (Z.ltb_spec MAX_PAYLOAD len) as [|Hm]; [done|].
  apply bind_ok in H2 as ([payload s2] & H2 & H3). apply read_exact_ok in H2 as [-> Hpl].
  apply bind_ok in H3 as (f & H3 & [= -> ->]). apply bytes_ok_app in Hs1 as [Hp _].
  exists tag, payload. rewrite Hpl, Z2Nat.id by lia. split_and!; try done.
  unfold len. by rewrite u32_to_from_be.
Qed.

Lemma frame_of_ok tag payload frame :
  frame_of tag payload = Ok frame -> bytes_ok payload -> (forall m, frame <> Error m) ->
  tag_payload frame = (tag, payload) /\ well_formed frame.
Proof.
  unfold frame_of. intros Hf Hok Hne.
  destruct (Z.eqb_spec tag TAG_DATA) as [->|]; [by injection Hf as <-|].
  destruct (Z.eqb_spec tag TAG_HASH) as [->|].
  { destruct (Nat.eqb_spec (length payload) 32); [|done]. by injection Hf as <-. }
  destruct (Z.eqb_spec tag TAG_END) as [->|].
  { destruct payload; simpl in Hf; [|done]. by injection Hf as <-. }
  destruct (Z.eqb_spec tag TAG_CONTROL) as [->|]; [by injection Hf as <-|].
  destruct (tag =? TAG_ERROR); [|done]. injection Hf as <-. by destruct (Hne (from_utf8_lossy payload)).
Qed.

Lemma read_shorter stream frame rest :
  read stream = Ok (frame, rest) -> (length rest + 5 <= length stream)%nat.
Proof.
  unfold read. rewrite bind_ok. intros ([h s1] & H1 & H2). apply read_exact_ok in H1 as [-> Hl].
  destruct (MAX_PAYLOAD <? _); [done|].
  apply bind_ok in H2 as ([p s2] & H2 & H3). apply read_exact_ok in H2 as [-> _].
  apply bind_ok in H3 as (f & _ & [= -> ->]). rewrite !length_app. lia.
Qed.

(** Fuel beyond the length of the stream changes nothing. *)
Lemma read_frames_fuel n m stream :
  (length stream < n)%nat -> (length stream < m)%nat -> read_frames n stream = read_frames m stream.
Proof.
  revert m stream; induction n as [|n IH]; intros m stream Hn Hm; [lia|].
  destruct m as [|m]; [lia|]. simpl. destruct (read stream) as [[f rest]|e] eqn:E; [|done].
  apply read_shorter in E. by rewrite (IH m rest) by lia.
Qed.

Lemma frames_of_cons stream frame rest :
  read stream = Ok (frame, rest) ->
  frames_of stream = (frame :: fst (frames_of rest), snd (frames_of rest)).
Proof.
  intros E. unfold frames_of at 1. simpl. rewrite E. apply read_shorter in E.
  rewrite (read_frames_fuel (length stream) (S (length rest))) by lia.
  fold (frames_of rest). by destruct (frames_of rest).
Qed.

(** ** Properties *)

(** C30: reading what [write] put on the wire gives the frame back and leaves the
    rest of the stream; [write] refuses exactly the frames over the limit. *)
Theorem read_inverts_write frame rest :
  well_formed frame ->
  match write frame with
  | Ok bytes => payload_len frame <= MAX_PAYLOAD /\ read (bytes ++ rest) = Ok (frame, rest)
  | Err e => MAX_PAYLOAD < payload_len frame /\ exists m, e = InvalidData m
  end.
Proof.
  intros Hw. destruct (write frame) as [bytes|e] eqn:E.
  - split; [by apply write_ok in E as [? _]|]. by apply read_written.
  - unfold write in E. unfold payload_len. destruct (tag_payload frame) as [tag payload]; cbn [snd].
    destruct (Z.ltb_spec MAX_PAYLOAD (Z.of_nat (length payload))); [|done]. injection E as <-. eauto.
Qed.

(** whatever the bytes, a frame that is read (text aside, which is decoded
    lossily) is well formed, carries at most [MAX_PAYLOAD] bytes, and is exactly
    what [write] would have sent: no two encodings give one frame. *)
Theorem read_accepts_only_written_frames stream frame rest :
  bytes_ok stream -> (forall m, frame <> Error m) ->
  read stream = Ok (frame, rest) <->
  well_formed frame /\ exists bytes, write frame = Ok bytes /\ stream = bytes ++ rest.
Proof.
  intros Hok Hne. split.
  - intros Hr. apply read_ok in Hr as (tag & payload & -> & Hm & Hf & Hp); [|done].
    apply frame_of_ok in Hf as [Htp Hw]; [|done..]. split; [done|].
    exists (tag :: u32_to_be_bytes (Z.of_nat (length payload)) ++ payload). split.
    + apply write_ok. unfold payload_len. by rewrite Htp.
    + by rewrite <- app_comm_cons, <- app_assoc.
  - intros (Hw & bytes & Hb & ->). by apply read_written.
Qed.

(** a stream of frames written one after the other, cut anywhere inside a
    following frame (or right at its start), is read as exactly those frames and
    then an unexpected EOF: never a wrong frame, never silently complete. *)
Theorem stream_of_frames frames bytes frame last part missing :
  Forall well_formed frames -> write_all frames = Ok bytes ->
  well_formed frame -> write frame = Ok last -> last = part ++ missing -> missing <> [] ->
  frames_of (bytes ++ part) = (frames, UnexpectedEof).
Proof.
  intros Hall Hb Hw Hl Hp Hne. revert bytes Hb; induction Hall as [|f fs Hf _ IH]; intros bytes; simpl.
  - intros [= <-]. simpl. unfold frames_of. simpl. by rewrite (read_truncated frame last part missing).
  - intros Hb. apply bind_ok in Hb as (b & Hb & Hbs). apply bind_ok in Hbs as (bs & Hbs & [= <-]).
    rewrite <- app_assoc. rewrite (frames_of_cons _ f (bs ++ part)) by (by apply read_written).
    by rewrite (IH bs Hbs).
Qed.

(** a header announcing more than [MAX_PAYLOAD] bytes is refused on the
    header alone, whatever follows and however much of it there is. *)
Theorem oversize_is_refused_on_the_header tag a b c d rest :
  MAX_PAYLOAD < u32_from_be_bytes [a; b; c; d] ->
  exists m, read (tag :: a :: b :: c :: d :: rest) = Err (InvalidData m).
Proof.
  intros Hm. unfold read. change (tag :: a :: b :: c :: d :: rest) with ([tag; a; b; c; d] ++ rest).
  rewrite (read_exact_app 5) by done. cbn [mbind result_bind drop]. rewrite ?drop_0.
  replace (MAX_PAYLOAD <? _) with true by lia. eauto.
Qed.

(** ** Witnesses *)

Definition demo_hello : Frame := Error [104; 233; 8364; 128512]%N.

Example read_inverts_write_witness :
  exists bytes, write demo_hello = Ok bytes /\ read (bytes ++ [1; 2]) = Ok (demo_hello, [1; 2]).
Proof.
  pose proof (read_inverts_write demo_hello [1; 2]) as Hr.
  destruct (write demo_hello) as [bytes|e] eqn:E; [|by vm_compute in E].
  exists bytes. split; [done|]. apply Hr. unfold demo_hello, well_formed.
  repeat (apply Forall_cons; split; [unfold scalar; lia|]). by apply Forall_nil.
Defined.

Example read_accepts_only_written_frames_witness :
  read [68; 0; 0; 0; 2; 7; 8; 9] = Ok (Data [7; 8], [9]).
Proof.
  apply read_accepts_only_written_frames.
  - repeat (apply Forall_cons; split; [unfold is_byte; lia|]). by apply Forall_nil.
  - done.
  - split; [repeat (apply Forall_cons; split; [unfold is_byte; lia|]); by apply Forall_nil|].
    exists [68; 0; 0; 0; 2; 7; 8]. split; by vm_compute.
Defined.

Example stream_of_frames_witness :
  frames_of ([68; 0; 0; 0; 1; 7; 69; 0; 0; 0; 0] ++ [67; 0; 0]) = ([Data [7]; End_], UnexpectedEof).
Proof.
  apply (stream_of_frames [Data [7]; End_] _ (Control []) [67; 0; 0; 0; 0] [67; 0; 0] [0; 0]);
    [|by vm_compute|by apply Forall_nil|by vm_compute|done|done].
  apply Forall_cons; split; [|by apply Forall_singleton].
  apply Forall_singleton. unfold is_byte. lia.
Defined.

Example oversize_is_refused_on_the_header_witness :
  exists m, read [68; 0; 16; 0; 1] = Err (InvalidData m).
Proof. apply (oversize_is_refused_on_the_header 68 0 16 0 1 []). by vm_compute. Defined.
