(* ===== verification/Peers.v ===== *)
(** * Routes and links ([daemon/src/peers.rs])

    Which overlay address belongs to which peer, and which peers are linked.  A
    connection is known by its stable id, the key its handshake proved and the
    datagram limit it reports; closing one is an effect the operation returns. *)

From S2P Require Import Prelude External Net Tun.

Definition CLOSE_LEFT : Z := 3.
Definition CLOSE_REMOVED : Z := 4.

Section Peers.
Context `{!EndpointIds, !Sha256}.

(** What the mesh reads of an [iroh] connection. *)
Record Connection := {
  stable_id : N;
  remote_id : EndpointId;
  max_datagram_size : option Z;
}.

#[global] Instance Connection_eq_dec : EqDecision Connection.
Proof. solve_decision. Defined.

Record Peers := {
  links : gmap EndpointId Connection;
  routes : gmap IpAddr EndpointId;
}.

Definition Peers_default : Peers := {| links := ∅; routes := ∅ |}.

(** A connection closed with a code. *)
Definition closed : Type := Connection * Z.

(** The loop that fills the new table, over the members in the order the set
    yields them. *)
Definition add_routes (r : gmap IpAddr EndpointId) (id : EndpointId) : gmap IpAddr EndpointId :=
  let '(v4, v6) := virtual_addrs (id_bytes id) in <[v6 := id]> (<[v4 := id]> r).

Definition departed (linked members : list EndpointId) : list EndpointId :=
  filter (fun id => id ∉ members) linked.

Definition set_routes (p : Peers) (members : list EndpointId) : Peers * list closed :=
  let routes := foldl add_routes ∅ members in
  let gone := departed ((map_to_list (links p)).*1) members in
  ({| links := foldl (fun l id => delete id l) (links p) gone; routes := routes |},
   omap (fun id => (fun c => (c, CLOSE_REMOVED)) <$> links p !! id) gone).

Definition routed_addrs (p : Peers) : gset IpAddr := dom (routes p).

Definition register (p : Peers) (id : EndpointId) (conn : Connection) : Peers * bool :=
  match links p !! id with
  | Some _ => (p, false)
  | None => ({| links := <[id := conn]> (links p); routes := routes p |}, true)
  end.

Definition unregister (p : Peers) (id : EndpointId) : Peers :=
  {| links := delete id (links p); routes := routes p |}.

Definition close_all (p : Peers) : Peers * list closed :=
  ({| links := ∅; routes := routes p |}, (fun c => (c, CLOSE_LEFT)) <$> (map_to_list (links p)).*2).

Definition route (p : Peers) (dst : IpAddr) : option EndpointId := routes p !! dst.
Definition link (p : Peers) (id : EndpointId) : option Connection := links p !! id.

(** [Vec::dedup]: drop repeats of the element before. *)
Fixpoint dedup (l : list EndpointId) : list EndpointId :=
  match l with
  | x :: ((y :: _) as l') => if decide (x = y) then dedup l' else x :: dedup l'
  | _ => l
  end.

Definition unlinked (p : Peers) : list EndpointId :=
  let ids := filter (fun id => links p !! id = None) ((map_to_list (routes p)).*2) in
  dedup (merge_sort id_le ids).

Record PeerRow := {
  row_id : EndpointId;
  row_v4 : IpAddr;
  row_v6 : IpAddr;
  row_linked : bool;
  row_datagram_max : option Z;
}.

Definition UNSPECIFIED4 : IpAddr := V4 (replicate 4 0).
Definition UNSPECIFIED6 : IpAddr := V6 (replicate 16 0).

Definition new_row (p : Peers) (id : EndpointId) : PeerRow :=
  let l := links p !! id in
  {| row_id := id; row_v4 := UNSPECIFIED4; row_v6 := UNSPECIFIED6;
     row_linked := match l with Some _ => true | None => false end;
     row_datagram_max := l ≫= max_datagram_size |}.

Definition set_addr (a : IpAddr) (row : PeerRow) : PeerRow :=
  match a with
  | V4 _ => {| row_id := row_id row; row_v4 := a; row_v6 := row_v6 row;
               row_linked := row_linked row; row_datagram_max := row_datagram_max row |}
  | V6 _ => {| row_id := row_id row; row_v4 := row_v4 row; row_v6 := a;
               row_linked := row_linked row; row_datagram_max := row_datagram_max row |}
  end.

(** One round of [snapshot]'s loop. *)
Definition snapshot_step (p : Peers) (rows : gmap EndpointId PeerRow) (e : IpAddr * EndpointId)
    : gmap EndpointId PeerRow :=
  let '(addr, id) := e in
  let row := match rows !! id with Some r => r | None => new_row p id end in
  <[id := set_addr addr row]> rows.

(** [Ord] of [Ipv6Addr]: the octets, lexicographically. *)
Fixpoint octets_leb (a b : list Z) : bool :=
  match a, b with
  | [], _ => true
  | _ :: _, [] => false
  | x :: a', y :: b' => (x <? y) || (x =? y) && octets_leb a' b'
  end.
Definition octets (a : IpAddr) : list Z := match a with V4 o | V6 o => o end.
Definition row_le (r s : PeerRow) : Prop := octets_leb (octets (row_v6 r)) (octets (row_v6 s)) = true.
#[global] Instance row_le_dec r s : Decision (row_le r s).
Proof. unfold row_le. apply _. Defined.

Definition snapshot (p : Peers) : list PeerRow :=
  merge_sort row_le ((map_to_list (foldl (snapshot_step p) ∅ (map_to_list (routes p)))).*2).

(** ** The routing table *)

Definition v4_of (id : EndpointId) : IpAddr := fst (virtual_addrs (id_bytes id)).
Definition v6_of (id : EndpointId) : IpAddr := snd (virtual_addrs (id_bytes id)).

Lemma v4_v6_ne i j : v4_of i <> v6_of j.
Proof.
  unfold v4_of, v6_of, virtual_addrs; simpl.
  destruct (virtual_ipv4_octets (id_bytes i)) as (? & ? & ? & ? & ? & _ & _ & _ & ->).
  by destruct (virtual_ipv6_octets (id_bytes j)) as (? & ? & _ & _ & _ & ->).
Qed.

Lemma add_routes_eq r id : add_routes r id = <[v6_of id := id]> (<[v4_of id := id]> r).
Proof. unfold add_routes, v6_of, v4_of. by destruct (virtual_addrs (id_bytes id)). Qed.

Lemma add_routes_lookup r id a i :
  add_routes r id !! a = Some i ->
  (i = id /\ (a = v4_of id \/ a = v6_of id)) \/ (r !! a = Some i /\ a <> v4_of id /\ a <> v6_of id).
Proof.
  rewrite add_routes_eq. intros Hl. apply lookup_insert_Some in Hl as [[<- <-]|[Hne Hl]]; [by left; auto|].
  apply lookup_insert_Some in Hl as [[<- <-]|[Hne' Hl]]; [by left; auto|]. right. auto.
Qed.

(** Routes come from members, whatever the order. *)
Lemma routes_sound r l a i :
  foldl add_routes r l !! a = Some i -> (i ∈ l /\ (a = v4_of i \/ a = v6_of i)) \/ r !! a = Some i.
Proof.
  revert r; induction l as [|x l IH]; intros r; cbn [foldl]; [auto|]. intros Hl.
  destruct (IH _ Hl) as [[? ?]|Hr]; [left; split; [by right|done]|].
  apply add_routes_lookup in Hr as [[-> ?]|[? _]]; [left; split; [constructor|done]|by right].
Qed.

Lemma routes_keep r l a : is_Some (r !! a) -> is_Some (foldl add_routes r l !! a).
Proof.
  revert r; induction l as [|x l IH]; intros r Hr; cbn [foldl]; [done|]. apply IH.
  rewrite add_routes_eq, !lookup_insert_is_Some. destruct (decide (v6_of x = a)), (decide (v4_of x = a)); auto.
Qed.

Lemma routes_complete r l i : i ∈ l ->
  is_Some (foldl add_routes r l !! v4_of i) /\ is_Some (foldl add_routes r l !! v6_of i).
Proof.
  intros Hi. revert r; induction l as [|x l IH]; intros r; [by apply elem_of_nil in Hi|]. cbn [foldl].
  apply elem_of_cons in Hi as [->|Hi]; [|auto].
  split; apply routes_keep; rewrite add_routes_eq.
  - rewrite lookup_insert_ne by (intros Heq; by apply (v4_v6_ne x x)). rewrite lookup_insert_eq. eauto.
  - rewrite lookup_insert_eq. eauto.
Qed.

Lemma foldl_delete (l : gmap EndpointId Connection) gone id c :
  foldl (fun l id => delete id l) l gone !! id = Some c <-> l !! id = Some c /\ id ∉ gone.
Proof.
  revert l; induction gone as [|x gone IH]; intros l; cbn [foldl]; [rewrite elem_of_nil; naive_solver|].
  rewrite IH, lookup_delete_Some, not_elem_of_cons. naive_solver.
Qed.

Lemma elem_of_departed linked members id : id ∈ departed linked members <-> id ∉ members /\ id ∈ linked.
Proof. unfold departed. by rewrite list_elem_of_filter. Qed.

Lemma elem_of_linked p id : id ∈ (map_to_list (links p)).*1 <-> is_Some (links p !! id).
Proof.
  rewrite list_elem_of_fmap. split.
  - intros ([i c] & -> & Hc). apply elem_of_map_to_list in Hc. eauto.
  - intros [c Hc]. exists (id, c). split; [done|]. by apply elem_of_map_to_list.
Qed.

Lemma set_routes_links p members id c :
  links (fst (set_routes p members)) !! id = Some c <-> links p !! id = Some c /\ id ∈ members.
Proof.
  simpl. rewrite foldl_delete, elem_of_departed, elem_of_linked. split.
  - intros [Hc Hn]. split; [done|]. destruct (decide (id ∈ members)); [done|]. destruct Hn. eauto.
  - intros [Hc Hm]. split; [done|]. by intros [? _].
Qed.

(** ** The dialer's queue and the status rows *)

Lemma dedup_cons y z l :
  dedup (y :: z :: l) = if decide (y = z) then dedup (z :: l) else y :: dedup (z :: l).
Proof. done. Qed.

Lemma elem_of_dedup l x : x ∈ dedup l <-> x ∈ l.
Proof.
  induction l as [|y [|z l] IH]; [done..|]. rewrite dedup_cons.
  destruct (decide (y = z)) as [->|].
  - rewrite IH, !elem_of_cons. tauto.
  - rewrite elem_of_cons, IH, !elem_of_cons. tauto.
Qed.

Lemma dedup_NoDup l : StronglySorted id_le l -> NoDup (dedup l).
Proof.
  induction l as [|y [|z l] IH]; intros Hs; [constructor|apply NoDup_singleton|].
  apply StronglySorted_inv in Hs as [Hs Hall]. rewrite dedup_cons.
  destruct (decide (y = z)) as [|Hne]; [auto|]. apply NoDup_cons. split; [|auto].
  intros Hin. apply elem_of_dedup, elem_of_cons in Hin as [->|Hy]; [done|]. apply Hne.
  apply Forall_cons in Hall as [Hyz _]. apply id_le_antisym; [done|].
  apply StronglySorted_inv in Hs as [_ Hz]. rewrite Forall_forall in Hz. auto.
Qed.

Lemma elem_of_unlinked p id :
  id ∈ unlinked p <-> links p !! id = None /\ exists a, routes p !! a = Some id.
Proof.
  unfold unlinked. rewrite elem_of_dedup, merge_sort_Permutation, list_elem_of_filter, list_elem_of_fmap.
  split; intros [Hn H']; (split; [done|]).
  - destruct H' as ([a i] & -> & Hin). exists a. by apply elem_of_map_to_list in Hin.
  - destruct H' as [a Ha]. exists (a, id). split; [done|]. by apply elem_of_map_to_list.
Qed.

Lemma unlinked_NoDup p : NoDup (unlinked p).
Proof. apply dedup_NoDup, StronglySorted_merge_sort; apply _. Qed.

(** What [snapshot]'s loop keeps true of its rows, having seen [seen]. *)
Record rows_ok (p : Peers) (seen : list (IpAddr * EndpointId)) (rows : gmap EndpointId PeerRow) : Prop := {
  rows_dom : forall id, is_Some (rows !! id) <-> exists a, (a, id) ∈ seen;
  rows_link : forall id r, rows !! id = Some r ->
    row_id r = id /\ row_linked r = bool_decide (is_Some (links p !! id));
  rows_v4 : forall id r, rows !! id = Some r ->
    (row_v4 r = UNSPECIFIED4 /\ forall o, (V4 o, id) ∉ seen) \/ (exists o, row_v4 r = V4 o /\ (V4 o, id) ∈ seen);
  rows_v6 : forall id r, rows !! id = Some r ->
    (row_v6 r = UNSPECIFIED6 /\ forall o, (V6 o, id) ∉ seen) \/ (exists o, row_v6 r = V6 o /\ (V6 o, id) ∈ seen);
}.

Lemma rows_ok_empty p : rows_ok p [] ∅.
Proof.
  split; intros id; [|intros r; by rewrite lookup_empty..].
  rewrite lookup_empty. split; [by intros [? ?]|by intros [a Ha%elem_of_nil]].
Qed.

Lemma new_row_linked p id : row_linked (new_row p id) = bool_decide (is_Some (links p !! id)).
Proof.
  unfold new_row; simpl. destruct (links p !! id) as [c|].
  - symmetry. apply bool_decide_eq_true. eauto.
  - symmetry. apply bool_decide_eq_false. by intros [? ?].
Qed.

Lemma rows_ok_step p seen rows a id :
  rows_ok p seen rows -> rows_ok p ((a, id) :: seen) (snapshot_step p rows (a, id)).
Proof.
  intros [Hd Hl H4 H6]. unfold snapshot_step.
  set (row := match rows !! id with Some r => r | None => new_row p id end).
  assert (Hrow : row_id row = id /\ row_linked row = bool_decide (is_Some (links p !! id))
    /\ ((row_v4 row = UNSPECIFIED4 /\ forall o, (V4 o, id) ∉ seen) \/ exists o, row_v4 row = V4 o /\ (V4 o, id) ∈ seen)
    /\ ((row_v6 row = UNSPECIFIED6 /\ forall o, (V6 o, id) ∉ seen) \/ exists o, row_v6 row = V6 o /\ (V6 o, id) ∈ seen)).
  { unfold row. destruct (rows !! id) as [r|] eqn:E; [destruct (Hl id r E); auto|].
    assert (Hno : forall b, (b, id) ∉ seen).
    { intros b Hb. destruct (Hd id) as [_ [r Hr]]; [eauto|congruence]. }
    rewrite new_row_linked. split_and!; auto. }
  clearbody row. destruct Hrow as (Hri & Hrl & Hr4 & Hr6).
  split; intros i.
  - rewrite lookup_insert_is_Some'. setoid_rewrite elem_of_cons. rewrite Hd. split.
    + intros [->|[b Hb]]; eauto.
    + intros [b [[= -> ->]|Hb]]; eauto.
  - intros r Hr. apply lookup_insert_Some in Hr as [[<- <-]|[_ Hr]]; [by destruct a|auto].
  - intros r Hr. apply lookup_insert_Some in Hr as [[<- <-]|[Hne Hr]].
    + destruct a as [o|o]; simpl; [right; exists o; by rewrite elem_of_cons; auto|].
      destruct Hr4 as [[? Hn]|(o' & ? & ?)]; [left|right; exists o'; rewrite elem_of_cons; auto].
      split; [done|]. intros o'. rewrite elem_of_cons. intros [?|?]; [done|by apply (Hn o')].
    + destruct (H4 i r Hr) as [[? Hn]|(o' & ? & ?)]; [left|right; exists o'; rewrite elem_of_cons; auto].
      split; [done|]. intros o'. rewrite elem_of_cons. intros [[= _ ->]|?]; [done|by apply (Hn o')].
  - intros r Hr. apply lookup_insert_Some in Hr as [[<- <-]|[Hne Hr]].
    + destruct a as [o|o]; simpl; [|right; exists o; by rewrite elem_of_cons; auto].
      destruct Hr6 as [[? Hn]|(o' & ? & ?)]; [left|right; exists o'; rewrite elem_of_cons; auto].
      split; [done|]. intros o'. rewrite elem_of_cons. intros [?|?]; [done|by apply (Hn o')].
    + destruct (H6 i r Hr) as [[? Hn]|(o' & ? & ?)]; [left|right; exists o'; rewrite elem_of_cons; auto].
      split; [done|]. intros o'. rewrite elem_of_cons. intros [[= _ ->]|?]; [done|by apply (Hn o')].
Qed.

Lemma rows_ok_foldl p seen rows l :
  rows_ok p seen rows -> rows_ok p (rev l ++ seen) (foldl (snapshot_step p) rows l).
Proof.
  revert seen rows; induction l as [|[a id] l IH]; intros seen rows Hok; [done|].
  cbn [foldl rev]. rewrite <- app_assoc. simpl. by apply IH, rows_ok_step.
Qed.

Lemma snapshot_ok p : rows_ok p (rev (map_to_list (routes p))) (foldl (snapshot_step p) ∅ (map_to_list (routes p))).
Proof. rewrite <- (app_nil_r (rev _)). apply rows_ok_foldl, rows_ok_empty. Qed.

Lemma elem_of_routes p a id : (a, id) ∈ rev (map_to_list (routes p)) <-> route p a = Some id.
Proof. rewrite list_elem_of_In, <- in_rev, <- list_elem_of_In. apply elem_of_map_to_list. Qed.

Lemma elem_of_snapshot p r :
  r ∈ snapshot p <-> foldl (snapshot_step p) ∅ (map_to_list (routes p)) !! row_id r = Some r.
Proof.
  unfold snapshot. rewrite merge_sort_Permutation, list_elem_of_fmap. split.
  - intros ([id r'] & -> & Hr). apply elem_of_map_to_list in Hr. simpl.
    destruct (rows_link _ _ _ (snapshot_ok p) id r' Hr) as [-> _]. done.
  - intros Hr. exists (row_id r, r). split; [done|]. by apply elem_of_map_to_list.
Qed.

Lemma snapshot_ids_NoDup p : NoDup (row_id <$> snapshot p).
Proof.
  unfold snapshot. rewrite merge_sort_Permutation.
  set (rows := foldl (snapshot_step p) ∅ (map_to_list (routes p))).
  assert (row_id <$> (map_to_list rows).*2 = (map_to_list rows).*1) as ->; [|apply NoDup_fst_map_to_list].
  rewrite <- list_fmap_compose. apply list_fmap_ext. intros i [id r] Hr. simpl.
  apply list_elem_of_lookup_2, elem_of_map_to_list in Hr.
  by destruct (rows_link _ _ _ (snapshot_ok p) id r Hr) as [-> _].
Qed.

(** ** Properties *)

(** the dialer's queue lists every routed peer without a link exactly once,
    in key order, and the status snapshot has exactly one row per routed peer,
    with whether it is linked and, of each family, an address routed to it (or
    the unspecified one when no address of that family is). *)
Theorem unlinked_and_snapshot_cover_the_routes p :
  (forall id, id ∈ unlinked p <-> link p id = None /\ exists a, route p a = Some id)
  /\ NoDup (unlinked p)
  /\ NoDup (row_id <$> snapshot p)
  /\ (forall id, id ∈ row_id <$> snapshot p <-> exists a, route p a = Some id)
  /\ (forall r, r ∈ snapshot p ->
        row_linked r = bool_decide (is_Some (link p (row_id r)))
        /\ (route p (row_v4 r) = Some (row_id r)
            \/ row_v4 r = UNSPECIFIED4 /\ forall o, route p (V4 o) <> Some (row_id r))
        /\ (route p (row_v6 r) = Some (row_id r)
            \/ row_v6 r = UNSPECIFIED6 /\ forall o, route p (V6 o) <> Some (row_id r))).
Proof.
  split; [apply elem_of_unlinked|]. split; [apply unlinked_NoDup|]. split; [apply snapshot_ids_NoDup|].
  pose proof (snapshot_ok p) as [Hd Hl H4 H6]. split.
  - intros id. rewrite list_elem_of_fmap. setoid_rewrite elem_of_snapshot. setoid_rewrite elem_of_routes in Hd.
    rewrite <- Hd. split.
    + intros (r & -> & Hr). eauto.
    + intros [r Hr]. exists r. destruct (Hl id r Hr) as [<- _]. auto.
  - intros r Hr. apply elem_of_snapshot in Hr. destruct (Hl _ _ Hr) as [_ ->]. split; [done|]. split.
    + destruct (H4 _ _ Hr) as [[? Hn]|(o & -> & Ho)]; [right|left; by apply elem_of_routes].
      split; [done|]. intros o Ho. apply (Hn o). by apply elem_of_routes.
    + destruct (H6 _ _ Hr) as [[? Hn]|(o & -> & Ho)]; [right|left; by apply elem_of_routes].
      split; [done|]. intros o Ho. apply (Hn o). by apply elem_of_routes.
Qed.

(** rebuilding the routing table from a roster routes exactly the members'
    own addresses, each to a member that has it (so an address only one member
    has goes to that member), closes exactly the links to peers not in the
    roster, with the code that says removed, and keeps every other link. *)
Theorem set_routes_functional p members :
  let '(p', gone) := set_routes p members in
  (forall a i, route p' a = Some i -> i ∈ members /\ (a = v4_of i \/ a = v6_of i))
  /\ (forall i, i ∈ members -> is_Some (route p' (v4_of i)) /\ is_Some (route p' (v6_of i)))
  /\ (forall i a, i ∈ members -> a = v4_of i \/ a = v6_of i ->
        (forall j, j ∈ members -> a = v4_of j \/ a = v6_of j -> j = i) -> route p' a = Some i)
  /\ (forall i c, link p' i = Some c <-> link p i = Some c /\ i ∈ members)
  /\ (forall c code, (c, code) ∈ gone <->
        code = CLOSE_REMOVED /\ exists i, link p i = Some c /\ i ∉ members).
Proof.
  cbv beta iota zeta delta [set_routes]. unfold route, link. cbn [routes links].
  assert (Hs : forall a i, foldl add_routes ∅ members !! a = Some i -> i ∈ members /\ (a = v4_of i \/ a = v6_of i)).
  { intros a i Hl. apply routes_sound in Hl as [?|Hl]; [done|]. by rewrite lookup_empty in Hl. }
  split; [exact Hs|]. split; [intros i; apply routes_complete|]. split; [|split].
  - intros i a Hi Ha Hu. destruct (routes_complete ∅ members i Hi) as [[j4 H4] [j6 H6]].
    destruct Ha as [->| ->].
    + destruct (Hs _ _ H4) as [Hj Hja]. by rewrite (Hu j4 Hj Hja) in H4.
    + destruct (Hs _ _ H6) as [Hj Hja]. by rewrite (Hu j6 Hj Hja) in H6.
  - intros i c. apply (set_routes_links p members).
  - intros c code. rewrite list_elem_of_omap. split.
    + intros (i & Hi & Hc). apply elem_of_departed in Hi as [Hn _].
      destruct (links p !! i) as [c'|] eqn:E; simpl in Hc; [|done]. injection Hc as -> <-. eauto.
    + intros [-> (i & Hc & Hn)]. exists i. rewrite elem_of_departed, elem_of_linked, Hc. eauto.
Qed.

End Peers.
