(* ===== verification/Routes.v ===== *)
(** * The system routing table ([daemon/src/routes.rs])

    One host route per member address.  Whether a command succeeds is up to the
    system: it is an argument of [sync], and the kernel's table the commands act
    on is explicit, so what the daemon believes can be compared with it. *)

From S2P Require Import Prelude External Proto Net Tun.

(** [Routes], with the [installed] set its mutex guards. *)
Record Routes := { iface : rstr; installed : gset IpAddr }.

Definition new (name : rstr) : Routes := {| iface := name; installed := ∅ |}.

Definition cidr (addr : IpAddr) : rstr :=
  match addr with
  | V4 _ => show_ip addr ++ lit "/" ++ show_Z V4_PREFIX_LEN
  | V6 _ => show_ip addr ++ lit "/" ++ show_Z V6_PREFIX_LEN
  end.

Example cidr_v4 : cidr (V4 [10; 1; 2; 3]) = lit "10.1.2.3/32".
Proof. reflexivity. Qed.
Example cidr_v6 : cidr (V6 (2 :: replicate 14 0 ++ [1])) = lit "200::1/128".
Proof. reflexivity. Qed.

(** What running a program gives: it could not be started, success, or its standard
    error and output. *)
Inductive output := Unstarted (e : message) | Success | Failure (stderr stdout : rstr).

Definition run (program : rstr) (args : list rstr) (out : output) : result message () :=
  match out with
  | Unstarted e => Err e
  | Success => Ok tt
  | Failure stderr stdout =>
      let message := trim stderr in
      let message := if is_empty message then trim stdout else message in
      Err (Fmt "{program} {}: {message}" [Text program; Text (join (lit " ") args); Text message])
  end.

(** The Unix command lines. *)
Definition ip_args (args : list rstr) (addr : IpAddr) : list rstr :=
  (if is_ipv4 addr then lit "-4" else lit "-6") :: args.
Definition add_args (r : Routes) (addr : IpAddr) : list rstr :=
  ip_args [lit "route"; lit "replace"; cidr addr; lit "dev"; iface r] addr.
Definition remove_args (r : Routes) (addr : IpAddr) : list rstr :=
  ip_args [lit "route"; lit "del"; cidr addr; lit "dev"; iface r] addr.

(** The Windows ones, and an "already exists" taken for success. *)
Definition netsh_args (r : Routes) (verb : rstr) (addr : IpAddr) : list rstr :=
  [lit "interface"; (if is_ipv4 addr then lit "ipv4" else lit "ipv6"); verb; lit "route";
   lit "prefix=" ++ cidr addr; lit "interface=" ++ iface r; lit "store=active"].

Fixpoint contains (needle hay : rstr) : bool :=
  match strip_prefix needle hay with
  | Some _ => true
  | None => match hay with [] => false | _ :: hay' => contains needle hay' end
  end.

Definition windows_add (r : Routes) (addr : IpAddr) (render : message -> rstr) (out : output) : result message () :=
  match run (lit "netsh") (netsh_args r (lit "add") addr) out with
  | Err e => if contains (lit "already exists") (render e) then Ok tt else Err e
  | other => other
  end.

(** Commands and the kernel table they change when they succeed. *)
Inductive command := Add (addr : IpAddr) | Remove (addr : IpAddr).

#[export] Instance command_eq_dec : EqDecision command.
Proof. solve_decision. Defined.

Definition execute (succeeds : command -> bool) (kernel : gset IpAddr) (c : command) : gset IpAddr :=
  if succeeds c then match c with Add a => kernel ∪ {[a]} | Remove a => kernel ∖ {[a]} end else kernel.

(** The commands [sync] issues, in order. *)
Definition plan (r : Routes) (wanted : gset IpAddr) : list command :=
  (Add <$> elements (wanted ∖ installed r)) ++ (Remove <$> elements (installed r ∖ wanted)).

Definition sync (r : Routes) (wanted : gset IpAddr) (succeeds : command -> bool) (kernel : gset IpAddr)
    : Routes * gset IpAddr :=
  ({| iface := iface r; installed := wanted |}, foldl (execute succeeds) kernel (plan r wanted)).

Lemma execute_all kernel cs a :
  NoDup cs -> (Add a ∈ cs -> Remove a ∉ cs) ->
  a ∈ foldl (execute (fun _ => true)) kernel cs <-> Add a ∈ cs \/ (a ∈ kernel /\ Remove a ∉ cs).
Proof.
  revert kernel; induction cs as [|c cs IH]; intros kernel Hnd Hx; cbn [foldl].
  { rewrite !elem_of_nil. naive_solver. }
  apply NoDup_cons in Hnd as [Hc Hnd]. rewrite IH; [|done|].
  2:{ intros Ha Hr. apply Hx; rewrite elem_of_cons; auto. }
  rewrite !elem_of_cons in Hx. rewrite !elem_of_cons. destruct c as [b|b]; cbn [execute].
  - rewrite elem_of_union, elem_of_singleton. destruct (decide (a = b)) as [->|]; naive_solver.
  - rewrite elem_of_difference, elem_of_singleton. destruct (decide (a = b)) as [->|]; naive_solver.
Qed.

Lemma elem_of_plan r wanted c :
  c ∈ plan r wanted <-> match c with
    | Add a => a ∈ wanted /\ a ∉ installed r
    | Remove a => a ∈ installed r /\ a ∉ wanted end.
Proof.
  unfold plan. rewrite elem_of_app, !list_elem_of_fmap. setoid_rewrite elem_of_elements.
  setoid_rewrite elem_of_difference. destruct c; naive_solver.
Qed.

Lemma plan_NoDup r wanted : NoDup (plan r wanted).
Proof.
  unfold plan. apply NoDup_app. split; [apply NoDup_fmap_2; [intros ? ? [= ->]; done|apply NoDup_elements]|].
  split; [|apply NoDup_fmap_2; [intros ? ? [= ->]; done|apply NoDup_elements]].
  intros c (a & -> & _)%list_elem_of_fmap (b & Hb & _)%list_elem_of_fmap. done.
Qed.

(** A command is issued only for an address on one side of the difference. *)
Lemma execute_sound succeeds kernel cs a :
  a ∈ foldl (execute succeeds) kernel cs -> a ∈ kernel \/ Add a ∈ cs /\ succeeds (Add a) = true.
Proof.
  revert kernel; induction cs as [|c cs IH]; intros kernel; cbn [foldl]; [auto|]. intros Ha.
  destruct (IH _ Ha) as [Hk|[? ?]]; [|right; rewrite elem_of_cons; auto].
  unfold execute in Hk. destruct (succeeds c) eqn:E; [|auto]. destruct c as [b|b].
  - apply elem_of_union in Hk as [?|Hk]; [auto|]. apply elem_of_singleton in Hk as ->. right. split; [constructor|done].
  - apply elem_of_difference in Hk as [? _]. auto.
Qed.

Section Syncs.

(** A history of calls to [sync], each with the outcome of its commands. *)
Definition syncs (r : Routes) (kernel : gset IpAddr) (calls : list (gset IpAddr * (command -> bool)))
    : Routes * gset IpAddr :=
  foldl (fun '(r, kernel) '(wanted, succeeds) => sync r wanted succeeds kernel) (r, kernel) calls.

Lemma syncs_cons r kernel wanted succeeds calls :
  syncs r kernel ((wanted, succeeds) :: calls)
  = syncs {| iface := iface r; installed := wanted |} (foldl (execute succeeds) kernel (plan r wanted)) calls.
Proof. done. Qed.

(** when its commands succeed, [sync] leaves the kernel with the wanted
    routes and whatever was not the daemon's own, touching only the difference;
    it issues no command at all when nothing changed. *)
Theorem sync_installs_the_difference r wanted kernel :
  installed r ⊆ kernel ->
  let '(r', kernel') := sync r wanted (fun _ => true) kernel in
  installed r' = wanted
  /\ (forall a, a ∈ kernel' <-> a ∈ wanted \/ (a ∈ kernel /\ a ∉ installed r))
  /\ (forall a, Add a ∈ plan r wanted <-> a ∈ wanted /\ a ∉ installed r)
  /\ (forall a, Remove a ∈ plan r wanted <-> a ∈ installed r /\ a ∉ wanted)
  /\ plan r' wanted = [].
Proof.
  intros Hsub. split; [done|]. split; [|split; [|split]].
  - intros a. rewrite execute_all; [|apply plan_NoDup|rewrite !elem_of_plan; naive_solver].
    rewrite !elem_of_plan. destruct (decide (a ∈ wanted)), (decide (a ∈ installed r)); [|naive_solver..].
    set_solver.
  - intros a. apply elem_of_plan.
  - intros a. apply elem_of_plan.
  - destruct (plan _ wanted) as [|c l] eqn:E; [done|]. exfalso.
    assert (Hc : c ∈ plan {| iface := iface r; installed := wanted |} wanted) by (rewrite E; constructor).
    apply elem_of_plan in Hc. destruct c; simpl in Hc; naive_solver.
Qed.

(** an add that failed is not retried: as long as the same routes are
    wanted, the kernel never gets the missing one, whatever later commands
    would do. *)
Theorem failed_add_is_never_retried r wanted kernel a calls :
  a ∈ wanted -> a ∉ kernel ->
  Forall (fun '(w, _) => w = wanted) calls ->
  let failing c := negb (bool_decide (c = Add a)) in
  a ∉ snd (syncs r kernel ((wanted, failing) :: calls)).
Proof.
  intros Hw Hk Hcalls failing. rewrite syncs_cons.
  set (r' := {| iface := iface r; installed := wanted |}).
  assert (Hk' : a ∉ foldl (execute failing) kernel (plan r wanted)).
  { intros Ha. apply execute_sound in Ha as [?|[_ Hf]]; [done|]. unfold failing in Hf.
    by rewrite bool_decide_eq_true_2 in Hf. }
  assert (Hi : installed r' = wanted) by done. clearbody r'.
  revert Hk' Hi. generalize (foldl (execute failing) kernel (plan r wanted)). revert r'.
  induction Hcalls as [|[w s] calls -> _ IH]; intros r' k Hk' Hi; [exact Hk'|]. rewrite syncs_cons.
  apply IH; [|done]. intros Ha. apply execute_sound in Ha as [?|[Hp _]]; [done|].
  apply elem_of_plan in Hp as [_ Hn]. by rewrite Hi in Hn.
Qed.

End Syncs.

Example sync_installs_the_difference_witness :
  let a := V4 [10; 0; 0; 1] in
  let '(r', kernel') := sync (new (lit "quix")) {[a]} (fun _ => true) ∅ in a ∈ kernel' /\ installed r' = {[a]}.
Proof.
  intros a.
  destruct (sync_installs_the_difference (new (lit "quix")) {[a]} ∅) as (Hi & Hk & _); [apply empty_subseteq|].
  split; [|exact Hi]. apply Hk. left. by apply elem_of_singleton.
Defined.

Example failed_add_is_never_retried_witness :
  let a := V4 [10; 0; 0; 1] in
  let failing c := negb (bool_decide (c = Add a)) in
  a ∉ snd (syncs (new (lit "quix")) ∅ [({[a]}, failing); ({[a]}, fun _ => true); ({[a]}, fun _ => true)]).
Proof.
  intros a failing.
  apply (failed_add_is_never_retried (new (lit "quix")) {[a]} ∅ a [({[a]}, fun _ => true); ({[a]}, fun _ => true)]).
  - by apply elem_of_singleton.
  - apply not_elem_of_empty.
  - by repeat constructor.
Defined.
