(* ===== verification/Stats.v ===== *)
(** * Packet counters ([daemon/src/stats.rs])

    Nine 64-bit counters; [fetch_add] wraps around.  Every operation adds one to
    one of them. *)

From S2P Require Import Prelude Proto.

(** [Counters]. *)
Record Counters := {
  c_tun_rx : Z; c_tun_tx : Z; c_mesh_tx : Z; c_mesh_rx : Z;
  c_no_route : Z; c_no_link : Z; c_oversize : Z; c_send_err : Z; c_tun_tx_err : Z;
}.

Definition Counters_default : Counters :=
  {| c_tun_rx := 0; c_tun_tx := 0; c_mesh_tx := 0; c_mesh_rx := 0; c_no_route := 0; c_no_link := 0;
     c_oversize := 0; c_send_err := 0; c_tun_tx_err := 0 |}.

Definition fetch_add (x : Z) : Z := (x + 1) mod 2 ^ 64.

Definition stat_tun_rx (c : Counters) : Counters :=
  {| c_tun_rx := fetch_add (c_tun_rx c); c_tun_tx := c_tun_tx c; c_mesh_tx := c_mesh_tx c; c_mesh_rx := c_mesh_rx c;
     c_no_route := c_no_route c; c_no_link := c_no_link c; c_oversize := c_oversize c;
     c_send_err := c_send_err c; c_tun_tx_err := c_tun_tx_err c |}.
Definition stat_tun_tx (c : Counters) : Counters :=
  {| c_tun_rx := c_tun_rx c; c_tun_tx := fetch_add (c_tun_tx c); c_mesh_tx := c_mesh_tx c; c_mesh_rx := c_mesh_rx c;
     c_no_route := c_no_route c; c_no_link := c_no_link c; c_oversize := c_oversize c;
     c_send_err := c_send_err c; c_tun_tx_err := c_tun_tx_err c |}.
Definition stat_mesh_tx (c : Counters) : Counters :=
  {| c_tun_rx := c_tun_rx c; c_tun_tx := c_tun_tx c; c_mesh_tx := fetch_add (c_mesh_tx c); c_mesh_rx := c_mesh_rx c;
     c_no_route := c_no_route c; c_no_link := c_no_link c; c_oversize := c_oversize c;
     c_send_err := c_send_err c; c_tun_tx_err := c_tun_tx_err c |}.
Definition stat_mesh_rx (c : Counters) : Counters :=
  {| c_tun_rx := c_tun_rx c; c_tun_tx := c_tun_tx c; c_mesh_tx := c_mesh_tx c; c_mesh_rx := fetch_add (c_mesh_rx c);
     c_no_route := c_no_route c; c_no_link := c_no_link c; c_oversize := c_oversize c;
     c_send_err := c_send_err c; c_tun_tx_err := c_tun_tx_err c |}.
Definition stat_no_route (c : Counters) : Counters :=
  {| c_tun_rx := c_tun_rx c; c_tun_tx := c_tun_tx c; c_mesh_tx := c_mesh_tx c; c_mesh_rx := c_mesh_rx c;
     c_no_route := fetch_add (c_no_route c); c_no_link := c_no_link c; c_oversize := c_oversize c;
     c_send_err := c_send_err c; c_tun_tx_err := c_tun_tx_err c |}.
Definition stat_no_link (c : Counters) : Counters :=
  {| c_tun_rx := c_tun_rx c; c_tun_tx := c_tun_tx c; c_mesh_tx := c_mesh_tx c; c_mesh_rx := c_mesh_rx c;
     c_no_route := c_no_route c; c_no_link := fetch_add (c_no_link c); c_oversize := c_oversize c;
     c_send_err := c_send_err c; c_tun_tx_err := c_tun_tx_err c |}.
Definition stat_oversize (c : Counters) : Counters :=
  {| c_tun_rx := c_tun_rx c; c_tun_tx := c_tun_tx c; c_mesh_tx := c_mesh_tx c; c_mesh_rx := c_mesh_rx c;
     c_no_route := c_no_route c; c_no_link := c_no_link c; c_oversize := fetch_add (c_oversize c);
     c_send_err := c_send_err c; c_tun_tx_err := c_tun_tx_err c |}.
Definition stat_send_err (c : Counters) : Counters :=
  {| c_tun_rx := c_tun_rx c; c_tun_tx := c_tun_tx c; c_mesh_tx := c_mesh_tx c; c_mesh_rx := c_mesh_rx c;
     c_no_route := c_no_route c; c_no_link := c_no_link c; c_oversize := c_oversize c;
     c_send_err := fetch_add (c_send_err c); c_tun_tx_err := c_tun_tx_err c |}.
Definition stat_tun_tx_err (c : Counters) : Counters :=
  {| c_tun_rx := c_tun_rx c; c_tun_tx := c_tun_tx c; c_mesh_tx := c_mesh_tx c; c_mesh_rx := c_mesh_rx c;
     c_no_route := c_no_route c; c_no_link := c_no_link c; c_oversize := c_oversize c;
     c_send_err := c_send_err c; c_tun_tx_err := fetch_add (c_tun_tx_err c) |}.

(** [snapshot], in the form [status] sends it. *)
Definition stats_snapshot (c : Counters) : Traffic :=
  {| tun_rx := c_tun_rx c; tun_tx := c_tun_tx c; mesh_tx := c_mesh_tx c; mesh_rx := c_mesh_rx c;
     no_route := c_no_route c; no_link := c_no_link c; oversize := c_oversize c;
     send_err := c_send_err c; tun_tx_err := c_tun_tx_err c |}.

(** Where the packets read off the TUN went, and the datagrams received, modulo
    the width of the counters. *)
Record balanced (c : Counters) : Prop := {
  balanced_out : c_tun_rx c = (c_mesh_tx c + c_no_route c + c_no_link c + c_oversize c + c_send_err c) mod 2 ^ 64;
  balanced_in : c_mesh_rx c = (c_tun_tx c + c_tun_tx_err c) mod 2 ^ 64;
}.

Lemma balanced_default : balanced Counters_default.
Proof. by split. Qed.
