(* ===== verification/Mesh.v ===== *)
(** * Forwarding and links ([daemon/src/mesh.rs], [daemon/src/handler.rs])

    The tasks of the data plane as one state machine: the TUN reader, one
    [serve_link] task per connection, and the dialer with the connects it has
    spawned.  An action is what one task does between two of its awaits; which
    task runs next, what arrives and what a send returns are the action's
    arguments. *)

From coqutil Require Import Z.PushPullMod.
From S2P Require Import Prelude External Proto Net Tun Peers Stats.

Definition CLOSE_NOT_MEMBER : Z := 1.
Definition CLOSE_DUPLICATE : Z := 2.

Section Mesh.
Context `{!EndpointIds, !Sha256}.

(** ** [tun_to_mesh]: one packet *)

Inductive forwarded :=
  | NotIp
  | NoRoute
  | NoLink (peer : EndpointId)      (* and a dial is requested *)
  | Oversize (conn : Connection)
  | Sent (conn : Connection)
  | SendErr (conn : Connection).

Definition too_big (conn : Connection) (packet : list Z) : bool :=
  match max_datagram_size conn with Some max => max <? Z.of_nat (length packet) | None => false end.

Definition forward (p : Peers) (c : Counters) (packet : list Z) (send_ok : bool) : Counters * forwarded :=
  match dst_addr packet with
  | None => (c, NotIp)
  | Some dst =>
      let c := stat_tun_rx c in
      match route p dst with
      | None => (stat_no_route c, NoRoute)
      | Some peer =>
          match link p peer with
          | None => (stat_no_link c, NoLink peer)
          | Some conn =>
              if too_big conn packet then (stat_oversize c, Oversize conn)
              else if send_ok then (stat_mesh_tx c, Sent conn)
              else (stat_send_err c, SendErr conn)
          end
      end
  end.

(** One datagram of [serve_link]'s loop: the counters, and whether it goes on. *)
Definition deliver (c : Counters) (tun_ok : bool) : Counters * bool :=
  let c := stat_mesh_rx c in
  if tun_ok then (stat_tun_tx c, true) else (stat_tun_tx_err c, false).

(** ** The tasks *)

Record Mesh := {
  own_id : EndpointId;
  roster : list EndpointId;         (* who [is_member] says yes to *)
  peers : Peers;
  stats : Counters;
  arrived : list Connection;        (* [serve_link] past its membership check *)
  serving : list Connection;        (* [serve_link] in its loop *)
  in_flight : gset EndpointId;      (* the dialer's set *)
  requests : list EndpointId;       (* [dial_tx]'s queue *)
}.

Definition initial (own : EndpointId) : Mesh :=
  {| own_id := own; roster := []; peers := Peers_default; stats := Counters_default;
     arrived := []; serving := []; in_flight := ∅; requests := [] |}.

Definition with_peers f (m : Mesh) : Mesh :=
  {| own_id := own_id m; roster := roster m; peers := f (peers m); stats := stats m; arrived := arrived m;
     serving := serving m; in_flight := in_flight m; requests := requests m |}.
Definition with_stats s (m : Mesh) : Mesh :=
  {| own_id := own_id m; roster := roster m; peers := peers m; stats := s; arrived := arrived m;
     serving := serving m; in_flight := in_flight m; requests := requests m |}.
Definition with_tasks a s (m : Mesh) : Mesh :=
  {| own_id := own_id m; roster := roster m; peers := peers m; stats := stats m; arrived := a m;
     serving := s m; in_flight := in_flight m; requests := requests m |}.
Definition with_dialer f r (m : Mesh) : Mesh :=
  {| own_id := own_id m; roster := roster m; peers := peers m; stats := stats m; arrived := arrived m;
     serving := serving m; in_flight := f (in_flight m); requests := r (requests m) |}.

Definition drop_conn (c : Connection) (l : list Connection) : list Connection :=
  filter (fun d => d <> c) l.

(** [serve_link] up to its membership check. *)
Definition serve_check (m : Mesh) (conn : Connection) : Mesh * list closed :=
  if bool_decide (remote_id conn ∈ roster m)
  then (with_tasks (fun m => conn :: arrived m) serving m, [])
  else (m, [(conn, CLOSE_NOT_MEMBER)]).

(** Its registration. *)
Definition serve_register (m : Mesh) (conn : Connection) : Mesh * list closed :=
  let m := with_tasks (fun m => drop_conn conn (arrived m)) serving m in
  let '(p, fresh) := register (peers m) (remote_id conn) conn in
  if fresh then (with_tasks arrived (fun m => conn :: serving m) (with_peers (fun _ => p) m), [])
  else (m, [(conn, CLOSE_DUPLICATE)]).

(** Its way out of the loop. *)
Definition serve_end (m : Mesh) (conn : Connection) : Mesh :=
  with_tasks arrived (fun m => drop_conn conn (serving m)) (with_peers (fun p => unregister p (remote_id conn)) m).

Definition serve_datagram (m : Mesh) (conn : Connection) (tun_ok : bool) : Mesh :=
  let '(s, goes_on) := deliver (stats m) tun_ok in
  let m := with_stats s m in
  if goes_on then m else serve_end m conn.

(** The guards of the dialer's loop over its targets; a target that passes them
    is connected to. *)
Definition dials (m : Mesh) (id : EndpointId) : bool :=
  negb (id_ltb id (own_id m))
  && match link (peers m) id with Some _ => false | None => true end
  && bool_decide (id ∉ in_flight m).

Definition dial_target (m : Mesh) (id : EndpointId) : Mesh :=
  if dials m id then with_dialer (fun f => {[id]} ∪ f) (fun r => r) m else m.

(** [dialer]'s sweep, and its answer to one request. *)
Definition sweep (m : Mesh) : Mesh := foldl dial_target m (unlinked (peers m)).

Definition take_request (m : Mesh) : Mesh :=
  match requests m with
  | [] => m
  | id :: rest => dial_target (with_dialer (fun f => f) (fun _ => rest) m) id
  end.

(** [request_dial]: [try_send] on the queue, dropped when it is full. *)
Definition request_dial (capacity : nat) (m : Mesh) (id : EndpointId) : Mesh :=
  if (length (requests m) <? capacity)%nat then with_dialer (fun f => f) (fun r => r ++ [id]) m else m.

Definition connected (m : Mesh) (id : EndpointId) : Mesh := with_dialer (fun f => f ∖ {[id]}) (fun r => r) m.

(** ** The state machine *)

Inductive action :=
  | Packet (packet : list Z) (send_ok : bool)
  | Accepted (conn : Connection)                        (* [DataHandler::accept] *)
  | Registers (conn : Connection)
  | Datagram (conn : Connection) (tun_ok : bool)
  | Closes (conn : Connection)                          (* the read loop sees an error *)
  | RosterChange (members : list EndpointId)
  | RefreshRoutes (members : list EndpointId)           (* with the roster as read earlier *)
  | LeaveLinks                                          (* [close_all] *)
  | Sweep
  | Request
  | DialOk (conn : Connection)
  | DialErr (id : EndpointId).

Definition set_roster (members : list EndpointId) (m : Mesh) : Mesh :=
  {| own_id := own_id m; roster := members; peers := peers m; stats := stats m; arrived := arrived m;
     serving := serving m; in_flight := in_flight m; requests := requests m |}.

(** What the action does and the connections it closes.  A task's action does
    nothing when there is no such task. *)
Definition act (capacity : nat) (m : Mesh) (a : action) : Mesh * list closed :=
  match a with
  | Packet packet send_ok =>
      let '(s, out) := forward (peers m) (stats m) packet send_ok in
      let m := with_stats s m in
      (match out with NoLink peer => request_dial capacity m peer | _ => m end, [])
  | Accepted conn => serve_check m conn
  | Registers conn => if bool_decide (conn ∈ arrived m) then serve_register m conn else (m, [])
  | Datagram conn tun_ok => (if bool_decide (conn ∈ serving m) then serve_datagram m conn tun_ok else m, [])
  | Closes conn => (if bool_decide (conn ∈ serving m) then serve_end m conn else m, [])
  | RosterChange members => (set_roster members m, [])
  | RefreshRoutes members =>
      let '(p, gone) := set_routes (peers m) members in (with_peers (fun _ => p) m, gone)
  | LeaveLinks => let '(p, gone) := close_all (peers m) in (with_peers (fun _ => p) m, gone)
  | Sweep => (sweep m, [])
  | Request => (take_request m, [])
  | DialOk conn =>
      if bool_decide (remote_id conn ∈ in_flight m) then serve_check (connected m (remote_id conn)) conn else (m, [])
  | DialErr id => (connected m id, [])
  end.

Definition run (capacity : nat) (m : Mesh) (l : list action) : Mesh := foldl (fun m a => fst (act capacity m a)) m l.

(** ** Invariants *)

(** Routes lead to peers that have the address; a link is kept under its peer's
    key and its connection is being served. *)
Record sound (m : Mesh) : Prop := {
  sound_routes : forall a i, route (peers m) a = Some i -> a = v4_of i \/ a = v6_of i;
  sound_links : forall i c, link (peers m) i = Some c -> remote_id c = i /\ c ∈ serving m;
  sound_stats : balanced (stats m);
}.

Lemma balanced_forward p c packet ok : balanced c -> balanced (fst (forward p c packet ok)).
Proof.
  intros [Ho Hi]. unfold forward.
  destruct (dst_addr packet); [|done]. destruct (route p i); [destruct (link p e)|]; [destruct (too_big c0 packet); [|destruct ok]|..];
    split; simpl; unfold fetch_add; rewrite ?Ho, ?Hi; Z.push_pull_mod; f_equal; lia.
Qed.

Lemma balanced_deliver c ok : balanced c -> balanced (fst (deliver c ok)).
Proof.
  intros [Ho Hi]. unfold deliver.
  destruct ok; split; simpl; unfold fetch_add; rewrite ?Ho, ?Hi; Z.push_pull_mod; f_equal; lia.
Qed.

Lemma dial_target_peers m id : peers (dial_target m id) = peers m /\ serving (dial_target m id) = serving m
  /\ stats (dial_target m id) = stats m.
Proof. unfold dial_target. by destruct (dials m id). Qed.

Lemma foldl_dial_peers m l : let m' := foldl dial_target m l in
  peers m' = peers m /\ serving m' = serving m /\ stats m' = stats m.
Proof.
  revert m; induction l as [|id l IH]; intros m; [done|]. cbn [foldl].
  destruct (IH (dial_target m id)) as (-> & -> & ->). apply dial_target_peers.
Qed.

Lemma sound_same m m' :
  sound m -> peers m' = peers m -> serving m' = serving m -> stats m' = stats m -> sound m'.
Proof. intros [S1 S2 S3] Hp Hs Ht. split; rewrite ?Hp, ?Hs, ?Ht; auto. Qed.

Lemma elem_of_drop_conn c d l : d ∈ drop_conn c l <-> d <> c /\ d ∈ l.
Proof. unfold drop_conn. by rewrite list_elem_of_filter. Qed.

Lemma sound_serve_end m conn : sound m -> sound (serve_end m conn).
Proof.
  intros [S1 S2 S3]. split; simpl; auto. intros i c Hl.
  unfold link in Hl. simpl in Hl. apply lookup_delete_Some in Hl as [Hne Hl].
  destruct (S2 i c Hl) as [Hr Hs]. split; [done|]. apply elem_of_drop_conn. split; [|done]. by intros ->.
Qed.

Lemma sound_serve_check m conn : sound m -> sound (fst (serve_check m conn)).
Proof. intros Hm. unfold serve_check. case_bool_decide; [|done]. by apply (sound_same m). Qed.

Lemma sound_serve_register m conn : sound m -> sound (fst (serve_register m conn)).
Proof.
  intros [S1 S2 S3]. unfold serve_register, register. cbn [peers with_tasks].
  destruct (links (peers m) !! remote_id conn) eqn:E; split; simpl; auto.
  intros i c Hl. unfold link in Hl. simpl in Hl. apply lookup_insert_Some in Hl as [[<- <-]|[Hne Hl]].
  - split; [done|constructor].
  - destruct (S2 i c Hl). split; [done|by right].
Qed.

Lemma sound_act capacity m a : sound m -> sound (fst (act capacity m a)).
Proof.
  intros Hm. destruct a; cbn [act].
  - pose proof (balanced_forward (peers m) (stats m) packet send_ok (sound_stats _ Hm)) as Hb.
    destruct (forward (peers m) (stats m) packet send_ok) as [s out]. cbn [fst] in *.
    assert (Hs : sound (with_stats s m)) by (destruct Hm; by split).
    destruct out; try exact Hs. unfold request_dial. destruct (_ <? capacity)%nat; [|exact Hs].
    by apply (sound_same _ _ Hs).
  - by apply sound_serve_check.
  - case_bool_decide; [by apply sound_serve_register|done].
  - cbn [fst]. case_bool_decide; [|done]. unfold serve_datagram.
    pose proof (balanced_deliver (stats m) tun_ok (sound_stats _ Hm)) as Hb.
    destruct (deliver (stats m) tun_ok) as [s []]; cbn [fst] in Hb.
    + destruct Hm; by split.
    + apply sound_serve_end. destruct Hm; by split.
  - cbn [fst]. case_bool_decide; [by apply sound_serve_end|done].
  - by apply (sound_same m).
  - destruct Hm as [S1 S2 S3]. pose proof (set_routes_links (peers m) members) as Hl.
    destruct (set_routes (peers m) members) as [p gone] eqn:E. cbn [fst] in *. split; simpl; auto.
    + intros a i Ha. assert (Hp : routes p = foldl add_routes ∅ members) by (unfold set_routes in E; by injection E as <- _).
      unfold route in Ha. rewrite Hp in Ha. apply routes_sound in Ha as [[_ ?]|Ha]; [done|by rewrite lookup_empty in Ha].
    + intros i c Hc. apply Hl in Hc as [Hc _]. by apply S2.
  - destruct Hm as [S1 S2 S3]. split; simpl; auto. intros i c Hc. unfold link in Hc. simpl in Hc. by rewrite lookup_empty in Hc.
  - cbn [fst]. unfold sweep. destruct (foldl_dial_peers m (unlinked (peers m))) as (? & ? & ?). by apply (sound_same m).
  - cbn [fst]. unfold take_request. destruct (requests m); [done|].
    set (m' := with_dialer _ _ m). destruct (dial_target_peers m' e) as (? & ? & ?). by apply (sound_same m).
  - case_bool_decide; [|done]. apply sound_serve_check. by apply (sound_same m).
  - by apply (sound_same m).
Qed.

Lemma sound_initial own : sound (initial own).
Proof.
  split; [| |apply balanced_default]; intros *; unfold route, link; simpl; by rewrite lookup_empty.
Qed.

Lemma sound_run capacity m l : sound m -> sound (run capacity m l).
Proof. revert m; induction l as [|a l IH]; intros m Hm; [done|]. apply IH. by apply sound_act. Qed.

Lemma foldl_dial_in_flight l m id :
  (forall i, i ∈ l -> link (peers m) i = None) ->
  id ∈ in_flight (foldl dial_target m l) <->
  id ∈ in_flight m \/ (id ∈ l /\ id_ltb id (own_id m) = false).
Proof.
  revert m; induction l as [|x l IH]; intros m Hl; cbn [foldl]; [rewrite elem_of_nil; tauto|].
  destruct (dial_target_peers m x) as (Hp & _).
  rewrite IH by (intros i Hi; rewrite Hp; apply Hl; by right).
  assert (Hx : link (peers m) x = None) by (apply Hl; constructor).
  assert (Hown : own_id (dial_target m x) = own_id m) by (unfold dial_target; by destruct (dials m x)).
  assert (Hin : id ∈ in_flight (dial_target m x) <-> id ∈ in_flight m \/ id = x /\ id_ltb id (own_id m) = false).
  { unfold dial_target, dials. rewrite Hx. destruct (id_ltb x (own_id m)) eqn:E; simpl.
    { split; [auto|]. intros [?|[-> ?]]; [done|congruence]. }
    case_bool_decide as Hf; simpl.
    - rewrite elem_of_union, elem_of_singleton. split; [intros [->|?]; auto|intros [?|[-> _]]; auto].
    - split; [auto|]. intros [?|[-> _]]; done. }
  rewrite Hown, Hin, elem_of_cons. tauto.
Qed.

(** ** Properties *)

(** however the tasks interleave, every packet read off the TUN is accounted
    for in exactly one of sent, no route, no link, oversize or refused, and every
    datagram received in written or failed (counters are 64 bits and wrap). *)
Theorem packets_are_accounted_for own capacity l :
  let c := stats (run capacity (initial own) l) in
  c_tun_rx c = (c_mesh_tx c + c_no_route c + c_no_link c + c_oversize c + c_send_err c) mod 2 ^ 64
  /\ c_mesh_rx c = (c_tun_tx c + c_tun_tx_err c) mod 2 ^ 64.
Proof. destruct (sound_stats _ (sound_run capacity (initial own) l (sound_initial own))). auto. Qed.

(** a packet is only ever handed to the peer whose key its destination
    address derives from, on a connection that proved that key and that some task
    is serving; and it is handed over exactly when that peer is routed and linked,
    the packet fits and the connection takes it. *)
Theorem packets_reach_only_their_addressee own capacity l packet ok conn :
  let m := run capacity (initial own) l in
  snd (forward (peers m) (stats m) packet ok) = Sent conn <->
  exists dst, dst_addr packet = Some dst
    /\ (dst = v4_of (remote_id conn) \/ dst = v6_of (remote_id conn))
    /\ route (peers m) dst = Some (remote_id conn) /\ link (peers m) (remote_id conn) = Some conn
    /\ conn ∈ serving m /\ too_big conn packet = false /\ ok = true.
Proof.
  intros m. destruct (sound_run capacity (initial own) l (sound_initial own)) as [S1 S2 _]. fold m in S1, S2.
  unfold forward. destruct (dst_addr packet) as [dst|]; [|naive_solver].
  destruct (route (peers m) dst) as [peer|] eqn:Er; [|naive_solver].
  destruct (link (peers m) peer) as [c|] eqn:El.
  - destruct (S2 _ _ El) as [<- Hs]. pose proof (S1 _ _ Er). split.
    + destruct (too_big c packet) eqn:Et; [done|]. destruct ok; [|done]. intros [= <-]. exists dst. auto 10.
    + intros (d & [= <-] & _ & Hr & Hl & _ & Ht & ->). assert (remote_id conn = remote_id c) as Heq by congruence.
      rewrite Heq, El in Hl. injection Hl as ->. by rewrite Ht.
  - split; [done|]. intros (d & [= <-] & _ & Hr & Hl & _). rewrite Er in Hr. injection Hr as ->. congruence.
Qed.

(** of two nodes that are both unlinked and not already dialing, exactly one
    dials the other: the rule both compute picks one side of every pair, and a
    node never has two dials to one peer in flight. *)
Theorem exactly_one_side_dials a b :
  own_id a <> own_id b ->
  link (peers a) (own_id b) = None -> link (peers b) (own_id a) = None ->
  own_id b ∉ in_flight a -> own_id a ∉ in_flight b ->
  dials a (own_id b) = negb (dials b (own_id a))
  /\ (dials a (own_id b) = true -> own_id b ∈ in_flight (dial_target a (own_id b))
        /\ dials (dial_target a (own_id b)) (own_id b) = false).
Proof.
  intros Hne Hla Hlb Hfa Hfb.
  assert (Hd : dials a (own_id b) = negb (id_ltb (own_id b) (own_id a))).
  { unfold dials. rewrite Hla, bool_decide_eq_true_2 by done. by rewrite !andb_true_r. }
  assert (Hd' : dials b (own_id a) = negb (id_ltb (own_id a) (own_id b))).
  { unfold dials. rewrite Hlb, bool_decide_eq_true_2 by done. by rewrite !andb_true_r. }
  split.
  - rewrite Hd, Hd'. destruct (id_ltb_total _ _ Hne) as [Hl|Hl]; rewrite Hl, (id_ltb_asym _ _ Hl); done.
  - intros Ht. unfold dial_target. rewrite Ht. simpl. split; [set_solver|].
    unfold dials. simpl. rewrite (bool_decide_eq_false_2 (own_id b ∉ _)) by set_solver. apply andb_false_r.
Qed.

(** after a sweep, every routed peer without a link that is this node's to
    dial has a dial in flight, and no other dial was started. *)
Theorem sweep_dials_every_unlinked_peer m id :
  id ∈ in_flight (sweep m) <->
  id ∈ in_flight m \/ (link (peers m) id = None /\ (exists a, route (peers m) a = Some id)
                        /\ id_ltb id (own_id m) = false).
Proof.
  unfold sweep. rewrite foldl_dial_in_flight.
  - rewrite (elem_of_unlinked (peers m)). unfold link, route. tauto.
  - intros i Hi. by apply elem_of_unlinked in Hi as [? _].
Qed.

End Mesh.

(** ** Witnesses and the two races *)

Import Concrete.

Module Links.
Definition conn (n : N) (k : EndpointId) : Connection := {| stable_id := n; remote_id := k; max_datagram_size := Some 1162 |}.
Definition k1 : EndpointId := K1.
Definition k2 : EndpointId := K2.

(** K2 is in the roster and its first connection is up. *)
Definition linked : list action :=
  [RosterChange [k2]; RefreshRoutes [k2]; Accepted (conn 1 k2); Registers (conn 1 k2)].
End Links.

Example exactly_one_side_dials_witness :
  dials (initial Links.k1) Links.k2 = true /\ dials (initial Links.k2) Links.k1 = false.
Proof.
  assert (Hn : forall k : EndpointId, own_id (initial Links.k1) ∉ in_flight (initial k)
    /\ own_id (initial Links.k2) ∉ in_flight (initial k)).
  { intros k. cbn [in_flight initial]. split; apply not_elem_of_empty. }
  destruct (exactly_one_side_dials (initial Links.k1) (initial Links.k2)) as [Hd _];
    [discriminate|reflexivity|reflexivity|apply Hn|apply Hn|].
  cbn [own_id initial] in Hd. assert (Ht : dials (initial Links.k1) Links.k2 = true) by (by vm_compute).
  split; [exact Ht|]. rewrite Ht in Hd. by destruct (dials (initial Links.k2) Links.k1).
Defined.

(** unregistering by key alone can unlink a live connection: after leaving
    and meeting again, the end of the old connection's task removes the new
    connection's link while the new task goes on serving it, so packets for the
    peer find no link. *)
Theorem stale_task_unlinks_a_live_connection :
  exists l old new, let m := run 8 (initial Links.k1) l in
    old <> new /\ remote_id old = remote_id new
    /\ link (peers m) (remote_id new) = Some new
    /\ let m' := fst (act 8 m (Closes old)) in
       new ∈ serving m' /\ link (peers m') (remote_id new) = None.
Proof.
  exists (Links.linked ++ [LeaveLinks; Accepted (Links.conn 2 Links.k2); Registers (Links.conn 2 Links.k2)]),
    (Links.conn 1 Links.k2), (Links.conn 2 Links.k2).
  split; [vm_decide|]. split; [done|]. split; [vm_decide|]. split; vm_decide.
Qed.

(** checking membership and registering are two steps, and a roster change
    that falls between them lets a removed peer's link into the table, past the
    routes refresh that should have closed it. *)
Theorem removed_peer_can_still_be_linked :
  exists l conn, let m := run 8 (initial Links.k1) l in
    remote_id conn ∉ roster m /\ link (peers m) (remote_id conn) = Some conn /\ conn ∈ serving m.
Proof.
  exists [RosterChange [Links.k2]; RefreshRoutes [Links.k2]; Accepted (Links.conn 1 Links.k2);
    RosterChange []; RefreshRoutes []; Registers (Links.conn 1 Links.k2)], (Links.conn 1 Links.k2).
  split; [vm_decide|]. split; vm_decide.
Qed.
