(* ===== verification/Overlay.v ===== *)
(** * The overlay: packets from one interface to another

    What a node's data plane promises the network, as an interface; the network
    of such nodes, with datagrams between them that may be lost or reordered and
    outsiders that may send what they like; and [Mesh] as the implementation. *)

From S2P Require Import Prelude External Proto Net Tun Peers Stats Mesh.

Local Abbreviation list := Datatypes.list.

Section Overlay.
Context `{!EndpointIds, !Sha256}.
Implicit Types (k j : EndpointId) (p : list Z) (c : Connection).

(** [k]'s own addresses. *)
Definition addressed_to k p : Prop := exists dst, dst_addr p = Some dst /\ (dst = v4_of k \/ dst = v6_of k).

(** ** The interface *)

(** A data plane reads packets off its interface and may send each on one
    connection; it receives datagrams on a connection and may write them to its
    interface; and it works on its own.  [dp_ok ever] is its invariant, where
    [ever] is everybody who has been a member. *)
Class DataPlane (N : Type) := {
  dp_work : Type;
  dp_members : N -> list EndpointId;
  dp_reads : N -> list Z -> bool -> N * option Connection;
  dp_receives : N -> Connection -> bool -> N * bool;
  dp_works : N -> dp_work -> N;
  dp_ok : list EndpointId -> N -> Prop;
  dp_ok_reads ever n p ok : dp_ok ever n -> dp_ok ever (fst (dp_reads n p ok));
  dp_ok_receives ever n c ok : dp_ok ever n -> dp_ok ever (fst (dp_receives n c ok));
  dp_ok_works ever n w : dp_ok ever n -> dp_ok (dp_members (dp_works n w) ++ ever) (dp_works n w);
  (** what is sent goes to whom it is addressed to *)
  dp_addressed ever n p ok c : dp_ok ever n -> snd (dp_reads n p ok) = Some c -> addressed_to (remote_id c) p;
  (** what is written came from somebody who has been a member *)
  dp_admitted ever n c ok : dp_ok ever n -> snd (dp_receives n c ok) = true -> remote_id c ∈ ever;
}.

Section Network.
Context {N : Type} `{!DataPlane N}.

(** A packet on its way from one node to another. *)
Record Parcel := { d_from : EndpointId; d_to : EndpointId; d_packet : list Z }.

Record Overlay := {
  planes : gmap EndpointId N;
  wire : list Parcel;
  (* what has happened, latest last *)
  ever : gmap EndpointId (list EndpointId);     (* by node, who has been a member *)
  read : list (EndpointId * list Z);            (* off a node's interface *)
  dropped : list (EndpointId * list Z);         (* by the node that read it, by the network, or at the other end *)
  written : list Parcel;                      (* to [d_to]'s interface *)
}.

Inductive event :=
  | Reads k p (send_ok : bool)
  | Arrives (i : nat) c (tun_ok : bool)         (* on a connection of the node it is for *)
  | Loses (i : nat)
  | Works k (w : dp_work)
  | Injects (d : Parcel).                     (* by somebody who is none of the nodes *)

Definition ever_of (s : Overlay) k : list EndpointId := default [] (ever s !! k).
Definition source (d : Parcel) : EndpointId * list Z := (d_from d, d_packet d).

Definition reads (s : Overlay) k n p (send_ok : bool) : Overlay :=
  let '(n', sent) := dp_reads n p send_ok in
  {| planes := <[k := n']> (planes s); ever := ever s; read := read s ++ [(k, p)]; written := written s;
     wire := wire s ++ option_list ((fun c => {| d_from := k; d_to := remote_id c; d_packet := p |}) <$> sent);
     dropped := match sent with Some _ => dropped s | None => dropped s ++ [(k, p)] end |}.

(** Off the wire, unseen. *)
Definition loses (s : Overlay) (i : nat) d : Overlay :=
  {| planes := planes s; wire := delete i (wire s); ever := ever s; read := read s; written := written s;
     dropped := if bool_decide (is_Some (planes s !! d_from d)) then dropped s ++ [source d] else dropped s |}.

(** The key of a connection's other end is proved, so a datagram on it is that
    key's. *)
Definition arrives (s : Overlay) (i : nat) d n c (tun_ok : bool) : Overlay :=
  let '(n', wrote) := dp_receives n c tun_ok in
  let s := {| planes := <[d_to d := n']> (planes s); wire := wire s; ever := ever s; read := read s; dropped := dropped s;
              written := written s |} in
  if wrote then
    {| planes := planes s; wire := delete i (wire s); ever := ever s; read := read s; dropped := dropped s;
       written := written s ++ [d] |}
  else loses s i d.

Definition step (s : Overlay) (e : event) : Overlay :=
  match e with
  | Reads k p send_ok => match planes s !! k with Some n => reads s k n p send_ok | None => s end
  | Arrives i c tun_ok =>
      match wire s !! i with
      | Some d =>
          match planes s !! d_to d with
          | Some n => if bool_decide (remote_id c = d_from d) then arrives s i d n c tun_ok else s
          | None => loses s i d
          end
      | None => s
      end
  | Loses i => match wire s !! i with Some d => loses s i d | None => s end
  | Works k w =>
      match planes s !! k with
      | Some n =>
          let n' := dp_works n w in
          {| planes := <[k := n']> (planes s); ever := <[k := dp_members n' ++ ever_of s k]> (ever s); wire := wire s;
             read := read s; dropped := dropped s; written := written s |}
      | None => s
      end
  | Injects d =>
      if bool_decide (is_Some (planes s !! d_from d)) then s
      else {| planes := planes s; wire := wire s ++ [d]; ever := ever s; read := read s; dropped := dropped s; written := written s |}
  end.

Definition run (s : Overlay) (l : list event) : Overlay := foldl step s l.

(** Nodes that have done nothing yet. *)
Definition start (nodes : gmap EndpointId N) : Overlay :=
  {| planes := nodes; wire := []; ever := ∅; read := []; dropped := []; written := [] |}.

(** ** The invariant *)

(** From one of the nodes [D]. *)
Definition honest (D : gset EndpointId) (d : Parcel) : Prop := d_from d ∈ D.
#[global] Instance honest_dec D d : Decision (honest D d).
Proof. unfold honest. apply _. Defined.

(** The packets of the nodes among some datagrams. *)
Definition packets (D : gset EndpointId) (l : list Parcel) : list (EndpointId * list Z) := source <$> filter (honest D) l.

#[global] Instance packets_proper D : Proper ((≡ₚ) ==> (≡ₚ)) (packets D).
Proof. intros l l' Hl. unfold packets. by rewrite Hl. Qed.

Lemma packets_app D l l' : packets D (l ++ l') = packets D l ++ packets D l'.
Proof. unfold packets. by rewrite filter_app, fmap_app. Qed.
Lemma packets_one D d : packets D [d] = if decide (honest D d) then [source d] else [].
Proof. unfold packets. rewrite filter_cons, filter_nil. by destruct (decide _). Qed.

Definition nodes_of (s : Overlay) : gset EndpointId := dom (planes s).

(** Every datagram is where it should be. *)
Definition well_addressed (D : gset EndpointId) (d : Parcel) : Prop := honest D d -> addressed_to (d_to d) (d_packet d).

Record overlay_ok (s : Overlay) : Prop := {
  ov_planes : forall k n, planes s !! k = Some n -> dp_ok (ever_of s k) n;
  ov_wire : Forall (well_addressed (nodes_of s)) (wire s);
  ov_written : Forall (fun d => d_from d ∈ ever_of s (d_to d) /\ well_addressed (nodes_of s) d) (written s);
  ov_conserved : read s ≡ₚ dropped s ++ packets (nodes_of s) (wire s) ++ packets (nodes_of s) (written s);
}.

Lemma nodes_insert (m : gmap EndpointId N) k n n' : m !! k = Some n -> dom (<[k := n']> m) = dom m.
Proof. intros Hk. rewrite dom_insert_L. apply elem_of_dom_2 in Hk. set_solver. Qed.

Lemma step_nodes s e : nodes_of (step s e) = nodes_of s.
Proof.
  unfold nodes_of. destruct e as [k p ok|i c ok|i|k w|d]; cbn [step].
  - destruct (planes s !! k) as [n|] eqn:E; [|done]. unfold reads. destruct (dp_reads n p ok). by eapply nodes_insert.
  - destruct (wire s !! i) as [d|]; [|done]. destruct (planes s !! d_to d) as [n|] eqn:E; [|done]. case_bool_decide; [|done].
    unfold arrives. destruct (dp_receives n c ok) as [n' []]; by eapply nodes_insert.
  - by destruct (wire s !! i).
  - destruct (planes s !! k) as [n|] eqn:E; [|done]. by eapply nodes_insert.
  - by case_bool_decide.
Qed.

(** A datagram taken off the wire. *)
Lemma off_the_wire s i d : overlay_ok s -> wire s !! i = Some d ->
  read s ≡ₚ (dropped s ++ packets (nodes_of s) [d]) ++ packets (nodes_of s) (delete i (wire s)) ++ packets (nodes_of s) (written s)
  /\ Forall (well_addressed (nodes_of s)) (delete i (wire s)) /\ well_addressed (nodes_of s) d.
Proof.
  intros [_ V2 _ V4] Hi. pose proof (delete_Permutation _ _ _ Hi) as Hp. rewrite Hp in V2. apply Forall_cons in V2 as [Hd Hw].
  split; [|done]. rewrite V4, (packets_proper _ _ _ Hp). change (d :: delete i (wire s)) with ([d] ++ delete i (wire s)).
  by rewrite packets_app, <- !app_assoc.
Qed.

Lemma loses_ok s i d : overlay_ok s -> wire s !! i = Some d -> overlay_ok (loses s i d).
Proof.
  intros Hs Hi. destruct (off_the_wire s i d Hs Hi) as (Hp & Hw & _). destruct Hs as [V1 _ V3 _].
  split; try done.
  change (read s ≡ₚ dropped (loses s i d) ++ packets (nodes_of s) (delete i (wire s)) ++ packets (nodes_of s) (written s)).
  rewrite Hp. f_equiv. unfold loses. cbn [dropped]. rewrite packets_one. unfold nodes_of.
  destruct (decide _) as [Hd|Hd]; unfold honest in Hd; rewrite elem_of_dom in Hd.
  - by rewrite bool_decide_eq_true_2.
  - by rewrite bool_decide_eq_false_2, app_nil_r.
Qed.

(** A node's state changes, and nothing else. *)
Lemma set_plane_ok s k n n' : overlay_ok s -> planes s !! k = Some n -> dp_ok (ever_of s k) n' ->
  overlay_ok {| planes := <[k := n']> (planes s); wire := wire s; ever := ever s; read := read s; dropped := dropped s; written := written s |}.
Proof.
  intros [V1 V2 V3 V4] Hk Hn. pose proof (nodes_insert _ _ _ n' Hk) as Hd.
  split; unfold nodes_of in *; cbn [planes wire read dropped written]; rewrite ?Hd; try done.
  intros j m [[<- <-]|[_ Hj]]%lookup_insert_Some; [done|by apply V1].
Qed.

Lemma step_ok s e : overlay_ok s -> overlay_ok (step s e).
Proof.
  intros Hs. pose proof Hs as [V1 V2 V3 V4]. destruct e as [k p ok|i c ok|i|k w|d]; cbn [step].
  - destruct (planes s !! k) as [n|] eqn:Ek; [|done]. unfold reads.
    pose proof (dp_ok_reads _ _ p ok (V1 k n Ek)) as Hn. pose proof (fun c => dp_addressed _ _ p ok c (V1 k n Ek)) as Ha.
    destruct (dp_reads n p ok) as [n' sent]. cbn [fst snd] in *. pose proof (nodes_insert _ _ _ n' Ek) as Hd.
    pose proof (elem_of_dom_2 _ _ _ Ek) as Hk.
    split; unfold nodes_of in *; cbn [planes wire read dropped written]; rewrite ?Hd; try done.
    + intros j m [[<- <-]|[_ Hj]]%lookup_insert_Some; [done|by apply V1].
    + apply Forall_app. split; [done|]. destruct sent as [c|]; cbn; constructor; [|constructor]. intros _. by apply Ha.
    + rewrite V4, packets_app. destruct sent as [c|]; cbn [option_list fmap option_fmap option_map option_list option_rect].
      * rewrite packets_one, decide_True by done. unfold source. cbn [d_from d_packet]. solve_Permutation.
      * rewrite app_nil_r. solve_Permutation.
  - destruct (wire s !! i) as [d|] eqn:Ei; [|done]. destruct (planes s !! d_to d) as [n|] eqn:Ek; [|by apply loses_ok].
    case_bool_decide as Hc; [|done]. unfold arrives.
    pose proof (dp_ok_receives _ _ c ok (V1 _ n Ek)) as Hn. pose proof (dp_admitted _ _ c ok (V1 _ n Ek)) as Ha.
    destruct (dp_receives n c ok) as [n' wrote]. cbn [fst snd] in *.
    pose proof (set_plane_ok s _ n n' Hs Ek Hn) as Hs'. destruct wrote; [|by apply loses_ok].
    destruct (off_the_wire _ i d Hs' Ei) as (Hp & Hw & Hd). destruct Hs' as [V1' _ V3' _].
    split; cbn [planes wire read dropped written] in *; try done.
    + apply Forall_app. split; [done|]. constructor; [|constructor]. split; [|done]. rewrite <- Hc. by apply Ha.
    + unfold nodes_of in Hp |- *. cbn [planes wire read dropped written] in *. rewrite Hp, packets_app. solve_Permutation.
  - destruct (wire s !! i) as [d|] eqn:Ei; [by apply loses_ok|done].
  - destruct (planes s !! k) as [n|] eqn:Ek; [|done]. pose proof (nodes_insert _ _ _ (dp_works n w) Ek) as Hd.
    split; unfold nodes_of in *; cbn [planes wire read dropped written]; rewrite ?Hd; try done.
    + intros j m. unfold ever_of in *. cbn [ever]. intros [[<- <-]|[Hne Hj]]%lookup_insert_Some.
      * rewrite lookup_insert_eq. cbn. by apply dp_ok_works, V1.
      * rewrite lookup_insert_ne by done. by apply V1.
    + eapply Forall_impl; [exact V3|]. intros d [Hf Ha]. split; [|done]. unfold ever_of in *. cbn [ever].
      destruct (decide (k = d_to d)) as [->|Hne]; [rewrite lookup_insert_eq; cbn; apply elem_of_app; by right|by rewrite lookup_insert_ne].
  - case_bool_decide as Hd; [done|]. rewrite <- elem_of_dom in Hd.
    split; unfold nodes_of in *; cbn [planes wire read dropped written]; try done.
    + apply Forall_app. split; [done|]. constructor; [|constructor]. by intros Hin.
    + by rewrite V4, packets_app, packets_one, decide_False, app_nil_r.
Qed.

Lemma overlay_run_ok s l : overlay_ok s -> overlay_ok (run s l) /\ nodes_of (run s l) = nodes_of s.
Proof.
  revert s. induction l as [|e l IH]; intros s Hs; [done|]. destruct (IH (step s e)) as [H1 H2]; [by apply step_ok|].
  split; [done|]. change (run s (e :: l)) with (run (step s e) l). by rewrite H2, step_nodes.
Qed.

Lemma start_ok nodes : (forall k n, nodes !! k = Some n -> dp_ok [] n) -> overlay_ok (start nodes).
Proof. intros Hn. split; cbn; try done. Qed.
(** What is said of a written packet: by whom it was sent, and, if that is one of
    the nodes, that it was read there and is addressed to where it was written. *)
Lemma written_came_from nodes l d : (forall k n, nodes !! k = Some n -> dp_ok [] n) ->
  let s := run (start nodes) l in
  d ∈ written s ->
  d_from d ∈ ever_of s (d_to d)
  /\ (is_Some (nodes !! d_from d) -> source d ∈ read s /\ addressed_to (d_to d) (d_packet d)).
Proof.
  intros Hn s Hd. destruct (overlay_run_ok (start nodes) l (start_ok _ Hn)) as [[_ _ V3 V4] Hs]. fold s in V3, V4, Hs.
  rewrite Forall_forall in V3. destruct (V3 d Hd) as [He Ha]. split; [done|].
  intros Hin. apply elem_of_dom in Hin. assert (Hh : honest (nodes_of s) d) by (unfold honest; by rewrite Hs).
  split; [|by apply Ha]. rewrite V4, !elem_of_app. right; right. unfold packets. apply list_elem_of_fmap.
  exists d. split; [done|]. by apply list_elem_of_filter.
Qed.

Lemma conserved nodes l : (forall k n, nodes !! k = Some n -> dp_ok [] n) ->
  let s := run (start nodes) l in
  read s ≡ₚ dropped s ++ packets (dom nodes) (wire s) ++ packets (dom nodes) (written s).
Proof.
  intros Hn s. destruct (overlay_run_ok (start nodes) l (start_ok _ Hn)) as [[_ _ _ V4] Hs]. fold s in V4, Hs. by rewrite Hs in V4.
Qed.
End Network.

(** ** The implementation *)

Definition DIAL_QUEUE : nat := 64.

(** [tun_to_mesh]'s loop body. *)
Definition mesh_reads (m : Mesh) p (send_ok : bool) : Mesh * option Connection :=
  (fst (act DIAL_QUEUE m (Packet p send_ok)),
   match snd (forward (peers m) (stats m) p send_ok) with Mesh.Sent c => Some c | _ => None end).

(** [serve_link]'s, on a connection some task is serving. *)
Definition mesh_receives (m : Mesh) c (tun_ok : bool) : Mesh * bool :=
  (fst (act DIAL_QUEUE m (Datagram c tun_ok)), bool_decide (c ∈ serving m) && snd (deliver (stats m) tun_ok)).

(** Whatever else its tasks do: not the packets and datagrams, which are above. *)
Definition own_work (a : action) : bool := match a with Packet _ _ | Datagram _ _ => false | _ => true end.
Definition mesh_works (m : Mesh) (a : action) : Mesh := if own_work a then fst (act DIAL_QUEUE m a) else m.

(** Everybody with a task, and every member, has been a member. *)
Record enrolled (ever : list EndpointId) (m : Mesh) : Prop := {
  en_roster : roster m ⊆ ever;
  en_arrived : forall c, c ∈ arrived m -> remote_id c ∈ ever;
  en_serving : forall c, c ∈ serving m -> remote_id c ∈ ever;
}.

Lemma enrolled_same ever m m' : enrolled ever m -> roster m' = roster m -> arrived m' = arrived m -> serving m' = serving m ->
  enrolled ever m'.
Proof. intros [E1 E2 E3] Hr Ha Hs. by split; rewrite ?Hr, ?Ha, ?Hs. Qed.

Lemma enrolled_more ever more m : enrolled ever m -> enrolled (more ++ ever) m.
Proof. intros [E1 E2 E3]. split; [set_solver|..]; intros c Hc; apply elem_of_app; right; auto. Qed.

Lemma enrolled_check ever m c : enrolled ever m -> enrolled ever (fst (serve_check m c)).
Proof.
  intros [E1 E2 E3]. unfold serve_check. case_bool_decide as Hc; [|done].
  split; cbn [fst roster arrived serving with_tasks]; try done. intros d [->|Hd]%elem_of_cons; [by apply E1|by apply E2].
Qed.

Lemma enrolled_end ever m c : enrolled ever m -> enrolled ever (serve_end m c).
Proof. intros [E1 E2 E3]. split; cbn; try done. intros d [_ Hd]%elem_of_drop_conn. by apply E3. Qed.

(** Only a change of the roster makes a member. *)
Lemma enrolled_act ever m a : enrolled ever m -> (forall l, a <> RosterChange l) -> enrolled ever (fst (act DIAL_QUEUE m a)).
Proof.
  intros He Ha. destruct a; cbn [act].
  - destruct (forward (peers m) (stats m) packet send_ok) as [s out]. cbn [fst].
    destruct out; try by apply (enrolled_same ever m). unfold request_dial. destruct (_ <? _)%nat; by apply (enrolled_same ever m).
  - by apply enrolled_check.
  - case_bool_decide as Hc; [|done]. destruct He as [E1 E2 E3]. unfold serve_register, register. cbn [peers with_tasks].
    destruct (links (peers m) !! remote_id conn); split; cbn; try done.
    + intros d [_ Hd]%elem_of_drop_conn. by apply E2.
    + intros d [_ Hd]%elem_of_drop_conn. by apply E2.
    + intros d [->|Hd]%elem_of_cons; [by apply E2|by apply E3].
  - cbn [fst]. case_bool_decide; [|done]. unfold serve_datagram. destruct (deliver (stats m) tun_ok) as [s []];
      [|apply enrolled_end]; by apply (enrolled_same ever m).
  - cbn [fst]. case_bool_decide; [by apply enrolled_end|done].
  - by destruct (Ha members).
  - destruct (set_routes (peers m) members) as [p gone]. by apply (enrolled_same ever m).
  - by apply (enrolled_same ever m).
  - cbn [fst]. unfold sweep. clear Ha. generalize (unlinked (peers m)). intros l. revert m He.
    induction l as [|i l IH]; intros m He; [done|].
    cbn [foldl]. apply IH. unfold dial_target. destruct (dials m i); by apply (enrolled_same ever m).
  - cbn [fst]. unfold take_request. destruct (requests m) as [|i l]; [done|].
    unfold dial_target. destruct (dials _ i); by apply (enrolled_same ever m).
  - case_bool_decide; [|done]. apply enrolled_check. by apply (enrolled_same ever m).
  - by apply (enrolled_same ever m).
Qed.

Lemma enrolled_works ever m a : enrolled ever m -> enrolled (roster (mesh_works m a) ++ ever) (mesh_works m a).
Proof.
  intros He. unfold mesh_works. destruct (own_work a); [|by apply enrolled_more].
  destruct a; try (apply enrolled_more; by apply enrolled_act).
  destruct He as [E1 E2 E3]. split; cbn [act fst set_roster roster arrived serving];
    [set_solver|..]; intros c Hc; apply elem_of_app; right; auto.
Qed.

#[export, program] Instance mesh_plane : DataPlane Mesh := {|
  dp_work := action;
  dp_members := roster;
  dp_reads := mesh_reads;
  dp_receives := mesh_receives;
  dp_works := mesh_works;
  dp_ok ever m := sound m /\ enrolled ever m;
|}.
Next Obligation. intros ever m p ok [Hs He]. split; [by apply sound_act|by apply enrolled_act]. Qed.
Next Obligation. intros ever m c ok [Hs He]. split; [by apply sound_act|by apply enrolled_act]. Qed.
Next Obligation.
  intros ever m a [Hs He]. split; [|by apply enrolled_works]. unfold mesh_works. destruct (own_work a); [by apply sound_act|done].
Qed.
Next Obligation.
  intros ever m p ok c [[S1 S2 _] _]. unfold mesh_reads, forward. cbn [snd].
  destruct (dst_addr p) as [dst|] eqn:Ed; [|done]. destruct (route (peers m) dst) as [i|] eqn:Er; [|done].
  destruct (link (peers m) i) as [c'|] eqn:El; [|done]. destruct (too_big c' p); [done|]. destruct ok; [|done].
  intros [= ->]. destruct (S2 _ _ El) as [-> _]. exists dst. split; [done|by apply S1].
Qed.
Next Obligation.
  intros ever m c ok [_ [_ _ E3]]. unfold mesh_receives. cbn [snd].
  intros [Hc _]%andb_true_iff. apply bool_decide_eq_true_1 in Hc. by apply E3.
Qed.

(** Daemons that have just come up, by their keys. *)
Definition boot (ids : gset EndpointId) : Overlay (N := Mesh) := start (set_to_map (fun k => (k, initial k)) ids).

Lemma boot_lookup (ids : gset EndpointId) k m : (set_to_map (fun k => (k, initial k)) ids : gmap EndpointId Mesh) !! k = Some m -> m = initial k /\ k ∈ ids.
Proof. intros (j & Hj & Heq)%lookup_set_to_map; [by injection Heq as <- <-|done]. Qed.

Lemma boot_dom (ids : gset EndpointId) : dom (set_to_map (fun k => (k, initial k)) ids : gmap EndpointId Mesh) = ids.
Proof.
  apply set_eq. intros k. rewrite elem_of_dom. split; [intros [m Hm]; by apply boot_lookup in Hm as [_ ?]|].
  intros Hk. exists (initial k). apply lookup_set_to_map; [done|]. by exists k.
Qed.

Lemma boot_ok (ids : gset EndpointId) k m : (set_to_map (fun k => (k, initial k)) ids : gmap EndpointId Mesh) !! k = Some m -> dp_ok [] m.
Proof.
  intros [-> _]%boot_lookup. split; [apply sound_initial|]. split; cbn [roster arrived serving initial]; [set_solver|..];
    by intros c ?%not_elem_of_nil.
Qed.

(** ** Properties *)

(** C9: however the daemons of a network and the network between them behave, a
    packet written to one's interface was sent by somebody who was a member there
    at some time; and what came from one of the daemons is a packet its own
    interface gave it, unchanged, and is addressed to the one it was written by. *)
Theorem nothing_goes_astray (ids : gset EndpointId) l d : let s := run (boot ids) l in
  d ∈ written s ->
  d_from d ∈ ever_of s (d_to d)
  /\ (d_from d ∈ ids -> (d_from d, d_packet d) ∈ read s /\ addressed_to (d_to d) (d_packet d)).
Proof.
  intros s Hd. destruct (written_came_from _ l d (boot_ok ids) Hd) as [He Hi]. split; [done|].
  intros Hin. apply Hi. apply elem_of_dom. by rewrite boot_dom.
Qed.

(** every packet a daemon reads off its interface is dropped once, is on its way,
    or has been written once, by nobody else than the one it is addressed to:
    never two of these, and never twice. *)
Theorem packets_are_conserved (ids : gset EndpointId) l : let s := run (boot ids) l in
  read s ≡ₚ dropped s ++ packets ids (wire s) ++ packets ids (written s).
Proof. intros s. pose proof (conserved _ l (boot_ok ids)) as H1. by rewrite boot_dom in H1. Qed.

(** C23: between two members that are linked a packet that fits gets through: it is
    read at one, sent, received and written at the other, whatever else is on the
    wire. *)
Theorem a_packet_gets_through (s : Overlay (N := Mesh)) j k m n p dst c c' :
  j <> k -> planes s !! j = Some m -> planes s !! k = Some n ->
  dst_addr p = Some dst -> route (peers m) dst = Some k -> link (peers m) k = Some c -> remote_id c = k -> too_big c p = false ->
  c' ∈ serving n -> remote_id c' = j ->
  let s' := run s [Reads j p true; Arrives (length (wire s)) c' true] in
  written s' = written s ++ [{| d_from := j; d_to := k; d_packet := p |}] /\ wire s' = wire s /\ dropped s' = dropped s.
Proof.
  intros Hne Hj Hk Hd Hr Hl Hc Ht Hs Hj'. unfold run. cbn [foldl step]. rewrite Hj.
  assert (E : mesh_reads m p true = (fst (act DIAL_QUEUE m (Packet p true)), Some c)).
  { unfold mesh_reads, forward. by rewrite Hd, Hr, Hl, Ht. }
  unfold reads. cbn [dp_reads mesh_plane]. rewrite E. cbn [step wire planes option_list fmap option_fmap option_map option_rect].
  rewrite list_lookup_middle by done. cbn [d_to d_from]. rewrite Hc, lookup_insert_ne, Hk by done. rewrite bool_decide_eq_true_2 by done.
  unfold arrives. cbn [dp_receives mesh_plane d_to]. unfold mesh_receives, deliver. rewrite bool_decide_eq_true_2 by done.
  cbn [andb snd written wire dropped]. split; [done|]. split; [|done]. etrans; [exact (delete_middle _ [] _)|]. apply app_nil_r.
Qed.
End Overlay.

(** ** Two daemons *)

Import Concrete.

Module Pair.
(** [Mesh]'s two keys, each other's member, linked both ways. *)
Definition meets (k other : EndpointId) : list (event (N := Mesh)) :=
  map (Works k) [RosterChange [other]; RefreshRoutes [other]; Accepted (Links.conn 1 other); Registers (Links.conn 1 other)].
Definition linked : Overlay (N := Mesh) := run (boot {[Links.k1; Links.k2]}) (meets Links.k1 Links.k2 ++ meets Links.k2 Links.k1).

(** An IPv4 packet for [k]. *)
Definition packet_for (k : EndpointId) : list Z :=
  [69; 0; 0; 20; 0; 0; 0; 0; 64; 17; 0; 0; 0; 0; 0; 0] ++ match v4_of k with V4 b => b | V6 b => b end.
Definition sent : Parcel := {| d_from := Links.k1; d_to := Links.k2; d_packet := packet_for Links.k2 |}.
Definition sends : list (event (N := Mesh)) := [Reads Links.k1 (packet_for Links.k2) true; Arrives 0 (Links.conn 1 Links.k1) true].

(** One packet later. *)
Definition exchange : list (event (N := Mesh)) := (meets Links.k1 Links.k2 ++ meets Links.k2 Links.k1) ++ sends.
Lemma written_sent : written (run (boot {[Links.k1; Links.k2]}) exchange) = [sent].
Proof. vm_cast_no_check (eq_refl [sent]). Qed.
End Pair.

Example nothing_goes_astray_witness :
  let s := run (boot {[Links.k1; Links.k2]}) Pair.exchange in
  written s = [Pair.sent] /\ Links.k1 ∈ ever_of s Links.k2
  /\ (Links.k1, Pair.packet_for Links.k2) ∈ read s /\ addressed_to Links.k2 (Pair.packet_for Links.k2).
Proof.
  destruct (nothing_goes_astray {[Links.k1; Links.k2]} Pair.exchange Pair.sent) as [He Hi].
  { rewrite Pair.written_sent. constructor. }
  split; [exact Pair.written_sent|]. split; [exact He|]. apply Hi. apply (bool_decide_eq_true_1 _). by vm_compute.
Defined.

(** A test of a node's state that evaluates to true. *)
Lemma plane_passes (s : Overlay (N := Mesh)) k (test : Mesh -> bool) :
  match planes s !! k with Some m => test m | None => false end = true -> exists m, planes s !! k = Some m /\ test m = true.
Proof. destruct (planes s !! k) as [m|]; [|done]. intros Ht. by exists m. Qed.

Example a_packet_gets_through_witness :
  let s' := run Pair.linked Pair.sends in
  written s' = written Pair.linked ++ [Pair.sent] /\ wire s' = wire Pair.linked /\ dropped s' = dropped Pair.linked.
Proof.
  destruct (plane_passes Pair.linked Links.k1 (fun m =>
    bool_decide (route (peers m) (v4_of Links.k2) = Some Links.k2)
    && bool_decide (link (peers m) Links.k2 = Some (Links.conn 1 Links.k2)))) as (m & Hm & [Hr Hl]%andb_true_iff); [by vm_compute|].
  destruct (plane_passes Pair.linked Links.k2 (fun n => bool_decide (Links.conn 1 Links.k1 ∈ serving n))) as (n & Hn & Hs);
    [by vm_compute|].
  apply bool_decide_eq_true_1 in Hr, Hl, Hs.
  apply (a_packet_gets_through Pair.linked Links.k1 Links.k2 m n (Pair.packet_for Links.k2) (v4_of Links.k2)
           (Links.conn 1 Links.k2) (Links.conn 1 Links.k1)); try assumption; try reflexivity.
  apply (bool_decide_eq_true_1 _). by vm_compute.
Defined.
