(* ===== verification/Files.v ===== *)
(** * The offer registry ([daemon/src/files/mod.rs])

    Offers in flight on a node.  Every operation is one critical section of the
    registry's mutex; instants are nanoseconds; the random bytes [new_id] draws
    are its argument, and the connections an operation closes are its result.
    The critical sections [transfer.rs] runs inline are here too. *)

From S2P Require Import Prelude External Proto Names Peers.

Definition NANOS : Z := 10 ^ 9.
Definition from_secs (n : Z) : Z := n * NANOS.
Definition HISTORY : Z := from_secs (60 * 60).

Definition clamp_ttl (ttl_secs : Z) : Z := from_secs (clamp 1 MAX_FILE_TTL ttl_secs).

(** [deadline.saturating_duration_since(now).as_secs()]. *)
Definition remaining (deadline now : Z) : Z := sat_sub deadline now / NANOS.

(** [mod close]. *)
Definition DONE : Z := 0.
Definition CANCELLED : Z := 1.
Definition EXPIRED : Z := 2.
Definition NOT_MEMBER : Z := 3.
Definition FAILED : Z := 4.
Definition REJECTED : Z := 5.

Section Files.
Context `{!EndpointIds, !HexCrate} {Link : Type}.

(** A connection closed with a code and the reason for the other side. *)
Definition close_call : Type := Connection * Z * rstr.

Record Incoming := {
  i_peer : EndpointId;
  i_name : rstr;
  i_size : Z;
  i_received_at : Z;
  i_expires_at : Z;
  i_conn : Connection;
  i_link : option Link;
}.

Record Outgoing := {
  o_peer : EndpointId;
  o_to : rstr;
  o_name : rstr;
  o_size : Z;
  o_state : OfferState;
  o_created_at : Z;
  o_expires_at : option Z;
  o_finished_at : option Z;
  o_detail : option rstr;
  o_conn : option Connection;
}.

Record Registry := {
  roster : gmap EndpointId rstr;
  incoming : gmap rstr Incoming;
  outgoing : gmap rstr Outgoing;
  receiving : gmap rstr (EndpointId * Connection);
  gone : gmap rstr (Z * rstr);
}.

Definition Registry_default : Registry :=
  {| roster := ∅; incoming := ∅; outgoing := ∅; receiving := ∅; gone := ∅ |}.

Definition with_incoming f (r : Registry) : Registry :=
  {| roster := roster r; incoming := f (incoming r); outgoing := outgoing r; receiving := receiving r; gone := gone r |}.
Definition with_outgoing f (r : Registry) : Registry :=
  {| roster := roster r; incoming := incoming r; outgoing := f (outgoing r); receiving := receiving r; gone := gone r |}.
Definition with_receiving f (r : Registry) : Registry :=
  {| roster := roster r; incoming := incoming r; outgoing := outgoing r; receiving := f (receiving r); gone := gone r |}.
Definition with_gone f (r : Registry) : Registry :=
  {| roster := roster r; incoming := incoming r; outgoing := outgoing r; receiving := receiving r; gone := f (gone r) |}.

Definition NO_LONGER : rstr := lit "no longer a member of this network".
Definition REMOVED : rstr := lit "removed from the network".

Definition collect_roster (members : list (EndpointId * rstr)) : gmap EndpointId rstr :=
  foldl (fun m '(id, name) => <[id := name]> m) ∅ members.

Definition current (r : Registry) (peer : EndpointId) : Prop := is_Some (roster r !! peer).
#[global] Instance current_dec r peer : Decision (current r peer).
Proof. unfold current. apply _. Defined.

Definition set_roster (r : Registry) (members : list (EndpointId * rstr)) : Registry * list close_call :=
  let r := {| roster := collect_roster members; incoming := incoming r; outgoing := outgoing r;
              receiving := receiving r; gone := gone r |} in
  let dropped := filter (fun '(_, o) => ~ current r (i_peer o)) (map_to_list (incoming r)) in
  let cut := filter (fun '(_, (p, _)) => ~ current r p) (map_to_list (receiving r)) in
  let ended := filter (fun '(_, o) => ~ current r (o_peer o)) (map_to_list (outgoing r)) in
  let r := with_incoming (filter (fun '(_, o) => current r (i_peer o))) r in
  let r := with_receiving (filter (fun '(_, (p, _)) => current r p)) r in
  (r, ((fun '(_, o) => (i_conn o, NOT_MEMBER, NO_LONGER)) <$> dropped)
      ++ ((fun '(_, (_, c)) => (c, NOT_MEMBER, NO_LONGER)) <$> cut)
      ++ omap (fun '(_, o) => (fun c => (c, NOT_MEMBER, REMOVED)) <$> o_conn o) ended).

Definition is_member (r : Registry) (peer : EndpointId) : bool := bool_decide (current r peer).

Definition display (r : Registry) (peer : EndpointId) : rstr :=
  match roster r !! peer with Some name => name | None => fallback (show_id peer) end.

Definition recent (now at_ : Z) : bool := sat_sub now at_ <? HISTORY.
Definition remembered (now : Z) (o : Outgoing) : bool :=
  match o_finished_at o with Some at_ => recent now at_ | None => true end.

Definition forget_history (r : Registry) (now : Z) : Registry :=
  let r := with_outgoing (filter (fun '(_, o) => remembered now o = true)) r in
  with_gone (filter (fun '(_, (at_, _)) => recent now at_ = true)) r.

(** [sort_by_key] on an instant. *)
Definition received_le (a b : rstr * Incoming) : Prop := i_received_at (snd a) <= i_received_at (snd b).
Definition created_le (a b : rstr * Outgoing) : Prop := o_created_at (snd a) <= o_created_at (snd b).
#[global] Instance received_le_dec a b : Decision (received_le a b).
Proof. unfold received_le. apply _. Defined.
#[global] Instance created_le_dec a b : Decision (created_le a b).
Proof. unfold created_le. apply _. Defined.

Definition answerable (o : Incoming) (now : Z) : Prop := is_Some (i_link o) /\ now < i_expires_at o.
#[global] Instance answerable_dec o now : Decision (answerable o now).
Proof. unfold answerable. apply _. Defined.

Definition show_incoming (r : Registry) (now : Z) (e : rstr * Incoming) : IncomingOffer :=
  let '(id, o) := e in
  {| in_id := id; in_from := display r (i_peer o); in_name := i_name o; in_size := i_size o;
     in_expires_in_secs := remaining (i_expires_at o) now |}.

Definition show_outgoing (now : Z) (e : rstr * Outgoing) : OutgoingOffer :=
  let '(id, o) := e in
  {| out_id := id; out_to := o_to o; out_name := o_name o; out_size := o_size o; out_state := o_state o;
     out_expires_in_secs := (fun at_ => remaining at_ now) <$> o_expires_at o; out_detail := o_detail o |}.

Definition list (r : Registry) (now : Z) : Registry * (Datatypes.list IncomingOffer * Datatypes.list OutgoingOffer) :=
  let r := forget_history r now in
  let inc := filter (fun '(_, o) => answerable o now) (map_to_list (incoming r)) in
  let out := map_to_list (outgoing r) in
  (r, (show_incoming r now <$> merge_sort received_le inc, show_outgoing now <$> merge_sort created_le out)).

(** [new_id]: the first draw whose id is free; with no draw left it is still
    looping. *)
Definition tracked (r : Registry) (id : rstr) : bool :=
  bool_decide (is_Some (incoming r !! id)) || bool_decide (is_Some (outgoing r !! id))
  || bool_decide (is_Some (gone r !! id)).

Fixpoint new_id (r : Registry) (draws : Datatypes.list (Datatypes.list Z)) : option rstr :=
  match draws with
  | [] => None
  | bytes :: draws' =>
      let id := hex_encode bytes in
      if negb (tracked r id) then Some id else new_id r draws'
  end.

Definition waiting (r : Registry) (peer : EndpointId) : nat :=
  length (filter (fun '(_, o) => i_peer o = peer) (map_to_list (incoming r))).

Definition admit_offer (r : Registry) (peer : EndpointId) (name : rstr) (size ttl : Z) (conn : Connection) (now : Z)
    (draws : Datatypes.list (Datatypes.list Z)) : option (Registry * result message rstr) :=
  if negb (is_member r peer) then Some (r, Err (Fmt "not a member of this network" []))
  else if (MAX_PENDING_PER_PEER <=? waiting r peer)%nat then
    Some (r, Err (Fmt "{MAX_PENDING_PER_PEER} of your offers are already waiting there" []))
  else
    id ← new_id r draws;
    Some (with_incoming <[id := {| i_peer := peer; i_name := name; i_size := size; i_received_at := now;
                                   i_expires_at := now + ttl; i_conn := conn; i_link := None |}]> r, Ok id).

Definition finish_entry (state : OfferState) (detail : option rstr) (now : Z) (o : Outgoing) : Outgoing :=
  {| o_peer := o_peer o; o_to := o_to o; o_name := o_name o; o_size := o_size o; o_state := state;
     o_created_at := o_created_at o;
     o_expires_at := if bool_decide (state = Offered) then o_expires_at o else None;
     o_finished_at := if is_finished state then Some now else o_finished_at o;
     o_detail := if is_finished state then detail else o_detail o;
     o_conn := if is_finished state then None else o_conn o |}.

Definition set_state (r : Registry) (id : rstr) (state : OfferState) (detail : option rstr) (now : Z) : Registry :=
  match outgoing r !! id with
  | Some offer => with_outgoing <[id := finish_entry state detail now offer]> r
  | None => r
  end.

(** ** Critical sections of [transfer.rs] *)

(** [receive_offer]: the offer's streams are stored once the sender was told. *)
Definition attach_link (r : Registry) (id : rstr) (link : Link) : Registry * option Z :=
  match incoming r !! id with
  | Some o =>
      (with_incoming <[id := {| i_peer := i_peer o; i_name := i_name o; i_size := i_size o;
                                i_received_at := i_received_at o; i_expires_at := i_expires_at o;
                                i_conn := i_conn o; i_link := Some link |}]> r, Some (i_expires_at o))
  | None => (r, None)
  end.

Definition remove_incoming (r : Registry) (id : rstr) : Registry := with_incoming (delete id) r.

Definition bury_incoming (r : Registry) (id : rstr) (conn : Connection) (why : rstr) (now : Z) : Registry * bool :=
  match incoming r !! id with
  | Some offer =>
      if (stable_id (i_conn offer) =? stable_id conn)%N then
        (with_gone <[id := (now, why)]> (with_incoming (delete id) r), true)
      else (r, false)
  | None => (r, false)
  end.

Definition take_answerable (r : Registry) (id : rstr) (now : Z) : Registry * result message (Incoming * Link) :=
  let r := forget_history r now in
  let unknown :=
    match gone r !! id with
    | Some (_, why) => Err (Text why)
    | None => Err (Fmt "no pending offer {id} — `quix file list` shows what is waiting" [Text id])
    end in
  match incoming r !! id with
  | Some offer =>
      match i_link offer with
      | Some link =>
          if now <? i_expires_at offer then (with_incoming (delete id) r, Ok (offer, link))
          else (r, Err (Fmt "that offer has expired" []))
      | None => (r, unknown)
      end
  | None => (r, unknown)
  end.

(** [send]: the offer is listed before it is delivered. *)
Definition list_outgoing (r : Registry) (peer : EndpointId) (to name : rstr) (size ttl now : Z)
    (draws : Datatypes.list (Datatypes.list Z)) : option (Registry * rstr) :=
  let r := forget_history r now in
  id ← new_id r draws;
  Some (with_outgoing <[id := {| o_peer := peer; o_to := to; o_name := name; o_size := size; o_state := Offered;
                                 o_created_at := now; o_expires_at := Some (now + ttl); o_finished_at := None;
                                 o_detail := None; o_conn := None |}]> r, id).

Definition remove_outgoing (r : Registry) (id : rstr) : Registry := with_outgoing (delete id) r.

(** ... and given its window and connection once the receiver has it. *)
Definition offer_delivered (r : Registry) (id : rstr) (expires_at : Z) (conn : Connection) : option Registry :=
  o ← outgoing r !! id;
  Some (with_outgoing <[id := {| o_peer := o_peer o; o_to := o_to o; o_name := o_name o; o_size := o_size o;
                                 o_state := o_state o; o_created_at := o_created_at o;
                                 o_expires_at := Some expires_at; o_finished_at := o_finished_at o;
                                 o_detail := o_detail o; o_conn := Some conn |}]> r).

Definition start_receiving (r : Registry) (id : rstr) (peer : EndpointId) (conn : Connection) : Registry :=
  with_receiving <[id := (peer, conn)]> r.
Definition stop_receiving (r : Registry) (id : rstr) : Registry := with_receiving (delete id) r.

(** ** Histories of the registry *)

Inductive op :=
  | SetRoster (members : Datatypes.list (EndpointId * rstr))
  | Admit (peer : EndpointId) (name : rstr) (size ttl : Z) (conn : Connection) (now : Z)
      (draws : Datatypes.list (Datatypes.list Z))
  | Attach (id : rstr) (link : Link)
  | Unqueue (id : rstr)
  | Bury (id : rstr) (conn : Connection) (why : rstr) (now : Z)
  | Take (id : rstr) (now : Z)
  | Offer (peer : EndpointId) (to name : rstr) (size ttl now : Z) (draws : Datatypes.list (Datatypes.list Z))
  | Unoffer (id : rstr)
  | DeliveredTo (id : rstr) (expires_at : Z) (conn : Connection)
  | SetState (id : rstr) (state : OfferState) (detail : option rstr) (now : Z)
  | StartReceiving (id : rstr) (peer : EndpointId) (conn : Connection)
  | StopReceiving (id : rstr)
  | ListOffers (now : Z).

Definition apply (r : Registry) (o : op) : Registry :=
  match o with
  | SetRoster members => fst (set_roster r members)
  | Admit peer name size ttl conn now draws =>
      match admit_offer r peer name size ttl conn now draws with Some (r', _) => r' | None => r end
  | Attach id link => fst (attach_link r id link)
  | Unqueue id => remove_incoming r id
  | Bury id conn why now => fst (bury_incoming r id conn why now)
  | Take id now => fst (take_answerable r id now)
  | Offer peer to name size ttl now draws =>
      match list_outgoing r peer to name size ttl now draws with
      | Some (r', _) => r' | None => forget_history r now end
  | Unoffer id => remove_outgoing r id
  | DeliveredTo id expires conn => match offer_delivered r id expires conn with Some r' => r' | None => r end
  | SetState id state detail now => set_state r id state detail now
  | StartReceiving id peer conn => start_receiving r id peer conn
  | StopReceiving id => stop_receiving r id
  | ListOffers now => fst (list r now)
  end.

Definition run (r : Registry) (ops : Datatypes.list op) : Registry := foldl apply r ops.

(** ** Fresh ids *)

Lemma tracked_false (r : Registry) id :
  tracked r id = false <-> incoming r !! id = None /\ outgoing r !! id = None /\ gone r !! id = None.
Proof.
  unfold tracked. rewrite !orb_false_iff, !bool_decide_eq_false, !eq_None_not_Some. tauto.
Qed.

Lemma new_id_fresh (r : Registry) draws id :
  new_id r draws = Some id -> tracked r id = false /\ exists bytes, bytes ∈ draws /\ id = hex_encode bytes.
Proof.
  induction draws as [|b draws IH]; simpl; [done|]. destruct (tracked r (hex_encode b)) eqn:E; simpl.
  - intros Hi. destruct (IH Hi) as (? & b' & ? & ?). split; [done|]. exists b'. split; [by right|done].
  - intros [= <-]. split; [done|]. exists b. split; [constructor|done].
Qed.

(** The ids the registry tracks, as a list. *)
Definition tracked_ids (r : Registry) : Datatypes.list rstr :=
  (map_to_list (incoming r)).*1 ++ (map_to_list (outgoing r)).*1 ++ (map_to_list (gone r)).*1.

Lemma elem_of_keys {A} (m : gmap rstr A) id : is_Some (m !! id) -> id ∈ (map_to_list m).*1.
Proof. intros [a Ha]. apply list_elem_of_fmap. exists (id, a). split; [done|]. by apply elem_of_map_to_list. Qed.

Lemma tracked_in (r : Registry) id : tracked r id = true -> id ∈ tracked_ids r.
Proof.
  unfold tracked, tracked_ids. rewrite !orb_true_iff, !bool_decide_eq_true, !elem_of_app.
  intros [[?|?]|?]; [left|right; left|right; right]; by apply elem_of_keys.
Qed.

Lemma length_tracked_ids (r : Registry) :
  length (tracked_ids r) = (size (incoming r) + size (outgoing r) + size (gone r))%nat.
Proof. unfold tracked_ids. rewrite !length_app, !length_fmap, !length_map_to_list. lia. Qed.

Lemma new_id_None (r : Registry) draws :
  new_id r draws = None -> Forall (fun b => tracked r (hex_encode b) = true) draws.
Proof.
  induction draws as [|b draws IH]; simpl; [constructor|].
  destruct (tracked r (hex_encode b)) eqn:E; simpl; [|done]. intros Hn. constructor; auto.
Qed.

Lemma new_id_terminates (r : Registry) draws :
  NoDup draws -> Forall bytes_ok draws ->
  (size (incoming r) + size (outgoing r) + size (gone r) < length draws)%nat ->
  is_Some (new_id r draws).
Proof.
  intros Hnd Hok Hlen. destruct (new_id r draws) as [id|] eqn:E; [eauto|]. exfalso.
  apply new_id_None in E.
  assert (Hsub : hex_encode <$> draws ⊆ tracked_ids r).
  { intros id Hid. apply list_elem_of_fmap in Hid as (b & -> & Hb). rewrite Forall_forall in E.
    by apply tracked_in, E. }
  assert (Hnd' : NoDup (hex_encode <$> draws)).
  { apply NoDup_fmap_2_strong; [|done]. rewrite Forall_forall in Hok.
    intros x y Hx Hy. apply hex_encode_inj; auto. }
  pose proof (submseteq_length _ _ (NoDup_submseteq _ _ Hnd' Hsub)) as Hc.
  rewrite length_fmap, length_tracked_ids in Hc. lia.
Qed.

(** ** Counting a peer's offers *)

Definition count (peer : EndpointId) (m : gmap rstr Incoming) : nat :=
  size (filter (fun '(_, o) => i_peer o = peer) m).

Lemma waiting_count (r : Registry) peer : waiting r peer = count peer (incoming r).
Proof.
  unfold waiting, count. rewrite map_filter_alt, map_size_list_to_map; [done|].
  eapply sublist_NoDup; [apply (NoDup_fst_map_to_list (incoming r))|]. apply fmap_sublist, sublist_filter.
Qed.

Lemma count_subseteq peer m m' : m ⊆ m' -> (count peer m <= count peer m')%nat.
Proof. intros Hs. apply map_subseteq_size. by apply map_filter_subseteq_mono. Qed.

Lemma count_insert peer k o m :
  (count peer (<[k := o]> m) <= S (count peer m))%nat
  /\ (i_peer o <> peer \/ (exists o', m !! k = Some o' /\ i_peer o' = peer) ->
      (count peer (<[k := o]> m) <= count peer m)%nat).
Proof.
  unfold count. rewrite map_filter_insert. destruct (decide (i_peer o = peer)) as [Heq|Hne].
  - rewrite map_size_insert. destruct (filter _ m !! k) eqn:E; unfold id; [lia|].
    split; [lia|]. intros [?|(o' & Ho & Hp)]; [done|].
    exfalso. apply map_lookup_filter_None in E as [E|E]; [congruence|by apply (E o')].
  - rewrite map_filter_delete, map_size_delete. destruct (filter _ m !! k); unfold id; lia.
Qed.

(** ** The invariant *)

Record inv (r : Registry) : Prop := {
  inv_member : forall id o, incoming r !! id = Some o -> current r (i_peer o);
  inv_limit : forall peer, (count peer (incoming r) <= MAX_PENDING_PER_PEER)%nat;
  inv_disjoint : forall id,
    (is_Some (incoming r !! id) -> outgoing r !! id = None /\ gone r !! id = None)
    /\ (is_Some (outgoing r !! id) -> gone r !! id = None);
}.

(** The registry shrinks: fewer offers, same roster. *)
Lemma inv_shrink r r' :
  inv r -> roster r' = roster r -> incoming r' ⊆ incoming r -> outgoing r' ⊆ outgoing r -> gone r' ⊆ gone r -> inv r'.
Proof.
  intros [I1 I2 I3] Hr Hi Ho Hg.
  assert (Hn : forall A (m m' : gmap rstr A) id, m' ⊆ m -> m !! id = None -> m' !! id = None).
  { intros A m m' id Hs Hm. destruct (m' !! id) eqn:E; [|done]. by rewrite (lookup_weaken _ _ _ _ E Hs) in Hm. }
  assert (Hs' : forall A (m m' : gmap rstr A) id, m' ⊆ m -> is_Some (m' !! id) -> is_Some (m !! id)).
  { intros A m m' id Hs [x Hx]. exists x. by eapply lookup_weaken. }
  split.
  - intros id o Hl. unfold current. rewrite Hr. apply (I1 id o). by eapply lookup_weaken.
  - intros peer. etransitivity; [by apply count_subseteq|apply I2].
  - intros id. destruct (I3 id) as [J1 J2]. split.
    + intros Hl. destruct (J1 (Hs' _ _ _ _ Hi Hl)). split; eapply Hn; eauto.
    + intros Hl. eapply Hn; [exact Hg|]. apply J2. by eapply Hs'.
Qed.

Lemma inv_forget r now : inv r -> inv (forget_history r now).
Proof. intros Hi. eapply inv_shrink; [exact Hi|done..| |]; apply map_filter_subseteq. Qed.

Lemma inv_set_roster r members : inv r -> inv (fst (set_roster r members)).
Proof.
  intros [I1 I2 I3].
  assert (Hsub : incoming (fst (set_roster r members)) ⊆ incoming r) by apply map_filter_subseteq.
  split.
  - intros id o Hl. simpl in Hl. by apply map_lookup_filter_Some in Hl as [_ ?].
  - intros peer. etransitivity; [by apply count_subseteq|apply I2].
  - intros id. destruct (I3 id) as [J1 J2]. split; [|exact J2].
    intros [o Ho]. apply J1. exists o. by eapply lookup_weaken.
Qed.

(** Inserting an incoming offer under a free id, or replacing one of the same
    peer's. *)
Lemma inv_insert_incoming r k o :
  inv r -> current r (i_peer o) ->
  (tracked r k = false /\ (count (i_peer o) (incoming r) < MAX_PENDING_PER_PEER)%nat)
  \/ (exists o', incoming r !! k = Some o' /\ i_peer o' = i_peer o) ->
  inv (with_incoming <[k := o]> r).
Proof.
  intros [I1 I2 I3] Hcur Hk. split; simpl.
  - intros id o' Hl. apply lookup_insert_Some in Hl as [[_ <-]|[_ Hl]]; [done|by apply (I1 id)].
  - intros peer. destruct (count_insert peer k o (incoming r)) as [Hs Hle].
    destruct Hk as [[_ Hlt]|(o' & Ho' & Hp)].
    + destruct (decide (i_peer o = peer)) as [<-|Hne]; [lia|]. pose proof (I2 peer). specialize (Hle (or_introl Hne)). lia.
    + pose proof (I2 peer). destruct (decide (i_peer o = peer)) as [Heq|Hne].
      * assert (count peer (<[k := o]> (incoming r)) <= count peer (incoming r))%nat; [|lia].
        apply Hle. right. exists o'. split; [done|congruence].
      * specialize (Hle (or_introl Hne)). lia.
  - intros id. destruct (I3 id) as [J1 J2]. split; [|exact J2]. rewrite lookup_insert_is_Some'.
    intros [->|Hi]; [|auto]. destruct Hk as [[Ht _]|(o' & Ho' & _)]; [|apply J1; eauto].
    apply tracked_false in Ht as (? & ? & ?). auto.
Qed.

Lemma inv_admit r peer name size ttl conn now draws r' res :
  inv r -> admit_offer r peer name size ttl conn now draws = Some (r', res) -> inv r'.
Proof.
  intros Hi. unfold admit_offer. destruct (negb (is_member r peer)) eqn:Em; [by intros [= <- _]|].
  apply negb_false_iff, bool_decide_eq_true in Em.
  destruct (Nat.leb_spec MAX_PENDING_PER_PEER (waiting r peer)) as [|Hw]; [by intros [= <- _]|].
  destruct (new_id r draws) as [id|] eqn:En; simpl; [|done]. intros [= <- _].
  apply new_id_fresh in En as [Ht _]. apply inv_insert_incoming; [done|done|]. left. by rewrite <- waiting_count.
Qed.

Lemma inv_attach r id link : inv r -> inv (fst (attach_link r id link)).
Proof.
  intros Hi. unfold attach_link. destruct (incoming r !! id) as [o|] eqn:E; simpl; [|done].
  apply inv_insert_incoming; [done|by apply (inv_member _ Hi id o)|]. right. by exists o.
Qed.

Lemma inv_remove_incoming r id : inv r -> inv (remove_incoming r id).
Proof. intros Hi. eapply inv_shrink; [exact Hi|done| |done..]. apply delete_subseteq. Qed.

Lemma inv_bury r id conn why now : inv r -> inv (fst (bury_incoming r id conn why now)).
Proof.
  intros Hi. unfold bury_incoming. destruct (incoming r !! id) as [o|] eqn:E; [|done].
  destruct (_ =? _)%N; [|done]. apply (inv_remove_incoming r id) in Hi as Hi'. destruct Hi' as [I1 I2 _].
  destruct Hi as [_ _ I3]. split; simpl; auto. intros k.
  destruct (I3 k) as [J1 J2]. destruct (decide (k = id)) as [->|Hne].
  - rewrite lookup_delete_eq, lookup_insert_eq. destruct J1; [eauto|]. split; [by intros [? ?]|].
    intros [? ?]; congruence.
  - rewrite lookup_delete_ne, lookup_insert_ne by done. auto.
Qed.

Lemma take_answerable_roster r id now :
  let r' := fst (take_answerable r id now) in
  roster r' = roster r /\ incoming r' ⊆ incoming r /\ outgoing r' ⊆ outgoing r /\ gone r' ⊆ gone r.
Proof.
  unfold take_answerable.
  destruct (incoming (forget_history r now) !! id) as [o|]; [destruct (i_link o); [destruct (now <? _)|]|];
    simpl; repeat split; try apply map_filter_subseteq; try done. apply delete_subseteq.
Qed.

Lemma inv_take r id now : inv r -> inv (fst (take_answerable r id now)).
Proof.
  intros Hi. destruct (take_answerable_roster r id now) as (? & ? & ? & ?).
  by eapply inv_shrink.
Qed.

Lemma inv_insert_outgoing r k o :
  inv r -> (tracked r k = false \/ is_Some (outgoing r !! k)) -> inv (with_outgoing <[k := o]> r).
Proof.
  intros [I1 I2 I3] Hk. split; simpl; auto. intros id. destruct (I3 id) as [J1 J2].
  destruct (decide (id = k)) as [->|Hne]; [|by rewrite lookup_insert_ne].
  rewrite lookup_insert_eq. destruct Hk as [Ht|Ho].
  - apply tracked_false in Ht as (Hi & _ & Hg). split; [|done]. intros [? ?]; congruence.
  - split; [|auto]. intros Hinc. destruct (J1 Hinc) as [Hn _]. destruct Ho; congruence.
Qed.

Lemma inv_list_outgoing r peer to name size ttl now draws r' id :
  inv r -> list_outgoing r peer to name size ttl now draws = Some (r', id) -> inv r'.
Proof.
  intros Hi. unfold list_outgoing. destruct (new_id _ draws) as [k|] eqn:En; simpl; [|done]. intros [= <- <-].
  apply new_id_fresh in En as [Ht _]. apply inv_insert_outgoing; [by apply inv_forget|by left].
Qed.

Lemma inv_set_state r id state detail now : inv r -> inv (set_state r id state detail now).
Proof.
  intros Hi. unfold set_state. destruct (outgoing r !! id) eqn:E; [|done].
  apply inv_insert_outgoing; [done|]. right. eauto.
Qed.

Lemma inv_apply r o : inv r -> inv (apply r o).
Proof.
  intros Hi. destruct o; cbn [apply].
  - by apply inv_set_roster.
  - destruct (admit_offer _ _ _ _ _ _ _ _) as [[r' res]|] eqn:E; [by eapply inv_admit|done].
  - by apply inv_attach.
  - by apply inv_remove_incoming.
  - by apply inv_bury.
  - by apply inv_take.
  - destruct (list_outgoing _ _ _ _ _ _ _ _) as [[r' id]|] eqn:E; [by eapply inv_list_outgoing|by apply inv_forget].
  - eapply inv_shrink; [exact Hi|done|done| |done]. apply delete_subseteq.
  - unfold offer_delivered. destruct (outgoing r !! id) eqn:E; simpl; [|done].
    apply inv_insert_outgoing; [done|]. right. eauto.
  - by apply inv_set_state.
  - destruct Hi; by split.
  - destruct Hi; by split.
  - by apply inv_forget.
Qed.

Lemma inv_default : inv Registry_default.
Proof.
  split.
  - intros id o Hl. simpl in Hl. by rewrite lookup_empty in Hl.
  - intros peer. unfold count. simpl. rewrite map_filter_empty, map_size_empty. unfold MAX_PENDING_PER_PEER. lia.
  - intros id. simpl. rewrite lookup_empty. split; by intros [? ?].
Qed.

Lemma inv_run r ops : inv r -> inv (run r ops).
Proof. revert r; induction ops as [|o ops IH]; intros r Hr; [done|]. by apply IH, inv_apply. Qed.

(** ** Answering an offer *)

Lemma take_answerable_ok r id now r' offer link :
  take_answerable r id now = (r', Ok (offer, link)) <->
  incoming r !! id = Some offer /\ i_link offer = Some link /\ now < i_expires_at offer
  /\ r' = with_incoming (delete id) (forget_history r now).
Proof.
  unfold take_answerable. change (incoming (forget_history r now)) with (incoming r).
  destruct (incoming r !! id) as [o|]; [|split; [by destruct (gone _ !! id) as [[? ?]|]|naive_solver]].
  destruct (i_link o) as [l|] eqn:El; [|split; [by destruct (gone _ !! id) as [[? ?]|]|naive_solver]].
  destruct (Z.ltb_spec now (i_expires_at o)); split; try done.
  - intros [= <- <- <-]. auto.
  - intros ([= ->] & Hl & _ & ->). congruence.
  - intros ([= ->] & _ & ? & _). lia.
Qed.

(** Operations under which an id that is not waiting does not start to. *)
Definition never_drawn (id : rstr) (o : op) : Prop :=
  match o with
  | Admit _ _ _ _ _ _ draws => Forall (fun b => hex_encode b <> id) draws
  | _ => True
  end.

Lemma incoming_absent_apply r o id :
  never_drawn id o -> incoming r !! id = None -> incoming (apply r o) !! id = None.
Proof.
  intros Hn Hi. destruct o; cbn [apply never_drawn] in *; try exact Hi.
  - simpl. apply map_lookup_filter_None. by left.
  - unfold admit_offer. destruct (negb _); [done|]. destruct (_ <=? _)%nat; [done|].
    destruct (new_id r draws) as [k|] eqn:E; simpl; [|done].
    apply new_id_fresh in E as (_ & b & Hb & ->). rewrite Forall_forall in Hn.
    rewrite lookup_insert_ne; [done|by apply Hn].
  - unfold attach_link. destruct (incoming r !! id0) eqn:E; simpl; [|done].
    rewrite lookup_insert_ne; [done|]. intros ->. congruence.
  - simpl. apply lookup_delete_None. by right.
  - unfold bury_incoming. destruct (incoming r !! id0) eqn:E; [|done]. destruct (_ =? _)%N; [|done].
    simpl. apply lookup_delete_None. by right.
  - destruct (take_answerable_roster r id0 now) as (_ & Hs & _).
    destruct (incoming (fst (take_answerable r id0 now)) !! id) eqn:E; [|done].
    by rewrite (lookup_weaken _ _ _ _ E Hs) in Hi.
  - unfold list_outgoing. by destruct (new_id _ draws).
  - unfold offer_delivered. by destruct (outgoing r !! id0).
  - unfold set_state. by destruct (outgoing r !! id0).
Qed.

Lemma incoming_absent_run r ops id :
  Forall (never_drawn id) ops -> incoming r !! id = None -> incoming (run r ops) !! id = None.
Proof.
  revert r; induction ops as [|o ops IH]; intros r Hn Hi; [done|].
  apply Forall_cons in Hn as [Ho Hn]. apply IH; [done|]. by apply incoming_absent_apply.
Qed.

Lemma elem_of_closes r members c code reason :
  (c, code, reason) ∈ snd (set_roster r members) <->
  let cur := current (fst (set_roster r members)) in
  code = NOT_MEMBER
  /\ ((reason = NO_LONGER /\ exists id o, incoming r !! id = Some o /\ i_conn o = c /\ ~ cur (i_peer o))
      \/ (reason = NO_LONGER /\ exists id p, receiving r !! id = Some (p, c) /\ ~ cur p)
      \/ (reason = REMOVED /\ exists id o, outgoing r !! id = Some o /\ o_conn o = Some c /\ ~ cur (o_peer o))).
Proof.
  cbv zeta. unfold set_roster. cbn [snd fst]. rewrite !elem_of_app, !list_elem_of_fmap, list_elem_of_omap.
  setoid_rewrite list_elem_of_filter. split.
  - intros [([id o] & [= -> -> ->] & Hc & Hin)|[([id [p c']] & [= -> -> ->] & Hc & Hin)|([id o] & [Hc Hin] & Ho)]].
    + apply elem_of_map_to_list in Hin. split; [done|]. left. split; [done|]. exists id, o. auto.
    + apply elem_of_map_to_list in Hin. split; [done|]. right; left. split; [done|]. exists id, p. auto.
    + apply elem_of_map_to_list in Hin. destruct (o_conn o) eqn:E; simpl in Ho; [|done].
      injection Ho as -> <- <-. split; [done|]. right; right. split; [done|]. exists id, o. auto.
  - intros [-> [(-> & id & o & Hin & <- & Hc)|[(-> & id & p & Hin & Hc)|(-> & id & o & Hin & Ho & Hc)]]].
    + left. exists (id, o). split; [done|]. split; [done|]. by apply elem_of_map_to_list.
    + right; left. exists (id, (p, c)). split; [done|]. split; [done|]. by apply elem_of_map_to_list.
    + right; right. exists (id, o). split; [split; [done|by apply elem_of_map_to_list]|]. by rewrite Ho.
Qed.

(** ** Properties *)

(** C19: however offers, answers, roster changes and clocks interleave, every
    waiting offer comes from a current member, no member has more than
    [MAX_PENDING_PER_PEER] waiting, and no id is waiting here, offered from here
    and remembered as gone at once. *)
Theorem registry_invariant ops :
  let r := run Registry_default ops in
  (forall id o, incoming r !! id = Some o -> current r (i_peer o))
  /\ (forall peer, (waiting r peer <= MAX_PENDING_PER_PEER)%nat)
  /\ (forall id, is_Some (incoming r !! id) -> outgoing r !! id = None /\ gone r !! id = None)
  /\ (forall id, is_Some (outgoing r !! id) -> incoming r !! id = None /\ gone r !! id = None).
Proof.
  intros r. destruct (inv_run Registry_default ops inv_default) as [I1 I2 I3]. fold r in I1, I2, I3.
  split; [exact I1|]. split; [intros peer; rewrite waiting_count; apply I2|]. split.
  - intros id. apply I3.
  - intros id Ho. destruct (I3 id) as [J1 J2]. split; [|auto].
    destruct (incoming r !! id) eqn:E; [|done]. destruct J1 as [Hn _]; [eauto|]. destruct Ho; congruence.
Qed.

(** an offer is taken exactly from a member with room, under an id that
    nothing is tracked by, and waits, not yet answerable, for its window;
    otherwise nothing changes.  Drawing the id terminates as soon as the draws
    hold more distinct values than there are tracked ids. *)
Theorem admit_functional r peer name len ttl conn now draws :
  NoDup draws -> Forall bytes_ok draws ->
  (size (incoming r) + size (outgoing r) + size (gone r) < length draws)%nat ->
  exists r' res, admit_offer r peer name len ttl conn now draws = Some (r', res)
  /\ match res with
     | Err _ => r' = r /\ (~ current r peer \/ (MAX_PENDING_PER_PEER <= waiting r peer)%nat)
     | Ok id => current r peer /\ (waiting r peer < MAX_PENDING_PER_PEER)%nat /\ tracked r id = false
         /\ exists o, r' = with_incoming <[id := o]> r /\ i_peer o = peer /\ i_name o = name /\ i_size o = len
            /\ i_expires_at o = now + ttl /\ ~ answerable o now
     end.
Proof.
  intros Hnd Hok Hlen. unfold admit_offer, is_member. case_bool_decide as Hc; cbn [negb]; [|eexists _, _; split; [reflexivity|split; [done|by left]]].
  destruct (Nat.leb_spec MAX_PENDING_PER_PEER (waiting r peer)) as [Hw|Hw]; [eexists _, _; split; [reflexivity|split; [done|by right]]|].
  destruct (new_id_terminates r draws Hnd Hok Hlen) as [id Hid]. rewrite Hid. cbn [mbind option_bind].
  eexists _, _; split; [reflexivity|]. apply new_id_fresh in Hid as [Ht _]. split_and!; auto.
  eexists. split; [reflexivity|]. split_and!; try done. by intros [[? ?] _].
Qed.

(** an offer is answered at most once: once somebody has taken it to accept
    or reject it, every later attempt, whatever happened in between short of its
    id being drawn again, is refused and takes nothing. *)
Theorem offers_are_answered_once r id now r' offer link ops later :
  take_answerable r id now = (r', Ok (offer, link)) ->
  Forall (never_drawn id) ops ->
  exists e, snd (take_answerable (run r' ops) id later) = Err e
    /\ incoming (fst (take_answerable (run r' ops) id later)) = incoming (run r' ops).
Proof.
  intros Ht Hn. apply take_answerable_ok in Ht as (_ & _ & _ & ->).
  assert (Hi : incoming (run (with_incoming (delete id) (forget_history r now)) ops) !! id = None).
  { apply incoming_absent_run; [done|]. simpl. apply lookup_delete_eq. }
  set (r2 := run _ ops) in *. clearbody r2. unfold take_answerable.
  change (incoming (forget_history r2 later)) with (incoming r2). rewrite Hi.
  destruct (gone _ !! id) as [[? why]|]; eexists; split; done.
Qed.

(** a roster change ends exactly what involves somebody no longer in it:
    their waiting offers and transfers under way here are dropped, everyone
    else's are kept, and the connections closed are theirs and those of offers
    to them, each with the reason its side is told. *)
Theorem set_roster_ends_what_left r members :
  let '(r', closes) := set_roster r members in
  (forall id o, incoming r' !! id = Some o <-> incoming r !! id = Some o /\ current r' (i_peer o))
  /\ (forall id p c, receiving r' !! id = Some (p, c) <-> receiving r !! id = Some (p, c) /\ current r' p)
  /\ outgoing r' = outgoing r /\ gone r' = gone r
  /\ (forall c code reason, (c, code, reason) ∈ closes <->
        code = NOT_MEMBER
        /\ ((reason = NO_LONGER /\ exists id o, incoming r !! id = Some o /\ i_conn o = c /\ ~ current r' (i_peer o))
            \/ (reason = NO_LONGER /\ exists id p, receiving r !! id = Some (p, c) /\ ~ current r' p)
            \/ (reason = REMOVED /\ exists id o, outgoing r !! id = Some o /\ o_conn o = Some c
                                       /\ ~ current r' (o_peer o)))).
Proof.
  pose proof (elem_of_closes r members) as Hc.
  destruct (set_roster r members) as [r' closes] eqn:E. cbn [fst snd] in Hc.
  split_and!; [..|exact Hc].
  - unfold set_roster in E. injection E as <- _. intros id o. simpl. by rewrite map_lookup_filter_Some.
  - unfold set_roster in E. injection E as <- _. intros id p c. simpl. by rewrite map_lookup_filter_Some.
  - unfold set_roster in E. by injection E as <- _.
  - unfold set_roster in E. by injection E as <- _.
Qed.

(** [quix file list] shows, oldest first, exactly the waiting offers that can
    still be answered, and this node's own offers with the finished ones of the
    last hour; listing changes nothing else. *)
Theorem list_shows_what_waits r now :
  let '(r', (inc, out)) := list r now in
  incoming r' = incoming r /\ roster r' = roster r
  /\ (exists l, inc = show_incoming r now <$> l /\ StronglySorted received_le l /\ NoDup l.*1
       /\ forall id o, (id, o) ∈ l <-> incoming r !! id = Some o /\ answerable o now)
  /\ (exists l, out = show_outgoing now <$> l /\ StronglySorted created_le l /\ NoDup l.*1
       /\ forall id o, (id, o) ∈ l <-> outgoing r !! id = Some o
            /\ (o_finished_at o = None \/ exists at_, o_finished_at o = Some at_ /\ now - at_ < HISTORY)).
Proof.
  unfold list. cbv zeta. change (incoming (forget_history r now)) with (incoming r).
  change (roster (forget_history r now)) with (roster r). split; [done|]. split; [done|]. split.
  - exists (merge_sort received_le (filter (fun '(_, o) => answerable o now) (map_to_list (incoming r)))).
    split; [done|]. split; [apply StronglySorted_merge_sort; [intros [??] [??] [??]; unfold received_le; simpl; lia|intros [??] [??]; unfold received_le; simpl; lia]|].
    split.
    + rewrite merge_sort_Permutation. eapply sublist_NoDup; [apply (NoDup_fst_map_to_list (incoming r))|].
      apply fmap_sublist, sublist_filter.
    + intros id o. rewrite merge_sort_Permutation, list_elem_of_filter, elem_of_map_to_list. tauto.
  - exists (merge_sort created_le (map_to_list (outgoing (forget_history r now)))).
    split; [done|]. split; [apply StronglySorted_merge_sort; [intros [??] [??] [??]; unfold created_le; simpl; lia|intros [??] [??]; unfold created_le; simpl; lia]|].
    split; [rewrite merge_sort_Permutation; apply NoDup_fst_map_to_list|].
    intros id o. rewrite merge_sort_Permutation, elem_of_map_to_list. simpl. rewrite map_lookup_filter_Some.
    unfold remembered, recent, sat_sub. destruct (o_finished_at o) as [at_|]; [|naive_solver].
    rewrite Z.ltb_lt. assert (HISTORY > 0) by done. split.
    + intros [? ?]. split; [done|]. right. exists at_. split; [done|]. lia.
    + intros [? [?|(b & [= <-] & ?)]]; [done|]. split; [done|]. lia.
Qed.

End Files.

(** ** Witnesses and two collisions *)

Import Concrete.

Module Offers.
Definition k2 : EndpointId := K2.
Definition k3 : EndpointId := K3.
Definition conn (n : N) (k : EndpointId) : Connection := {| stable_id := n; remote_id := k; max_datagram_size := None |}.
Definition draw : Datatypes.list Z := [222; 173; 190; 239].
Definition id : rstr := lit "deadbeef".
Definition offer : Datatypes.list (op (Link := unit)) :=
  [SetRoster [(k2, lit "nas"); (k3, lit "box")];
   Admit k2 (lit "a.txt") 3 (clamp_ttl 600) (conn 1 k2) 0 [draw];
   Attach id tt].
Definition state : Registry (Link := unit) := run Registry_default offer.
Definition waiting_offer : Incoming (Link := unit) :=
  {| i_peer := k2; i_name := lit "a.txt"; i_size := 3; i_received_at := 0; i_expires_at := clamp_ttl 600;
     i_conn := conn 1 k2; i_link := Some tt |}.

Lemma state_waiting : incoming state !! id = Some waiting_offer.
Proof. vm_cast_no_check (@eq_refl (option (Incoming (Link := unit))) (Some waiting_offer)). Qed.
End Offers.

Example admit_functional_witness :
  exists r' res, admit_offer Offers.state Offers.k2 (lit "b") 1 5 (Offers.conn 2 Offers.k2) 7 [[1; 1; 1; 1]; [2; 2; 2; 2]]
    = Some (r', res).
Proof.
  destruct (admit_functional Offers.state Offers.k2 (lit "b") 1 5 (Offers.conn 2 Offers.k2) 7
    [[1; 1; 1; 1]; [2; 2; 2; 2]]) as (r' & res & Ha & _).
  - apply NoDup_cons. split; [set_solver|apply NoDup_singleton].
  - apply Forall_cons. split; [by apply bytes_ok_check|]. apply Forall_singleton. by apply bytes_ok_check.
  - apply Nat.ltb_lt. by vm_compute.
  - by exists r', res.
Defined.

Example offers_are_answered_once_witness :
  exists e, snd (take_answerable (fst (take_answerable Offers.state Offers.id 1)) Offers.id 2) = Err e.
Proof.
  destruct (take_answerable Offers.state Offers.id 1) as [r' res] eqn:E.
  assert (Ht : take_answerable Offers.state Offers.id 1
    = (with_incoming (delete Offers.id) (forget_history Offers.state 1), Ok (Offers.waiting_offer, tt))).
  { apply take_answerable_ok. split_and!; [exact Offers.state_waiting|done|vm_compute; done|done]. }
  rewrite Ht in E. injection E as <- _.
  destruct (offers_are_answered_once _ _ _ _ _ _ [] 2 Ht (Forall_nil_2 _)) as (e & He & _). by exists e.
Defined.

(** accepting takes the offer and registers the transfer in two steps, and a
    roster change between them is missed: the transfer from a peer that has
    just been removed is registered and nothing closes it. *)
Theorem removed_sender_can_slip_into_receiving :
  exists (ops : Datatypes.list (op (Link := unit))) id peer conn, let r := run Registry_default ops in
    receiving r !! id = Some (peer, conn) /\ ~ current r peer.
Proof.
  exists (Offers.offer ++ [Take Offers.id 1; SetRoster []; StartReceiving Offers.id Offers.k2 (Offers.conn 1 Offers.k2)]),
    Offers.id, Offers.k2, (Offers.conn 1 Offers.k2).
  split; vm_decide.
Qed.

(** an id under which a file is being received is not avoided by [new_id],
    so a new offer can be listed under it. *)
Theorem new_offer_can_reuse_a_receiving_id :
  exists (ops : Datatypes.list (op (Link := unit))) id, let r := run Registry_default ops in
    is_Some (receiving r !! id) /\ is_Some (incoming r !! id).
Proof.
  exists (Offers.offer ++ [Take Offers.id 1; StartReceiving Offers.id Offers.k2 (Offers.conn 1 Offers.k2);
    Admit Offers.k3 (lit "b.txt") 1 (clamp_ttl 600) (Offers.conn 2 Offers.k3) 2 [Offers.draw]]), Offers.id.
  split; vm_decide.
Qed.
