(* ===== verification/Transfer.v ===== *)
(** * The two halves of a transfer ([daemon/src/files/transfer.rs])

    Each half is a relay between a local CLI and the stream to the other node.
    It is a state machine over what its [select!]s see; what a read, a write or a
    timer gives is the event's argument.  JSON is [serde_json]'s, so the control
    messages come with a codec whose only law is that it reads what it wrote. *)

From S2P Require Import Prelude External Proto Names Filename Utf8 Frame Peers Files.

Local Abbreviation list := Datatypes.list.

(** [Wire]. *)
Inductive Wire :=
  | WOffer (id name : rstr) (size ttl_secs : Z)
  | Queued
  | Accept
  | Reject (reason : option message)
  | Committed.

Class WireJson := {
  wire_json : Wire -> list Z;
  wire_parse : list Z -> option Wire;
  wire_parse_json : forall w, wire_parse (wire_json w) = Some w;
}.

Definition HANDSHAKE_TIMEOUT : Z := from_secs 20.
Definition LINGER : Z := from_secs 10.

Section Transfer.
Context `{!EndpointIds, !HexCrate, !WireJson} {Link : Type}.

Definition control (frame : Frame) : option Wire :=
  match frame with Control json => wire_parse json | _ => None end.
Definition control_frame (w : Wire) : Frame := Control (wire_json w).

(** ** Why a connection ended *)

(** What [close_reason] and [closed] report. *)
Inductive ConnectionError :=
  | ApplicationClosed (code : Z) (reason : list Z)
  | TimedOut
  | LocallyClosed
  | OtherError (shown : rstr).

(** [None]: still open after two seconds. *)
Definition closed_because (c : option ConnectionError) : rstr :=
  match c with
  | None => lit "the stream was reset"
  | Some (ApplicationClosed _ reason) => from_utf8_lossy reason
  | Some TimedOut => lit "the connection timed out"
  | Some LocallyClosed => lit "closed"
  | Some (OtherError shown) => shown
  end.

Definition closed_with (c : option ConnectionError) : option Z :=
  match c with
  | Some (ApplicationClosed code _) => if code <=? u32_max then Some code else None
  | _ => None
  end.

Definition why (peer_is_member : bool) (c : option ConnectionError) : rstr :=
  if negb peer_is_member then lit "removed from the network" else closed_because c.

(** What an event tells besides itself: how the connection stands and whether
    the peer is in the roster by then. *)
Record Env := { env_member : bool; env_closed : option ConnectionError }.
Definition env_why (e : Env) : rstr := why (env_member e) (env_closed e).

(** What the CLI is told. *)
Inductive Said :=
  | SResponse (r : Response)
  | SEvent (e : FileEvent)
  | SFrame (f : Frame)
  | SError (reason : rstr).

(** ** Sending *)

(** [deliver_offer], by how far the handshake got. *)
Inductive handshake :=
  | ConnectFailed (e : rstr)
  | ConnectTimedOut
  | OpenFailed (e : rstr)
  | OfferNotWritten (e : rstr)
  | AnswerTimedOut
  | StreamEnded (closed : option ConnectionError)
  | Answered (frame : Frame).

Definition unreachable (to e : rstr) : message := Fmt "could not reach {to}: {e}" [Text to; Text e].

(** The error also says whether the connection is closed, and with what. *)
Definition deliver_offer (to : rstr) (h : handshake) : result message () * option (Z * rstr) :=
  match h with
  | ConnectFailed e | OpenFailed e | OfferNotWritten e => (Err (unreachable to e), None)
  | ConnectTimedOut => (Err (unreachable to (lit "timed out")), None)
  | AnswerTimedOut => (Err (Fmt "{to} did not answer the offer" [Text to]), None)
  | StreamEnded closed => (Err (Fmt "{to} refused the offer: {}" [Text to; Text (closed_because closed)]), None)
  | Answered frame =>
      match control frame with
      | Some Queued => (Ok tt, None)
      | Some (Reject reason) =>
          (Err (Fmt "{to} refused the offer: {}"
             [Text to; match reason with Some r => r | None => Text (lit "no reason given") end]),
           Some (REJECTED, lit "refused"))
      | _ => (Err (Fmt "{to} answered the offer with something unexpected" [Text to]), None)
      end
  end.

Inductive phase := Waiting | Relaying | Confirming | Over.

#[global] Instance phase_eq_dec : EqDecision phase.
Proof. solve_decision. Defined.

(** The arguments of [Outcome::finish]: the state recorded, its detail, and what
    the connection is closed with. *)
Record outcome := {
  oc_state : OfferState;
  oc_detail : option rstr;
  oc_code : Z;
  oc_reason : rstr;
}.

Record Sender := {
  s_to : rstr;
  s_size : Z;
  s_phase : phase;
  s_sent : Z;
  s_link : list Frame;            (* written to the other daemon *)
  s_out : list Said;              (* said to the CLI *)
  s_calls : list (OfferState * option rstr);   (* its [set_state] calls *)
  s_outcome : option outcome;     (* [settled], and how *)
}.

(** [Outcome::finish]. *)
Definition finish (s : Sender) (o : outcome) (said : list Said) : Sender :=
  {| s_to := s_to s; s_size := s_size s; s_phase := Over; s_sent := s_sent s; s_link := s_link s;
     s_out := s_out s ++ said; s_calls := s_calls s ++ [(oc_state o, oc_detail o)]; s_outcome := Some o |}.

Definition failed (reason : rstr) : outcome :=
  {| oc_state := Failed; oc_detail := Some reason; oc_code := FAILED; oc_reason := reason |}.
Definition ended (state : OfferState) (code : Z) (reason : rstr) : outcome :=
  {| oc_state := state; oc_detail := None; oc_code := code; oc_reason := reason |}.

Definition cancelled : outcome := ended Cancelled CANCELLED (lit "the sender cancelled").
Definition expired : outcome := ended StExpired EXPIRED (lit "the offer expired").
Definition rejected : outcome := ended StRejected REJECTED (lit "rejected").

(** [send] once the offer was delivered and the guard is in place; [told] is
    whether the CLI could be told. *)
Definition sender_start (id to : rstr) (size ttl_secs : Z) (told : bool) : Sender :=
  let s := {| s_to := to; s_size := size; s_phase := Waiting; s_sent := 0; s_link := []; s_out := [];
              s_calls := []; s_outcome := None |} in
  if told then
    {| s_to := to; s_size := size; s_phase := Waiting; s_sent := 0; s_link := [];
       s_out := [SResponse (RFileOffered id to (clamp 1 MAX_FILE_TTL ttl_secs))]; s_calls := []; s_outcome := None |}
  else finish s cancelled [].

(** [lost]. *)
Definition lost (s : Sender) (env : Env) : Sender :=
  let reason := env_why env in
  finish s (failed reason) [SError (lit "the transfer to " ++ s_to s ++ lit " broke off: " ++ reason)].

(** Writing a frame on to the receiver. *)
Definition forwarded (s : Sender) (sent : Z) (f : Frame) (ph : phase) : Sender :=
  {| s_to := s_to s; s_size := s_size s; s_phase := ph; s_sent := sent; s_link := s_link s ++ [f];
     s_out := s_out s; s_calls := s_calls s; s_outcome := s_outcome s |}.

Definition counted (s : Sender) (sent : Z) : Sender :=
  {| s_to := s_to s; s_size := s_size s; s_phase := s_phase s; s_sent := sent; s_link := s_link s;
     s_out := s_out s; s_calls := s_calls s; s_outcome := s_outcome s |}.

Definition data_len (d : list Z) : Z := Z.of_nat (length d).

Inductive send_event :=
  | FromLink (r : result io_error Frame) (env : Env)                      (* [link.recv.next()] *)
  | FromCli (r : result io_error Frame) (write_ok : bool) (env : Env)     (* [cli.next()] *)
  | WindowClosed.                                                         (* [sleep_until] *)

(** The answer the offer got. *)
Definition answered (s : Sender) (r : result io_error Frame) (env : Env) : Sender :=
  match r ≫= (fun f => Ok (control f)) with
  | Ok (Some Accept) =>
      {| s_to := s_to s; s_size := s_size s; s_phase := Relaying; s_sent := 0; s_link := s_link s;
         s_out := s_out s ++ [SEvent Accepted]; s_calls := s_calls s ++ [(Transferring, None)];
         s_outcome := s_outcome s |}
  | Ok (Some (Reject _)) => finish s rejected [SEvent Rejected]
  | _ =>
      match closed_with (env_closed env) with
      | Some code =>
          if code =? EXPIRED then finish s expired [SEvent Expired]
          else if code =? REJECTED then finish s rejected [SEvent Rejected]
          else
            let reason := env_why env in
            finish s (failed reason) [SError (s_to s ++ lit " is no longer available: " ++ reason)]
      | None =>
          let reason := env_why env in
          finish s (failed reason) [SError (s_to s ++ lit " is no longer available: " ++ reason)]
      end
  end.

(** One frame from the CLI while relaying. *)
Definition relay_cli (s : Sender) (r : result io_error Frame) (write_ok : bool) (env : Env) : Sender :=
  match r with
  | Ok (Data data) =>
      let sent := s_sent s + data_len data in
      if s_size s <? sent then
        let reason := lit "the file grew while it was being sent" in
        finish (counted s sent) (failed reason) [SError reason]
      else if write_ok then forwarded s sent (Data data) Relaying
      else lost (counted s sent) env
  | Ok (Hash hash) =>
      if write_ok then forwarded s (s_sent s) (Hash hash) Relaying else lost s env
  | Ok End_ =>
      if negb (s_sent s =? s_size s) then
        let reason := lit "the file changed size while it was being sent" in
        finish s (failed reason) [SError reason]
      else if write_ok then forwarded s (s_sent s) End_ Confirming
      else lost s env
  | Ok (Error reason) =>
      let reason := lit "the sender could not read the file: " ++ reason in finish s (failed reason) []
  | Ok (Control _) =>
      let reason := lit "the sending CLI broke protocol" in finish s (failed reason) [SError reason]
  | Err _ => finish s cancelled []
  end.

(** The receiver speaking before the end. *)
Definition relay_link (s : Sender) (r : result io_error Frame) (env : Env) : Sender :=
  let reason := match r with Ok (Error reason) => reason | _ => env_why env end in
  finish s (failed reason) [SError (s_to s ++ lit " stopped the transfer: " ++ reason)].

(** The receiver's last word. *)
Definition confirmed (s : Sender) (r : result io_error Frame) (env : Env) : Sender :=
  match r with
  | Ok f =>
      match control f, f with
      | Some Committed, _ => finish s (ended Done DONE (lit "delivered")) [SEvent Delivered]
      | _, Error reason =>
          finish s (failed reason) [SError (s_to s ++ lit " did not keep the file: " ++ reason)]
      | _, _ =>
          let reason := env_why env in
          finish s (failed reason) [SError (s_to s ++ lit " did not confirm the file arrived: " ++ reason)]
      end
  | Err _ =>
      let reason := env_why env in
      finish s (failed reason) [SError (s_to s ++ lit " did not confirm the file arrived: " ++ reason)]
  end.

(** An event a phase does not wait for is not seen by it. *)
Definition send_step (s : Sender) (e : send_event) : Sender :=
  match s_phase s, e with
  | Waiting, FromLink r env => answered s r env
  | Waiting, FromCli _ _ _ => finish s cancelled []
  | Waiting, WindowClosed => finish s expired [SEvent Expired]
  | Relaying, FromCli r write_ok env => relay_cli s r write_ok env
  | Relaying, FromLink r env => relay_link s r env
  | Confirming, FromLink r env => confirmed s r env
  | _, _ => s
  end.

Definition send_run (s : Sender) (l : list send_event) : Sender := foldl send_step s l.

(** [Drop for Outcome]. *)
Definition outcome_drop (s : Sender) : Sender :=
  match s_outcome s with
  | Some _ => s
  | None => finish s (failed (lit "interrupted")) []
  end.

(** The calls, made on the registry. *)
Definition replay (r : Registry (Link := Link)) (id : rstr) (now : Z) (calls : list (OfferState * option rstr)) : Registry :=
  foldl (fun r '(state, detail) => set_state r id state detail now) r calls.

(** ** Receiving *)

Record Receiver := {
  r_from : rstr;
  r_size : Z;
  r_phase : phase;                 (* [Relaying], [Confirming] or [Over] *)
  r_received : Z;
  r_out : list Said;               (* said to the CLI *)
  r_link : list Frame;             (* written to the sender's daemon *)
  r_close : option (Z * rstr);     (* what the connection was closed with *)
}.

(** [accept] from the offer taken up to its loop: [closed] is whether the
    connection already was, [write_ok] whether the acceptance could be sent. *)
Definition accept_start (id from name : rstr) (size : Z) (closed write_ok : bool) : result Response Receiver :=
  let gone := RError (Fmt "{from} is no longer available" [Text from]) in
  if closed then Err gone
  else if negb write_ok then Err gone
  else Ok {| r_from := from; r_size := size; r_phase := Relaying; r_received := 0;
             r_out := [SResponse (RFileIncoming id from name size)]; r_link := [control_frame Accept]; r_close := None |}.

Definition r_finish (r : Receiver) (said : list Said) (link : list Frame) (close : option (Z * rstr)) : Receiver :=
  {| r_from := r_from r; r_size := r_size r; r_phase := Over; r_received := r_received r;
     r_out := r_out r ++ said; r_link := r_link r ++ link;
     r_close := match close with Some c => Some c | None => r_close r end |}.

Definition r_forwarded (r : Receiver) (received : Z) (f : Frame) (ph : phase) : Receiver :=
  {| r_from := r_from r; r_size := r_size r; r_phase := ph; r_received := received;
     r_out := r_out r ++ [SFrame f]; r_link := r_link r; r_close := r_close r |}.

Definition receiver_cancelled : Z * rstr := (CANCELLED, lit "the receiver cancelled").

Inductive receive_event :=
  | LinkSays (f : result io_error Frame) (write_ok : bool) (env : Env)    (* [write_ok]: to the CLI *)
  | CliSays (f : result io_error Frame).

Definition receive_link (r : Receiver) (next : result io_error Frame) (write_ok : bool) (env : Env) : Receiver :=
  match next with
  | Ok (Data data) =>
      let received := r_received r + data_len data in
      if r_size r <? received then
        let reason := lit "the sender sent more than it offered" in
        r_finish r [SError reason] [] (Some (FAILED, reason))
      else if write_ok then r_forwarded r received (Data data) Relaying
      else r_finish r [] [] (Some receiver_cancelled)
  | Ok (Hash hash) =>
      if write_ok then r_forwarded r (r_received r) (Hash hash) Relaying
      else r_finish r [] [] (Some receiver_cancelled)
  | Ok End_ =>
      if negb (r_received r =? r_size r) then
        let reason := lit "the transfer ended short of the offered size" in
        r_finish r [SError reason] [] (Some (FAILED, reason))
      else if write_ok then r_forwarded r (r_received r) End_ Confirming
      else r_finish r [] [] (Some receiver_cancelled)
  | Ok (Error reason) => r_finish r [SError (r_from r ++ lit " stopped the transfer: " ++ reason)] [] None
  | Ok (Control _) =>
      r_finish r [SError (r_from r ++ lit " broke protocol")] [] (Some (FAILED, lit "unexpected message mid-transfer"))
  | Err _ =>
      let reason := env_why env in
      let message :=
        if r_received r =? 0 then r_from r ++ lit " is no longer available: " ++ reason
        else r_from r ++ lit " went away mid-transfer: " ++ reason in
      r_finish r [SError message] [] None
  end.

(** The CLI speaking before the end: it is giving up. *)
Definition receive_cli (r : Receiver) (said : result io_error Frame) : Receiver :=
  let reason :=
    match said with
    | Ok (Error reason) => lit "the receiver could not save the file: " ++ reason
    | _ => lit "the receiver cancelled"
    end in
  r_finish r [] [Error reason] (Some (FAILED, reason)).

(** The CLI's last word. *)
Definition commit (r : Receiver) (said : result io_error Frame) : Receiver :=
  match said with
  | Ok End_ => r_finish r [] [control_frame Committed] None
  | Ok (Error reason) => r_finish r [] [Error reason] None
  | _ => r_finish r [] [] (Some receiver_cancelled)
  end.

Definition receive_step (r : Receiver) (e : receive_event) : Receiver :=
  match r_phase r, e with
  | Relaying, LinkSays f write_ok env => receive_link r f write_ok env
  | Relaying, CliSays f => receive_cli r f
  | Confirming, CliSays f => commit r f
  | _, _ => r
  end.

Definition receive_run (r : Receiver) (l : list receive_event) : Receiver := foldl receive_step r l.

(** [accept], from taking the offer to the transfer registered; [moved] is the
    registry as found when the lock is taken again, and a CLI that cannot be
    [told] ends it unregistered. *)
Definition accept (r : Registry (Link := Link)) (id : rstr) (now : Z) (closed write_ok told : bool)
    (moved : Registry (Link := Link) -> Registry (Link := Link))
  : Registry (Link := Link) * result (option Response) Receiver :=
  match take_answerable r id now with
  | (r', Err m) => (r', Err (Some (RError m)))
  | (r', Ok (offer, _)) =>
      match accept_start id (display r' (i_peer offer)) (i_name offer) (i_size offer) closed write_ok with
      | Err m => (moved r', Err (Some m))
      | Ok rcv =>
          let r := start_receiving (moved r') id (i_peer offer) (i_conn offer) in
          if told then (r, Ok rcv) else (stop_receiving r id, Err None)
      end
  end.

(** [reject]: the answer to the CLI, and what a task then tells the sender. *)
Definition reject (r : Registry (Link := Link)) (id : rstr) (now : Z)
  : Registry (Link := Link) * Response * option (Connection * Frame * (Z * rstr)) :=
  match take_answerable r id now with
  | (r', Err m) => (r', RError m, None)
  | (r', Ok (offer, _)) =>
      (r', RFileRejected id (i_name offer) (display r' (i_peer offer)),
       Some (i_conn offer, control_frame (Reject None), (REJECTED, lit "rejected")))
  end.

(** ** An offer arriving *)

(** How far reading the offer got. *)
Inductive opening :=
  | NoStream
  | NoFrame
  | First (r : result io_error Frame).

Inductive intake :=
  | Ignored
  | Closed (code : Z) (reason : rstr)
  | Refused (refusal : Frame) (reason : message)
  | Listed (id : rstr) (queued : Frame).

(** [receive_offer] up to the answer to the sender; one reading of the roster is
    made when the connection is accepted and one, [moved] later, when the offer
    is listed. *)
Definition receive_offer (windows : bool) (r : Registry (Link := Link)) (conn : Connection) (o : opening)
    (moved : Registry (Link := Link) -> Registry (Link := Link)) (now : Z) (draws : list (list Z))
  : option (Registry (Link := Link) * intake) :=
  let peer := remote_id conn in
  if negb (is_member r peer) then Some (r, Closed NOT_MEMBER (lit "not a member of this network"))
  else
    let unexpected := Some (moved r, Closed FAILED (lit "expected an offer")) in
    match o with
    | NoStream => Some (moved r, Ignored)
    | NoFrame | First (Err _) => unexpected
    | First (Ok f) =>
        match control f with
        | Some (WOffer _ name size ttl_secs) =>
            match check name (Filename.current windows) with
            | Err m => Some (moved r, Refused (control_frame (Reject (Some m))) m)
            | Ok _ =>
                '(r', res) ← admit_offer (moved r) peer name size (clamp_ttl ttl_secs) conn now draws;
                match res with
                | Ok id => Some (r', Listed id (control_frame Queued))
                | Err m => Some (r', Refused (control_frame (Reject (Some m))) m)
                end
            end
        | _ => unexpected
        end
    end.

(** Once the sender was told it is queued ([write_ok]): the streams are stored,
    and the task watches until [expires_at]; [None] ends it. *)
Definition queued (r : Registry (Link := Link)) (id : rstr) (link : Link) (write_ok : bool) : Registry (Link := Link) * option Z :=
  if negb write_ok then (remove_incoming r id, None) else attach_link r id link.

(** The two ways an unanswered offer ends. *)
Inductive lapse := Withdrawn | TimeUp.

Definition watch (r : Registry (Link := Link)) (id from : rstr) (conn : Connection) (l : lapse) (now : Z)
  : Registry (Link := Link) * option (Z * rstr) :=
  match l with
  | Withdrawn =>
      (fst (bury_incoming r id conn (from ++ lit " is no longer available (the offer was withdrawn)") now), None)
  | TimeUp =>
      let '(r', ours) := bury_incoming r id conn (lit "the offer from " ++ from ++ lit " expired") now in
      (r', if ours : bool then Some (EXPIRED, lit "the offer expired") else None)
  end.

(** ** An offer leaving *)

(** [send] up to the offer being listed. *)
Definition send_listed (windows : bool) (r : Registry (Link := Link)) (peer : EndpointId) (name : rstr)
    (size ttl_secs now : Z) (draws : list (list Z))
  : option (Registry (Link := Link) * result message (rstr * rstr * Wire)) :=
  let ttl := clamp_ttl ttl_secs in
  let to := display r peer in
  match check name (Filename.current windows) with
  | Err m => Some (r, Err m)
  | Ok _ =>
      if negb (is_member r peer) then Some (r, Err (Fmt "{to} is not a member of this network" [Text to]))
      else
        '(r', id) ← list_outgoing r peer to name size ttl now draws;
        Some (r', Ok (id, to, WOffer id name size (ttl / NANOS)))
  end.

(** ... and from the handshake's end: the offer is taken back out, or given its
    window and connection, which is closed when the peer has left meanwhile. *)
Definition send_delivered (r : Registry (Link := Link)) (id to : rstr) (peer : EndpointId) (conn : Connection)
    (h : handshake) (ttl_secs now : Z) : Registry (Link := Link) * option (result message ()) * option (Z * rstr) :=
  match deliver_offer to h with
  | (Err m, close) => (remove_outgoing r id, Some (Err m), close)
  | (Ok _, _) =>
      match offer_delivered r id (now + clamp_ttl ttl_secs) conn with
      | None => (r, None, None)
      | Some r' => (r', Some (Ok tt), if negb (is_member r' peer) then Some (NOT_MEMBER, lit "removed from the network") else None)
      end
  end.
End Transfer.
