(* ===== verification/TransferProps.v ===== *)
(** * Properties of the two halves of a transfer

    First each half alone, against whatever its CLI and the network do; then
    the two connected by a reliable ordered stream, in [Pair]. *)

From S2P Require Import Prelude External Proto Names Net Filename Utf8 Frame Peers Files Transfer.

Local Abbreviation list := Datatypes.list.

Section TransferProps.
Context `{!EndpointIds, !HexCrate, !WireJson} {Link : Type}.

(** ** Frames and their bytes *)

Definition frame_data (f : Frame) : list Z := match f with Data d => d | _ => [] end.
Definition frames_data (l : list Frame) : list Z := l ≫= frame_data.
Definition is_payload (f : Frame) : Prop :=
  match f with Data _ | Hash _ | End_ => True | _ => False end.

(** What the sending CLI wrote, and what the receiving CLI was given. *)
Definition cli_frames (l : list send_event) : list Frame :=
  omap (fun e => match e with FromCli (Ok f) _ _ => Some f | _ => None end) l.
Definition given (l : list Said) : list Frame :=
  omap (fun x => match x with SFrame f => Some f | _ => None end) l.

Lemma frames_data_app l1 l2 : frames_data (l1 ++ l2) = frames_data l1 ++ frames_data l2.
Proof. apply bind_app. Qed.

Lemma given_app l1 l2 : given (l1 ++ l2) = given l1 ++ given l2.
Proof. apply omap_app. Qed.

Lemma cli_frames_app l1 l2 : cli_frames (l1 ++ l2) = cli_frames l1 ++ cli_frames l2.
Proof. apply omap_app. Qed.

Lemma data_len_app a b : data_len (a ++ b) = data_len a + data_len b.
Proof. unfold data_len. rewrite length_app. lia. Qed.

(** ** The sending half *)

(** What holds of a sender whatever it has seen. *)
Record sender_ok (s : Sender) : Prop := {
  so_payload : Forall is_payload (s_link s);
  so_total : data_len (frames_data (s_link s)) <= s_size s;
  so_sent : s_phase s = Relaying -> s_sent s = data_len (frames_data (s_link s));
  so_open : s_phase s = Waiting \/ s_phase s = Relaying -> ~ End_ ∈ s_link s;
  so_end : End_ ∈ s_link s -> exists l, s_link s = l ++ [End_] /\ ~ End_ ∈ l
             /\ data_len (frames_data (s_link s)) = s_size s;
  so_wait : s_phase s = Waiting -> s_link s = [];
  so_fresh : s_phase s = Waiting -> s_calls s = [];
  so_confirm : s_phase s = Confirming -> End_ ∈ s_link s;
  so_outcome : (s_phase s = Over <-> is_Some (s_outcome s));
  so_calls : match s_outcome s with
             | None => s_calls s = [] \/ s_calls s = [(Transferring, None)]
             | Some o => is_finished (oc_state o) = true
                 /\ (exists l, s_calls s = l ++ [(oc_state o, oc_detail o)]
                       /\ (l = [] \/ l = [(Transferring, None)]))
             end;
  so_done : SEvent Delivered ∈ s_out s <-> oc_state <$> s_outcome s = Some Done;
  so_ended : oc_state <$> s_outcome s = Some Done -> End_ ∈ s_link s;
}.

Lemma sender_finish s o said :
  sender_ok s -> s_phase s <> Over -> is_finished (oc_state o) = true ->
  (oc_state o = Done <-> SEvent Delivered ∈ said) -> (oc_state o = Done -> End_ ∈ s_link s) ->
  sender_ok (finish s o said).
Proof.
  intros [S1 S2 S3 S4 S5 S6 S12 S7 S8 S9 S10 S11] Hph Hf Hd He.
  assert (Hn : s_outcome s = None).
  { destruct (s_outcome s); [|done]. destruct Hph. apply S8. eauto. }
  rewrite Hn in S9, S10. split; cbn [finish s_link s_size s_phase s_sent s_out s_outcome s_calls]; try done.
  - by intros [?|?].
  - split; [done|]. exists (s_calls s). split; [done|]. tauto.
  - rewrite elem_of_app, S10, <- Hd. cbn. split; [|intros [= ->]; by right].
    by intros [?| ->].
  - intros [= ?]. by apply He.
Qed.

Lemma sender_forward s sent f ph :
  sender_ok s -> s_phase s = Relaying -> is_payload f ->
  sent = data_len (frames_data (s_link s ++ [f])) -> sent <= s_size s ->
  (f = End_ /\ ph = Confirming /\ sent = s_size s) \/ (f <> End_ /\ ph = Relaying) ->
  sender_ok (forwarded s sent f ph).
Proof.
  intros [S1 S2 S3 S4 S5 S6 S12 S7 S8 S9 S10 S11] Hph Hp -> Hle Hcase.
  assert (Hopen : ~ End_ ∈ s_link s) by auto.
  assert (Hn : s_outcome s = None).
  { destruct (s_outcome s) eqn:E; [|done]. destruct S8 as [_ S8]. rewrite S8 in Hph; [done|eauto]. }
  rewrite Hn in S9, S10, S11.
  split; cbn [forwarded s_link s_size s_phase s_sent s_out s_outcome s_calls]; rewrite ?Hn; auto.
  - apply Forall_app; auto.
  - rewrite elem_of_app, list_elem_of_singleton. intros Hq [?|<-]; [done|].
    destruct Hcase as [(_ & -> & _)|[? _]]; [|done]. by destruct Hq.
  - rewrite elem_of_app, list_elem_of_singleton. intros [?|<-]; [done|].
    exists (s_link s). destruct Hcase as [(_ & _ & ?)|[? _]]; done.
  - intros ->. by destruct Hcase as [(_ & ? & _)|[_ ?]].
  - intros ->. by destruct Hcase as [(_ & ? & _)|[_ ?]].
  - intros ->. destruct Hcase as [(-> & _)|[_ ?]]; [|done]. apply elem_of_app. right. by apply list_elem_of_singleton.
  - split; [|by intros [? ?]]. intros ->. by destruct Hcase as [(_ & ? & _)|[_ ?]].
  - done.
Qed.

(** Failing after the byte count was updated. *)
Lemma sender_counted s sent o said :
  sender_ok s -> s_phase s = Relaying ->
  is_finished (oc_state o) = true -> oc_state o <> Done -> ~ SEvent Delivered ∈ said ->
  sender_ok (finish (counted s sent) o said).
Proof.
  intros Hs Hph Hf Hd Hn.
  pose proof (sender_finish s o said Hs ltac:(by rewrite Hph) Hf ltac:(tauto) ltac:(tauto)) as [].
  by split.
Qed.

Ltac not_delivered := rewrite ?elem_of_cons, ?elem_of_nil; intuition discriminate.
Ltac ends := apply sender_finish; [assumption|congruence|reflexivity|split; [discriminate|not_delivered]|discriminate].

Lemma sender_lost s env : sender_ok s -> s_phase s <> Over -> sender_ok (lost s env).
Proof. intros Hs Hph. unfold lost. ends. Qed.

Lemma sender_answered s r env : sender_ok s -> s_phase s = Waiting -> sender_ok (answered s r env).
Proof.
  intros Hs Hph. unfold answered. cbv zeta.
  assert (Hacc : sender_ok {| s_to := s_to s; s_size := s_size s; s_phase := Relaying; s_sent := 0; s_link := s_link s;
         s_out := s_out s ++ [SEvent Accepted]; s_calls := s_calls s ++ [(Transferring, None)];
         s_outcome := s_outcome s |}).
  { assert (Hn : s_outcome s = None).
    { destruct Hs as [? ? ? ? ? ? ? ? S8 ? ? ?]. destruct (s_outcome s); [|done]. destruct S8 as [_ S8]. rewrite S8 in Hph; [done|eauto]. }
    rewrite Hn. destruct Hs as [S1 S2 S3 S4 S5 S6 S12 S7 S8 S9 S10 S11]. rewrite Hn in *. rewrite (S6 Hph) in *.
    rewrite (S12 Hph).
    split; cbn [s_link s_size s_phase s_sent s_out s_outcome s_calls]; try done.
    - intros _ He. by apply elem_of_nil in He.
    - by right.
    - rewrite elem_of_app, S10. split; [|done]. intros [?|He]; [done|]. by apply list_elem_of_singleton in He. }
  destruct r as [f|]; cbn [mbind result_bind].
  - destruct (control f) as [[]|]; [| |done|ends| |]; destruct (closed_with _) as [c|]; try ends;
      destruct (c =? EXPIRED); try ends; destruct (c =? REJECTED); ends.
  - destruct (closed_with _) as [c|]; try ends; destruct (c =? EXPIRED); try ends; destruct (c =? REJECTED); ends.
Qed.

Lemma frames_data_snoc l f : data_len (frames_data (l ++ [f])) = data_len (frames_data l) + data_len (frame_data f).
Proof. rewrite frames_data_app, data_len_app. unfold frames_data at 2. simpl. by rewrite app_nil_r. Qed.

Lemma frames_data_snoc_empty l f : frame_data f = [] -> frames_data (l ++ [f]) = frames_data l.
Proof. intros Hf. rewrite frames_data_app. unfold frames_data at 2. simpl. by rewrite Hf, !app_nil_r. Qed.

Lemma sender_relay_cli s r w env : sender_ok s -> s_phase s = Relaying -> sender_ok (relay_cli s r w env).
Proof.
  intros Hs Hph. pose proof (so_sent s Hs Hph) as Hsent. pose proof (so_total s Hs) as Htot.
  assert (Hover : s_phase s <> Over) by congruence.
  destruct r as [[d|h| |j|e]|e]; cbn [relay_cli]; cbv zeta; try ends.
  - destruct (Z.ltb_spec (s_size s) (s_sent s + data_len d));
      [|destruct w]; [apply sender_counted; done || not_delivered| |apply sender_counted; done || not_delivered].
    apply sender_forward; rewrite ?frames_data_snoc, ?Hsent; try done; [by rewrite <- Hsent|auto].
  - destruct w; [|by apply sender_lost].
    apply sender_forward; rewrite ?frames_data_snoc_empty, ?Hsent by done; try done; auto.
  - destruct (Z.eqb_spec (s_sent s) (s_size s)); cbn [negb]; [|ends].
    destruct w; [|by apply sender_lost].
    apply sender_forward; rewrite ?frames_data_snoc_empty, ?Hsent by done; try done.
    left. by rewrite <- Hsent.
Qed.

Lemma sender_relay_link s r env : sender_ok s -> s_phase s = Relaying -> sender_ok (relay_link s r env).
Proof. intros Hs Hph. unfold relay_link. cbv zeta. ends. Qed.

Lemma sender_confirmed s r env : sender_ok s -> s_phase s = Confirming -> sender_ok (confirmed s r env).
Proof.
  intros Hs Hph. pose proof (so_confirm s Hs Hph) as He. unfold confirmed. cbv zeta.
  destruct r as [f|]; [|ends]. destruct (control f) as [[]|]; destruct f; try ends.
  all: apply sender_finish; [done|congruence|done|split; [intros _; by left|done]|done].
Qed.

Lemma sender_step s e : sender_ok s -> sender_ok (send_step s e).
Proof.
  intros Hs. unfold send_step.
  destruct (s_phase s) eqn:Hph, e; try done; try ends;
    auto using sender_answered, sender_relay_cli, sender_relay_link, sender_confirmed.
Qed.
Lemma sender_start_ok id to size ttl told : 0 <= size -> sender_ok (sender_start id to size ttl told).
Proof.
  intros Hsz.
  set (s := {| s_to := to; s_size := size; s_phase := Waiting; s_sent := 0; s_link := [];
    s_out := if told then [SResponse (RFileOffered id to (clamp 1 MAX_FILE_TTL ttl))] else [];
    s_calls := []; s_outcome := None |}).
  assert (Hs : sender_ok s).
  { split; cbn [s s_link s_size s_phase s_sent s_out s_outcome s_calls]; try done; auto.
    - intros _ He. by apply elem_of_nil in He.
    - intros He. by apply elem_of_nil in He.
    - split; [|done]. destruct told; intros He; [by apply list_elem_of_singleton in He|by apply elem_of_nil in He]. }
  destruct told; [exact Hs|]. unfold sender_start.
  apply (sender_finish s); [done|done|done|split; [done|not_delivered]|done].
Qed.

Lemma send_run_ok s l : sender_ok s -> sender_ok (send_run s l).
Proof. revert s; induction l as [|e l IH]; intros s Hs; [done|]. apply IH, sender_step, Hs. Qed.

Lemma send_run_snoc s l e : send_run s (l ++ [e]) = send_step (send_run s l) e.
Proof. apply foldl_snoc. Qed.

Lemma send_step_over s e : s_phase s = Over -> send_step s e = s.
Proof. intros Hs. unfold send_step. by rewrite Hs. Qed.

Lemma finish_link s o said : s_link (finish s o said) = s_link s.
Proof. done. Qed.

(** What one step writes: the CLI's frame while relaying, or nothing. *)
Lemma send_step_link s e :
  s_link (send_step s e) = s_link s
  \/ (exists f w env, s_phase s = Relaying /\ e = FromCli (Ok f) w env /\ s_link (send_step s e) = s_link s ++ [f]).
Proof.
  unfold send_step. destruct (s_phase s) eqn:Hph, e as [r env|r w env|]; auto.
  - unfold answered. cbv zeta. left. repeat case_match; done.
  - destruct r as [[]|]; cbn [relay_cli]; cbv zeta; unfold lost; repeat case_match; auto.
    all: right; eexists _, _, _; split_and!; done.
  - unfold confirmed. cbv zeta. left. repeat case_match; done.
Qed.

(** While relaying, every frame the CLI sent and the loop saw was written on. *)
Lemma send_step_relaying s e :
  s_phase (send_step s e) = Relaying ->
  (s_phase s = Waiting /\ s_link (send_step s e) = s_link s /\ cli_frames [e] = [])
  \/ (s_phase s = Relaying /\ s_link (send_step s e) = s_link s ++ cli_frames [e]).
Proof.
  unfold send_step. destruct (s_phase s) eqn:Hph, e as [r env|r w env|]; try (by rewrite Hph); try done; auto.
  - left. split_and!; [done|unfold answered; cbv zeta; repeat case_match; done|done].
  - right. split; [done|]. revert H2. destruct r as [[]|]; cbn [relay_cli]; cbv zeta; unfold lost; repeat case_match; done.
  - intros _. right. split; [done|]. cbn. by rewrite app_nil_r.
  - unfold confirmed. cbv zeta. repeat case_match; done.
Qed.
Lemma send_step_waiting s e : s_phase (send_step s e) <> Waiting.
Proof.
  unfold send_step. destruct (s_phase s) eqn:Hph, e as [r env|r w env|]; try congruence; try done.
  - unfold answered. cbv zeta. repeat case_match; done.
  - destruct r as [[]|]; cbn [relay_cli]; cbv zeta; unfold lost; repeat case_match; done.
  - unfold confirmed. cbv zeta. repeat case_match; done.
Qed.

(** Only the receiver's word makes it done. *)
Lemma send_step_done s e :
  oc_state <$> s_outcome (send_step s e) = Some Done ->
  oc_state <$> s_outcome s = Some Done
  \/ exists f env, e = FromLink (Ok f) env /\ control f = Some Committed.
Proof.
  unfold send_step. destruct (s_phase s) eqn:Hph, e as [r env|r w env|]; auto; try discriminate.
  - unfold answered. cbv zeta. repeat case_match; cbn; auto; discriminate.
  - destruct r as [[]|]; cbn [relay_cli]; cbv zeta; unfold lost; repeat case_match; cbn; auto; discriminate.
  - unfold confirmed. cbv zeta. destruct r as [f|]; [|discriminate].
    destruct (control f) as [[]|] eqn:E; try (destruct f; discriminate). intros _. right. eauto.
Qed.

(** ** The receiving half *)

Record receiver_ok (r : Receiver) : Prop := {
  ro_payload : Forall is_payload (given (r_out r));
  ro_total : data_len (frames_data (given (r_out r))) <= r_size r;
  ro_link : Forall (fun f => f = control_frame Accept \/ f = control_frame Committed \/ exists e, f = Error e) (r_link r);
  ro_relaying : r_phase r = Relaying ->
    r_received r = data_len (frames_data (given (r_out r))) /\ ~ End_ ∈ given (r_out r)
    /\ r_link r = [control_frame Accept];
  ro_confirming : r_phase r = Confirming \/ control_frame Committed ∈ r_link r ->
    End_ ∈ given (r_out r) /\ data_len (frames_data (given (r_out r))) = r_size r;
  ro_quiet : r_phase r = Confirming -> r_link r = [control_frame Accept];
}.

Lemma committed_not_accept : control_frame Committed <> control_frame Accept.
Proof.
  unfold control_frame. intros [= Heq]. apply (f_equal wire_parse) in Heq.
  by rewrite !wire_parse_json in Heq.
Qed.

Lemma control_committed r f :
  receiver_ok r -> f ∈ r_link r -> control f = Some Committed -> control_frame Committed ∈ r_link r.
Proof.
  intros Hr Hf Hc. pose proof (ro_link r Hr) as Hl. rewrite Forall_forall in Hl.
  destruct (Hl f Hf) as [->|[->|[e ->]]]; [|done|done].
  unfold control, control_frame in Hc. by rewrite wire_parse_json in Hc.
Qed.

Lemma not_committed_alone : ~ control_frame Committed ∈ [control_frame Accept].
Proof. rewrite list_elem_of_singleton. apply committed_not_accept. Qed.

Lemma given_said l said : (forall f, ~ SFrame f ∈ said) -> given (l ++ said) = given l.
Proof.
  intros Hn. rewrite given_app. replace (given said) with (@nil Frame); [by rewrite app_nil_r|].
  induction said as [|x said IH]; [done|]. destruct x; cbn; try (apply IH; intros f Hf; apply (Hn f); by right).
  exfalso. apply (Hn f). by left.
Qed.

(** Ending without a commitment. *)
Lemma receiver_finish r said link close :
  receiver_ok r -> r_phase r = Relaying \/ r_phase r = Confirming -> (forall f, ~ SFrame f ∈ said) ->
  Forall (fun f => exists e, f = Error e) link ->
  receiver_ok (r_finish r said link close).
Proof.
  intros [R1 R2 R3 R4 R5 R6] Hph Hs Hl.
  assert (Hacc : r_link r = [control_frame Accept]).
  { destruct Hph as [Hph|Hph]; [by apply R4|by apply R6]. }
  split; cbn [r_finish r_out r_link r_phase r_size r_received]; rewrite ?given_said by done; try done.
  - apply Forall_app. split; [done|]. eapply Forall_impl; [exact Hl|]. auto.
  - rewrite Hacc. rewrite elem_of_app. intros [?|[Hc|Hc]]; [done|by apply not_committed_alone in Hc|].
    rewrite Forall_forall in Hl. by destruct (Hl _ Hc).
Qed.

Lemma receiver_forward r received f ph :
  receiver_ok r -> r_phase r = Relaying -> is_payload f ->
  received = data_len (frames_data (given (r_out r) ++ [f])) -> received <= r_size r ->
  (f = End_ /\ ph = Confirming /\ received = r_size r) \/ (f <> End_ /\ ph = Relaying) ->
  receiver_ok (r_forwarded r received f ph).
Proof.
  intros [R1 R2 R3 R4 R5 R6] Hph Hp -> Hle Hcase. destruct (R4 Hph) as (_ & Hopen & Hacc).
  split; cbn [r_forwarded r_out r_link r_phase r_size r_received]; rewrite ?given_app; cbn [given omap list_omap]; auto.
  - apply Forall_app; auto.
  - intros Hq. split_and!; [done| |done]. rewrite elem_of_app, list_elem_of_singleton. intros [?|<-]; [done|].
    destruct Hcase as [(_ & -> & _)|[? _]]; done.
  - intros [Hq|Hc]; [|rewrite Hacc in Hc; by apply not_committed_alone in Hc].
    destruct Hcase as [(-> & _ & ?)|[_ ?]]; [|congruence]. split; [|done].
    apply elem_of_app. right. by apply list_elem_of_singleton.
Qed.

Ltac no_frames := intros ?; rewrite ?elem_of_cons, ?elem_of_nil; intuition discriminate.
Ltac r_ends := apply receiver_finish; [assumption|auto|no_frames|try by constructor].

Lemma receiver_step r e : receiver_ok r -> receiver_ok (receive_step r e).
Proof.
  intros Hr. unfold receive_step. destruct (r_phase r) eqn:Hph, e as [f w env|f]; try done.
  - destruct (ro_relaying r Hr Hph) as (Hrec & _). pose proof (ro_total r Hr) as Htot.
    destruct f as [[d|h| |j|e]|e]; cbn [receive_link]; cbv zeta; try r_ends.
    + destruct (Z.ltb_spec (r_size r) (r_received r + data_len d)); [r_ends|]. destruct w; [|r_ends].
      apply receiver_forward; rewrite ?frames_data_snoc, ?Hrec; try done; [by rewrite <- Hrec|auto].
    + destruct w; [|r_ends].
      apply receiver_forward; rewrite ?frames_data_snoc_empty, ?Hrec by done; try done; auto.
    + destruct (Z.eqb_spec (r_received r) (r_size r)); cbn [negb]; [|r_ends]. destruct w; [|r_ends].
      apply receiver_forward; rewrite ?frames_data_snoc_empty, ?Hrec by done; try done. left. by rewrite <- Hrec.
  - unfold receive_cli. cbv zeta. r_ends. apply Forall_singleton. eauto.
  - destruct f as [[d|h| |j|e]|e]; cbn [commit];
      [r_ends|r_ends| |r_ends|r_ends; apply Forall_singleton; eauto|r_ends].
    pose proof (ro_confirming r Hr (or_introl Hph)) as Hc. pose proof (ro_quiet r Hr Hph) as Hq.
    destruct Hr as [R1 R2 R3 R4 R5 R6].
    split; cbn [r_finish r_out r_link r_phase r_size r_received]; rewrite ?app_nil_r; try done.
    rewrite Hq. apply Forall_cons. split; [auto|]. apply Forall_singleton. auto.
Qed.

(** The commitment is made on the CLI's word. *)
Lemma receive_step_commits r e :
  receiver_ok r -> control_frame Committed ∈ r_link (receive_step r e) ->
  control_frame Committed ∈ r_link r \/ e = CliSays (Ok End_).
Proof.
  intros Hr. unfold receive_step. destruct (r_phase r) eqn:Hph, e as [f w env|f]; auto.
  - destruct f as [[d|h| |j|e]|e]; cbn [receive_link]; cbv zeta; repeat case_match; cbn; rewrite ?app_nil_r; auto.
  - cbn. rewrite elem_of_app, list_elem_of_singleton. intros [?|?]; [auto|done].
  - destruct f as [[d|h| |j|e]|e]; cbn; rewrite ?app_nil_r; auto.
    rewrite elem_of_app, list_elem_of_singleton. intros [?|?]; [auto|done].
Qed.

(** What a step gives the CLI is the frame just read, or nothing. *)
Lemma receive_step_given r e :
  given (r_out (receive_step r e)) = given (r_out r)
  \/ exists f w env, r_phase r = Relaying /\ e = LinkSays (Ok f) w env
       /\ given (r_out (receive_step r e)) = given (r_out r) ++ [f].
Proof.
  unfold receive_step. destruct (r_phase r) eqn:Hph, e as [f w env|f]; auto.
  - destruct f as [[d|h| |j|e]|e]; cbn [receive_link]; cbv zeta; repeat case_match; cbn [r_finish r_forwarded r_out];
      rewrite given_app; cbn [given omap list_omap]; rewrite ?app_nil_r; auto.
    all: right; eexists _, _, _; split_and!; done.
  - unfold receive_cli. cbn. rewrite app_nil_r. auto.
  - destruct f as [[d|h| |j|e]|e]; cbn; rewrite ?app_nil_r; auto.
Qed.

Lemma receive_step_relaying r e :
  r_phase (receive_step r e) = Relaying -> r_phase r = Relaying
  /\ exists f w env, e = LinkSays (Ok f) w env /\ given (r_out (receive_step r e)) = given (r_out r) ++ [f].
Proof.
  unfold receive_step. destruct (r_phase r) eqn:Hph, e as [f w env|f]; try (by rewrite ?Hph); try done.
  - destruct f as [[d|h| |j|e]|e]; cbn [receive_link]; cbv zeta; repeat case_match; try done; intros _;
      (split; [done|]); eexists _, _, _; (split; [done|]); cbn [r_forwarded r_out]; by rewrite given_app.
  - destruct f as [[d|h| |j|e]|e]; done.
Qed.
(** ** Both halves and the stream between them

    Each side reads what the other wrote, in order, and may find it broken off at
    any point. *)

Record Pair := {
  snd_ : Sender;
  rcv_ : Receiver;
  snd_read : nat;        (* frames of the receiver's the sender has read *)
  rcv_read : nat;        (* frames of the sender's the receiver has read *)
}.

Inductive pair_event :=
  | SCli (r : result io_error Frame) (write_ok : bool) (env : Env)
  | SWindow
  | SNext (env : Env)
  | SLost (e : io_error) (env : Env)
  | RNext (write_ok : bool) (env : Env)
  | RLost (e : io_error) (env : Env)
  | RCli (f : result io_error Frame).

Definition pair_step (p : Pair) (e : pair_event) : Pair :=
  let sends ev n := {| snd_ := send_step (snd_ p) ev; rcv_ := rcv_ p; snd_read := n; rcv_read := rcv_read p |} in
  let receives ev n := {| snd_ := snd_ p; rcv_ := receive_step (rcv_ p) ev; snd_read := snd_read p; rcv_read := n |} in
  match e with
  | SCli r w env => sends (FromCli r w env) (snd_read p)
  | SWindow => sends WindowClosed (snd_read p)
  | SNext env =>
      match r_link (rcv_ p) !! snd_read p with
      | Some f => sends (FromLink (Ok f) env) (S (snd_read p))
      | None => p
      end
  | SLost e env => sends (FromLink (Err e) env) (snd_read p)
  | RNext w env =>
      match r_phase (rcv_ p), s_link (snd_ p) !! rcv_read p with
      | Relaying, Some f => receives (LinkSays (Ok f) w env) (S (rcv_read p))
      | _, _ => p
      end
  | RLost e env => receives (LinkSays (Err e) true env) (rcv_read p)
  | RCli f => receives (CliSays f) (rcv_read p)
  end.

Definition pair_run (p : Pair) (l : list pair_event) : Pair := foldl pair_step p l.

(** What the sending CLI wrote. *)
Definition sent_by_cli (l : list pair_event) : list Frame :=
  omap (fun e => match e with SCli (Ok f) _ _ => Some f | _ => None end) l.

Record pair_ok (p : Pair) (l : list pair_event) : Prop := {
  po_sender : sender_ok (snd_ p);
  po_receiver : receiver_ok (rcv_ p);
  po_relaying : r_phase (rcv_ p) = Relaying ->
    given (r_out (rcv_ p)) = take (rcv_read p) (s_link (snd_ p)) /\ (rcv_read p <= length (s_link (snd_ p)))%nat;
  po_prefix : given (r_out (rcv_ p)) `prefix_of` s_link (snd_ p);
  po_done : oc_state <$> s_outcome (snd_ p) = Some Done -> control_frame Committed ∈ r_link (rcv_ p);
  po_told : control_frame Committed ∈ r_link (rcv_ p) -> RCli (Ok End_) ∈ l;
  po_cli : s_link (snd_ p) `prefix_of` sent_by_cli l;
  po_cli_waiting : s_phase (snd_ p) = Waiting -> sent_by_cli l = [];
  po_cli_relaying : s_phase (snd_ p) = Relaying -> s_link (snd_ p) = sent_by_cli l;
}.

Lemma sent_by_cli_snoc l e : sent_by_cli (l ++ [e]) = sent_by_cli l ++ sent_by_cli [e].
Proof. apply omap_app. Qed.

(** A step of the sender alone: [ev] is what it sees of [e]. *)
Lemma pair_sends p l e ev n :
  pair_ok p l -> cli_frames [ev] = sent_by_cli [e] ->
  (forall f env, ev = FromLink (Ok f) env -> f ∈ r_link (rcv_ p)) ->
  pair_ok {| snd_ := send_step (snd_ p) ev; rcv_ := rcv_ p; snd_read := n; rcv_read := rcv_read p |} (l ++ [e]).
Proof.
  intros [P1 P2 P3 P4 P5 P6 P7 P8 P9] Hcli Hread.
  assert (Hpre : s_link (snd_ p) `prefix_of` s_link (send_step (snd_ p) ev)).
  { destruct (send_step_link (snd_ p) ev) as [->|(f & w & env & _ & _ & ->)]; [done|by apply prefix_app_r]. }
  split; cbn [snd_ rcv_ snd_read rcv_read].
  - by apply sender_step.
  - done.
  - intros Hr. destruct (P3 Hr) as [-> Hle]. destruct Hpre as [x ->].
    split; [by rewrite take_app_le|rewrite length_app; lia].
  - by etransitivity.
  - intros Hd. apply send_step_done in Hd as [?|(f & env & -> & Hc)]; [auto|].
    eapply control_committed; [done|by eapply Hread|done].
  - intros Hc. apply elem_of_app. left. auto.
  - rewrite sent_by_cli_snoc, <- Hcli.
    destruct (send_step_link (snd_ p) ev) as [->|(f & w & env & Hph & -> & ->)]; [by apply prefix_app_r|].
    by rewrite (P9 Hph).
  - intros Hw. by apply send_step_waiting in Hw.
  - rewrite sent_by_cli_snoc, <- Hcli. intros Hr. apply send_step_relaying in Hr as [(Hw & -> & ->)|[Hph ->]].
    + rewrite (P8 Hw), (so_wait _ P1 Hw). done.
    + by rewrite (P9 Hph).
Qed.

(** A step of the receiver alone. *)
Lemma pair_receives p l e ev n :
  pair_ok p l -> sent_by_cli [e] = [] -> (ev = CliSays (Ok End_) -> e = RCli (Ok End_)) ->
  (forall f w env, ev = LinkSays (Ok f) w env -> s_link (snd_ p) !! rcv_read p = Some f /\ n = S (rcv_read p)) ->
  pair_ok {| snd_ := snd_ p; rcv_ := receive_step (rcv_ p) ev; snd_read := snd_read p; rcv_read := n |} (l ++ [e]).
Proof.
  intros [P1 P2 P3 P4 P5 P6 P7 P8 P9] Hcli Hend Hread.
  split; cbn [snd_ rcv_ snd_read rcv_read]; rewrite ?sent_by_cli_snoc, ?Hcli, ?app_nil_r; auto.
  - by apply receiver_step.
  - intros Hr. apply receive_step_relaying in Hr as [Hph (f & w & env & -> & ->)].
    destruct (P3 Hph) as [-> Hle], (Hread f w env eq_refl) as [Hl ->].
    split; [by rewrite (take_S_r _ _ _ Hl)|]. by apply lookup_lt_Some in Hl.
  - destruct (receive_step_given (rcv_ p) ev) as [->|(f & w & env & Hph & -> & ->)]; [done|].
    destruct (P3 Hph) as [-> Hle], (Hread f w env eq_refl) as [Hl ->].
    rewrite <- (take_S_r _ _ _ Hl). apply prefix_take.
  - intros Hd. specialize (P5 Hd). clear -P5 P2.
    unfold receive_step. destruct (r_phase (rcv_ p)) eqn:Hph, ev as [f w env|f]; try done.
    + destruct (ro_relaying _ P2 Hph) as (_ & _ & Hq). rewrite Hq in P5. by apply not_committed_alone in P5.
    + destruct (ro_relaying _ P2 Hph) as (_ & _ & Hq). rewrite Hq in P5. by apply not_committed_alone in P5.
    + rewrite (ro_quiet _ P2 Hph) in P5. by apply not_committed_alone in P5.
  - intros Hc. apply elem_of_app. apply receive_step_commits in Hc as [?| ->]; [auto| |done].
    right. apply list_elem_of_singleton. symmetry. auto.
Qed.

Lemma pair_still p l e : pair_ok p l -> sent_by_cli [e] = [] -> pair_ok p (l ++ [e]).
Proof.
  intros [P1 P2 P3 P4 P5 P6 P7 P8 P9] Hcli. split; rewrite ?sent_by_cli_snoc, ?Hcli, ?app_nil_r; auto.
  intros Hc. apply elem_of_app. auto.
Qed.

Lemma pair_step_ok p l e : pair_ok p l -> pair_ok (pair_step p e) (l ++ [e]).
Proof.
  intros Hp. destruct e as [r w env| |env|e env|w env|e w env|f]; cbn [pair_step]; cbv zeta.
  - by apply pair_sends.
  - by apply pair_sends.
  - destruct (r_link (rcv_ p) !! snd_read p) as [f|] eqn:E; [|by apply pair_still].
    apply pair_sends; [done|done|]. intros f' env' [= -> ->]. by eapply list_elem_of_lookup_2.
  - apply pair_sends; [done|done|discriminate].
  - destruct (r_phase (rcv_ p)); try by apply pair_still.
    destruct (s_link (snd_ p) !! rcv_read p) as [f|] eqn:E; [|by apply pair_still].
    apply pair_receives; [done|done|discriminate|]. by intros f' w' env' [= -> -> ->].
  - apply pair_receives; [done|done|discriminate|discriminate].
  - apply pair_receives; [done|done|by intros [= ->]|discriminate].
Qed.

Lemma pair_run_ok p l0 l : pair_ok p l0 -> pair_ok (pair_run p l) (l0 ++ l).
Proof.
  revert p l0; induction l as [|e l IH]; intros p l0 Hp; [by rewrite app_nil_r|].
  replace (l0 ++ e :: l) with ((l0 ++ [e]) ++ l) by (by rewrite <- app_assoc). by apply IH, pair_step_ok.
Qed.
Lemma accept_start_ok id from name size rcv :
  0 <= size -> accept_start id from name size false true = Ok rcv -> receiver_ok rcv.
Proof.
  intros Hsz [= <-].
  split; cbn [r_out r_link r_phase r_size r_received given omap list_omap]; try done.
  - apply Forall_singleton. auto.
  - intros _. split_and!; [done| |done]. intros He. by apply elem_of_nil in He.
  - intros [?|Hc]; [done|by apply not_committed_alone in Hc].
Qed.

(** A transfer as it starts: the offer queued, the acceptance written. *)
Definition pair_start (id rid to from name : rstr) (size ttl : Z) (told : bool) : option Pair :=
  rcv ← to_option (accept_start rid from name size false true);
  Some {| snd_ := sender_start id to size ttl told; rcv_ := rcv; snd_read := 0; rcv_read := 0 |}.

Lemma pair_start_ok id rid to from name size ttl told p :
  0 <= size -> pair_start id rid to from name size ttl told = Some p -> pair_ok p [].
Proof.
  intros Hsz Hp. pose proof (sender_start_ok id to size ttl told Hsz) as Hs.
  unfold pair_start in Hp. cbn [to_option accept_start mbind option_bind] in Hp. injection Hp as <-.
  assert (Hl : s_link (sender_start id to size ttl told) = []) by by destruct told.
  split; cbn [snd_ rcv_ snd_read rcv_read r_out r_phase r_link given omap list_omap]; rewrite ?Hl; try done.
  - by eapply (accept_start_ok rid from name size).
  - intros Hd. by destruct told.
  - intros Hc. by apply not_committed_alone in Hc.
Qed.

(** Once it is delivered, what the receiving CLI was given is all the sender sent,
    and is what the sending CLI wrote, up to its [End]. *)
Lemma delivered_pair id rid to from name size ttl told p0 l :
  0 <= size -> pair_start id rid to from name size ttl told = Some p0 ->
  let p := pair_run p0 l in
  SEvent Delivered ∈ s_out (snd_ p) ->
  RCli (Ok End_) ∈ l
  /\ given (r_out (rcv_ p)) `prefix_of` sent_by_cli l
  /\ (exists fs, given (r_out (rcv_ p)) = fs ++ [End_] /\ ~ End_ ∈ fs)
  /\ data_len (frames_data (given (r_out (rcv_ p)))) = s_size (snd_ p).
Proof.
  intros Hsz Hp0 p Hd. pose proof (pair_run_ok p0 [] l (pair_start_ok _ _ _ _ _ _ _ _ _ Hsz Hp0)) as Hp.
  fold p in Hp. destruct Hp as [P1 P2 P3 P4 P5 P6 P7 P8 P9].
  apply (so_done _ P1) in Hd. specialize (P5 Hd).
  destruct (ro_confirming _ P2 (or_intror P5)) as [Hend Hlen].
  assert (Heq : given (r_out (rcv_ p)) = s_link (snd_ p)).
  { destruct P4 as [x Hx]. destruct (so_end _ P1 (so_ended _ P1 Hd)) as (fs & Hfs & Hno & _).
    destruct (decide (x = [])) as [->|Hne]; [by rewrite app_nil_r in Hx|].
    destruct (exists_last Hne) as (y & z & ->). rewrite Hfs, app_assoc in Hx.
    apply app_inj_tail in Hx as [-> _]. destruct Hno. apply elem_of_app. by left. }
  rewrite Heq. destruct (so_end _ P1 (so_ended _ P1 Hd)) as (fs & Hfs & Hno & Hsize).
  split; [by apply P6|]. split; [done|]. split; [by exists fs|done].
Qed.

(** ** Properties *)

(** C3: an offer is reported delivered only when the file is in place: the
    receiving CLI was given exactly the frames the sending CLI wrote, up to and
    with its [End], their data is exactly the size offered, and the receiving
    CLI then said it kept the file.  This is so for every interleaving of the two
    sides, for every point at which either stream breaks, and for every way
    either CLI misbehaves. *)
Theorem delivered_means_kept id rid to from name size ttl told p0 l :
  0 <= size -> pair_start id rid to from name size ttl told = Some p0 ->
  let p := pair_run p0 l in
  SEvent Delivered ∈ s_out (snd_ p) ->
  RCli (Ok End_) ∈ l
  /\ given (r_out (rcv_ p)) `prefix_of` sent_by_cli l
  /\ (exists fs, given (r_out (rcv_ p)) = fs ++ [End_] /\ ~ End_ ∈ fs)
  /\ data_len (frames_data (given (r_out (rcv_ p)))) = s_size (snd_ p).
Proof. exact (delivered_pair id rid to from name size ttl told p0 l). Qed.

(** whatever happens, the receiving CLI is only ever given, in order, frames
    the sending CLI wrote, and never more bytes than were offered. *)
Theorem receiver_is_given_a_prefix id rid to from name size ttl told p0 l :
  0 <= size -> pair_start id rid to from name size ttl told = Some p0 ->
  let p := pair_run p0 l in
  given (r_out (rcv_ p)) `prefix_of` s_link (snd_ p) /\ s_link (snd_ p) `prefix_of` sent_by_cli l
  /\ data_len (frames_data (given (r_out (rcv_ p)))) <= r_size (rcv_ p)
  /\ (End_ ∈ given (r_out (rcv_ p)) -> given (r_out (rcv_ p)) = s_link (snd_ p)).
Proof.
  intros Hsz Hp0 p. pose proof (pair_run_ok p0 [] l (pair_start_ok _ _ _ _ _ _ _ _ _ Hsz Hp0)) as Hp.
  fold p in Hp. destruct Hp as [P1 P2 P3 P4 P5 P6 P7 P8 P9]. split_and!; [done|done|apply P2|].
  intros Hend. destruct P4 as [x Hx].
  destruct (so_end _ P1) as (fs & Hfs & Hno & _); [rewrite Hx; apply elem_of_app; by left|].
  destruct (decide (x = [])) as [->|Hne]; [by rewrite app_nil_r in Hx|].
  destruct (exists_last Hne) as (y & z & ->). rewrite Hfs, app_assoc in Hx.
  apply app_inj_tail in Hx as [-> _]. destruct Hno. apply elem_of_app. by left.
Qed.

(** The task of an offer that was delivered, from its guard on: what it leaves. *)
Lemma guarded_offer_settles id to size ttl told l (r : Registry (Link := Link)) entry now :
  0 <= size -> outgoing r !! id = Some entry -> is_finished (o_state entry) = false ->
  let s := outcome_drop (send_run (sender_start id to size ttl told) l) in
  exists o, s_outcome s = Some o /\ is_finished (oc_state o) = true
    /\ (s_outcome (send_run (sender_start id to size ttl told) l) = None -> o = failed (lit "interrupted"))
    /\ outgoing (replay r id now (s_calls s)) !! id
       = Some {| o_peer := o_peer entry; o_to := o_to entry; o_name := o_name entry; o_size := o_size entry;
                 o_state := oc_state o; o_created_at := o_created_at entry; o_expires_at := None;
                 o_finished_at := Some now; o_detail := oc_detail o; o_conn := None |}
    /\ forall id', id' <> id -> outgoing (replay r id now (s_calls s)) !! id' = outgoing r !! id'.
Proof.
  intros Hsz Hl Hfin. set (s1 := send_run (sender_start id to size ttl told) l). intros s.
  assert (Hs1 : sender_ok s1) by by apply send_run_ok, sender_start_ok.
  assert (Hs : sender_ok s).
  { unfold s, outcome_drop. destruct (s_outcome s1) eqn:E; [done|].
    apply sender_finish; [done| |done|split; [done|not_delivered]|done].
    intros Hph. apply (so_outcome _ Hs1) in Hph as [? ?]. congruence. }
  assert (Ho : exists o, s_outcome s = Some o /\ (s_outcome s1 = None -> o = failed (lit "interrupted"))).
  { unfold s, outcome_drop. destruct (s_outcome s1) eqn:E; [exists o; by rewrite E|by eexists]. }
  destruct Ho as (o & Ho & Hdef). exists o. pose proof (so_calls _ Hs) as Hc. rewrite Ho in Hc.
  destruct Hc as (Hfo & calls & -> & Hcalls). split; [done|]. split; [done|]. split; [done|].
  assert (Hoff : bool_decide (oc_state o = Offered) = false) by by destruct (oc_state o).
  destruct Hcalls as [->| ->]; cbn [replay foldl app]; unfold set_state; rewrite Hl; cbn [with_outgoing outgoing];
    rewrite ?lookup_insert_eq; cbn [with_outgoing outgoing]; rewrite ?lookup_insert_eq; unfold finish_entry;
    cbn [o_peer o_to o_name o_size o_state o_created_at o_expires_at o_finished_at o_detail o_conn];
    rewrite Hfo, Hoff; (split; [done|]); intros id' Hne; by rewrite ?lookup_insert_ne by done.
Qed.

(** C21: an outgoing offer never stays "offered" or "transferring" once its task
    is over, from the moment it is listed.  When it could not be delivered it is
    taken back out; once it was delivered its entry is finished, whatever
    interrupted the task, even being dropped half way, with the outcome it had or
    "interrupted", keeps no connection and no window; and no other entry is
    touched.  Only a task dropped while it is still delivering leaves its entry
    as it was listed, as offered. *)
Theorem outgoing_offers_settle windows (r : Registry (Link := Link)) peer name size ttl now draws
    (r1 : Registry (Link := Link)) id to w (moved : Registry (Link := Link) -> Registry (Link := Link)) conn h later told l over :
  0 <= size -> send_listed windows r peer name size ttl now draws = Some (r1, Ok (id, to, w)) ->
  outgoing (moved r1) !! id = outgoing r1 !! id ->
  (exists listed, outgoing (moved r1) !! id = Some listed /\ o_peer listed = peer /\ o_name listed = name /\ o_size listed = size
     /\ o_state listed = Offered)
  /\ match send_delivered (moved r1) id to peer conn h ttl later with
     | (r2, Some (Err m), _) => outgoing r2 = delete id (outgoing (moved r1))
     | (r2, Some (Ok _), _) =>
         let s := outcome_drop (send_run (sender_start id to size ttl told) l) in
         let r3 := replay r2 id over (s_calls s) in
         exists o, s_outcome s = Some o /\ is_finished (oc_state o) = true
           /\ (s_outcome (send_run (sender_start id to size ttl told) l) = None -> o = failed (lit "interrupted"))
           /\ (exists e, outgoing r3 !! id = Some e /\ o_peer e = peer /\ o_to e = to /\ o_name e = name /\ o_size e = size
                 /\ o_state e = oc_state o /\ o_detail e = oc_detail o /\ o_finished_at e = Some over
                 /\ o_expires_at e = None /\ o_conn e = None)
           /\ forall id', id' <> id -> outgoing r3 !! id' = outgoing (moved r1) !! id'
     | (_, None, _) => False
     end.
Proof.
  unfold send_listed. intros Hsz. destruct (check name _) as [[]|m]; [|done]. destruct (is_member r peer); cbn [negb]; [|done].
  unfold list_outgoing. destruct (new_id _ draws) as [k|]; cbn [mbind option_bind]; [|done]. intros [= <- <- <- _] Hm.
  cbn [with_outgoing outgoing] in Hm. rewrite lookup_insert_eq in Hm. split; [by eexists|].
  unfold send_delivered. destruct (deliver_offer _ h) as [[[]|m] c]; [|done].
  unfold offer_delivered. rewrite Hm. cbn [mbind option_bind o_peer o_to o_name o_size o_state o_created_at o_finished_at o_detail].
  match goal with |- context [with_outgoing <[k := ?e]> ?rr] => set (e1 := e); set (r2 := with_outgoing <[k := e1]> rr) end.
  destruct (guarded_offer_settles k (display r peer) size ttl told l r2 e1 over Hsz) as (o & Ho & Hf & Hi & He & Hother);
    [apply lookup_insert_eq|done|].
  exists o. split; [done|]. split; [done|]. split; [done|]. split; [by eexists|].
  intros id' Hne. rewrite Hother by done. cbn [r2 with_outgoing outgoing]. by rewrite lookup_insert_ne.
Qed.

(** an offer that lapsed before somebody answered it is refused with what
    became of it for an hour, and one that was answered first is no longer its
    watcher's to end. *)
Theorem lapsed_offers_say_why (r : Registry (Link := Link)) id from conn offer lapse now later :
  incoming r !! id = Some offer -> i_conn offer = conn ->
  now <= later -> later - now < HISTORY ->
  snd (take_answerable (fst (watch r id from conn lapse now)) id later)
    = Err (Text (match lapse with
                 | Withdrawn => from ++ lit " is no longer available (the offer was withdrawn)"
                 | TimeUp => lit "the offer from " ++ from ++ lit " expired" end))
  /\ (snd (watch r id from conn lapse now) = match lapse with TimeUp => Some (EXPIRED, lit "the offer expired") | _ => None end)
  /\ forall taken, snd (take_answerable r id now) = Ok taken ->
       watch (fst (take_answerable r id now)) id from conn lapse later = (fst (take_answerable r id now), None).
Proof.
  intros Hi <- Hle Hh.
  assert (Hb : forall why, bury_incoming r id (i_conn offer) why now
    = (with_gone <[id := (now, why)]> (with_incoming (delete id) r), true)).
  { intros why. unfold bury_incoming. by rewrite Hi, N.eqb_refl. }
  assert (Ht : forall why, snd (take_answerable (with_gone <[id := (now, why)]> (with_incoming (delete id) r)) id later)
    = Err (Text why)).
  { intros why. unfold take_answerable. cbn [forget_history with_gone with_outgoing with_incoming incoming gone].
    rewrite lookup_delete_eq.
    assert (Hf : filter (fun '(_, (at_, _)) => recent later at_ = true) (<[id := (now, why)]> (gone r)) !! id = Some (now, why)).
    { apply map_lookup_filter_Some. split; [apply lookup_insert_eq|]. unfold recent, sat_sub. lia. }
    by rewrite Hf. }
  unfold watch. destruct lapse; rewrite !Hb; cbn [fst snd]; (split; [apply Ht|]); (split; [done|]);
    intros [o lk] Hk; destruct (take_answerable r id now) as [r' res] eqn:E; cbn [fst snd] in *; subst res;
    apply take_answerable_ok in E as (_ & _ & _ & ->);
    unfold bury_incoming; cbn [with_incoming incoming forget_history with_gone with_outgoing];
    by rewrite lookup_delete_eq.
Qed.
(** an incoming offer is listed exactly when it is a well-formed offer, of a
    safe filename, from a peer that is a member both when it connects and when
    it is listed, with room left; it then waits for between a second and the
    maximum time.  Nothing of a non-member's stream is read, and a refusal
    changes nothing here. *)
Theorem receive_offer_functional windows (r : Registry (Link := Link)) conn o moved now draws r' x :
  receive_offer windows r conn o moved now draws = Some (r', x) ->
  let peer := remote_id conn in
  match x with
  | Ignored => r' = moved r /\ o = NoStream
  | Closed code _ => (code = NOT_MEMBER /\ r' = r /\ ~ current r peer)
      \/ (code = FAILED /\ r' = moved r /\ current r peer
          /\ forall f id name size ttl, o = First (Ok f) -> control f <> Some (WOffer id name size ttl))
  | Refused f m => f = control_frame (Reject (Some m)) /\ r' = moved r /\ current r peer
  | Listed id reply => reply = control_frame Queued /\ current r peer /\ current (moved r) peer
      /\ (waiting (moved r) peer < MAX_PENDING_PER_PEER)%nat /\ tracked (moved r) id = false
      /\ exists f oid name size ttl secs, o = First (Ok f) /\ control f = Some (WOffer oid name size ttl)
        /\ check name (Filename.current windows) = Ok tt /\ 1 <= secs <= MAX_FILE_TTL
        /\ r' = with_incoming <[id := {| i_peer := peer; i_name := name; i_size := size; i_received_at := now;
                                        i_expires_at := now + from_secs secs; i_conn := conn; i_link := None |}]> (moved r)
  end.
Proof.
  intros Hr peer. unfold receive_offer, is_member in Hr. fold peer in Hr.
  case_bool_decide as Hcur; cbn [negb] in Hr; [|injection Hr as <- <-; auto].
  destruct o as [| |[f|e]]; [injection Hr as <- <-; done|injection Hr as <- <-; right; by split_and!..|
    |injection Hr as <- <-; right; by split_and!].
  destruct (control f) as [[oid name size ttl| | | |]|] eqn:Ef;
    try (injection Hr as <- <-; right; split_and!; [done..|]; intros ? ? ? ? ? [= <-]; congruence).
  destruct (check name _) as [[]|m] eqn:Ec; [|by injection Hr as <- <-].
  unfold admit_offer, is_member in Hr. case_bool_decide as Hcur'; cbn [negb] in Hr; [|by injection Hr as <- <-].
  destruct (Nat.leb_spec MAX_PENDING_PER_PEER (waiting (moved r) peer)) as [Hw|Hw]; [by injection Hr as <- <-|].
  destruct (new_id (moved r) draws) as [id|] eqn:Ei; cbn [mbind option_bind] in Hr; [|done].
  injection Hr as <- <-. apply new_id_fresh in Ei as [Ht _]. split_and!; try done.
  exists f, oid, name, size, ttl, (clamp 1 MAX_FILE_TTL ttl). split_and!; try done; by apply clamp_bounds.
Qed.

(** an offer that could not be delivered leaves nothing behind, and one that
    was is given its window from then on, and is cut off at once when the peer
    left the roster meanwhile. *)
Theorem send_leaves_only_delivered_offers windows (r : Registry (Link := Link)) peer name size ttl now draws
    (r1 : Registry (Link := Link)) id to w (moved : Registry (Link := Link) -> Registry (Link := Link)) conn h later :
  send_listed windows r peer name size ttl now draws = Some (r1, Ok (id, to, w)) ->
  outgoing (moved r1) = outgoing r1 ->
  let '(r2, res, close) := send_delivered (moved r1) id to peer conn h ttl later in
  check name (Filename.current windows) = Ok tt /\ current r peer
  /\ w = WOffer id name size (clamp 1 MAX_FILE_TTL ttl)
  /\ match fst (deliver_offer to h) with
     | Err m => res = Some (Err m) /\ outgoing r2 = outgoing (forget_history r now)
     | Ok _ => res = Some (Ok tt) /\ (exists o, outgoing r2 = <[id := o]> (outgoing (forget_history r now))
           /\ o_peer o = peer /\ o_state o = Offered /\ o_conn o = Some conn
           /\ o_expires_at o = Some (later + from_secs (clamp 1 MAX_FILE_TTL ttl)))
         /\ (close = None <-> current (moved r1) peer)
     end.
Proof.
  unfold send_listed, is_member. destruct (check name _) as [[]|m]; [|done].
  case_bool_decide as Hcur; cbn [negb]; [|done]. unfold list_outgoing.
  destruct (new_id _ draws) as [k|] eqn:Ek; cbn [mbind option_bind]; [|done].
  intros [= <- <- <- <-] Hm. apply new_id_fresh in Ek as [Ht _]. apply tracked_false in Ht as (_ & Hfree & _).
  assert (Hw : clamp_ttl ttl / NANOS = clamp 1 MAX_FILE_TTL ttl).
  { unfold clamp_ttl, from_secs. by apply Z.div_mul. }
  rewrite Hw. unfold send_delivered. destruct (deliver_offer _ h) as [[[]|m] c]; cbn [fst].
  - unfold offer_delivered. rewrite Hm. cbn [outgoing with_outgoing]. rewrite lookup_insert_eq. cbn [mbind option_bind].
    split_and!; try done.
    + eexists. cbn [with_outgoing outgoing]. rewrite Hm. cbn [with_outgoing outgoing]. rewrite insert_insert_eq. done.
    + unfold is_member. change (Files.current (with_outgoing ?f ?r) peer) with (Files.current r peer).
      case_bool_decide; cbn [negb]; done.
  - split_and!; try done. cbn [remove_outgoing with_outgoing outgoing]. rewrite Hm. cbn [with_outgoing outgoing].
    by apply delete_insert_id.
Qed.
End TransferProps.

(** ** Witnesses *)

Import Concrete.

(** A codec for the control messages, by way of trees of text. *)
Module Codec.
Definition leaf : Type := rstr + String.string + Z.

Fixpoint message_tree (m : message) : gen_tree leaf :=
  match m with
  | Text s => GenLeaf (inl (inl s))
  | Fmt t args => GenNode 0 (GenLeaf (inl (inr t)) :: (message_tree <$> args))
  end.
Fixpoint tree_message (t : gen_tree leaf) : message :=
  match t with
  | GenNode 0 (GenLeaf (inl (inr t)) :: args) => Fmt t (tree_message <$> args)
  | GenLeaf (inl (inl s)) => Text s
  | _ => Text []
  end.

Lemma tree_message_tree : forall m, tree_message (message_tree m) = m.
Proof.
  fix IH 1. intros [s|t args]; [done|]. cbn. f_equal. rewrite <- list_fmap_compose.
  induction args as [|a args IHa]; [done|]. cbn. f_equal; [apply IH|exact IHa].
Qed.

Definition wire_tree (w : Wire) : gen_tree leaf :=
  match w with
  | WOffer id name size ttl =>
      GenNode 1 [GenLeaf (inl (inl id)); GenLeaf (inl (inl name)); GenLeaf (inr size); GenLeaf (inr ttl)]
  | Queued => GenNode 2 []
  | Accept => GenNode 3 []
  | Reject None => GenNode 4 []
  | Reject (Some m) => GenNode 5 [message_tree m]
  | Committed => GenNode 6 []
  end.
Definition tree_wire (t : gen_tree leaf) : option Wire :=
  match t with
  | GenNode 1 [GenLeaf (inl (inl id)); GenLeaf (inl (inl name)); GenLeaf (inr size); GenLeaf (inr ttl)] =>
      Some (WOffer id name size ttl)
  | GenNode 2 [] => Some Queued
  | GenNode 3 [] => Some Accept
  | GenNode 4 [] => Some (Reject None)
  | GenNode 5 [m] => Some (Reject (Some (tree_message m)))
  | GenNode 6 [] => Some Committed
  | _ => None
  end.

Lemma tree_wire_tree w : tree_wire (wire_tree w) = Some w.
Proof. destruct w as [| | |[m|]|]; cbn; rewrite ?tree_message_tree; done. Qed.

Definition json (w : Wire) : list Z := [Z.pos (encode (wire_tree w))].
Definition parse (l : list Z) : option Wire :=
  match l with [Z.pos p] => decode p ≫= tree_wire | _ => None end.

Lemma parse_json w : parse (json w) = Some w.
Proof. unfold parse, json. rewrite decode_encode. apply tree_wire_tree. Qed.

#[global] Instance wire_codec : WireJson := {| wire_json := json; wire_parse := parse; wire_parse_json := parse_json |}.

Definition env : Env := {| env_member := true; env_closed := None |}.
Definition pair : option Pair := pair_start (lit "ab12") (lit "cd34") (lit "nas") (lit "laptop") (lit "a.txt") 3 600 true.
Definition story : list pair_event :=
  [SNext env; SCli (Ok (Data [104; 105])) true env; RNext true env; SCli (Ok (Data [33])) true env;
   SCli (Ok (Hash [0])) true env; SCli (Ok End_) true env; RNext true env; RNext true env; RNext true env;
   RCli (Ok End_); SNext env].

Definition is_delivered (s : Said) : bool := match s with SEvent Delivered => true | _ => false end.
Lemma is_delivered_spec l : existsb is_delivered l = true -> SEvent Delivered ∈ l.
Proof. rewrite existsb_exists. intros (x & Hx & He). apply list_elem_of_In in Hx. by destruct x as [|[]| |]. Qed.
End Codec.

Example delivered_means_kept_witness :
  exists p0, Codec.pair = Some p0 /\ let p := pair_run p0 Codec.story in
    SEvent Delivered ∈ s_out (snd_ p) /\ RCli (Ok End_) ∈ Codec.story.
Proof.
  eexists. split; [reflexivity|]. cbv zeta.
  match goal with |- ?P /\ _ => assert (Hd : P) by (apply Codec.is_delivered_spec; by vm_compute) end.
  split; [exact Hd|].
  refine (proj1 (delivered_means_kept _ _ _ _ _ _ _ _ _ _ _ eq_refl Hd)). done.
Defined.

Example receiver_is_given_a_prefix_witness :
  exists p0, Codec.pair = Some p0 /\
    given (r_out (rcv_ (pair_run p0 Codec.story))) `prefix_of` sent_by_cli Codec.story.
Proof.
  eexists. split; [reflexivity|].
  destruct (receiver_is_given_a_prefix (lit "ab12") (lit "cd34") (lit "nas") (lit "laptop") (lit "a.txt") 3 600 true _
    Codec.story ltac:(done) eq_refl) as (Hp & Hq & _). by etransitivity.
Defined.

Module Outgoings.
Definition ops : list (op (Link := unit)) :=
  [SetRoster [(Offers.k2, lit "nas")]; Offer Offers.k2 (lit "nas") (lit "a.txt") 3 (clamp_ttl 600) 0 [Offers.draw]].
Definition state : Registry (Link := unit) := run Registry_default ops.
Definition entry : Outgoing :=
  {| o_peer := Offers.k2; o_to := lit "nas"; o_name := lit "a.txt"; o_size := 3; o_state := Offered; o_created_at := 0;
     o_expires_at := Some (clamp_ttl 600); o_finished_at := None; o_detail := None; o_conn := None |}.
Lemma listed : outgoing state !! Offers.id = Some entry.
Proof. vm_cast_no_check (@eq_refl (option Outgoing) (Some entry)). Qed.

Definition members : Registry (Link := unit) := run Registry_default [SetRoster [(Offers.k2, lit "nas")]].
Definition offer_frame : Frame := control_frame (WOffer (lit "x") (lit "a.txt") 3 600).
Definition keep (r : Registry (Link := unit)) := r.
End Outgoings.

(** An offer of K1's that K2's daemon queues. *)
Module Queueing.
Definition size : Z := 3.
Definition listing := send_listed false Outgoings.members Offers.k2 (lit "a.txt") size 600 7 [Offers.draw].
Definition queued : handshake := Answered (control_frame Queued).
Lemma lists : exists r1 id to w, listing = Some (r1, Ok (id, to, w)).
Proof.
  destruct listing as [[r1 [[[id to] w]|m]]|] eqn:E; [by exists r1, id, to, w|..];
    exfalso; assert (Hl : match listing with Some (_, Ok _) => true | _ => false end = true) by (by vm_compute); by rewrite E in Hl.
Qed.
Lemma delivers to : deliver_offer to queued = (Ok tt, None).
Proof. by vm_compute. Qed.
End Queueing.

Example outgoing_offers_settle_witness :
  exists r1 id to w r2 res close, Queueing.listing = Some (r1, Ok (id, to, w))
    /\ send_delivered r1 id to Offers.k2 (Offers.conn 3 Offers.k2) Queueing.queued 600 9 = (r2, res, close)
    /\ exists e, outgoing (replay r2 id 11 (s_calls (outcome_drop (send_run (sender_start id to Queueing.size 600 true) [])))) !! id = Some e
         /\ o_state e = Failed.
Proof.
  destruct Queueing.lists as (r1 & id & to & w & E).
  destruct (outgoing_offers_settle false Outgoings.members Offers.k2 (lit "a.txt") Queueing.size 600 7 [Offers.draw] r1 id to w (fun r => r)
    (Offers.conn 3 Offers.k2) Queueing.queued 9 true [] 11 ltac:(done) E eq_refl) as [_ Hs].
  destruct (send_delivered _ _ _ _ _ _ _ _) as [[r2 res] close] eqn:Ed. exists r1, id, to, w, r2, res, close.
  split; [exact E|]. split; [exact Ed|]. unfold send_delivered in Ed. rewrite Queueing.delivers in Ed.
  destruct res as [[[]|m]|]; [|exfalso; destruct (offer_delivered _ _ _ _); discriminate Ed|destruct Hs].
  destruct Hs as (o & _ & _ & Hi & (e & He & _ & _ & _ & _ & Hst & _) & _). exists e. split; [exact He|].
  rewrite Hst, (Hi eq_refl). reflexivity.
Defined.

Example lapsed_offers_say_why_witness :
  snd (take_answerable (fst (watch Offers.state Offers.id (lit "nas") (Offers.conn 1 Offers.k2) TimeUp 5)) Offers.id 9)
  = Err (Text (lit "the offer from " ++ lit "nas" ++ lit " expired")).
Proof.
  apply (lapsed_offers_say_why Offers.state Offers.id (lit "nas") (Offers.conn 1 Offers.k2) Offers.waiting_offer TimeUp 5 9
    Offers.state_waiting eq_refl ltac:(done) ltac:(done)).
Defined.

Example receive_offer_functional_witness :
  exists r' x, receive_offer false Outgoings.members (Offers.conn 1 Offers.k2) (First (Ok Outgoings.offer_frame)) Outgoings.keep 7 [Offers.draw]
    = Some (r', x) /\ (exists id reply, x = Listed id reply /\ reply = control_frame Queued).
Proof.
  destruct (receive_offer false Outgoings.members (Offers.conn 1 Offers.k2) (First (Ok Outgoings.offer_frame)) Outgoings.keep 7 [Offers.draw])
    as [[r' x]|] eqn:E.
  - exists r', x. split; [done|]. pose proof (receive_offer_functional _ _ _ _ _ _ _ _ _ E) as Hx.
    assert (Hl : match receive_offer false Outgoings.members (Offers.conn 1 Offers.k2) (First (Ok Outgoings.offer_frame)) Outgoings.keep 7 [Offers.draw]
      with Some (_, Listed _ _) => true | _ => false end = true) by by vm_compute.
    rewrite E in Hl. destruct x as [| | |id reply]; try done. exists id, reply. split; [done|]. apply Hx.
  - exfalso. assert (Hl : match receive_offer false Outgoings.members (Offers.conn 1 Offers.k2) (First (Ok Outgoings.offer_frame)) Outgoings.keep 7 [Offers.draw]
      with Some (_, Listed _ _) => true | _ => false end = true) by by vm_compute.
    by rewrite E in Hl.
Defined.

Example send_leaves_only_delivered_offers_witness :
  exists r1 id to w, send_listed false Outgoings.members Offers.k2 (lit "a.txt") 3 600 7 [Offers.draw] = Some (r1, Ok (id, to, w))
    /\ w = WOffer id (lit "a.txt") 3 600.
Proof.
  destruct (send_listed false Outgoings.members Offers.k2 (lit "a.txt") 3 600 7 [Offers.draw]) as [[r1 [[[id to] w]|m]]|] eqn:E.
  2, 3: exfalso; assert (Hl : match send_listed false Outgoings.members Offers.k2 (lit "a.txt") 3 600 7 [Offers.draw]
      with Some (_, Ok _) => true | _ => false end = true) by (by vm_compute); by rewrite E in Hl.
  exists r1, id, to, w. split; [done|].
  pose proof (send_leaves_only_delivered_offers _ _ _ _ _ _ _ _ _ _ _ _ (fun r => r) (Offers.conn 3 Offers.k2)
    ConnectTimedOut 9 E eq_refl) as Hs.
  destruct (send_delivered _ _ _ _ _ _ _ _) as [[r2 res] close]. destruct Hs as (_ & _ & Hw & _).
  rewrite Hw. by vm_compute.
Defined.
