(* ===== verification/Node.v ===== *)
(** * The daemon's state ([daemon/src/state.rs], [daemon/src/settings.rs])

    [State] ties the components together.  Every method is a function on the
    whole state: what it saved, the routing commands it issued and the
    connections it closed are part of the result, and whether saving the file and
    running the commands succeed are arguments ([World]). *)

From S2P Require Import Prelude External Proto Names Net Tun Membership Peers Routes Files.

Local Abbreviation list := Datatypes.list.

(** ** Settings *)

Record Settings := {
  operator_uid : option Z;
  operator_sid : option rstr;
  operator_name : option rstr;
}.

Definition Settings_default : Settings := {| operator_uid := None; operator_sid := None; operator_name := None |}.

(** [Settings::parse] and [load]; [serde_json]'s reader is the argument. *)
Definition settings_parse (from_str : rstr -> result message Settings) (data : rstr) : result message Settings :=
  from_str (trim_start_matches (N.eqb 65279) data).

Definition settings_load (from_str : rstr -> result message Settings) (file : read_outcome) : result message Settings :=
  match file with
  | Read data => map_err (fun e => Fmt "parse {}" [e]) (settings_parse from_str data)
  | NotFound => Ok Settings_default
  | ReadError e => Err (Fmt "read {}" [e])
  end.

(** [authz::Operator]. *)
Record Operator := { uid : option Z; sid : option rstr }.

Section Node.
Context `{!EndpointIds, !Sha256, !HexCrate, !Bs58} {Link : Type}.

(** ** The state *)

(** What the node did to its connections. *)
Inductive effect :=
  | CloseLink (c : closed)
  | CloseOffer (c : close_call).

Record State := {
  own : EndpointId;                      (* [endpoint.id()] *)
  membership : Membership;
  saved : Membership;                    (* what the roster file holds *)
  settings : Settings;
  saved_settings : Settings;
  peers : Peers;
  routes : Routes;
  kernel : gset IpAddr;                  (* the routes the system has *)
  conflicts : list message;
  dns : DnsRegistration;
  dial_tx : list EndpointId;
  files : Registry (Link := Link);
  effects : list effect;                 (* oldest first *)
}.

(** What the system answers: saving a file, a routing command, and the room in
    the dialer's queue. *)
Record World := {
  save_to : result message ();
  succeeds : command -> bool;
  capacity : nat;
}.

Definition own_id (n : State) : rstr := show_id (own n).

Definition with_membership f (n : State) : State :=
  {| own := own n; membership := f (membership n); saved := saved n; settings := settings n;
     saved_settings := saved_settings n; peers := peers n; routes := routes n; kernel := kernel n;
     conflicts := conflicts n; dns := dns n; dial_tx := dial_tx n; files := files n; effects := effects n |}.
Definition with_saved m (n : State) : State :=
  {| own := own n; membership := membership n; saved := m; settings := settings n;
     saved_settings := saved_settings n; peers := peers n; routes := routes n; kernel := kernel n;
     conflicts := conflicts n; dns := dns n; dial_tx := dial_tx n; files := files n; effects := effects n |}.
Definition with_settings s s' (n : State) : State :=
  {| own := own n; membership := membership n; saved := saved n; settings := s;
     saved_settings := s'; peers := peers n; routes := routes n; kernel := kernel n;
     conflicts := conflicts n; dns := dns n; dial_tx := dial_tx n; files := files n; effects := effects n |}.
Definition with_mesh p r k d (n : State) : State :=
  {| own := own n; membership := membership n; saved := saved n; settings := settings n;
     saved_settings := saved_settings n; peers := p; routes := r; kernel := k;
     conflicts := conflicts n; dns := dns n; dial_tx := d; files := files n; effects := effects n |}.
Definition with_files f (n : State) : State :=
  {| own := own n; membership := membership n; saved := saved n; settings := settings n;
     saved_settings := saved_settings n; peers := peers n; routes := routes n; kernel := kernel n;
     conflicts := conflicts n; dns := dns n; dial_tx := dial_tx n; files := f; effects := effects n |}.
Definition with_effects e (n : State) : State :=
  {| own := own n; membership := membership n; saved := saved n; settings := settings n;
     saved_settings := saved_settings n; peers := peers n; routes := routes n; kernel := kernel n;
     conflicts := conflicts n; dns := dns n; dial_tx := dial_tx n; files := files n; effects := effects n ++ e |}.
Definition with_conflicts c (n : State) : State :=
  {| own := own n; membership := membership n; saved := saved n; settings := settings n;
     saved_settings := saved_settings n; peers := peers n; routes := routes n; kernel := kernel n;
     conflicts := c; dns := dns n; dial_tx := dial_tx n; files := files n; effects := effects n |}.

(** [State::new]: an unreadable roster is fatal, unreadable settings are not. *)
Definition new (endpoint : EndpointId) (iface : rstr) (roster : result message Membership)
    (set : result message Settings) : result message State :=
  m ← roster;
  let s := match set with Ok s => s | Err _ => Settings_default end in
  Ok {| own := endpoint; membership := m; saved := m; settings := s; saved_settings := s; peers := Peers_default;
        routes := Routes.new iface; kernel := ∅; conflicts := []; dns := Unavailable None None; dial_tx := [];
        files := Registry_default; effects := [] |}.

(** ** Refreshing *)

(** [display] of a member, as [refresh_routes] hands the file registry. *)
Definition named (n : State) : list (EndpointId * rstr) :=
  filter (fun '(id, _) => id <> own n)
    (omap (fun x => id ← parse_id (m_id x); Some (id, Names.display (m_id x) (m_hostname x))) (Membership.roster (membership n))).

Definition other_ids (n : State) : list EndpointId := filter (fun id => id <> own n) (member_ids (membership n)).

Definition request_dial (w : World) (q : list EndpointId) (id : EndpointId) : list EndpointId :=
  if (length q <? capacity w)%nat then q ++ [id] else q.

Definition refresh_routes (w : World) (n : State) : State :=
  let '(fs, ended) := Files.set_roster (files n) (named n) in
  let '(p, dropped) := Peers.set_routes (peers n) (other_ids n) in
  let '(r, k) := Routes.sync (routes n) (routed_addrs p) (succeeds w) (kernel n) in
  let q := foldl (request_dial w) (dial_tx n) (unlinked p) in
  with_effects ((CloseOffer <$> ended) ++ (CloseLink <$> dropped)) (with_mesh p r k q (with_files fs n)).

(** [m.save()?]. *)
Definition save (w : World) (n : State) : State * result message () :=
  match save_to w with
  | Ok _ => (with_saved (membership n) n, Ok tt)
  | Err e => (n, Err e)
  end.

(** The end of a method that changed the roster. *)
Definition save_and_refresh {A} (w : World) (n : State) (a : A) : State * result message A :=
  match save w n with
  | (n, Ok _) => (refresh_routes w n, Ok a)
  | (n, Err e) => (n, Err e)
  end.

(** ** Methods *)

Definition create_network (w : World) (n : State) (name : rstr) (hostname : option rstr) (random : list Z)
    : State * result message () :=
  save_and_refresh w (with_membership (fun m => create m name (own_id n) hostname random) n) tt.

Definition generate_invite (w : World) (n : State) (ttl now : Z) (token : list Z) : State * result message (rstr * Z) :=
  let '(m, res) := Membership.generate_invite (membership n) (own n) ttl now token in
  let n := with_membership (fun _ => m) n in
  match save w n with (n, Ok _) => (n, Ok res) | (n, Err e) => (n, Err e) end.

Definition redeem_invite (w : World) (n : State) (token : list Z) (requester : rstr) (hostname : option rstr) (now : Z)
    : State * result message (option (list Member * option rstr)) :=
  match Membership.redeem_invite (membership n) token requester now with
  | (m, false) => (with_membership (fun _ => m) n, Ok None)
  | (m, true) =>
      let '(m, assigned) :=
        match hostname with
        | Some requested =>
            match Membership.claim_hostname m requester requested false with
            | (m, Ok name) => (m, Some name)
            | (m, Err _) => (m, None)
            end
        | None => (m, None)
        end in
      save_and_refresh w (with_membership (fun _ => m) n) (Some (Membership.roster m, assigned))
  end.

Definition claim_hostname (w : World) (n : State) (claimant requested : rstr) (force : bool)
    : State * result message (result message rstr) :=
  let '(m, outcome) := Membership.claim_hostname (membership n) claimant requested force in
  let n := with_membership (fun _ => m) n in
  match outcome with
  | Ok _ => match save w n with (n, Ok _) => (n, Ok outcome) | (n, Err e) => (n, Err e) end
  | Err _ => (n, Ok outcome)
  end.

Definition adopt_hostname (w : World) (n : State) (hostname : rstr) : State * result message () :=
  let '(m, outcome) := Membership.claim_hostname (membership n) (own_id n) hostname true in
  let n := with_membership (fun _ => m) n in
  match outcome with Ok _ => save w n | Err e => (n, Err e) end.

Definition hostname (n : State) : option rstr := hostname_of (membership n) (own_id n).

Definition set_joined (w : World) (n : State) (coordinator : rstr) (name : option rstr) (roster : list Member)
    : State * result message () :=
  save_and_refresh w (with_membership (fun m => Membership.set_joined m coordinator (own_id n) name roster) n) tt.

Definition set_roster (w : World) (n : State) (name : option rstr) (roster : list Member) : State * result message () :=
  let '(m, found) := Membership.set_roster (membership n) (own_id n) name roster in
  match save w (with_membership (fun _ => m) n) with
  | (n, Ok _) => (refresh_routes w (with_conflicts found n), Ok tt)
  | (n, Err e) => (n, Err e)
  end.

Definition leave (w : World) (n : State) : State * result message (option rstr) :=
  let name := network_name (membership n) in
  match save w (with_membership Membership.leave n) with
  | (n, Ok _) =>
      let '(p, dropped) := close_all (peers n) in
      let n := with_effects (CloseLink <$> dropped) (with_mesh p (routes n) (kernel n) (dial_tx n) n) in
      (refresh_routes w n, Ok name)
  | (n, Err e) => (n, Err e)
  end.

Definition kick (w : World) (n : State) (query : rstr) : State * result message (result message Member) :=
  match Membership.kick (membership n) query (own_id n) with
  | (m, Err e) => (with_membership (fun _ => m) n, Ok (Err e))
  | (m, Ok x) => save_and_refresh w (with_membership (fun _ => m) n) (Ok x)
  end.

Definition remove_member (w : World) (n : State) (id : rstr) : State * result message bool :=
  match Membership.remove_member (membership n) id with
  | (m, false) => (with_membership (fun _ => m) n, Ok false)
  | (m, true) => save_and_refresh w (with_membership (fun _ => m) n) true
  end.

Definition operator (n : State) : Operator := {| uid := operator_uid (settings n); sid := operator_sid (settings n) |}.

Definition set_operator (w : World) (n : State) (name : rstr) (id : Z) : State * result message () :=
  let s := {| operator_uid := Some id; operator_sid := operator_sid (settings n); operator_name := Some name |} in
  match save_to w with
  | Ok _ => (with_settings s s n, Ok tt)
  | Err e => (with_settings s (saved_settings n) n, Err e)
  end.

Definition find_peer (n : State) (query : rstr) : result message (EndpointId * rstr) :=
  x ← ok_or (Fmt "{} is not a member of this network" [Text (trim query)]) (find_member (membership n) query);
  if str_eqb (m_id x) (own_id n) then Err (Fmt "that is this node" [])
  else
    id ← ok_or (Fmt "{} has an unusable id in the roster" [Text (m_id x)]) (parse_id (m_id x));
    Ok (id, Names.display (m_id x) (m_hostname x)).

Definition set_dns (n : State) (d : DnsRegistration) : State :=
  {| own := own n; membership := membership n; saved := saved n; settings := settings n;
     saved_settings := saved_settings n; peers := peers n; routes := routes n; kernel := kernel n;
     conflicts := conflicts n; dns := d; dial_tx := dial_tx n; files := files n; effects := effects n |}.

Definition is_member (n : State) (id : rstr) : bool := Membership.is_member (membership n) id.
Definition is_coordinator (n : State) : bool := Membership.is_coordinator (membership n) (own_id n).
Definition roster (n : State) : list Member := Membership.roster (membership n).

(** An id that does not parse is hashed as no bytes at all. *)
Definition all_addrs (n : State) : list (rstr * IpAddr * IpAddr) :=
  (fun x => let '(v4, v6) := virtual_addrs (match parse_id (m_id x) with Some id => id_bytes id | None => [] end) in
            (m_id x, v4, v6)) <$> roster n.

(** Collected into a map, later entries replacing earlier ones. *)
Definition hostnames (n : State) : gmap rstr rstr :=
  foldl (fun m x => match m_hostname x with Some h => <[m_id x := h]> m | None => m end) ∅ (roster n).
End Node.
