(* ===== verification/NodeProps.v ===== *)
(** * Properties of the daemon's state

    One roster drives the routing table, the links, the file registry and the
    system's routes.  The invariant [in_step] says they agree with it; the
    theorems say which histories keep it, and what breaks it. *)

From S2P Require Import Prelude External Proto Names Net Tun Membership MembershipProps Peers Routes Files Node.

Local Abbreviation list := Datatypes.list.

Section NodeProps.
Context `{!EndpointIds, !Sha256, !HexCrate, !Bs58} {Link : Type}.
Notation State := (State (Link := Link)).
Implicit Types n : State.

(** ** The roster, as the other components see it *)

Definition others (own : EndpointId) (l : list rstr) : list EndpointId :=
  filter (fun id => id <> own) (omap parse_id l).

Lemma other_ids_eq n : other_ids n = others (own n) (ids (members (membership n))).
Proof.
  unfold other_ids, others, member_ids, ids. f_equal.
  induction (members (membership n)) as [|x l IH]; [done|]. cbn. by rewrite IH.
Qed.

Lemma elem_of_node_roster n i : i ∈ ids (Node.roster n) <-> i ∈ ids (members (membership n)).
Proof. unfold Node.roster, Membership.roster, ids. by rewrite merge_sort_Permutation. Qed.

Lemma elem_of_other_ids n k :
  k ∈ other_ids n <-> k <> own n /\ exists i, i ∈ ids (members (membership n)) /\ parse_id i = Some k.
Proof.
  rewrite other_ids_eq. unfold others. rewrite list_elem_of_filter, list_elem_of_omap. done.
Qed.

Lemma named_ids n : list_to_set (C := gset EndpointId) (named n).*1 = list_to_set (other_ids n).
Proof.
  apply set_eq. intros id. rewrite !elem_of_list_to_set. unfold named, other_ids, member_ids, Membership.roster.
  rewrite list_elem_of_fmap, list_elem_of_filter, list_elem_of_omap. split.
  - intros ([i s] & -> & Hin). apply list_elem_of_filter in Hin as [Hne Hin].
    apply list_elem_of_omap in Hin as (x & Hx & He). rewrite merge_sort_Permutation in Hx.
    destruct (parse_id (m_id x)) as [k|] eqn:Ep; [|done]. injection He as -> _. split; [done|]. by exists x.
  - intros [Hne (x & Hx & Hp)]. exists (id, Names.display (m_id x) (m_hostname x)). split; [done|].
    apply list_elem_of_filter. split; [done|]. apply list_elem_of_omap. exists x. split; [|by rewrite Hp].
    by rewrite merge_sort_Permutation.
Qed.

Lemma collect_roster_dom l : dom (collect_roster l) = list_to_set (C := gset EndpointId) l.*1.
Proof.
  unfold collect_roster.
  assert (Hg : forall m : gmap EndpointId rstr, dom (foldl (fun m '(id, name) => <[id := name]> m) m l) = dom m ∪ list_to_set (C := gset EndpointId) l.*1).
  { induction l as [|[i s] l IH]; intros m; [set_solver|]. cbn [foldl]. rewrite IH, dom_insert_L. set_solver. }
  rewrite Hg, dom_empty_L. set_solver.
Qed.

(** ** The invariant *)

Record in_step n : Prop := {
  step_routes : Peers.routes (peers n) = foldl add_routes ∅ (other_ids n);
  step_links : forall id, is_Some (links (peers n) !! id) -> id ∈ other_ids n;
  step_installed : installed (routes n) = dom (Peers.routes (peers n));
  step_kernel : kernel n = dom (Peers.routes (peers n));
  step_files : dom (Files.roster (files n)) = list_to_set (other_ids n);
  step_offers : Files.inv (files n);
  step_saved : members (saved n) = members (membership n);
}.

(** A world where nothing goes wrong. *)
Definition fair (w : World) : Prop := save_to w = Ok tt /\ forall c, succeeds w c = true.

Lemma sync_in_step r wanted s (k : gset IpAddr) : (forall c, s c = true) -> k = installed r -> snd (sync r wanted s k) = wanted.
Proof.
  intros Hs ->. cbn [sync snd].
  assert (Heq : forall l k, foldl (execute s) k l = foldl (execute (fun _ => true)) k l).
  { induction l as [|c l IH]; intros k; [done|]. cbn [foldl]. rewrite IH. unfold execute. by rewrite Hs. }
  rewrite Heq. apply set_eq. intros a.
  rewrite execute_all; [|apply plan_NoDup|rewrite !elem_of_plan; naive_solver]. rewrite !elem_of_plan.
  destruct (decide (a ∈ wanted)), (decide (a ∈ installed r)); naive_solver.
Qed.

(** Refreshing puts every component in step, whatever they were in before. *)
Lemma refresh_fields w n :
  membership (refresh_routes w n) = membership n /\ saved (refresh_routes w n) = saved n /\ own (refresh_routes w n) = own n.
Proof.
  unfold refresh_routes. by destruct (Files.set_roster _ _), (set_routes _ _), (Routes.sync _ _ _ _).
Qed.

Lemma refresh_in_step w n :
  (forall c, succeeds w c = true) -> kernel n = installed (routes n) -> Files.inv (files n) ->
  members (saved n) = members (membership n) -> in_step (refresh_routes w n).
Proof.
  intros Hw Hk Hf Hs. unfold refresh_routes.
  pose proof (inv_set_roster (files n) (named n) Hf) as Hinv.
  assert (Hdom : dom (Files.roster (fst (Files.set_roster (files n) (named n)))) = list_to_set (C := gset EndpointId) (other_ids n)).
  { cbn [Files.set_roster fst Files.roster with_receiving with_incoming]. by rewrite collect_roster_dom, named_ids. }
  destruct (Files.set_roster (files n) (named n)) as [fs ended]. cbn [fst] in Hinv, Hdom.
  pose proof (set_routes_links (peers n) (other_ids n)) as Hl.
  assert (Hr : Peers.routes (fst (set_routes (peers n) (other_ids n))) = foldl add_routes ∅ (other_ids n)) by done.
  destruct (set_routes (peers n) (other_ids n)) as [p dropped]. cbn [fst] in Hl, Hr.
  pose proof (sync_in_step (routes n) (routed_addrs p) (succeeds w) (kernel n) Hw Hk) as Hsync.
  destruct (Routes.sync (routes n) (routed_addrs p) (succeeds w) (kernel n)) as [r k] eqn:E. cbn [snd] in Hsync.
  unfold Routes.sync in E. injection E as <- _.
  split; try done.
  - intros id [c Hc]. by apply Hl in Hc as [_ ?].
Qed.

(** ** Histories *)

Inductive method :=
  | MCreateNetwork (name : rstr) (hostname : option rstr) (random : list Z)
  | MGenerateInvite (ttl now : Z) (token : list Z)
  | MRedeemInvite (token : list Z) (requester : rstr) (hostname : option rstr) (now : Z)
  | MClaimHostname (claimant requested : rstr) (force : bool)
  | MAdoptHostname (hostname : rstr)
  | MSetJoined (coordinator : rstr) (name : option rstr) (roster : list Member)
  | MSetRoster (name : option rstr) (roster : list Member)
  | MLeave
  | MKick (query : rstr)
  | MRemoveMember (id : rstr)
  | MSetOperator (name : rstr) (id : Z)
  | MSetDns (d : DnsRegistration)
  (* and what other tasks do to the shared parts *)
  | MLinked (conn : Connection)           (* [register], of a current member *)
  | MUnlinked (id : EndpointId)
  | MFile (o : op (Link := Link))         (* a file operation of another kind than [SetRoster] *)
  | MDialed                               (* the dialer takes a request *)
  | MRequestDial (id : EndpointId).       (* and is given one *)

Definition is_set_roster (o : op (Link := Link)) : bool := match o with SetRoster _ => true | _ => false end.

Definition call (w : World) n (m : method) : State :=
  match m with
  | MCreateNetwork name h random => fst (create_network w n name h random)
  | MGenerateInvite ttl now token => fst (generate_invite w n ttl now token)
  | MRedeemInvite token r h now => fst (redeem_invite w n token r h now)
  | MClaimHostname c r f => fst (claim_hostname w n c r f)
  | MAdoptHostname h => fst (adopt_hostname w n h)
  | MSetJoined c name l => fst (set_joined w n c name l)
  | MSetRoster name l => fst (set_roster w n name l)
  | MLeave => fst (leave w n)
  | MKick q => fst (kick w n q)
  | MRemoveMember id => fst (remove_member w n id)
  | MSetOperator name id => fst (set_operator w n name id)
  | MSetDns d => set_dns n d
  | MLinked conn =>
      if bool_decide (remote_id conn ∈ other_ids n)
      then with_mesh (fst (register (peers n) (remote_id conn) conn)) (routes n) (kernel n) (dial_tx n) n else n
  | MUnlinked id => with_mesh (unregister (peers n) id) (routes n) (kernel n) (dial_tx n) n
  | MFile o => if is_set_roster o then n else with_files (Files.apply (files n) o) n
  | MDialed => with_mesh (peers n) (routes n) (kernel n) (tail (dial_tx n)) n
  | MRequestDial id => with_mesh (peers n) (routes n) (kernel n) (Node.request_dial w (dial_tx n) id) n
  end.

Definition calls n (l : list (World * method)) : State := foldl (fun n '(w, m) => call w n m) n l.

(** What a method does to the roster, in terms of the roster's own operations. *)
Definition ops_of n (m : method) : list MembershipProps.op :=
  match m with
  | MCreateNetwork name h random => [OpCreate name h random]
  | MGenerateInvite ttl now token => [OpInvite ttl now token]
  | MRedeemInvite token r h now =>
      OpRedeem token r now ::
        if snd (Membership.redeem_invite (membership n) token r now)
        then option_list ((fun requested => OpClaim r requested false) <$> h) else []
  | MClaimHostname c r f => [OpClaim c r f]
  | MAdoptHostname h => [OpClaim (own_id n) h true]
  | MSetJoined c name l => [OpJoined c name l]
  | MSetRoster name l => [OpRoster name l]
  | MLeave => [OpLeave]
  | MKick q => [OpKick q]
  | MRemoveMember id => [OpRemove id]
  | _ => []
  end.

(** Changing what does not touch the members keeps the node in step. *)
Lemma in_step_membership n f :
  in_step n -> ids (members (f (membership n))) = ids (members (membership n)) ->
  members (saved n) = members (f (membership n)) ->
  in_step (with_membership f n).
Proof.
  intros [S1 S2 S3 S4 S5 S6 S7] Hids Hs.
  assert (Heq : other_ids (with_membership f n) = other_ids n) by by rewrite !other_ids_eq; cbn; rewrite Hids.
  split; rewrite ?Heq; done.
Qed.

Lemma in_step_saved n f :
  in_step n -> ids (members (f (membership n))) = ids (members (membership n)) ->
  in_step (with_saved (f (membership n)) (with_membership f n)).
Proof.
  intros [S1 S2 S3 S4 S5 S6 S7] Hids.
  assert (Heq : other_ids (with_saved (f (membership n)) (with_membership f n)) = other_ids n).
  { rewrite !other_ids_eq. cbn. by rewrite Hids. }
  split; rewrite ?Heq; done.
Qed.

Lemma save_and_refresh_in_step {A} w n f (a : A) :
  fair w -> in_step n -> in_step (fst (save_and_refresh w (with_membership f n) a)).
Proof.
  intros [Hs Hw] [S1 S2 S3 S4 S5 S6 S7]. unfold save_and_refresh, save. rewrite Hs. cbn [fst].
  apply refresh_in_step; [done| |done|done]. cbn. by rewrite S4, S3.
Qed.

Lemma files_roster_apply (r : Registry (Link := Link)) o : is_set_roster o = false -> Files.roster (Files.apply r o) = Files.roster r.
Proof.
  destruct o; intros Ho; try done; cbn [Files.apply].
  - unfold admit_offer. destruct (negb _); [done|]. destruct (_ <=? _)%nat; [done|]. by destruct (new_id _ _).
  - unfold attach_link. by destruct (incoming r !! id).
  - unfold bury_incoming. destruct (incoming r !! id); [|done]. by destruct (_ =? _)%N.
  - unfold take_answerable. change (incoming (forget_history r now)) with (incoming r).
    destruct (incoming r !! id) as [i|]; [|done]. destruct (i_link i); [|done]. by destruct (now <? _).
  - unfold list_outgoing. by destruct (new_id _ _).
  - unfold offer_delivered. by destruct (outgoing r !! id).
  - unfold set_state. by destruct (outgoing r !! id).
Qed.

Lemma filter_same_length (P : Member -> Prop) `{!forall x, Decision (P x)} (l : list Member) :
  length l = length (filter P l) -> filter P l = l.
Proof.
  induction l as [|x l IH]; [done|]. rewrite filter_cons. destruct (decide (P x)); intros Hl.
  - f_equal. apply IH. by injection Hl.
  - pose proof (length_filter P l). cbn in Hl. lia.
Qed.

Lemma call_in_step w n m : fair w -> in_step n -> in_step (call w n m).
Proof.
  intros Hfair Hn. destruct m as [name h random|ttl now token|token r h now|c r f|h|c name l|name l| |q|id|name id|d|conn|id|o| |qid];
    cbn [call].
  - by apply save_and_refresh_in_step.
  - unfold generate_invite, save. destruct (Membership.generate_invite _ _ _ _ _) as [m res] eqn:E.
    rewrite (proj1 Hfair). cbn [fst]. apply (in_step_saved n (fun _ => m)); [done|]. by injection E as <- _.
  - unfold redeem_invite. destruct (Membership.redeem_invite _ _ _ _) as [m [|]] eqn:E.
    + destruct (match h with Some _ => _ | None => _ end) as [m' assigned]. by apply save_and_refresh_in_step.
    + assert (Hm : members m = members (membership n)).
      { unfold Membership.redeem_invite in E. destruct (pending_invites _ !! token); [|by injection E as <-].
        destruct (negb _); [by injection E as <-|done]. }
      cbn [fst]. apply (in_step_membership n (fun _ => m)); rewrite ?Hm; [done..|]. apply Hn.
  - unfold claim_hostname, save. pose proof (ids_claim (membership n) c r f) as Hids.
    destruct (Membership.claim_hostname (membership n) c r f) as [m [a|e]] eqn:E; cbn [fst] in Hids.
    + rewrite (proj1 Hfair). cbn [fst]. by apply (in_step_saved n (fun _ => m)).
    + apply claim_hostname_err in E as [-> _]. cbn [fst]. apply (in_step_membership n (fun _ => membership n)); [done..|]. apply Hn.
  - unfold adopt_hostname, save. pose proof (ids_claim (membership n) (own_id n) h true) as Hids.
    destruct (Membership.claim_hostname (membership n) (own_id n) h true) as [m [a|e]] eqn:E; cbn [fst] in Hids.
    + rewrite (proj1 Hfair). cbn [fst]. by apply (in_step_saved n (fun _ => m)).
    + apply claim_hostname_err in E as [-> _]. cbn [fst]. apply (in_step_membership n (fun _ => membership n)); [done..|]. apply Hn.
  - by apply save_and_refresh_in_step.
  - unfold set_roster. destruct (Membership.set_roster _ _ _ _) as [m found]. unfold save. rewrite (proj1 Hfair). cbn [fst].
    destruct Hfair as [_ Hw], Hn as [S1 S2 S3 S4 S5 S6 S7].
    apply refresh_in_step; [done| |done|done]. cbn. by rewrite S4, S3.
  - unfold leave, save. rewrite (proj1 Hfair). cbn [fst].
    destruct Hfair as [_ Hw], Hn as [S1 S2 S3 S4 S5 S6 S7].
    apply refresh_in_step; [done| |done|done]. cbn. by rewrite S4, S3.
  - unfold kick. destruct (Membership.kick _ _ _) as [m [x|e]] eqn:E.
    + by apply save_and_refresh_in_step.
    + assert (Hm : m = membership n).
      { unfold Membership.kick in E. destruct (find_member _ _); [|by injection E]. by destruct (str_eqb _ _); injection E. }
      subst m. cbn [fst]. apply (in_step_membership n (fun _ => membership n)); [done..|]. apply Hn.
  - unfold remove_member. destruct (Membership.remove_member _ _) as [m [|]] eqn:E; [by apply save_and_refresh_in_step|].
    assert (Hm : members m = members (membership n)).
    { unfold Membership.remove_member in E. injection E as <- Hlen. cbn.
      apply negb_false_iff, Nat.eqb_eq in Hlen. cbn in Hlen.
      by apply filter_same_length. }
    cbn [fst]. apply (in_step_membership n (fun _ => m)); rewrite ?Hm; [done..|]. apply Hn.
  - unfold set_operator. destruct Hn. destruct (save_to w); by split.
  - destruct Hn. by split.
  - case_bool_decide as Hin; [|done]. destruct Hn as [S1 S2 S3 S4 S5 S6 S7].
    unfold register. destruct (links (peers n) !! remote_id conn) eqn:E; cbn [fst]; [by split|].
    split; try done. cbn. intros id Hid. change (other_ids (with_mesh _ _ _ _ n)) with (other_ids n).
    destruct (decide (id = remote_id conn)) as [->|Hne]; [done|]. rewrite lookup_insert_ne in Hid by done. by apply S2.
  - destruct Hn as [S1 S2 S3 S4 S5 S6 S7]. split; try done. cbn. intros i [c Hc].
    apply lookup_delete_Some in Hc as [_ Hc]. apply S2. eauto.
  - destruct (is_set_roster o) eqn:Eo; [done|]. destruct Hn as [S1 S2 S3 S4 S5 S6 S7].
    split; try done; cbn; [by rewrite files_roster_apply|by apply inv_apply].
  - destruct Hn. by split.
  - destruct Hn. by split.
Qed.
Lemma save_fields w n : membership (fst (save w n)) = membership n /\ own (fst (save w n)) = own n.
Proof. unfold save. by destruct (save_to w). Qed.

Lemma save_and_refresh_fields {A} w n (a : A) :
  membership (fst (save_and_refresh w n a)) = membership n /\ own (fst (save_and_refresh w n a)) = own n.
Proof.
  unfold save_and_refresh. pose proof (save_fields w n) as Hs. destruct (save w n) as [n' [[]|e]]; cbn [fst] in *; [|done].
  by rewrite (proj1 (refresh_fields w n')), (proj2 (proj2 (refresh_fields w n'))).
Qed.

#[local] Ltac by_save_and_refresh :=
  match goal with |- context [save_and_refresh ?w ?x ?a] => exact (save_and_refresh_fields w x a) end.

(** Whatever becomes of saving, of the routes and of the links, a method does its
    roster operations and nothing else to the roster. *)
Lemma call_membership w n m :
  membership (call w n m) = foldl (MembershipProps.apply (own n)) (membership n) (ops_of n m) /\ own (call w n m) = own n.
Proof.
  destruct m as [name h random|ttl now token|token r h now|c r f|h|c name l|name l| |q|id|name id|d|conn|id|o| |qid];
    cbn [call ops_of foldl MembershipProps.apply]; try done.
  - unfold create_network. by_save_and_refresh.
  - unfold generate_invite. destruct (Membership.generate_invite _ _ _ _ _) as [m [code at_]].
    pose proof (save_fields w (with_membership (fun _ => m) n)) as Hs. by destruct (save _ _) as [n' [[]|e]].
  - unfold redeem_invite. destruct (Membership.redeem_invite _ _ _ _) as [m []]; cbn [fst snd foldl]; [|done].
    destruct h as [requested|].
    + change (foldl _ m _) with (fst (Membership.claim_hostname m r requested false)).
      destruct (Membership.claim_hostname m r requested false) as [m' [a|e]];
        match goal with |- context [save_and_refresh ?w ?x ?a] => pose proof (save_and_refresh_fields w x a) as Hf end;
        destruct (save_and_refresh _ _ _) as [n' [[[l b]|]|e']]; exact Hf.
    + change (foldl _ m _) with m.
      match goal with |- context [save_and_refresh ?w ?x ?a] => pose proof (save_and_refresh_fields w x a) as Hf end.
      destruct (save_and_refresh _ _ _) as [n' [[[l b]|]|e']]; exact Hf.
  - unfold claim_hostname. destruct (Membership.claim_hostname _ c r f) as [m [a|e]]; [|done].
    pose proof (save_fields w (with_membership (fun _ => m) n)) as Hs. by destruct (save _ _) as [n' [[]|e]].
  - unfold adopt_hostname. destruct (Membership.claim_hostname _ _ h true) as [m [a|e]]; [|done].
    apply (save_fields w (with_membership (fun _ => m) n)).
  - unfold set_joined. by_save_and_refresh.
  - unfold set_roster. destruct (Membership.set_roster _ _ _ _) as [m found].
    pose proof (save_fields w (with_membership (fun _ => m) n)) as Hs. destruct (save _ _) as [n' [[]|e]]; [|done]. cbn [fst] in *.
    destruct (refresh_fields w (with_conflicts found n')) as (Ha & _ & Hb). by rewrite Ha, Hb.
  - unfold leave. pose proof (save_fields w (with_membership Membership.leave n)) as Hs.
    destruct (save _ _) as [n' [[]|e]]; [|done]. cbn [fst] in *. destruct (close_all _) as [p closed]. cbn [fst].
    match goal with |- context [refresh_routes w ?x] => destruct (refresh_fields w x) as (Ha & _ & Hb) end.
    by rewrite Ha, Hb.
  - unfold kick. destruct (Membership.kick _ _ _) as [m [x|e]]; [|done].
    by_save_and_refresh.
  - unfold remove_member. destruct (Membership.remove_member _ _) as [m []]; [|done].
    by_save_and_refresh.
  - unfold set_operator. by destruct (save_to w).
  - by case_bool_decide.
  - by destruct (is_set_roster o).
Qed.

Lemma calls_in_step n l : Forall (fun '(w, _) => fair w) l -> in_step n -> in_step (calls n l).
Proof.
  revert n; induction l as [|[w m] l IH]; intros n Hl Hn; [done|].
  apply Forall_cons in Hl as [Hw Hl]. by apply IH, call_in_step.
Qed.

Lemma new_in_step w endpoint iface roster set n :
  fair w -> new endpoint iface roster set = Ok n -> in_step (refresh_routes w n).
Proof.
  intros [_ Hw] Hnew. unfold new in Hnew. destruct roster; [|done]. injection Hnew as <-.
  apply refresh_in_step; [done|done|apply inv_default|done].
Qed.

(** ** Properties *)

(** from start-up on, through any sequence of whole calls, local commands,
    pushes, joins, links coming and going, file offers and dials, the parts of the daemon
    agree on who is in the network: addresses are routed exactly to the other
    members, the system's routing table holds exactly those addresses, links and
    waiting offers involve members only, the file registry knows exactly them,
    and the roster file lists them. *)
Theorem components_stay_in_step w endpoint iface roster set n0 l :
  fair w -> new endpoint iface roster set = Ok n0 -> Forall (fun '(w, _) => fair w) l ->
  let n := calls (refresh_routes w n0) l in
  (forall a id, route (peers n) a = Some id -> id ∈ other_ids n /\ (a = v4_of id \/ a = v6_of id))
  /\ (forall id, id ∈ other_ids n -> is_Some (route (peers n) (v4_of id)) /\ is_Some (route (peers n) (v6_of id)))
  /\ (forall a, a ∈ kernel n <-> is_Some (route (peers n) a))
  /\ (forall id c, link (peers n) id = Some c -> id ∈ other_ids n)
  /\ (forall id, is_Some (Files.roster (files n) !! id) <-> id ∈ other_ids n)
  /\ (forall offer o, incoming (files n) !! offer = Some o -> i_peer o ∈ other_ids n)
  /\ members (saved n) = members (membership n).
Proof.
  intros Hw Hnew Hl n.
  assert (Hn : in_step n) by (apply calls_in_step; [done|by eapply new_in_step]).
  destruct Hn as [S1 S2 S3 S4 S5 S6 S7]. unfold route, link.
  assert (Hmem : forall id, is_Some (Files.roster (files n) !! id) <-> id ∈ other_ids n).
  { intros id. by rewrite <- elem_of_dom, S5, elem_of_list_to_set. }
  split; [|split; [|split; [|split; [|split; [|split]]]]].
  - intros a id Ha. rewrite S1 in Ha. apply routes_sound in Ha as [?|Ha]; [done|by rewrite lookup_empty in Ha].
  - intros id Hid. rewrite S1. by apply routes_complete.
  - intros a. by rewrite S4, elem_of_dom.
  - intros id c Hc. apply S2. eauto.
  - done.
  - intros offer o Ho. apply Hmem. by apply (inv_member _ S6 offer).
  - done.
Qed.


(** when the roster file cannot be written, a kick is reported as failed and
    yet has happened in memory and nowhere else: the member is refused from then
    on, but its routes, its link and its offers stay, and a restart brings it
    back. *)
Theorem failed_save_splits_the_node w n query m' x e :
  save_to w = Err e -> Membership.kick (membership n) query (own_id n) = (m', Ok x) ->
  let '(n', res) := kick w n query in
  res = Err e /\ is_member n' (m_id x) = false
  /\ peers n' = peers n /\ kernel n' = kernel n /\ files n' = files n /\ saved n' = saved n.
Proof.
  intros He Hk. unfold kick, save_and_refresh, save. rewrite Hk, He. split_and!; try done.
  unfold is_member. apply is_member_false. cbn. unfold Membership.kick in Hk.
  destruct (find_member _ _) as [y|]; [|done]. destruct (str_eqb _ _); [done|]. injection Hk as <- <-.
  unfold Membership.remove_member, ids. cbn. rewrite list_elem_of_fmap.
  intros (z & Hz & Hin). apply list_elem_of_filter in Hin as [Hne _]. congruence.
Qed.
End NodeProps.

(** ** Witnesses *)

Import Concrete.

Module NodeDemo.
Definition world : World := {| save_to := Ok tt; succeeds := fun _ => true; capacity := 8 |}.
Definition full_disk : World := {| save_to := Err (Fmt "no space left on device" []); succeeds := fun _ => true; capacity := 8 |}.
Lemma fair_world : fair world.
Proof. done. Qed.
Definition k1 : EndpointId := K1.
Definition k2 : EndpointId := K2.
Definition started : State (Link := unit) :=
  match new k1 (lit "quix") (Ok Demo.state) (Ok Settings_default) with
  | Ok n => refresh_routes world n
  | Err _ => refresh_routes world
      {| own := k1; membership := Membership_default; saved := Membership_default; settings := Settings_default;
         saved_settings := Settings_default; peers := Peers_default; routes := Routes.new []; kernel := ∅;
         conflicts := []; dns := Unknown; dial_tx := []; files := Registry_default; effects := [] |}
  end.
Definition conn : Connection := {| stable_id := 7; remote_id := k2; max_datagram_size := Some 1400 |}.
Definition linked : State (Link := unit) := call world started (MLinked conn).

Lemma started_in_step : in_step started.
Proof. apply (new_in_step world k1 (lit "quix") (Ok Demo.state) (Ok Settings_default) _ fair_world eq_refl). Qed.
Lemma linked_in_step : in_step linked.
Proof. apply call_in_step; [exact fair_world|exact started_in_step]. Qed.
Lemma is_linked : link (peers linked) k2 = Some conn.
Proof. vm_cast_no_check (@eq_refl (option Connection) (Some conn)). Qed.
Lemma started_membership : membership started = Demo.state.
Proof. unfold started. cbn [new mbind result_bind]. by rewrite (proj1 (refresh_fields _ _)). Qed.
End NodeDemo.

Example components_stay_in_step_witness :
  exists n0, new (Link := unit) NodeDemo.k1 (lit "quix") (Ok Demo.state) (Ok Settings_default) = Ok n0 /\
    let n := calls (refresh_routes NodeDemo.world n0) [(NodeDemo.world, MLinked NodeDemo.conn); (NodeDemo.world, MKick (lit "web-1"))] in
    forall id c, link (peers n) id = Some c -> id ∈ other_ids n.
Proof.
  eexists. split; [reflexivity|]. intros n.
  apply (components_stay_in_step NodeDemo.world NodeDemo.k1 (lit "quix") (Ok Demo.state) (Ok Settings_default) _
    [(NodeDemo.world, MLinked NodeDemo.conn); (NodeDemo.world, MKick (lit "web-1"))] NodeDemo.fair_world eq_refl).
  apply Forall_cons. split; [exact NodeDemo.fair_world|]. apply Forall_singleton. exact NodeDemo.fair_world.
Defined.


Example failed_save_splits_the_node_witness :
  exists m', Membership.kick (membership NodeDemo.linked) (lit "web-1") (own_id NodeDemo.linked) = (m', Ok Demo.member2)
    /\ link (peers (fst (kick NodeDemo.full_disk NodeDemo.linked (lit "web-1")))) NodeDemo.k2 = Some NodeDemo.conn.
Proof.
  destruct (Membership.kick (membership NodeDemo.linked) (lit "web-1") (own_id NodeDemo.linked)) as [m' r] eqn:E.
  assert (Hr : snd (m', r) = Ok Demo.member2).
  { rewrite <- E. vm_cast_no_check (@eq_refl (result message Member) (Ok Demo.member2)). }
  cbn [snd] in Hr. subst r. exists m'. split; [done|].
  pose proof (failed_save_splits_the_node NodeDemo.full_disk NodeDemo.linked (lit "web-1") m' Demo.member2 _ eq_refl E) as Hs.
  rewrite (surjective_pairing (kick _ _ _)) in Hs. destruct Hs as (_ & _ & Hp & _). rewrite Hp.
  exact NodeDemo.is_linked.
Defined.

(** a member renamed at the coordinator keeps its old name in the
    coordinator's offer list until something else refreshes it. *)
Theorem renaming_leaves_the_offer_list_behind :
  exists w (n : State (Link := unit)) id, in_step n /\
    let n' := call w n (MClaimHostname (show_id id) (lit "nas") false) in
    hostname_of (membership n') (show_id id) = Some (lit "nas") /\ Files.display (files n') id = lit "web-1".
Proof.
  exists NodeDemo.world, NodeDemo.started, NodeDemo.k2. split; [exact NodeDemo.started_in_step|]. split; vm_decide.
Qed.
