(* ===== verification/Admin.v ===== *)
(** * The admin protocol ([daemon/src/admin.rs], [daemon/src/connect.rs])

    One request and one response per stream, between a member and its
    coordinator.  The requester is the key the connection's handshake proved.
    What a call over the network comes back with is an argument of the caller's
    side; the pushes a handler spawns are part of its result. *)

From S2P Require Import Prelude External Proto Names Net Tun Membership Peers Routes Files Node.

Local Abbreviation list := Datatypes.list.

Inductive AdminRequest :=
  | Join (token_hex : rstr) (hostname : option rstr)
  | Leave
  | SetHostname (hostname : rstr)
  | Roster (network_name : option rstr) (members : list Member)
  | Kicked.

Inductive AdminResponse :=
  | Joined (network_name : option rstr) (members : list Member) (hostname : option rstr)
  | HostnameSet (hostname : rstr)
  | Ack
  | AError (m : message).

(** [read_to_end(64 * 1024)]. *)
Definition REQUEST_LIMIT : nat := 64 * 1024.

Section Admin.
Context `{!EndpointIds, !Sha256, !HexCrate, !Bs58} {Link : Type}.
Notation State := (State (Link := Link)).

(** ** The coordinator's and members' side *)

Definition decode_token (token_hex : rstr) : result message (list Z) :=
  bytes ← ok_or (Fmt "invalid token: {e}" []) (hex_decode token_hex);
  if (length bytes =? 16)%nat then Ok bytes else Err (Fmt "invalid token length" []).

(** A push on its way: to whom, and the request. *)
Definition push : Type := EndpointId * AdminRequest.

Definition broadcast_roster (n : State) (subject : rstr) (network_name : option rstr) (roster : list Member) : list push :=
  omap (fun target => (fun id => (id, Roster network_name roster)) <$> parse_id target)
    (filter (fun id => id <> own_id n /\ id <> subject) (m_id <$> roster)).

Definition kicked (w : World) (n : State) (requester : rstr) : State * AdminResponse :=
  if negb (bool_decide (coordinator_id (membership n) = Some requester)) then
    (n, AError (Fmt "only the coordinator can remove a member" []))
  else
    match Node.leave w n with
    | (n, Ok _) => (n, Ack)
    | (n, Err e) => (n, AError e)
    end.

Definition join (w : World) (n : State) (token_hex : rstr) (hostname : option rstr) (requester : rstr) (now : Z)
    : State * AdminResponse * list push :=
  if negb (is_coordinator n) then
    (n, AError (Fmt "this node does not admit members to a network" []), [])
  else
    match decode_token token_hex with
    | Err e => (n, AError e, [])
    | Ok token =>
        match Node.redeem_invite w n token requester hostname now with
        | (n, Ok (Some (roster, hostname))) =>
            let name := network_name (membership n) in
            (n, Joined name roster hostname, broadcast_roster n requester name roster)
        | (n, Ok None) => (n, AError (Fmt "invalid, expired, or already used invite" []), [])
        | (n, Err e) => (n, AError e, [])
        end
    end.

Definition set_hostname (w : World) (n : State) (hostname requester : rstr) : State * AdminResponse * list push :=
  if negb (is_coordinator n) then (n, AError (Fmt "only the coordinator assigns hostnames" []), [])
  else if negb (Node.is_member n requester) then (n, AError (Fmt "not a member of this network" []), [])
  else
    match Node.claim_hostname w n requester hostname false with
    | (n, Ok (Ok assigned)) =>
        (n, HostnameSet assigned, broadcast_roster n requester (network_name (membership n)) (Node.roster n))
    | (n, Ok (Err m)) => (n, AError m, [])
    | (n, Err e) => (n, AError e, [])
    end.

Definition leave (w : World) (n : State) (requester : rstr) : State * AdminResponse * list push :=
  if negb (is_coordinator n) then (n, AError (Fmt "only the coordinator maintains the roster" []), [])
  else
    match Node.remove_member w n requester with
    | (n, Ok false) => (n, Ack, [])
    | (n, Ok true) => (n, Ack, broadcast_roster n requester (network_name (membership n)) (Node.roster n))
    | (n, Err e) => (n, AError e, [])
    end.

Definition roster (w : World) (n : State) (network_name : option rstr) (members : list Member) (requester : rstr)
    : State * AdminResponse :=
  if negb (bool_decide (coordinator_id (membership n) = Some requester)) then
    (n, AError (Fmt "only the coordinator can push a roster" []))
  else
    match Node.set_roster w n network_name members with
    | (n, Ok _) => (n, Ack)
    | (n, Err e) => (n, AError e)
    end.

Definition dispatch (w : World) (n : State) (req : AdminRequest) (requester : rstr) (now : Z)
    : State * AdminResponse * list push :=
  match req with
  | Join token_hex hostname => join w n token_hex hostname requester now
  | Leave => leave w n requester
  | SetHostname hostname => set_hostname w n hostname requester
  | Roster name members => (roster w n name members requester, [])
  | Kicked => (kicked w n requester, [])
  end.

(** [AdminHandler::accept], over the bytes the stream carried; [None] when they
    are too many, which ends the connection without an answer. *)
Definition accept (from_slice : list Z -> result message AdminRequest) (w : World) (n : State) (remote : EndpointId)
    (data : list Z) (now : Z) : option (State * AdminResponse * list push) :=
  if (REQUEST_LIMIT <? length data)%nat then None
  else
    Some match from_slice data with
         | Ok req => dispatch w n req (show_id remote) now
         | Err e => (n, AError (Fmt "malformed admin request: {e}" [e]), [])
         end.

(** A link that just came up at the coordinator: the peer is sent the roster. *)
Definition catch_up (n : State) (peer : EndpointId) : list push :=
  if is_coordinator n then [(peer, Roster (network_name (membership n)) (Node.roster n))] else [].

(** ** The caller's side ([connect.rs]) *)

Record Admission := {
  ad_coordinator_id : EndpointId;
  ad_network_name : option rstr;
  ad_members : list Member;
  ad_hostname : option rstr;
}.

Definition JOIN_ATTEMPTS : nat := 3.

(** What a call came to; [debug] is the derived [Debug]. *)
Definition outcome : Type := result message AdminResponse.

(** The retry loop: the first answer ends it, whatever it says; without one the
    last error is what is reported. *)
Fixpoint attempts (call : nat -> outcome) (attempt more : nat) (last_error : option message) : result (option message) AdminResponse :=
  match more with
  | O => Err last_error
  | S more =>
      match call attempt with
      | Ok resp => Ok resp
      | Err e => attempts call (S attempt) more (Some e)
      end
  end.

Variable debug : AdminResponse -> message.

(** [admin_call] is given the attempt, whom it is made to and the request. *)
Definition join_network (code : rstr) (hostname : option rstr) (admin_call : nat -> EndpointId -> AdminRequest -> outcome)
    : result message Admission :=
  '(coordinator, token) ← decode_invite code;
  match attempts (fun i => admin_call i coordinator (Join (hex_encode token) hostname)) 0 JOIN_ATTEMPTS None with
  | Err last =>
      Err (context (Fmt "could not reach the coordinator — is it online?" [])
        match last with Some e => e | None => Fmt "could not reach the coordinator" [] end)
  | Ok (Joined name members hostname) =>
      Ok {| ad_coordinator_id := coordinator; ad_network_name := name; ad_members := members; ad_hostname := hostname |}
  | Ok (AError m) => Err m
  | Ok other => Err (Fmt "unexpected response to join: {other:?}" [debug other])
  end.

Definition acknowledged (what : String.string) (o : outcome) : result message () :=
  resp ← o;
  match resp with
  | Ack => Ok tt
  | AError m => Err m
  | other => Err (Fmt what [debug other])
  end.

Definition notify_leave (o : outcome) : result message () := acknowledged "unexpected response to leave: {other:?}" o.

(** [None]: the notice timed out. *)
Definition notify_kicked (o : option outcome) : result message () :=
  o ← ok_or (context (Fmt "timed out" []) (Fmt "deadline has elapsed" [])) o;
  acknowledged "unexpected response to kick: {other:?}" o.

Definition push_roster (o : outcome) : result message () := acknowledged "unexpected response to roster push: {other:?}" o.

Definition claim_hostname (o : outcome) : result message rstr :=
  resp ← o;
  match resp with
  | HostnameSet hostname => Ok hostname
  | AError m => Err m
  | other => Err (Fmt "unexpected response to hostname claim: {other:?}" [debug other])
  end.

(** ** Probing a peer *)

Record Probe := { pr_v4 : IpAddr; pr_v6 : IpAddr; pr_rtt : option Z }.

(** [waited] is the link [wait_for_link] saw come up in time, if it did, and
    [rtt] what the connection measured; a probe without a link asks the dialer
    for one. *)
Definition probe (w : World) (n : State) (peer : rstr) (waited : option Connection) (rtt : Connection -> option Z)
    : State * result message Probe :=
  match parse_id peer with
  | None => (n, Err (context (Fmt "parse peer id" []) (Fmt "{}" [])))
  | Some id =>
      if negb (Node.is_member n (show_id id)) then (n, Err (Fmt "{id} is not a member of this network" [Text (show_id id)]))
      else
        let '(v4, v6) := virtual_addrs (id_bytes id) in
        let found conn := Ok {| pr_v4 := v4; pr_v6 := v6; pr_rtt := rtt conn |} in
        match link (peers n) id with
        | Some conn => (n, found conn)
        | None =>
            let n := with_mesh (peers n) (routes n) (kernel n) (Node.request_dial w (dial_tx n) id) n in
            (n, match waited with
                | Some conn => found conn
                | None => Err (Fmt "no link to peer — it may be offline" [])
                end)
        end
  end.
End Admin.
