(* ===== verification/AdminProps.v ===== *)
(** * Properties of the admin protocol

    What one peer can make another do, and what a join leaves at both ends when
    its call is answered; the join over the wire is in [Wire]. *)

From S2P Require Import Prelude External Proto Names Net Tun Membership MembershipProps MembershipLookup Peers Routes Files Node NodeProps Admin.

Local Abbreviation list := Datatypes.list.

Section AdminProps.
Context `{!EndpointIds, !Sha256, !HexCrate, !Bs58} {Link : Type}.
Notation State := (State (Link := Link)).
Implicit Types m : Membership.

(** ** A roster carried over *)

Lemma roster_ext m m' :
  NoDup (ids (members m)) -> members m ≡ₚ members m' -> Membership.roster m = Membership.roster m'.
Proof.
  intros Hnd Hp. unfold Membership.roster.
  apply (StronglySorted_unique_strong member_le).
  - intros x y Hx Hy Hxy Hyx. rewrite merge_sort_Permutation in Hx. rewrite merge_sort_Permutation, <- Hp in Hy.
    apply (NoDup_ids_eq (members m)); [done..|]. by apply str_le_antisym.
  - apply StronglySorted_merge_sort; [intros a b c; apply str_le_trans|intros a b; apply str_le_total].
  - apply StronglySorted_merge_sort; [intros a b c; apply str_le_trans|intros a b; apply str_le_total].
  - by rewrite !merge_sort_Permutation.
Qed.

Lemma roster_members m x : x ∈ Membership.roster m <-> x ∈ members m.
Proof. unfold Membership.roster. by rewrite merge_sort_Permutation. Qed.

Lemma push_absent_present m i : i ∈ ids (members m) -> push_absent m (Member_new i) = m.
Proof. intros Hi. unfold push_absent. cbn [m_id Member_new]. by rewrite (proj2 (is_member_spec m i) Hi). Qed.

Lemma omap_nil_iff {A B} (f : A -> option B) l : omap f l = [] <-> forall x, x ∈ l -> f x = None.
Proof.
  split; [|intros Hf; induction l as [|y l IH]; [done|]; cbn; rewrite Hf by constructor; apply IH; intros x Hx; apply Hf; by right].
  intros Hl x Hx. destruct (f x) as [y|] eqn:E; [|done]. exfalso.
  apply (not_elem_of_nil y). rewrite <- Hl. apply list_elem_of_omap. eauto.
Qed.

(** A roster that lists this node and its coordinator, and in which no name is
    refused, becomes the members. *)
Lemma apply_roster_faithful m own l :
  wf m -> members m = [] -> NoDup (ids l) -> own ∈ ids l -> (forall c, coordinator_id m = Some c -> c ∈ ids l) ->
  snd (apply_roster m own l) = [] -> members (fst (apply_roster m own l)) ≡ₚ l.
Proof.
  intros Hwf Hm Hnd Hown Hco Hcs. pose proof (wf_apply_roster m own l Hwf) as Hwf'. revert Hcs Hwf'. unfold apply_roster.
  destruct (foldl_apply_spec m [] l) as (_ & Hids & Hys & Hcs & Hco').
  destruct (foldl apply_member (m, []) l) as [m1 cs]. cbn [fst snd] in *. intros -> Hwf'.
  symmetry in Hcs. cbn in Hcs.
  assert (Hset : forall x, x ∈ l -> settle (fun h => bindings m1 !! h) x = x).
  { intros x Hx. unfold settle. by rewrite (proj1 (omap_nil_iff _ _) Hcs x Hx). }
  assert (Hids1 : forall i, i ∈ ids (members m1) <-> i ∈ ids l) by (intros i; rewrite Hids, Hm; set_solver).
  assert (Heq : foldl (fun m id => push_absent m (Member_new id)) m1 (own :: option_list (coordinator_id m1)) = m1).
  { cbn [foldl]. rewrite push_absent_present by by apply Hids1. destruct (coordinator_id m1) as [c|] eqn:Ec; [|done]. cbn.
    apply push_absent_present, Hids1, Hco. congruence. }
  rewrite Heq in *. apply NoDup_Permutation; [eapply NoDup_fmap_1, Hwf'|by eapply NoDup_fmap_1|].
  intros y. split.
  - intros Hy. destruct (Hys y Hy) as [Hn|(x & Hx & ->)]; [rewrite Hm in Hn; by apply elem_of_nil in Hn|]. by rewrite Hset.
  - intros Hy. assert (Hi : m_id y ∈ ids (members m1)) by (apply Hids1; by apply elem_of_ids).
    apply list_elem_of_fmap in Hi as (z & Hz & Hzm). destruct (Hys z Hzm) as [Hn|(x & Hx & ->)]; [rewrite Hm in Hn; by apply elem_of_nil in Hn|].
    rewrite Hset in * by done. by rewrite (NoDup_ids_eq l y x).
Qed.

(** A node that joins with a consistent roster, which lists it and the
    coordinator, ends up with that very roster. *)
Lemma set_joined_roster m c coordinator own name :
  wf c -> own ∈ ids (members c) -> coordinator ∈ ids (members c) ->
  let m' := Membership.set_joined m coordinator own name (Membership.roster c) in
  Membership.roster m' = Membership.roster c /\ network_name m' = name /\ coordinator_id m' = Some coordinator.
Proof.
  intros Hc Hown Hco m'.
  assert (Hin : forall i, i ∈ ids (Membership.roster c) <-> i ∈ ids (members c))
    by (intros i; unfold ids, Membership.roster; by rewrite merge_sort_Permutation).
  assert (Hnd : NoDup (ids (Membership.roster c))) by (unfold ids, Membership.roster; rewrite merge_sort_Permutation; apply Hc).
  pose proof (wf_set_joined m coordinator own name (Membership.roster c)) as Hwf'. fold m' in Hwf'.
  set (m0 := {| network_name := name; coordinator_id := Some coordinator; network_id := None; members := [];
    pending_invites := ∅; bindings := ∅ |}).
  assert (Hwf0 : wf m0) by (split; [apply NoDup_nil_2|intros x h Hx; by apply elem_of_nil in Hx|done]).
  assert (Hcs : snd (apply_roster m0 own (Membership.roster c)) = []).
  { unfold apply_roster. destruct (foldl_apply_spec m0 [] (Membership.roster c)) as (Hb & _ & _ & Hcs & _).
    destruct (foldl apply_member (m0, []) _) as [m1 cs]. cbn [fst snd] in *. rewrite Hcs. cbn [app].
    apply omap_nil_iff. intros x Hx. unfold refusal. destruct (m_hostname x) as [h|] eqn:Eh; [|done]. cbn [mbind option_bind].
    rewrite Hb. unfold pinned. cbn [bindings m0]. rewrite lookup_empty.
    destruct (List.find (has_hostname h) (Membership.roster c)) as [y|] eqn:Ef; [|done].
    apply List.find_some in Ef as [Hy Ey]. apply list_elem_of_In in Hy. apply has_hostname_spec in Ey. cbn.
    rewrite (wf_hostname_unique c y x h Hc); [by rewrite str_eqb_refl|by apply roster_members..|done|done]. }
  assert (Hp : members m' ≡ₚ Membership.roster c).
  { apply (apply_roster_faithful m0); [done|done|done|by apply Hin| |done]. intros ? [= <-]. by apply Hin. }
  destruct (foldl_apply_fields m0 [] (Membership.roster c)) as [Hn Hc'].
  split.
  - symmetry. apply roster_ext; [apply Hc|]. rewrite Hp. unfold Membership.roster. by rewrite merge_sort_Permutation.
  - unfold m', Membership.set_joined, apply_roster. fold m0. destruct (foldl apply_member (m0, []) _) as [m1 cs]. cbn [fst] in *.
    destruct (foldl_push_fields m1 (own :: option_list (coordinator_id m1))) as (_ & _ & _ & -> & ->). by rewrite Hn, Hc'.
Qed.
(** ** What a requester can change *)

(** [m'] is [m] but for what is the key [r]'s own; for the names, given [named]. *)
Record only_about (named : Prop) (r : rstr) m m' : Prop := {
  oa_members : forall x, m_id x <> r -> x ∈ members m <-> x ∈ members m';
  oa_bindings : named -> forall h o, o <> r -> bindings m !! h = Some o <-> bindings m' !! h = Some o;
  oa_network : network_name m' = network_name m /\ coordinator_id m' = coordinator_id m /\ network_id m' = network_id m;
}.

#[local] Instance only_about_refl named r : Reflexive (only_about named r).
Proof. intros m. by split. Qed.
#[local] Instance only_about_trans named r : Transitive (only_about named r).
Proof.
  intros m1 m2 m3 [A1 A2 (A3 & A4 & A5)] [B1 B2 (B3 & B4 & B5)]. split.
  - intros x Hx. by rewrite A1, B1.
  - intros Hf h o Ho. by rewrite A2, B2.
  - split_and!; congruence.
Qed.

Lemma only_about_mono (named named' : Prop) r m m' :
  (named' -> named) -> only_about named r m m' -> only_about named' r m m'.
Proof. intros Hn [A1 A2 A3]. split; auto. Qed.

Lemma only_about_claim r m requested :
  wf m -> only_about (free_name m r requested false) r m (fst (Membership.claim_hostname m r requested false)).
Proof.
  intros Hm. destruct (Membership.claim_hostname m r requested false) as [m' [a|e]] eqn:E; cbn [fst].
  2:{ apply claim_hostname_err in E as [-> _]. done. }
  pose proof E as (w & _ & -> & _)%claim_hostname_cases. split; [| |done].
  - intros x Hx. unfold Membership.bind. cbn [members with_members with_bindings claim_base].
    rewrite update_first_by_id; [|done|apply Hm]. split; [auto|]. intros [[_ ?]|[? _]]; done.
  - intros Hfree. apply claim_hostname_ok in E as (w' & _ & _ & Hs & _); [|done].
    apply spoken_for_false in Hs as [Hb _]. cbn [claim_base] in Hb.
    intros h o Ho. unfold Membership.bind. cbn [bindings with_members with_bindings claim_base].
    destruct (decide (a = h)) as [->|]; [|by rewrite lookup_insert_ne]. rewrite lookup_insert_eq. naive_solver.
Qed.

Lemma only_about_redeem named r m token now :
  only_about named r m (fst (Membership.redeem_invite m token r now)).
Proof.
  destruct (redeem_cases m token r now) as [[_ ->]|(i & _ & [[_ ->]|[_ ->]])]; cbn [fst]; [done|by split|].
  destruct (push_absent_fields (prune_expired (with_invites (delete token) m) now) (Member_new r)) as (Hb & _ & Ha1 & Ha2 & Ha3).
  split.
  - intros x Hx. rewrite push_absent_members. destruct (Membership.is_member _ _); [done|].
    cbn [members prune_expired with_invites]. rewrite elem_of_app, list_elem_of_singleton. split; [auto|].
    intros [?| ->]; done.
  - intros _ h o Ho. by rewrite Hb.
  - done.
Qed.

Lemma only_about_remove named r m : only_about named r m (fst (Membership.remove_member m r)).
Proof.
  split; [|done|done]. intros x Hx. cbn. rewrite list_elem_of_filter. tauto.
Qed.

(** The name a request asks for is not crowded out. *)
Definition finds_name m (r : rstr) (h : option rstr) : Prop := forall requested, h = Some requested -> free_name m r requested false.

Lemma room_finds_name m r h : room m -> finds_name m r h.
Proof. intros Hr requested _. by apply room_free_name. Qed.

(** Letting somebody in does not stand in the way of their own name. *)
Lemma spoken_for_redeem m token r now n :
  spoken_for (fst (Membership.redeem_invite m token r now)) n r = spoken_for m n r.
Proof.
  destruct (redeem_cases m token r now) as [[_ ->]|(i & _ & [[_ ->]|[_ ->]])]; cbn [fst]; [done|done|].
  unfold spoken_for. rewrite (proj1 (push_absent_fields _ _)), push_absent_members. f_equal.
  destruct (Membership.is_member _ _); [done|]. cbn [members prune_expired with_invites m_id Member_new].
  rewrite existsb_app. cbn. by rewrite str_eqb_refl, orb_false_r.
Qed.

Lemma finds_name_redeem m token r now h :
  finds_name m r h -> finds_name (fst (Membership.redeem_invite m token r now)) r h.
Proof.
  intros Hf requested Hr wanted Hv. cbn [claim_base]. destruct (Hf requested Hr wanted Hv) as [Hw|(i & Hi & Hw)].
  - left. by rewrite spoken_for_redeem.
  - right. exists i. by rewrite spoken_for_redeem.
Qed.

(** ** Properties *)

Definition asked_name (req : AdminRequest) : option rstr :=
  match req with Join _ h => h | SetHostname h => Some h | _ => None end.

(** C14: over the admin protocol a peer can only speak for itself.  To a node that
    is not a network's coordinator, a peer that is not its coordinator can do
    nothing at all; to a coordinator, it can change only its own membership and
    its own name: every other member, the name each is shown under and the
    network itself stay as they are, whatever it sends, and so does every
    binding to another key, as long as the name it asks for or one of its 9,999
    numbered forms is free. *)
Theorem a_peer_speaks_only_for_itself w (n : State) req requester now :
  wf (membership n) -> coordinator_id (membership n) <> Some requester ->
  let '(n', resp, pushes) := dispatch w n req requester now in
  (is_coordinator n = false -> n' = n /\ pushes = [] /\ exists e, resp = AError e)
  /\ only_about (finds_name (membership n) requester (asked_name req)) requester (membership n) (membership n').
Proof.
  intros Hm Hco. set (named := finds_name _ _ _).
  destruct req as [token h| |h|name l|]; cbn [dispatch].
  - unfold join. destruct (is_coordinator n); cbn [negb]; [|split; [eauto|done]].
    destruct (decode_token token) as [t|]; [|split; done].
    unfold Node.redeem_invite. pose proof (only_about_redeem named requester (membership n) t now) as Ha1.
    pose proof (wf_redeem_invite (membership n) t requester now Hm) as Ha2.
    pose proof (finds_name_redeem (membership n) t requester now h) as Ha3.
    destruct (Membership.redeem_invite _ t requester now) as [m [|]]; cbn [fst] in *; [|split; done].
    assert (Ha4 : forall m' a, match h with
        | Some requested => match Membership.claim_hostname m requester requested false with
            | (m, Ok name) => (m, Some name) | (m, Err _) => (m, None) end
        | None => (m, None) end = (m', a) -> only_about named requester m m').
    { intros m' a. destruct h as [req|]; [|intros [= <- _]; done].
      assert (Hc := only_about_mono _ named _ _ _ (fun Hf : named => Ha3 Hf req eq_refl) (only_about_claim requester m req Ha2)).
      destruct (Membership.claim_hostname m requester req false) as [m'' [?|?]]; intros [= <- _]; exact Hc. }
    destruct (match h with Some _ => _ | None => _ end) as [m' a]. specialize (Ha4 m' a eq_refl).
    pose proof (save_and_refresh_fields w (with_membership (fun _ => m') n) (Some (Membership.roster m', a))) as [Hf _].
    destruct (save_and_refresh _ _ _) as [n' [[[l b]|]|e]]; cbn [fst] in Hf; (split; [done|]); rewrite Hf; by etransitivity.
  - unfold leave. destruct (is_coordinator n); cbn [negb]; [|split; [eauto|done]].
    unfold Node.remove_member. pose proof (only_about_remove named requester (membership n)) as Ha1.
    destruct (Membership.remove_member _ requester) as [m [|]]; cbn [fst] in *; [|split; done].
    pose proof (save_and_refresh_fields w (with_membership (fun _ => m) n) true) as [Hf _].
    destruct (save_and_refresh _ _ _) as [n' [[]|e]]; cbn [fst] in Hf; (split; [done|]); by rewrite Hf.
  - unfold set_hostname. destruct (is_coordinator n); cbn [negb]; [|split; [eauto|done]].
    destruct (Node.is_member n requester); cbn [negb]; [|split; [done|done]].
    unfold Node.claim_hostname. assert (Ha1 := only_about_mono _ named _ _ _ (fun Hf : named => Hf h eq_refl) (only_about_claim requester (membership n) h Hm)).
    destruct (Membership.claim_hostname _ requester h false) as [m [a|e]]; cbn [fst] in *; [|split; done].
    pose proof (save_fields w (with_membership (fun _ => m) n)) as [Hf _].
    destruct (save _ _) as [n' [[]|e]]; cbn [fst] in Hf; (split; [done|]); by rewrite Hf.
  - unfold roster. rewrite bool_decide_eq_false_2 by done. cbn [negb]. split; [eauto|done].
  - unfold kicked. rewrite bool_decide_eq_false_2 by done. cbn [negb]. split; [eauto|done].
Qed.
Lemma decode_token_encode token : bytes_ok token -> length token = 16%nat -> decode_token (hex_encode token) = Ok token.
Proof.
  intros Hok Hlen. unfold decode_token. rewrite hex_decode_encode by done. cbn [ok_or mbind result_bind].
  by rewrite Hlen.
Qed.

(** A live token, presented by a stranger. *)
Lemma redeem_live m token r now i :
  pending_invites m !! token = Some i -> is_live i (network_id m) now = true -> r ∉ ids (members m) ->
  let m' := fst (Membership.redeem_invite m token r now) in
  snd (Membership.redeem_invite m token r now) = true
  /\ ids (members m') = ids (members m) ++ [r]
  /\ network_name m' = network_name m /\ coordinator_id m' = coordinator_id m.
Proof.
  intros Hi Hl Hr. destruct (redeem_cases m token r now) as [[Hn _]|(j & Hj & [[Hd _]|[_ ->]])]; [congruence..|].
  cbn [fst snd].
  destruct (push_absent_fields (prune_expired (with_invites (delete token) m) now) (Member_new r)) as (_ & _ & _ & Hc & Hn).
  rewrite push_absent_members, (proj2 (is_member_false _ _)) by done.
  split_and!; [done|by unfold ids; rewrite fmap_app|done|done].
Qed.

Definition name_claim m (r : rstr) (h : option rstr) : Membership * option rstr :=
  match h with
  | Some requested =>
      match Membership.claim_hostname m r requested false with
      | (m, Ok name) => (m, Some name)
      | (m, Err _) => (m, None)
      end
  | None => (m, None)
  end.

Lemma name_claim_facts m r h : wf m -> finds_name m r h ->
  let m' := fst (name_claim m r h) in
  wf m' /\ ids (members m') = ids (members m) /\ network_name m' = network_name m /\ coordinator_id m' = coordinator_id m.
Proof.
  intros Hm Hf m'. subst m'. unfold name_claim. destruct h as [req|]; [|done].
  pose proof (wf_claim_hostname m r req false Hm (Hf req eq_refl)) as Hw. pose proof (ids_claim m r req false) as Hi.
  pose proof (oa_network _ _ _ _ (only_about_claim r m req Hm)) as (Hn & Hc & _).
  by destruct (Membership.claim_hostname m r req false) as [m' [a|e]].
Qed.

(** The coordinator's answer to a stranger with a live token. *)
Lemma join_live w (n : State) token h (r : EndpointId) now i :
  save_to w = Ok tt -> is_coordinator n = true -> bytes_ok token -> length token = 16%nat ->
  pending_invites (membership n) !! token = Some i -> is_live i (network_id (membership n)) now = true ->
  show_id r ∉ ids (members (membership n)) -> wf (membership n) -> finds_name (membership n) (show_id r) h ->
  exists n' a, dispatch w n (Join (hex_encode token) h) (show_id r) now
      = (n', Joined (network_name (membership n)) (Node.roster n') a,
         broadcast_roster n' (show_id r) (network_name (membership n)) (Node.roster n'))
    /\ own n' = own n /\ wf (membership n') /\ ids (members (membership n')) = ids (members (membership n)) ++ [show_id r]
    /\ network_name (membership n') = network_name (membership n)
    /\ coordinator_id (membership n') = coordinator_id (membership n).
Proof.
  intros Hs Hco Hok Hlen Hi Hl Hr Hm Hroom. cbn [dispatch]. unfold join. rewrite Hco, decode_token_encode by done. cbn [negb].
  unfold Node.redeem_invite.
  destruct (redeem_live (membership n) token (show_id r) now i Hi Hl Hr) as (Ha1 & Ha2 & Ha3 & Ha4).
  pose proof (wf_redeem_invite (membership n) token (show_id r) now Hm) as Hw.
  pose proof (finds_name_redeem (membership n) token (show_id r) now h Hroom) as Hrm.
  destruct (Membership.redeem_invite _ token (show_id r) now) as [m b]. cbn [fst snd] in *. subst b.
  fold (name_claim m (show_id r) h).
  destruct (name_claim_facts m (show_id r) h Hw Hrm) as (Hb1 & Hb2 & Hb3 & Hb4).
  destruct (name_claim m (show_id r) h) as [m' a]. cbn [fst] in *.
  unfold save_and_refresh, save. rewrite Hs.
  set (n1 := with_saved _ _).
  destruct (refresh_fields w n1) as (Hf1 & _ & Hf2). change (membership n1) with m' in Hf1.
  exists (refresh_routes w n1), a. rewrite Hf1, Hf2.
  assert (Hroster : Node.roster (refresh_routes w n1) = Membership.roster m') by (unfold Node.roster; by rewrite Hf1).
  rewrite Hroster, Hb3, Ha3. split_and!; try done; congruence.
Qed.

Lemma redeem_spent w (n : State) token h r now :
  bytes_ok token -> length token = 16%nat ->
  pending_invites (membership (fst (fst (dispatch w n (Join (hex_encode token) h) r now)))) !! token = None
  \/ is_coordinator n = false.
Proof.
  intros Hok Hlen. cbn [dispatch]. unfold join. destruct (is_coordinator n); [left|by right]. cbn [negb].
  rewrite decode_token_encode by done. unfold Node.redeem_invite.
  pose proof (redeem_spends (membership n) token r now) as Hsp.
  destruct (Membership.redeem_invite _ token r now) as [m [|]]; cbn [fst] in Hsp; [|exact Hsp].
  fold (name_claim m r h).
  assert (Hc : pending_invites (fst (name_claim m r h)) = pending_invites m).
  { unfold name_claim. destruct h as [req|]; [|done]. unfold Membership.claim_hostname.
    by destruct (Names.validate req r). }
  destruct (name_claim m r h) as [m' a]. cbn [fst] in Hc.
  pose proof (save_and_refresh_fields w (with_membership (fun _ => m') n) (Some (Membership.roster m', a))) as [Hf _].
  destruct (save_and_refresh _ _ _) as [n' [[[l b]|]|e]]; cbn [fst] in *; rewrite Hf; cbn; by rewrite Hc.
Qed.

(** an admission whose answer is lost on the way is not recovered by the
    retries a join makes: the coordinator lists the joiner from then on, but
    every further attempt with the code is refused, so the join reports a bad
    invite. *)
Theorem lost_answer_strands_the_joiner debug w (n : State) token h (j : EndpointId) now i code lost later :
  save_to w = Ok tt -> is_coordinator n = true -> bytes_ok token -> length token = 16%nat ->
  pending_invites (membership n) !! token = Some i -> is_live i (network_id (membership n)) now = true ->
  show_id j ∉ ids (members (membership n)) -> wf (membership n) -> finds_name (membership n) (show_id j) h ->
  decode_invite code = Ok (own n, token) ->
  let n2 := fst (fst (dispatch w n (Join (hex_encode token) h) (show_id j) now)) in
  Node.is_member n2 (show_id j) = true
  /\ join_network debug code h (fun attempt to req =>
       if (attempt =? 0)%nat then Err lost else Ok (snd (fst (dispatch w n2 req (show_id j) later))))
     = Err (Fmt "invalid, expired, or already used invite" []).
Proof.
  intros Hs Hco Hok Hlen Hi Hl Hr Hm Hroom Hdec n2.
  destruct (redeem_spent w n token h (show_id j) now Hok Hlen) as [Hsp|Hno]; [|congruence]. fold n2 in Hsp.
  destruct (join_live w n token h j now i Hs Hco Hok Hlen Hi Hl Hr Hm Hroom) as (n' & a & Hd & Ho & Hw & Hids & _ & Hc).
  assert (n2 = n') as -> by (unfold n2; by rewrite Hd). split.
  { apply is_member_spec. rewrite Hids. apply elem_of_app. right. by apply list_elem_of_singleton. }
  unfold join_network. rewrite Hdec. cbn [mbind result_bind attempts JOIN_ATTEMPTS Nat.eqb].
  assert (Hco' : is_coordinator n' = true).
  { unfold is_coordinator, Membership.is_coordinator, own_id in *. by rewrite Hc, Ho. }
  cbn [dispatch]. unfold join. rewrite Hco', decode_token_encode by done. cbn [negb].
  unfold Node.redeem_invite. by rewrite redeem_absent.
Qed.

(** What a joiner makes of the coordinator's answer, and whom the coordinator
    then tells. *)
Lemma join_agrees wj (n n2 j : State) : save_to wj = Ok tt ->
  own n2 = own n -> wf (membership n2) -> ids (members (membership n2)) = ids (members (membership n)) ++ [own_id j] ->
  own_id n ∈ ids (members (membership n)) -> own_id j ∉ ids (members (membership n)) ->
  let '(j', res) := set_joined wj j (own_id n) (network_name (membership n)) (Node.roster n2) in
  res = Ok tt /\ Node.roster j' = Node.roster n2
  /\ Node.is_member j' (own_id n) = true /\ Node.is_member n2 (own_id j) = true
  /\ network_name (membership j') = network_name (membership n)
  /\ coordinator_id (membership j') = Some (own_id n)
  /\ forall k req, (k, req) ∈ broadcast_roster n2 (own_id j) (network_name (membership n)) (Node.roster n2)
       <-> req = Roster (network_name (membership n)) (Node.roster n2)
       /\ exists i, i ∈ ids (members (membership n)) /\ i <> own_id n /\ parse_id i = Some k.
Proof.
  intros Hsj Ho Hw2 Hids Hown Hj. change (Node.roster n2) with (Membership.roster (membership n2)).
  unfold set_joined, save_and_refresh, save. rewrite Hsj.
  set (j1 := with_saved _ _). destruct (refresh_fields wj j1) as (Hf1 & _ & Hf2).
  assert (Hmj : membership (refresh_routes wj j1)
    = Membership.set_joined (membership j) (show_id (own n)) (own_id j) (network_name (membership n)) (Membership.roster (membership n2))).
  { by rewrite Hf1. }
  destruct (set_joined_roster (membership j) (membership n2) (show_id (own n)) (own_id j) (network_name (membership n)))
    as (Hr & Hnn & Hcc); [done|rewrite Hids; apply elem_of_app; right; by apply list_elem_of_singleton
      |rewrite Hids; apply elem_of_app; by left|].
  rewrite <- Hmj in Hr, Hnn, Hcc. split; [done|]. split; [exact Hr|]. split.
  { apply is_member_spec. unfold ids. apply list_elem_of_fmap.
    assert (Hin : own_id n ∈ ids (members (membership n2))) by (rewrite Hids; apply elem_of_app; by left).
    apply list_elem_of_fmap in Hin as (x & Hx & Hin). exists x. split; [done|].
    apply roster_members in Hin. rewrite <- Hr in Hin. by apply roster_members. }
  split. { apply is_member_spec. rewrite Hids. apply elem_of_app. right. by apply list_elem_of_singleton. }
  split; [done|]. split; [done|]. intros k req. unfold broadcast_roster. rewrite list_elem_of_omap. split.
  - intros (i & Hi' & Hp). apply list_elem_of_filter in Hi' as [[Hn1 Hn3] Hin].
    destruct (parse_id i) as [k'|] eqn:Ep; [|done]. injection Hp as -> <-. split; [done|].
    exists i. split; [|split; [by unfold own_id in *; rewrite Ho in Hn1|done]].
    apply list_elem_of_fmap in Hin as (x & -> & Hin). apply roster_members, elem_of_ids in Hin. rewrite Hids in Hin.
    apply elem_of_app in Hin as [?|Hin]; [done|]. by apply list_elem_of_singleton in Hin.
  - intros [-> (i & Hin & Hne & Hp)]. exists i. split; [|by rewrite Hp]. apply list_elem_of_filter.
    unfold own_id. rewrite Ho. split; [split; [done|intros ->; by destruct Hj]|].
    assert (Hin2 : i ∈ ids (members (membership n2))) by (rewrite Hids; apply elem_of_app; by left).
    apply list_elem_of_fmap in Hin2 as (x & -> & Hin2). apply list_elem_of_fmap. exists x. split; [done|].
    by apply roster_members.
Qed.
End AdminProps.

(** ** Witnesses *)

Import Concrete.

Module AdminDemo.
Definition debug : AdminResponse -> message := fun _ => Fmt "_" [].
Definition k3 : EndpointId := K3.
Definition token : list Z := [16; 15; 14; 13; 12; 11; 10; 9; 8; 7; 6; 5; 4; 3; 2; 1].
Lemma token_ok : bytes_ok token.
Proof. by apply bytes_ok_check. Qed.

(** A fresh machine, about to join. *)
Definition joiner : State (Link := unit) :=
  {| own := k3; membership := Membership_default; saved := Membership_default; settings := Settings_default;
     saved_settings := Settings_default; peers := Peers_default; routes := Routes.new (lit "quix"); kernel := ∅;
     conflicts := []; dns := Unknown; dial_tx := []; files := Registry_default; effects := [] |}.

Lemma wf_started : wf (membership NodeDemo.started).
Proof. rewrite NodeDemo.started_membership. exact Demo.wf_state. Qed.
Lemma small_started :
  (size (bindings (membership NodeDemo.started)) + length (members (membership NodeDemo.started)) <? 100)%nat = true.
Proof. rewrite NodeDemo.started_membership. by vm_compute. Qed.
Lemma room_started : room (membership NodeDemo.started).
Proof. apply room_small, small_started. Qed.
Lemma started_own_id : own_id NodeDemo.started = Demo.id1.
Proof. unfold own_id, NodeDemo.started. cbn [new mbind result_bind]. by rewrite (proj2 (proj2 (refresh_fields _ _))). Qed.
Lemma started_coordinates : is_coordinator NodeDemo.started = true.
Proof. unfold is_coordinator. rewrite NodeDemo.started_membership, started_own_id. by vm_compute. Qed.
Lemma started_network : is_Some (network_id (membership NodeDemo.started)).
Proof. rewrite NodeDemo.started_membership. exists (hex_encode Demo.random). by vm_compute. Qed.
Lemma started_own : own_id NodeDemo.started ∈ ids (members (membership NodeDemo.started)).
Proof. rewrite NodeDemo.started_membership, started_own_id. apply is_member_spec. by vm_compute. Qed.
Lemma joiner_stranger : own_id joiner ∉ ids (members (membership NodeDemo.started)).
Proof. rewrite NodeDemo.started_membership. apply is_member_false. by vm_compute. Qed.
End AdminDemo.

Example a_peer_speaks_only_for_itself_witness :
  let n' := fst (fst (dispatch NodeDemo.world NodeDemo.started (SetHostname (lit "web")) (own_id AdminDemo.joiner) 0)) in
  network_name (membership n') = network_name (membership NodeDemo.started).
Proof.
  pose proof (a_peer_speaks_only_for_itself NodeDemo.world NodeDemo.started (SetHostname (lit "web")) (own_id AdminDemo.joiner) 0
    AdminDemo.wf_started) as Hp.
  destruct (dispatch _ _ _ _ _) as [[n' resp] pushes]. cbn [fst]. destruct Hp as [_ Hp]; [|apply Hp].
  intros Heq. assert (Hn : bool_decide (coordinator_id (membership NodeDemo.started) = Some (own_id AdminDemo.joiner)) = false) by by vm_compute.
  by apply bool_decide_eq_false in Hn.
Defined.
