(* ===== verification/Wire.v ===== *)
(** * The admin protocol on the wire ([admin_call], [wait_for_link] of [daemon/src/connect.rs], [accept] of [daemon/src/admin.rs])

    One call over one stream, from both ends; that it is what the other node's
    dispatcher says, as long as both directions fit; joining with a code over such a
    call; and what becomes of a network whose roster does not fit. *)

From S2P Require Import Prelude External Proto Names Net Tun Membership MembershipProps MembershipLookup Peers Routes Files Node NodeProps Admin AdminProps.

Local Abbreviation list := Datatypes.list.

(** The lengths of the ids in a roster. *)
Definition ids_length (l : list Member) : nat := sum_list (length <$> ids l).

(** [serde_json] for the two messages: what is written is read back, and every id
    of a roster is in its text. *)
Class AdminJson := {
  request_to_vec : AdminRequest -> result message (list Z);
  request_from_slice : list Z -> result message AdminRequest;
  response_to_vec : AdminResponse -> result message (list Z);
  response_from_slice : list Z -> result message AdminResponse;
  request_roundtrip req data : request_to_vec req = Ok data -> request_from_slice data = Ok req;
  response_roundtrip resp data : response_to_vec resp = Ok data -> response_from_slice data = Ok resp;
  roster_text name l data : request_to_vec (Roster name l) = Ok data -> (ids_length l <= length data)%nat;
  joined_text name l h data : response_to_vec (Joined name l h) = Ok data -> (ids_length l <= length data)%nat;
}.

(** What a connection comes to: making it, its stream, sending, and what comes back
    for what was sent until the stream ends. *)
Record Conn := {
  connects : result message ();
  opens : result message ();
  writes : list Z -> result message ();
  finishes : result message ();
  answers : list Z -> result message (list Z);
}.

(** [read_to_end(64 * 1024)] *)
Definition read_to_end (stream : result message (list Z)) : result message (list Z) :=
  data ← stream;
  if (REQUEST_LIMIT <? length data)%nat then Err (Fmt "stream too long" []) else Ok data.

Section Wire.
Context `{!AdminJson, !EndpointIds, !Sha256, !HexCrate, !Bs58} {Link : Type}.
Notation State := (State (Link := Link)).

Definition admin_call (c : Conn) (req : AdminRequest) : outcome :=
  _ ← map_err (context (Fmt "connect" [])) (connects c);
  _ ← map_err (context (Fmt "open stream" [])) (opens c);
  data ← request_to_vec req;
  _ ← map_err (context (Fmt "write" [])) (writes c data);
  _ ← map_err (context (Fmt "finish" [])) (finishes c);
  data ← map_err (context (Fmt "read response" [])) (read_to_end (answers c data));
  map_err (context (Fmt "parse admin response" [])) (response_from_slice data).

(** The other end, given the bytes of one stream: the node afterwards, what it wrote
    back, if anything, and the pushes it spawned. *)
Definition serves (w : World) (n : State) (remote : EndpointId) (data : list Z) (now : Z)
    : State * option (list Z) * list push :=
  match accept request_from_slice w n remote data now with
  | Some (n, resp, pushes) => (n, match response_to_vec resp with Ok payload => Some payload | Err _ => None end, pushes)
  | None => (n, None, [])
  end.

(** A connection that works to a node as it is; [lost] is what reading gives when
    the other end drops the connection without an answer. *)
Definition to_node (w : World) (n : State) (remote : EndpointId) (now : Z) (lost : message) : Conn :=
  {| connects := Ok tt; opens := Ok tt; writes := fun _ => Ok tt; finishes := Ok tt;
     answers := fun data => ok_or lost (snd (fst (serves w n remote data now))) |}.

(** The node after the first [i] attempts at a call, and the calls as they find it. *)
Fixpoint after_calls (w : World) (n : State) (remote : EndpointId) (req : AdminRequest) (nows : nat -> Z) (i : nat) : State :=
  match i with
  | O => n
  | S i =>
      let n := after_calls w n remote req nows i in
      match request_to_vec req with Ok data => fst (fst (serves w n remote data (nows i))) | Err _ => n end
  end.

Definition calling (w : World) (n : State) (remote : EndpointId) (nows : nat -> Z) (lost : message)
    (i : nat) (to : EndpointId) (req : AdminRequest) : outcome :=
  if bool_decide (to = own n) then admin_call (to_node w (after_calls w n remote req nows i) remote (nows i) lost) req
  else Err (context (Fmt "connect" []) lost).

(** ** Waiting for a link *)

Definition PROBE_TIMEOUT : Z := 5000.
Definition LOOK_EVERY : Z := 100.

(** [wait_for_link], at [waited] milliseconds: what each look at the links finds. *)
Fixpoint wait_for_link (look : nat -> option Connection) (waited : Z) (i fuel : nat) : option Connection :=
  match fuel with
  | O => None
  | S fuel =>
      if PROBE_TIMEOUT <? waited then None
      else
        match look i with
        | Some conn => Some conn
        | None => wait_for_link look (waited + LOOK_EVERY) (S i) fuel
        end
  end.

(** ** Properties *)

Lemma fits_limit (data : list Z) : (length data <= REQUEST_LIMIT)%nat -> (REQUEST_LIMIT <? length data)%nat = false.
Proof. apply Nat.ltb_ge. Qed.

Lemma over_limit (data : list Z) : (REQUEST_LIMIT < length data)%nat -> (REQUEST_LIMIT <? length data)%nat = true.
Proof. apply Nat.ltb_lt. Qed.

Lemma serves_fits w n remote req data now : request_to_vec req = Ok data -> (length data <= REQUEST_LIMIT)%nat ->
  serves w n remote data now =
    (let '(n', resp, pushes) := dispatch w n req (show_id remote) now in
     (n', match response_to_vec resp with Ok payload => Some payload | Err _ => None end, pushes)).
Proof.
  intros Hq Hl. unfold serves, accept. rewrite fits_limit, (request_roundtrip req) by done.
  by destruct (dispatch w n req (show_id remote) now) as [[? ?] ?].
Qed.

Lemma serves_over w n remote data now : (REQUEST_LIMIT < length data)%nat -> serves w n remote data now = (n, None, []).
Proof. intros Hl. unfold serves, accept. by rewrite over_limit. Qed.

(** A call to a node is what reading its answer comes to. *)
Lemma call_to_node w n remote now lost req data : request_to_vec req = Ok data ->
  admin_call (to_node w n remote now lost) req =
    match snd (fst (serves w n remote data now)) with
    | None => Err (context (Fmt "read response" []) lost)
    | Some payload =>
        if (REQUEST_LIMIT <? length payload)%nat then Err (context (Fmt "read response" []) (Fmt "stream too long" []))
        else map_err (context (Fmt "parse admin response" [])) (response_from_slice payload)
    end.
Proof.
  intros Hq. unfold admin_call, to_node. cbn [connects opens writes finishes answers map_err mbind result_bind]. rewrite Hq.
  cbn [mbind result_bind map_err]. unfold read_to_end. destruct (snd (fst (serves w n remote data now))) as [payload|]; cbn [ok_or mbind result_bind map_err]; [|done].
  by destruct (_ <? _)%nat.
Qed.

(** C26: a call over the network is the other node's dispatcher, for the key the
    handshake proved, or nothing.  A request that fits is dispatched as it was
    sent, and its answer is the one that arrives when it fits as well; one that
    does not fit changes nothing and is not answered; and a caller that gets no
    answer may have changed the other node all the same, exactly when the answer
    is what did not fit or could not be written. *)
Theorem an_admin_call_is_its_dispatch w n remote req now lost data : request_to_vec req = Ok data ->
  let '(n', resp, pushes) := dispatch w n req (show_id remote) now in
  let '(after, back, spawned) := serves w n remote data now in
  let heard := admin_call (to_node w n remote now lost) req in
  if (length data <=? REQUEST_LIMIT)%nat then
    after = n' /\ spawned = pushes
    /\ (forall r, heard = Ok r <-> r = resp /\ exists payload, response_to_vec resp = Ok payload /\ (length payload <= REQUEST_LIMIT)%nat)
  else after = n /\ spawned = [] /\ back = None /\ heard = Err (context (Fmt "read response" []) lost).
Proof.
  intros Hq. rewrite (call_to_node _ _ _ _ _ _ data Hq). destruct (Nat.leb_spec (length data) REQUEST_LIMIT) as [Hl|Hl].
  - rewrite (serves_fits _ _ _ req) by done. destruct (dispatch w n req (show_id remote) now) as [[n' resp] pushes]. cbn [fst snd].
    split; [done|]. split; [done|]. intros r. destruct (response_to_vec resp) as [payload|e] eqn:Er; [|naive_solver].
    destruct (Nat.ltb_spec REQUEST_LIMIT (length payload)) as [Ho|Ho].
    + split; [done|]. intros (_ & p & [= <-] & Hp). lia.
    + rewrite (response_roundtrip resp) by done. cbn [map_err]. naive_solver.
  - rewrite serves_over by done. by destruct (dispatch w n req (show_id remote) now) as [[n' resp] pushes].
Qed.

(** *** Joining with a code *)

(** The coordinator mints a code and hears from the stranger it gave it to. *)
Lemma invited_joins w (n : State) ttl minted token h (j : EndpointId) now :
  save_to w = Ok tt -> bytes_ok token -> length token = 16%nat ->
  wf (membership n) -> finds_name (membership n) (show_id j) h ->
  is_coordinator n = true -> is_Some (network_id (membership n)) ->
  show_id j ∉ ids (members (membership n)) -> now < minted + ttl ->
  let '(n1, minting) := generate_invite w n ttl minted token in
  minting = Ok (bs58_encode (id_bytes (own n) ++ token), minted + ttl) /\ own n1 = own n
  /\ exists n2 a, dispatch w n1 (Join (hex_encode token) h) (show_id j) now
      = (n2, Joined (network_name (membership n)) (Node.roster n2) a,
         broadcast_roster n2 (show_id j) (network_name (membership n)) (Node.roster n2))
    /\ own n2 = own n /\ wf (membership n2)
    /\ ids (members (membership n2)) = ids (members (membership n)) ++ [show_id j].
Proof.
  intros Hs Hok Hlen Hm Hname Hco [net Hnet] Hj Hnow.
  unfold generate_invite, Membership.generate_invite, save. cbv zeta. rewrite Hs.
  set (m1 := with_invites _ _). set (n1 := with_saved _ _). split; [done|]. split; [done|].
  assert (Hi : pending_invites (membership n1) !! token
    = Some {| pi_network_id := network_id (membership n); expires_at := minted + ttl |}).
  { cbn. by rewrite lookup_insert_eq. }
  assert (Hl : is_live {| pi_network_id := network_id (membership n); expires_at := minted + ttl |}
    (network_id (membership n1)) now = true).
  { apply is_live_spec. cbn. rewrite Hnet. split_and!; [done|eauto|lia]. }
  destruct (join_live w n1 token h j now _ Hs Hco Hok Hlen Hi Hl Hj
    (wf_generate_invite (membership n) (own n) ttl minted token Hm) Hname) as (n2 & a & Hd & Ho & Hw2 & Hids & _ & _).
  by exists n2, a.
Qed.

(** C35: an invite code makes a member.  The code a coordinator hands out is
    enough for a stranger to reach it and, over a connection that works, be
    admitted on the first answer, as long as the code is in time, the name it asks
    for or a numbered form of it is free, both of them can save, and the request
    and the answer, which holds the whole roster, are no more than the 64 KiB
    either side reads; both then list the same members,
    with the same names, each other among them; and exactly the other members
    whose id is usable are sent that roster. *)
Theorem invite_code_joins debug w (n : State) ttl minted token h wj (j : State) nows lost data payload :
  save_to w = Ok tt -> save_to wj = Ok tt -> bytes_ok token -> length token = 16%nat ->
  wf (membership n) -> finds_name (membership n) (own_id j) h ->
  is_coordinator n = true -> is_Some (network_id (membership n)) -> own_id n ∈ ids (members (membership n)) ->
  own_id j ∉ ids (members (membership n)) -> nows 0%nat < minted + ttl ->
  let '(n1, minting) := generate_invite w n ttl minted token in
  let req := Join (hex_encode token) h in
  let '(n2, resp, pushes) := dispatch w n1 req (own_id j) (nows 0%nat) in
  request_to_vec req = Ok data -> (length data <= REQUEST_LIMIT)%nat ->
  response_to_vec resp = Ok payload -> (length payload <= REQUEST_LIMIT)%nat ->
  after_calls w n1 (own j) req nows 1 = n2 /\
  exists code, minting = Ok (code, minted + ttl) /\
  exists ad, join_network debug code h (calling w n1 (own j) nows lost) = Ok ad
  /\ let '(j', res) := set_joined wj j (show_id (ad_coordinator_id ad)) (ad_network_name ad) (ad_members ad) in
     res = Ok tt /\ Node.roster j' = Node.roster n2
     /\ Node.is_member j' (own_id n) = true /\ Node.is_member n2 (own_id j) = true
     /\ network_name (membership j') = network_name (membership n)
     /\ coordinator_id (membership j') = Some (own_id n)
     /\ forall k req, (k, req) ∈ pushes <-> req = Roster (network_name (membership n)) (Node.roster n2)
          /\ exists i, i ∈ ids (members (membership n)) /\ i <> own_id n /\ parse_id i = Some k.
Proof.
  intros Hs Hsj Hok Hlen Hm Hname Hco Hnet Hown Hj Hnow.
  pose proof (invited_joins w n ttl minted token h (own j) (nows 0%nat) Hs Hok Hlen Hm Hname Hco Hnet Hj Hnow) as Hin.
  destruct (generate_invite w n ttl minted token) as [n1 minting].
  destruct Hin as (-> & Ho1 & n2 & a & Hd & Ho & Hw2 & Hids).
  cbv zeta. change (own_id j) with (show_id (own j)). rewrite Hd. intros Hq Hfit Hr Hrfit.
  assert (Hserve : serves w n1 (own j) data (nows 0%nat)
    = (n2, Some payload, broadcast_roster n2 (show_id (own j)) (network_name (membership n)) (Node.roster n2))).
  { rewrite (serves_fits _ _ _ _ _ _ Hq Hfit), Hd. by rewrite Hr. }
  split; [cbn [after_calls]; by rewrite Hq, Hserve|]. eexists. split; [reflexivity|].
  assert (C0 : calling w n1 (own j) nows lost 0 (own n) (Join (hex_encode token) h)
    = Ok (Joined (network_name (membership n)) (Node.roster n2) a)).
  { unfold calling. rewrite bool_decide_eq_true_2, (call_to_node _ _ _ _ _ _ data Hq) by done. cbn [after_calls].
    rewrite Hserve. cbn [fst snd]. by rewrite fits_limit, (response_roundtrip _ _ Hr). }
  unfold join_network. rewrite decode_encode_invite by done. cbn [mbind result_bind attempts JOIN_ATTEMPTS].
  rewrite C0. eexists. split; [reflexivity|]. cbn [ad_coordinator_id ad_network_name ad_members].
  exact (join_agrees wj n n2 j Hsj Ho Hw2 Hids Hown Hj).
Qed.

(** *** More than fits *)

Definition REFUSED : message := Fmt "invalid, expired, or already used invite" [].

Lemma ids_length_roster m : ids_length (Membership.roster m) = ids_length (members m).
Proof. unfold ids_length, ids, Membership.roster. by rewrite merge_sort_Permutation. Qed.

Lemma ids_length_snoc l k i : ids k = ids l ++ [i] -> (ids_length l <= ids_length k)%nat.
Proof. unfold ids_length. intros ->. rewrite fmap_app, sum_list_with_app. lia. Qed.

(** Keys are shown in sixty-four characters. *)
Lemma ids_length_keys l : Forall (fun x => length (m_id x) = 64%nat) l -> ids_length l = (64 * length l)%nat.
Proof.
  induction 1 as [|x l Hx Hl IH]; [done|]. change (ids_length (x :: l)) with (length (m_id x) + ids_length l)%nat.
  rewrite Hx, IH. cbn [length]. lia.
Qed.

Lemma foldl_push_distinct m l : NoDup l -> (forall i, i ∈ l -> i ∉ ids (members m)) ->
  members (foldl (fun m id => push_absent m (Member_new id)) m l) = members m ++ (Member_new <$> l).
Proof.
  revert m. induction l as [|i l IH]; intros m; cbn [foldl fmap list_fmap]; [by rewrite app_nil_r|].
  intros [Hi Hl]%NoDup_cons Hno. assert (Hp : members (push_absent m (Member_new i)) = members m ++ [Member_new i]).
  { rewrite push_absent_members. cbn [m_id Member_new]. rewrite (proj2 (is_member_false m i)); [done|]. apply Hno. by constructor. }
  rewrite IH, Hp, <- app_assoc; [done|done|]. intros j Hj. rewrite Hp. unfold ids. rewrite fmap_app, elem_of_app. change (m_id <$> [Member_new i]) with [i]. rewrite list_elem_of_singleton.
  intros [Hm| ->]; [|done]. exfalso. apply (Hno j); [by constructor|done].
Qed.

(** a roster of too many members (a thousand and twenty-five keys are enough) can
    be told to nobody: every push of it changes nothing at the member it goes to,
    which is what a member that links up gets, too. *)
Theorem a_big_roster_reaches_nobody debug w (n : State) remote now lost name l data :
  (REQUEST_LIMIT < ids_length l)%nat -> request_to_vec (Roster name l) = Ok data ->
  serves w n remote data now = (n, None, [])
  /\ push_roster debug (admin_call (to_node w n remote now lost) (Roster name l)) = Err (context (Fmt "read response" []) lost).
Proof.
  intros Hl Hq. pose proof (roster_text _ _ _ Hq).
  assert (Hs : serves w n remote data now = (n, None, [])) by (apply serves_over; lia).
  split; [done|]. by rewrite (call_to_node _ _ _ _ _ _ data Hq), Hs.
Qed.

(** and a network of that size can no longer be joined: the coordinator admits the
    joiner, lists it and spends the invite, but its answer, the roster, is more
    than the joiner reads; the next attempt is refused the spent invite, and that
    is what the joiner is told. *)
Theorem a_big_network_strands_the_joiner debug w (n : State) token h (j : EndpointId) nows lost i code data refused :
  save_to w = Ok tt -> is_coordinator n = true -> bytes_ok token -> length token = 16%nat ->
  pending_invites (membership n) !! token = Some i -> is_live i (network_id (membership n)) (nows 0%nat) = true ->
  show_id j ∉ ids (members (membership n)) -> wf (membership n) -> finds_name (membership n) (show_id j) h ->
  decode_invite code = Ok (own n, token) ->
  (REQUEST_LIMIT < ids_length (members (membership n)))%nat ->
  request_to_vec (Join (hex_encode token) h) = Ok data -> (length data <= REQUEST_LIMIT)%nat ->
  response_to_vec (AError REFUSED) = Ok refused -> (length refused <= REQUEST_LIMIT)%nat ->
  join_network debug code h (calling w n j nows lost) = Err REFUSED
  /\ Node.is_member (after_calls w n j (Join (hex_encode token) h) nows 2) (show_id j) = true.
Proof.
  intros Hs Hco Hok Hlen Hi Hl Hr Hm Hroom Hdec Hbig Hq Hfit Href Hrfit. set (req := Join (hex_encode token) h) in *.
  pose proof (redeem_spent w n token h (show_id j) (nows 0%nat) Hok Hlen) as Hsp.
  destruct (join_live w n token h j (nows 0%nat) i Hs Hco Hok Hlen Hi Hl Hr Hm Hroom) as (n' & a & Hd & Ho & _ & Hids & _ & Hc).
  fold req in Hd, Hsp. rewrite Hd in Hsp. cbn [fst] in Hsp. destruct Hsp as [Hsp|?]; [|congruence].
  assert (Hco' : is_coordinator n' = true) by (unfold is_coordinator, Membership.is_coordinator, own_id in *; by rewrite Hc, Ho).
  assert (Hd' : dispatch w n' req (show_id j) (nows 1%nat) = (n', AError REFUSED, [])).
  { cbn [dispatch req]. unfold join. rewrite Hco', decode_token_encode by done. cbn [negb].
    unfold Node.redeem_invite. rewrite redeem_absent by done. by destruct n'. }
  assert (Hn1 : after_calls w n j req nows 1 = n') by (cbn [after_calls]; rewrite Hq, (serves_fits _ _ _ req), Hd by done; done).
  assert (Hn2 : after_calls w n j req nows 2 = n').
  { change (after_calls w n j req nows 2) with (match request_to_vec req with Ok data => fst (fst (serves w (after_calls w n j req nows 1) j data (nows 1%nat)))
      | Err _ => after_calls w n j req nows 1 end). by rewrite Hn1, Hq, (serves_fits _ _ _ req), Hd'. }
  rewrite Hn2. split; [|apply is_member_spec; rewrite Hids; apply elem_of_app; right; by apply list_elem_of_singleton].
  assert (C0 : exists e, calling w n j nows lost 0 (own n) req = Err e).
  { unfold calling. rewrite bool_decide_eq_true_2, (call_to_node _ _ _ _ _ _ data Hq) by done. cbn [after_calls].
    rewrite (serves_fits _ _ _ req), Hd by done. cbn [fst snd]. destruct (response_to_vec (Joined _ _ _)) as [payload|] eqn:Ep; [|by eexists].
    pose proof (joined_text _ _ _ _ Ep) as Ht. unfold Node.roster in Ht. rewrite ids_length_roster in Ht.
    pose proof (ids_length_snoc _ _ _ Hids). rewrite over_limit by lia. by eexists. }
  assert (C1 : calling w n j nows lost 1 (own n) req = Ok (AError REFUSED)).
  { unfold calling. rewrite bool_decide_eq_true_2, (call_to_node _ _ _ _ _ _ data Hq) by done.
    rewrite Hn1, (serves_fits _ _ _ req), Hd' by done. cbn [fst snd]. rewrite Href, fits_limit by done. by rewrite (response_roundtrip _ _ Href). }
  unfold join_network. rewrite Hdec. cbn [mbind result_bind JOIN_ATTEMPTS attempts]. destruct C0 as [e C0]. fold req.
  by rewrite C0, C1.
Qed.
(** *** Waiting for a link *)

(** a probe waits for a link for as long as five seconds of looks, and takes the
    first one it sees; with none there in that time it gives up. *)
Theorem wait_for_link_functional look conn fuel : (51 < fuel)%nat ->
  wait_for_link look 0 0 fuel = Some conn <-> exists i, (i <= 50)%nat /\ look i = Some conn /\ forall j, (j < i)%nat -> look j = None.
Proof.
  intros Hf. assert (Hgen : forall k i fuel, (i + k = 51)%nat -> (k < fuel)%nat ->
    wait_for_link look (LOOK_EVERY * Z.of_nat i) i fuel = Some conn <->
    exists x, (i <= x <= 50)%nat /\ look x = Some conn /\ forall j, (i <= j < x)%nat -> look j = None).
  { clear. induction k as [|k IH]; intros i [|fuel] Hi Hf; try lia; cbn [wait_for_link]; unfold PROBE_TIMEOUT, LOOK_EVERY.
    - destruct (Z.ltb_spec 5000 (100 * Z.of_nat i)); [|lia]. split; [done|]. intros (x & Hx & _). lia.
    - destruct (Z.ltb_spec 5000 (100 * Z.of_nat i)); [lia|]. destruct (look i) as [c|] eqn:E.
      + split; [intros [= ->]; exists i; repeat split; [lia..|done|]; intros j ?; lia|]. intros (x & Hx & Hc & Hn).
        destruct (decide (x = i)) as [->|]; [congruence|]. rewrite (Hn i) in E by lia. done.
      + replace (100 * Z.of_nat i + 100) with (LOOK_EVERY * Z.of_nat (S i)) by (unfold LOOK_EVERY; lia). rewrite IH by lia. split.
        * intros (x & Hx & Hc & Hn). exists x. split; [lia|]. split; [done|]. intros j Hj.
          destruct (decide (j = i)) as [->|]; [done|]. apply Hn. lia.
        * intros (x & Hx & Hc & Hn). exists x. destruct (decide (x = i)) as [->|]; [congruence|]. split; [lia|]. split; [done|].
          intros j Hj. apply Hn. lia. }
  change 0 with (LOOK_EVERY * Z.of_nat 0) at 1. rewrite (Hgen 51%nat) by lia. split; intros (x & Hx & Hc & Hn); exists x; (split; [lia|]); (split; [done|]);
    intros j Hj; apply Hn; lia.
Qed.
End Wire.

(** ** Witnesses *)

Import Concrete.

Module WireDemo.
(** The two messages as one number, and a digit for every character of an id. *)
Definition pair_of (x : Member) : rstr * option rstr := (m_id x, m_hostname x).
Definition member_of (p : rstr * option rstr) : Member := {| m_id := fst p; m_hostname := snd p |}.
Lemma members_of (l : list Member) : member_of <$> (pair_of <$> l) = l.
Proof. induction l as [|[] l IH]; [done|]. by cbn; rewrite IH. Qed.

Definition request_code (r : AdminRequest) : (rstr * option rstr) + (rstr + option rstr * list (rstr * option rstr)) + bool :=
  match r with
  | Join t h => inl (inl (t, h))
  | SetHostname h => inl (inr (inl h))
  | Roster name l => inl (inr (inr (name, pair_of <$> l)))
  | Leave => inr false
  | Kicked => inr true
  end.
Definition request_of (c : (rstr * option rstr) + (rstr + option rstr * list (rstr * option rstr)) + bool) : AdminRequest :=
  match c with
  | inl (inl (t, h)) => Join t h
  | inl (inr (inl h)) => SetHostname h
  | inl (inr (inr (name, l))) => Roster name (member_of <$> l)
  | inr kicked => if kicked then Kicked else Leave
  end.
Lemma request_of_code r : request_of (request_code r) = r.
Proof. destruct r; cbn; by rewrite ?members_of. Qed.

Definition response_code (r : AdminResponse) : option (option rstr * list (rstr * option rstr) * option rstr + option rstr + bool) :=
  match r with
  | Joined name l h => Some (inl (inl (name, pair_of <$> l, h)))
  | HostnameSet h => Some (inl (inr (Some h)))
  | Ack => Some (inr true)
  | AError (Fmt s []) => if String.eqb s "invalid, expired, or already used invite"%string then Some (inr false) else None
  | AError _ => None
  end.
Definition response_of (c : option rstr * list (rstr * option rstr) * option rstr + option rstr + bool) : AdminResponse :=
  match c with
  | inl (inl (name, l, h)) => Joined name (member_of <$> l) h
  | inl (inr h) => match h with Some h => HostnameSet h | None => Ack end
  | inr ack => if ack then Ack else AError REFUSED
  end.
Lemma response_of_code r c : response_code r = Some c -> response_of c = r.
Proof.
  destruct r as [| | |[|s []]]; cbn; try congruence; try (intros [= <-]; cbn; by rewrite ?members_of).
  destruct (String.eqb_spec s "invalid, expired, or already used invite"%string) as [->|]; [|done]. by intros [= <-].
Qed.

Definition pad (l : list Member) : list Z := replicate (ids_length l) 0.
Definition in_request (r : AdminRequest) : list Member := match r with Roster _ l => l | _ => [] end.
Definition in_response (r : AdminResponse) : list Member := match r with Joined _ l _ => l | _ => [] end.
Definition read {A} `{Countable A} (data : list Z) : result message A :=
  match data with Z.pos p :: _ => ok_or (Fmt "" []) (decode p) | _ => Err (Fmt "" []) end.

#[export, refine] Instance wire_json : AdminJson := {|
  request_to_vec r := Ok (Z.pos (encode (request_code r)) :: pad (in_request r));
  request_from_slice data := c ← read data; Ok (request_of c);
  response_to_vec r := match response_code r with Some c => Ok (Z.pos (encode c) :: pad (in_response r)) | None => Err (Fmt "" []) end;
  response_from_slice data := c ← read data; Ok (response_of c);
|}.
Proof.
  - intros r d [= <-]. cbn [read]. rewrite decode_encode. cbn. by rewrite request_of_code.
  - intros r d. destruct (response_code r) as [c|] eqn:E; [|done]. intros [= <-]. cbn [read]. rewrite decode_encode. cbn.
    by rewrite (response_of_code r).
  - intros name l d [= <-]. cbn [length in_request]. unfold pad. rewrite length_replicate. lia.
  - intros name l h d [= <-]. cbn [length in_response]. unfold pad. rewrite length_replicate. lia.
Defined.

Definition k1 : EndpointId := K1.
Definition k2 : EndpointId := K2.
Definition k3 : EndpointId := K3.
Definition lost : message := Fmt "connection lost" [].
End WireDemo.
Import WireDemo.

Example an_admin_call_is_its_dispatch_witness : admin_call (to_node NodeDemo.world NodeDemo.started k2 0 lost) Leave = Ok Ack.
Proof.
  pose proof (an_admin_call_is_its_dispatch NodeDemo.world NodeDemo.started k2 Leave 0 lost _ eq_refl) as Ha.
  assert (Hr : exists r, r = Ack /\ snd (fst (dispatch NodeDemo.world NodeDemo.started Leave (show_id k2) 0)) = r).
  { eexists. split; [reflexivity|]. vm_compute. reflexivity. }
  destruct (dispatch _ _ _ _ _) as [[n' resp] pushes]. cbn [fst snd] in Hr. destruct Hr as (r & -> & ->).
  destruct (serves _ _ _ _ _) as [[after back] spawned].
  assert (Hl : forall d : list Z, length d = 1%nat -> (length d <=? REQUEST_LIMIT)%nat = true).
  { intros d ->. unfold REQUEST_LIMIT. apply Nat.leb_le. lia. }
  rewrite Hl in Ha by done. destruct Ha as (_ & _ & Ha). apply Ha. split; [done|]. eexists. split; [reflexivity|].
  apply Nat.leb_le, Hl. done.
Defined.

Module BigDemo.
(** A network with a thousand and twenty-four keys more, and an invite to it. *)
Definition key_text (i : nat) : rstr := replicate 63 97%N ++ [N.of_nat i].
Definition invited : Membership := fst (Membership.generate_invite Demo.state k1 300 0 AdminDemo.token).
Definition crowd : Membership := foldl (fun m id => push_absent m (Member_new id)) invited (key_text <$> seq 0 1024).
Definition big : State (Link := unit) := with_membership (fun _ => crowd) NodeDemo.started.
Definition code : rstr := fst (snd (Membership.generate_invite Demo.state k1 300 0 AdminDemo.token)).
Definition invite : PendingInvite := {| pi_network_id := network_id Demo.state; expires_at := 300 |}.

Lemma wf_crowd : wf crowd.
Proof. apply wf_foldl_push, wf_generate_invite, Demo.wf_state. Qed.
Lemma members_crowd : members crowd = [Demo.member1; Demo.member2] ++ (Member_new <$> (key_text <$> seq 0 1024)).
Proof.
  assert (Hm : members invited = [Demo.member1; Demo.member2]) by by vm_compute.
  unfold crowd. rewrite foldl_push_distinct, Hm; [done| |].
  - apply NoDup_fmap; [|apply NoDup_seq]. intros i j Heq. apply app_inj_1 in Heq as [_ [= Heq]]; [|done]. lia.
  - intros i (j & -> & _)%list_elem_of_fmap. rewrite Hm. change (ids [Demo.member1; Demo.member2]) with [Demo.id1; Demo.id2].
    intros [Heq|Heq%list_elem_of_singleton]%elem_of_cons; vm_compute in Heq; destruct j; discriminate Heq.
Qed.
Lemma too_long : (REQUEST_LIMIT < ids_length (members crowd))%nat.
Proof.
  assert (Hk : ids_length (Member_new <$> (key_text <$> seq 0 1024)) = (64 * 1024)%nat).
  { rewrite ids_length_keys, !length_fmap, length_seq; [done|]. apply Forall_fmap, Forall_fmap, Forall_forall. intros i _. done. }
  rewrite members_crowd. unfold ids_length, ids in *. rewrite fmap_app, fmap_app, sum_list_with_app, Hk. unfold REQUEST_LIMIT.
  apply Nat.lt_add_pos_l, Nat.ltb_lt. by vm_compute.
Qed.
Lemma fields : bindings crowd = bindings invited /\ pending_invites crowd = pending_invites invited
  /\ network_id crowd = network_id invited /\ coordinator_id crowd = coordinator_id invited /\ network_name crowd = network_name invited.
Proof. apply foldl_push_fields. Qed.
Lemma room_crowd : (S (size (bindings crowd) + length (members crowd)) < MAX_SUFFIX)%nat.
Proof.
  rewrite (proj1 fields), members_crowd, length_app, !length_fmap, length_seq. pose proof MAX_SUFFIX_val.
  assert (Hs : (size (bindings invited) <? 100)%nat = true) by by vm_compute. apply Nat.ltb_lt in Hs. cbn [length]. lia.
Qed.
Lemma out : pending_invites crowd !! AdminDemo.token = Some invite.
Proof. rewrite (proj1 (proj2 fields)). by vm_compute. Qed.
Lemma live : is_live invite (network_id crowd) 10 = true.
Proof. rewrite (proj1 (proj2 (proj2 fields))). by vm_compute. Qed.
Lemma stranger : show_id k3 ∉ ids (members crowd).
Proof.
  rewrite members_crowd. unfold ids. rewrite fmap_app, elem_of_app, <- list_fmap_compose, <- list_fmap_compose. intros [Hin|Hin].
  - change (m_id <$> [Demo.member1; Demo.member2]) with [Demo.id1; Demo.id2] in Hin.
    apply elem_of_cons in Hin as [Heq|Heq%list_elem_of_singleton]; vm_compute in Heq; discriminate Heq.
  - apply list_elem_of_fmap in Hin as (j & Heq & _). vm_compute in Heq. destruct j; discriminate Heq.
Qed.
Lemma coordinates_with f (n : State (Link := unit)) : is_coordinator (with_membership f n) = Membership.is_coordinator (f (membership n)) (own_id n).
Proof. done. Qed.
Lemma coordinates : is_coordinator big = true.
Proof.
  unfold big. rewrite coordinates_with. unfold Membership.is_coordinator. cbv beta.
  rewrite (proj1 (proj2 (proj2 (proj2 fields)))), AdminDemo.started_own_id. by vm_compute.
Qed.
Lemma decodes : decode_invite code = Ok (k1, AdminDemo.token).
Proof. apply (decode_encode_invite k1 AdminDemo.token AdminDemo.token_ok). done. Qed.
End BigDemo.

Example a_big_network_strands_the_joiner_witness :
  join_network AdminDemo.debug BigDemo.code None (calling NodeDemo.world BigDemo.big k3 (fun _ => 10) lost) = Err REFUSED.
Proof.
  eapply (a_big_network_strands_the_joiner AdminDemo.debug NodeDemo.world BigDemo.big AdminDemo.token None k3 (fun _ => 10) lost BigDemo.invite).
  - done.
  - exact BigDemo.coordinates.
  - exact AdminDemo.token_ok.
  - done.
  - exact BigDemo.out.
  - exact BigDemo.live.
  - exact BigDemo.stranger.
  - exact BigDemo.wf_crowd.
  - apply room_finds_name. exact (Nat.lt_succ_l _ _ BigDemo.room_crowd).
  - exact BigDemo.decodes.
  - exact BigDemo.too_long.
  - reflexivity.
  - cbn [length in_request pad ids_length ids fmap list_fmap sum_list replicate]. unfold REQUEST_LIMIT. lia.
  - reflexivity.
  - cbn [length in_response pad ids_length ids fmap list_fmap sum_list replicate]. unfold REQUEST_LIMIT. lia.
Defined.

Module JoinDemo.
Lemma asked_fits token data : request_to_vec (Join token None) = Ok data -> (length data <= REQUEST_LIMIT)%nat.
Proof. intros [= <-]. cbn [length in_request pad ids_length ids fmap list_fmap sum_list replicate]. unfold REQUEST_LIMIT. lia. Qed.

Lemma few : (ids_length (members (membership NodeDemo.started)) <=? 1000)%nat = true.
Proof. rewrite NodeDemo.started_membership. by vm_compute. Qed.

Lemma short : (length (own_id AdminDemo.joiner) <=? 1000)%nat = true.
Proof. by vm_compute. Qed.

(** What the coordinator answers fits. *)
Lemma answer_fits :
  let '(n1, _) := generate_invite NodeDemo.world NodeDemo.started 300 0 AdminDemo.token in
  let '(_, resp, _) := dispatch NodeDemo.world n1 (Join (hex_encode AdminDemo.token) None) (own_id AdminDemo.joiner) 299 in
  exists payload, response_to_vec resp = Ok payload /\ (length payload <= REQUEST_LIMIT)%nat.
Proof.
  pose proof (invited_joins NodeDemo.world NodeDemo.started 300 0 AdminDemo.token None (own AdminDemo.joiner) 299
    eq_refl AdminDemo.token_ok eq_refl AdminDemo.wf_started (room_finds_name _ _ _ AdminDemo.room_started)
    AdminDemo.started_coordinates AdminDemo.started_network AdminDemo.joiner_stranger eq_refl) as Hin.
  change (own_id AdminDemo.joiner) with (show_id (own AdminDemo.joiner)).
  destruct (generate_invite _ _ _ _ _) as [n1 minting]. destruct Hin as (_ & _ & n2 & a & Hd & _ & _ & Hids).
  rewrite Hd. eexists. split; [reflexivity|]. cbn [length in_response]. unfold pad. rewrite length_replicate.
  unfold Node.roster. rewrite ids_length_roster. unfold ids_length. rewrite Hids, fmap_app, sum_list_with_app.
  pose proof few as Hf. pose proof short as Hs. apply Nat.leb_le in Hf, Hs. unfold ids_length in Hf.
  change (own_id AdminDemo.joiner) with (show_id (own AdminDemo.joiner)) in Hs.
  etrans; [apply le_n_S, Nat.add_le_mono; [exact Hf|]|].
  - cbn [sum_list fmap list_fmap]. unfold id. rewrite Nat.add_0_r. exact Hs.
  - unfold REQUEST_LIMIT. lia.
Qed.
End JoinDemo.

Example invite_code_joins_witness :
  let '(n1, minting) := generate_invite NodeDemo.world NodeDemo.started 300 0 AdminDemo.token in
  exists code, minting = Ok (code, 0 + 300)
    /\ exists ad, join_network AdminDemo.debug code None (calling NodeDemo.world n1 (own AdminDemo.joiner) (fun _ => 299) lost) = Ok ad.
Proof.
  pose proof JoinDemo.answer_fits as Hp.
  pose proof (fun d p => invite_code_joins AdminDemo.debug NodeDemo.world NodeDemo.started 300 0 AdminDemo.token None
    NodeDemo.world AdminDemo.joiner (fun _ => 299) lost d p eq_refl eq_refl AdminDemo.token_ok eq_refl AdminDemo.wf_started
    (room_finds_name _ _ _ AdminDemo.room_started)
    AdminDemo.started_coordinates AdminDemo.started_network AdminDemo.started_own AdminDemo.joiner_stranger eq_refl) as Hj.
  destruct (generate_invite _ _ _ _ _) as [n1 minting]. cbv zeta in Hj.
  destruct (dispatch _ n1 _ _ _) as [[n2 resp] pushes]. destruct Hp as (payload & Hp & Hl).
  destruct (Hj _ payload eq_refl (JoinDemo.asked_fits _ _ eq_refl) Hp Hl) as (_ & code & Hc & ad & Had & _).
  exists code. split; [exact Hc|]. exists ad. exact Had.
Defined.
