(* ===== verification/Win32.v ===== *)
(** * Programs that call Windows

    What [daemon/src/winauth.rs] and [daemon/src/winacl.rs] ask of Win32, as
    commands whose answers are the system's to choose: programs over them, the
    traces they have, a ledger of what a thread holds (whose identity it wears, its
    open handles, what it has allocated), which call is permitted when, and a
    program logic for all of that.  UTF-16 is here too. *)

From S2P Require Import Prelude Proto Utf8.

(** ** UTF-16 *)

Definition is_high (u : Z) : bool := (55296 <=? u) && (u <=? 56319).
Definition is_low (u : Z) : bool := (56320 <=? u) && (u <=? 57343).

(** [str::encode_utf16], as [encode_wide] does for a string. *)
Definition encode_units (c : char) : list Z :=
  let n := Z.of_N c in
  if n <? 65536 then [n] else [55296 + (n - 65536) / 1024; 56320 + (n - 65536) mod 1024].
Definition encode_utf16 (s : rstr) : list Z := s ≫= encode_units.

(** [String::from_utf16_lossy]. *)
Fixpoint from_utf16_lossy (l : list Z) : rstr :=
  match l with
  | [] => []
  | u :: rest =>
      if is_high u then
        match rest with
        | v :: rest' =>
            if is_low v then Z.to_N (65536 + (u - 55296) * 1024 + (v - 56320)) :: from_utf16_lossy rest'
            else REPLACEMENT :: from_utf16_lossy rest
        | [] => [REPLACEMENT]
        end
      else if is_low u then REPLACEMENT :: from_utf16_lossy rest
      else Z.to_N u :: from_utf16_lossy rest
  end.

Lemma utf16_roundtrip s : Forall scalar s -> from_utf16_lossy (encode_utf16 s) = s.
Proof.
  unfold encode_utf16. induction 1 as [|c s Hc _ IH]; [done|]. cbn [mbind list_bind]. unfold scalar in Hc. unfold encode_units at 1.
  destruct (Z.ltb_spec (Z.of_N c) 65536) as [Hl|Hl]; cbn [app from_utf16_lossy].
  - replace (is_high (Z.of_N c)) with false by (unfold is_high; lia).
    replace (is_low (Z.of_N c)) with false by (unfold is_low; lia). by rewrite IH, N2Z.id.
  - set (n := Z.of_N c - 65536). assert (Hn : 0 <= n < 1048576) by lia.
    pose proof (Z.div_mod n 1024 ltac:(lia)) as Hd. pose proof (Z.mod_pos_bound n 1024 ltac:(lia)) as Hm.
    replace (is_high (55296 + n / 1024)) with true by (unfold is_high; lia).
    replace (is_low (56320 + n mod 1024)) with true by (unfold is_low; lia).
    rewrite IH. f_equal. apply N2Z.inj. rewrite Z2N.id by lia. lia.
Qed.

(** What a nul-terminated string says, and one made of a string. *)
Fixpoint before_nul (units : list Z) : list Z :=
  match units with [] => [] | u :: l => if u =? 0 then [] else u :: before_nul l end.
Definition wide (text : rstr) : list Z := encode_utf16 text ++ [0].

Lemma wide_reads_back s : Forall scalar s -> 0%N ∉ s -> from_utf16_lossy (before_nul (wide s)) = s.
Proof.
  intros Hs Hn. rewrite <- (utf16_roundtrip s Hs) at 2. f_equal. unfold wide, encode_utf16.
  induction Hs as [|c s Hc _ IH]; [done|]. rewrite not_elem_of_cons in Hn. destruct Hn as [Hc0 Hn].
  cbn [mbind list_bind]. rewrite <- app_assoc. unfold encode_units at 1 3.
  pose proof (Z.mod_pos_bound (Z.of_N c - 65536) 1024 ltac:(lia)). pose proof (Z.div_pos (Z.of_N c - 65536) 1024).
  destruct (Z.ltb_spec (Z.of_N c) 65536); cbn [app before_nul].
  - destruct (Z.eqb_spec (Z.of_N c) 0); [lia|]. by rewrite IH.
  - destruct (Z.eqb_spec (55296 + (Z.of_N c - 65536) / 1024) 0); [lia|].
    destruct (Z.eqb_spec (56320 + (Z.of_N c - 65536) mod 1024) 0); [lia|]. by rewrite IH.
Qed.

(** [std::io::Error] of a code. *)
Definition os_error (code : Z) : message := Fmt "{std::io::Error}" [num (as_i32 code)].

(** ** Calls *)

(** Handles and pointers; null is 0. *)
Abbreviation HANDLE := Z (only parsing).
Abbreviation pointer := Z (only parsing).

Inductive TokenClass := TokenUser | TokenElevation.
(** What is read out of the buffer a class fills. *)
Definition field (class : TokenClass) : Type := match class with TokenUser => pointer | TokenElevation => Z end.

Inductive StdStream := STD_OUTPUT_HANDLE | STD_ERROR_HANDLE.

(** The arguments that matter and everything a call answers: its status and what
    it wrote.  A buffer's room is given with its size in bytes. *)
Inductive call : Type -> Type :=
  | ImpersonateNamedPipeClient : call bool
  | RevertToSelf : call bool
  | OpenThreadToken : call (option HANDLE)
  | OpenProcessToken : call (option HANDLE)
  | CloseHandle (h : HANDLE) : call ()
  | GetTokenInformation (h : HANDLE) (class : TokenClass) (buffer room : Z) : call (Z * option (field class))
  | ConvertSidToStringSidW (sid : pointer) : call (option pointer)
  | Memory (p : pointer) : call (list Z)                       (* the units from [p] on *)
  | LocalFree (p : pointer) : call ()
  | LookupAccountSidW (sid : pointer) (name domain name_len domain_len : Z)
      : call (bool * (list Z * Z) * (list Z * Z))                  (* the two buffers and lengths, after *)
  | GetLastError : call Z
  | ConvertStringSecurityDescriptorToSecurityDescriptorW (sddl : list Z) : call (option pointer)
  | GetSecurityDescriptorDacl (descriptor : pointer) : call (option (option pointer))  (* [Some None]: there is none *)
  | SetNamedSecurityInfoW (path : list Z) (protected : bool) (dacl : pointer) : call Z
  | ShellExecuteExW (verb file params dir : list Z) : call (option HANDLE)      (* the new process *)
  | WaitForSingleObject (h : HANDLE) : call ()
  | GetExitCodeProcess (h : HANDLE) : call (option Z)
  | OpenAppend (path : rstr) : call (result message HANDLE)    (* [OpenOptions], created if need be *)
  | SetStdHandle (s : StdStream) (h : HANDLE) : call bool.

Inductive prog (A : Type) : Type :=
  | Ret (a : A)
  | Panic
  | Do {R : Type} (c : call R) (k : R -> prog A).
Arguments Ret {A} a.
Arguments Panic {A}.
Arguments Do {A R} c k.

Fixpoint prog_bind {A B} (p : prog A) (f : A -> prog B) : prog B :=
  match p with Ret a => f a | Panic => Panic | Do c k => Do c (fun r => prog_bind (k r) f) end.

#[export] Instance prog_mret : MRet prog := fun A a => Ret a.
#[export] Instance prog_mbind : MBind prog := fun A B f p => prog_bind p f.
Definition ask {R} (c : call R) : prog R := Do c Ret.

(** ** Traces *)

Inductive event := | Event {R : Type} (c : call R) (r : R).
Inductive outcome (A : Type) := Returns (a : A) | Panics.
Arguments Returns {A} a.
Arguments Panics {A}.

Fixpoint runs {A} (p : prog A) (tr : list event) (o : outcome A) : Prop :=
  match p with
  | Ret a => tr = [] /\ o = Returns a
  | Panic => tr = [] /\ o = Panics
  | Do c k => exists r tr', tr = Event c r :: tr' /\ runs (k r) tr' o
  end.

(** The run in which the system answers as [os] does. *)
Fixpoint ran {A} (os : forall R, call R -> R) (p : prog A) : list event * outcome A :=
  match p with
  | Ret a => ([], Returns a)
  | Panic => ([], Panics)
  | Do c k => let '(tr, o) := ran os (k (os _ c)) in (Event c (os _ c) :: tr, o)
  end.

Lemma ran_runs {A} os (p : prog A) : runs p (fst (ran os p)) (snd (ran os p)).
Proof.
  induction p as [a| |R c k IH]; [done..|]. cbn. specialize (IH (os _ c)). destruct (ran os (k (os _ c))) as [tr o]. by eexists _, _.
Qed.

(** ** The ledger *)

Record Ledger := {
  impersonating : bool;
  handles : list HANDLE;
  heap : list pointer;
  dacls : list (pointer * pointer);      (* a list and the descriptor it is part of *)
  streams : list (StdStream * HANDLE);   (* where each was pointed, last first *)
}.

Definition idle : Ledger := {| impersonating := false; handles := []; heap := []; dacls := []; streams := [] |}.

(** One occurrence less. *)
Fixpoint without (x : Z) (l : list Z) : list Z :=
  match l with [] => [] | y :: l => if y =? x then l else y :: without x l end.

Definition wears b (s : Ledger) := {| impersonating := b; handles := handles s; heap := heap s; dacls := dacls s; streams := streams s |}.
Definition holds f (s : Ledger) := {| impersonating := impersonating s; handles := f (handles s); heap := heap s; dacls := dacls s; streams := streams s |}.
Definition owns f (s : Ledger) := {| impersonating := impersonating s; handles := handles s; heap := f (heap s); dacls := dacls s; streams := streams s |}.
Definition borrows f (s : Ledger) := {| impersonating := impersonating s; handles := handles s; heap := heap s; dacls := f (dacls s); streams := streams s |}.
Definition directs x (s : Ledger) := {| impersonating := impersonating s; handles := handles s; heap := heap s; dacls := dacls s; streams := x :: streams s |}.

Definition gains (r : option Z) (l : list Z) : list Z := match r with Some x => x :: l | None => l end.

(** What a call and its answer leave the thread with. *)
Definition after (s : Ledger) {R} (c : call R) : R -> Ledger :=
  match c with
  | ImpersonateNamedPipeClient => fun ok => if ok then wears true s else s
  | RevertToSelf => fun ok => if ok then wears false s else s
  | OpenThreadToken | OpenProcessToken => fun r => holds (gains r) s
  | CloseHandle h => fun _ => holds (without h) s
  | ConvertSidToStringSidW _ | ConvertStringSecurityDescriptorToSecurityDescriptorW _ => fun r => owns (gains r) s
  | LocalFree p => fun _ => borrows (filter (fun d => snd d <> p)) (owns (without p) s)
  | GetSecurityDescriptorDacl d => fun r => match r with Some (Some l) => borrows (cons (l, d)) s | _ => s end
  | ShellExecuteExW _ _ _ _ => fun r => holds (gains r) s
  | OpenAppend _ => fun r => holds (gains (to_option r)) s
  | SetStdHandle x h => fun ok => if ok then directs (x, h) s else s
  | GetTokenInformation _ _ _ _ | Memory _ | LookupAccountSidW _ _ _ _ _ | GetLastError | SetNamedSecurityInfoW _ _ _
  | WaitForSingleObject _ | GetExitCodeProcess _ => fun _ => s
  end.

(** What the thread may do: the token of a thread only while it is the client's,
    nothing with a handle that is closed or memory that is freed, no more written
    than there is room for. *)
Definition allowed (s : Ledger) {R} (c : call R) : Prop :=
  match c with
  | ImpersonateNamedPipeClient => impersonating s = false
  | RevertToSelf | OpenThreadToken => impersonating s = true
  | CloseHandle h | WaitForSingleObject h | GetExitCodeProcess h | SetStdHandle _ h => h ∈ handles s
  | GetTokenInformation h _ buffer room => h ∈ handles s /\ 0 <= room <= buffer
  | Memory p | LocalFree p => p ∈ heap s
  | LookupAccountSidW _ name domain name_len domain_len => 0 <= name_len <= name /\ 0 <= domain_len <= domain
  | GetSecurityDescriptorDacl d => d ∈ heap s
  | SetNamedSecurityInfoW _ _ l => exists d, (l, d) ∈ dacls s /\ d ∈ heap s
  | OpenProcessToken | ConvertSidToStringSidW _ | GetLastError | ConvertStringSecurityDescriptorToSecurityDescriptorW _
  | ShellExecuteExW _ _ _ _ | OpenAppend _ => True
  end.

Fixpoint all_allowed (s : Ledger) (tr : list event) : Prop :=
  match tr with [] => True | Event c r :: tr => allowed s c /\ all_allowed (after s c r) tr end.
Definition at_end (s : Ledger) (tr : list event) : Ledger := foldl (fun s '(Event c r) => after s c r) s tr.

(** ** What Windows documents *)

Record Identity := { id_sid : rstr; id_elevated : bool }.

(** Who is at the other end of the pipe and who runs this process; whom a handle
    speaks of, whose SID is at an address and what is in memory. *)
Record Windows := {
  client : Identity;
  self : Identity;
  token_of : HANDLE -> Identity;
  sid_at : pointer -> rstr;
  units_at : pointer -> list Z;
}.

(** Every [u32] is one, a token speaks of who it was opened for, a token's fields
    are that identity's, a SID's text is its own, in ASCII and ended by a nul, and
    a looked-up name fits where it was put. *)
Definition honest (w : Windows) (s : Ledger) {R} (c : call R) : R -> Prop :=
  match c with
  | OpenThreadToken => fun r => match r with Some h => token_of w h = if impersonating s then client w else self w | None => True end
  | OpenProcessToken => fun r => match r with Some h => token_of w h = self w | None => True end
  | GetTokenInformation h class _ _ =>
      match class as k return Z * option (field k) -> Prop with
      | TokenUser => fun r => 0 <= fst r < 2 ^ 32 /\ match snd r with Some p => sid_at w p = id_sid (token_of w h) | None => True end
      | TokenElevation => fun r => 0 <= fst r < 2 ^ 32 /\ match snd r with Some e => id_elevated (token_of w h) = negb (e =? 0) | None => True end
      end
  | ConvertSidToStringSidW p => fun r =>
      match r with
      | Some raw => exists rest, units_at w raw = (Z.of_N <$> sid_at w p) ++ 0 :: rest /\ Forall (fun c => 0 < c < 128)%N (sid_at w p)
      | None => True
      end
  | Memory p => fun r => r = units_at w p
  | GetExitCodeProcess _ => fun r => match r with Some code => 0 <= code < 2 ^ 32 | None => True end
  | LookupAccountSidW _ name domain name_len domain_len => fun r =>
      let '(ok, (n, n_len), (d, d_len)) := r in
      Z.of_nat (length n) = name /\ Z.of_nat (length d) = domain /\ 0 <= n_len < 2 ^ 32 /\ 0 <= d_len < 2 ^ 32
      /\ (ok = true -> n_len <= name /\ d_len <= domain)
  | _ => fun _ => True
  end.

Fixpoint honest_trace (w : Windows) (s : Ledger) (tr : list event) : Prop :=
  match tr with [] => True | Event c r :: tr => honest w s c r /\ honest_trace w (after s c r) tr end.

(** ** A logic for such programs *)

(** From [s] every call is permitted, and the end satisfies [Q], as long as the
    system keeps to what it documents. *)
Fixpoint wp (w : Windows) {A} (p : prog A) (Q : outcome A -> Ledger -> Prop) (s : Ledger) : Prop :=
  match p with
  | Ret a => Q (Returns a) s
  | Panic => Q Panics s
  | Do c k => allowed s c /\ forall r, honest w s c r -> wp w (k r) Q (after s c r)
  end.

Lemma wp_mono w {A} (p : prog A) (Q Q' : outcome A -> Ledger -> Prop) s :
  wp w p Q s -> (forall o s, Q o s -> Q' o s) -> wp w p Q' s.
Proof. revert s. induction p as [a| |R c k IH]; cbn; intros s Hp HQ; [auto..|]. destruct Hp as [Ha Hk]. split; auto. Qed.

Lemma wp_bind w {A B} (p : prog A) (f : A -> prog B) Q s :
  wp w p (fun o s => match o with Returns a => wp w (f a) Q s | Panics => Q Panics s end) s -> wp w (p ≫= f) Q s.
Proof. revert s. unfold mbind, prog_mbind. induction p as [a| |R c k IH]; cbn; intros s Hp; [done..|]. destruct Hp as [Ha Hk]. split; auto. Qed.

Lemma wp_ask w {R} (c : call R) Q s : allowed s c -> (forall r, honest w s c r -> Q (Returns r) (after s c r)) -> wp w (ask c) Q s.
Proof. by cbn. Qed.

(** What is proved of a program holds of its traces. *)
Lemma wp_runs w {A} (p : prog A) Q s tr o : wp w p Q s -> runs p tr o -> honest_trace w s tr -> all_allowed s tr /\ Q o (at_end s tr).
Proof.
  revert s tr. induction p as [a| |R c k IH]; cbn; intros s tr Hp.
  - intros [-> ->] _. done.
  - intros [-> ->] _. done.
  - intros (r & tr' & -> & Hr) [Hh Ht]. destruct Hp as [Ha Hk].
    destruct (IH r (after s c r) tr' (Hk r Hh) Hr Ht) as [H1 H2]. done.
Qed.

(** The trace of a sequence. *)
Lemma runs_bind {A B} (p : prog A) (f : A -> prog B) tr o : runs (p ≫= f) tr o ->
  (exists tr1 tr2 a, tr = tr1 ++ tr2 /\ runs p tr1 (Returns a) /\ runs (f a) tr2 o) \/ (runs p tr Panics /\ o = Panics).
Proof.
  unfold mbind, prog_mbind. revert tr. induction p as [a| |R c k IH]; cbn; intros tr Hr.
  - left. by exists [], tr, a.
  - right. naive_solver.
  - destruct Hr as (r & tr' & -> & Hr). destruct (IH r tr' Hr) as [(tr1 & tr2 & a & -> & H1 & H2)|[H1 ->]].
    + left. exists (Event c r :: tr1), tr2, a. split; [done|]. split; [|done]. by exists r, tr1.
    + right. split; [|done]. by exists r, tr'.
Qed.

Lemma at_end_app s tr tr' : at_end s (tr ++ tr') = at_end (at_end s tr) tr'.
Proof. apply foldl_app. Qed.

Lemma honest_trace_app w s tr tr' : honest_trace w s (tr ++ tr') <-> honest_trace w s tr /\ honest_trace w (at_end s tr) tr'.
Proof. revert s. induction tr as [|[R c r] tr IH]; intros s; cbn; [tauto|]. rewrite IH. tauto. Qed.
