(* ===== verification/Authz.v ===== *)
(** * Who may run what ([daemon/src/authz.rs])

    The caller's identity is the kernel's answer; the user database and whether
    this is Windows are arguments. *)

From S2P Require Import Prelude External Proto Net Files Node.

Inductive Caller :=
  | Uid (uid : Z)
  | WindowsCaller (sid : rstr) (account : option rstr) (elevated : bool)
  | UnknownCaller.

(** What the platform told of the connection. *)
Inductive credentials :=
  | UnixPeer (euid : option Z)
  | WindowsClient (client : option (rstr * option rstr * bool))
  | NoPlatform.

(** [Caller::of]. *)
Definition caller_of (c : credentials) : Caller :=
  match c with
  | UnixPeer (Some uid) => Uid uid
  | WindowsClient (Some (sid, account, elevated)) => WindowsCaller sid account elevated
  | _ => UnknownCaller
  end.

Definition is_superuser (c : Caller) : bool :=
  match c with
  | Uid uid => uid =? 0
  | WindowsCaller _ _ elevated => elevated
  | UnknownCaller => false
  end.

Definition is_operator (c : Caller) (o : Operator) : bool :=
  match c with
  | Uid id => bool_decide (uid o = Some id)
  | WindowsCaller s _ _ => bool_decide (sid o = Some s)
  | UnknownCaller => false
  end.

(** The user database, which has no entries on Windows. *)
Record Users := { user_name : Z -> option rstr; user_by_name : rstr -> option Z }.

Definition describe (u : Users) (c : Caller) : rstr :=
  match c with
  | Uid id =>
      match user_name u id with
      | Some name => name ++ lit " (uid " ++ show_Z id ++ lit ")"
      | None => lit "uid " ++ show_Z id
      end
  | WindowsCaller s account _ =>
      match account with Some a => a ++ lit " (" ++ s ++ lit ")" | None => s end
  | UnknownCaller => lit "unidentified caller"
  end.

Definition is_read_only (r : Request) : bool :=
  match r with
  | Status | Ping _ => true
  | CreateNetwork _ _ | Invite _ | Join _ _ | Leave | SetHostname _ _ | SetOperator _ | Kick _
  | FileSend _ _ _ _ | FileList | FileAccept _ | FileReject _ => false
  end.

Definition denial (windows : bool) (u : Users) (c : Caller) : message :=
  let who := describe u c in
  if windows then
    Fmt "{who} is not authorized — run elevated, or reinstall to make this account the operator" [Text who]
  else
    Fmt "{who} is not authorized — run as root, or have the operator set with `sudo quix set-operator <user>`" [Text who].

Definition check (windows : bool) (u : Users) (req : Request) (caller : Caller) (o : Operator) : result message () :=
  if is_read_only req || is_superuser caller || is_operator caller o then Ok tt
  else Err (denial windows u caller).

Definition resolve_user (windows : bool) (u : Users) (user : rstr) : result message Z :=
  if windows then
    Err (Fmt "set-operator is not supported on Windows: authorization here is by Administrator elevation, so run the command elevated instead (got {user:?})" [Text user])
  else
    match parse_uint u32_max user with
    | Some id => Ok id
    | None => ok_or (Fmt "no such user: {user}" [Text user]) (user_by_name u user)
    end.

(** a command runs exactly when it only reads, or its caller is root or
    elevated, or is the operator recorded for the caller's own platform; an
    operator of the other platform, an unset one and an unidentified caller
    never match. *)
Theorem check_functional windows u req caller o :
  check windows u req caller o = Ok tt <->
  req = Status \/ (exists p, req = Ping p)
  \/ caller = Uid 0 \/ (exists s a, caller = WindowsCaller s a true)
  \/ (exists id, caller = Uid id /\ uid o = Some id)
  \/ (exists s a e, caller = WindowsCaller s a e /\ sid o = Some s).
Proof.
  unfold check. split.
  - destruct (is_read_only req) eqn:Er; [intros _; destruct req; naive_solver|].
    destruct (is_superuser caller) eqn:Es.
    { intros _. destruct caller as [id|s a []|]; cbn in Es; try done; [|naive_solver].
      apply Z.eqb_eq in Es as ->. naive_solver. }
    destruct (is_operator caller o) eqn:Eo; [|done]. intros _.
    destruct caller as [id|s a e|]; cbn in Eo; [|..|done]; apply bool_decide_eq_true in Eo; naive_solver.
  - intros [->|[[p ->]|[->|[(s & a & ->)|[(id & -> & Ho)|(s & a & e & -> & Ho)]]]]]; [done..| | | |].
    + by rewrite orb_true_r.
    + by rewrite orb_true_r.
    + cbn [is_operator]. by rewrite (bool_decide_eq_true_2 _ Ho), orb_true_r.
    + cbn [is_operator]. by rewrite (bool_decide_eq_true_2 _ Ho), orb_true_r.
Qed.
