(* ===== verification/Winauth.v ===== *)
(** * Who is calling, on Windows ([daemon/src/winauth.rs])

    The identity of the client of a pipe and of this process, as programs that
    call Windows; that they give back everything they take, whatever fails, and
    that nobody is taken for somebody else. *)

From S2P Require Import Prelude Utf8 Win32 Proto Files Node Authz.

Local Abbreviation list := Datatypes.list.

Record PipeClient := { pc_sid : rstr; pc_account : option rstr; pc_elevated : bool }.

(** [Option]'s [?] inside a program. *)
Definition prog_try {A B} (p : prog (option A)) (f : A -> prog (option B)) : prog (option B) :=
  p ≫= fun r => match r with Some a => f a | None => Ret None end.

(** [needed.div_ceil(8)] words of eight bytes, in bytes. *)
Definition buffer_for (needed : Z) : Z := 8 * ((needed + 7) / 8).

Definition token_information (token : HANDLE) (class : TokenClass) : prog (option (field class)) :=
  '(needed, _) ← ask (GetTokenInformation token class 0 0);
  if needed =? 0 then Ret None
  else
    '(_, filled) ← ask (GetTokenInformation token class (buffer_for needed) needed);
    Ret filled.

Definition wide_to_string (p : pointer) : prog (option rstr) :=
  if p =? 0 then Ret None
  else units ← ask (Memory p); Ret (Some (from_utf16_lossy (before_nul units))).

Definition sid_string (sid : pointer) : prog (option rstr) :=
  prog_try (ask (ConvertSidToStringSidW sid)) (fun raw =>
    text ← wide_to_string raw;
    _ ← ask (LocalFree raw);
    Ret text).

(** [&buffer[..len]], which panics past the end. *)
Definition slice (buffer : list Z) (len : Z) : prog (list Z) :=
  if len <=? Z.of_nat (length buffer) then Ret (take (Z.to_nat len) buffer) else Panic.

Definition account_name (sid : pointer) : prog (option rstr) :=
  '(_, (_, name_len), (_, domain_len)) ← ask (LookupAccountSidW sid 0 0 0 0);
  if name_len =? 0 then Ret None
  else
    '(ok, (name, name_len), (domain, domain_len)) ←
      ask (LookupAccountSidW sid name_len (Z.max domain_len 1) name_len domain_len);
    if negb ok then Ret None
    else
      name ← slice name name_len;
      domain ← slice domain domain_len;
      let name := from_utf16_lossy name in
      let domain := from_utf16_lossy domain in
      Ret (Some (if is_empty domain then name else domain ++ lit "\" ++ name)).

Definition describe_token (token : HANDLE) : prog (option PipeClient) :=
  prog_try (token_information token TokenUser) (fun sid =>
  prog_try (token_information token TokenElevation) (fun elevation =>
  prog_try (sid_string sid) (fun text =>
    account ← account_name sid;
    Ret (Some {| pc_sid := text; pc_account := account; pc_elevated := negb (elevation =? 0) |})))).

(** What is opened is described and closed. *)
Definition read_token (opening : call (option HANDLE)) : prog (option PipeClient) :=
  prog_try (ask opening) (fun token =>
    client ← describe_token token;
    _ ← ask (CloseHandle token);
    Ret client).

Definition read_impersonated_token : prog (option PipeClient) := read_token OpenThreadToken.
Definition current_process : prog (option PipeClient) := read_token OpenProcessToken.

Definition identify : prog (option PipeClient) :=
  impersonated ← ask ImpersonateNamedPipeClient;
  if negb impersonated then Ret None
  else
    client ← read_impersonated_token;
    reverted ← ask RevertToSelf;
    if negb reverted then Ret None else Ret client.

(** As [Caller::of] takes it. *)
Definition as_credentials (c : option PipeClient) : credentials :=
  WindowsClient ((fun c => (pc_sid c, pc_account c, pc_elevated c)) <$> c).

(** ** The programs, one by one *)

Lemma wp_try w {A B} (p : prog (option A)) (f : A -> prog (option B)) Q s :
  wp w p (fun o s => match o with Returns (Some a) => wp w (f a) Q s | Returns None => Q (Returns None) s | Panics => Q Panics s end) s ->
  wp w (prog_try p f) Q s.
Proof. intros Hp. apply wp_bind. eapply wp_mono; [exact Hp|]. by intros [[a|]|] s'. Qed.

Lemma buffer_for_fits n : 0 <= n -> 0 <= n <= buffer_for n.
Proof. unfold buffer_for. intros Hn. pose proof (Z.div_mod (n + 7) 8 ltac:(lia)). pose proof (Z.mod_pos_bound (n + 7) 8 ltac:(lia)). lia. Qed.

(** The field is that of the identity the token speaks of. *)
Definition is_field (i : Identity) (w : Windows) (class : TokenClass) : field class -> Prop :=
  match class with TokenUser => fun p => sid_at w p = id_sid i | TokenElevation => fun e => id_elevated i = negb (e =? 0) end.

Lemma wp_token_information w token class s (Q : outcome (option (field class)) -> Ledger -> Prop) : token ∈ handles s ->
  (forall r, (forall f, r = Some f -> is_field (token_of w token) w class f) -> Q (Returns r) s) ->
  wp w (token_information token class) Q s.
Proof.
  intros Ht HQ. cbn. split; [split; [done|lia]|]. intros [needed first] Hf. cbn.
  assert (Hn : 0 <= needed) by (destruct class; cbn in Hf; lia).
  destruct (needed =? 0); [by apply HQ|]. cbn. split; [split; [done|by apply buffer_for_fits]|].
  intros [n filled] Hr. cbn. apply HQ. intros f ->. destruct class; cbn in Hr |- *; tauto.
Qed.

Lemma before_nul_ascii s rest : Forall (fun c => 0 < c < 128)%N s -> before_nul ((Z.of_N <$> s) ++ 0 :: rest) = Z.of_N <$> s.
Proof.
  induction 1 as [|c s Hc _ IH]; [done|]. rewrite fmap_cons. cbn [app before_nul].
  destruct (Z.eqb_spec (Z.of_N c) 0); [lia|]. by rewrite IH.
Qed.

Lemma ascii_utf16 s : Forall (fun c => 0 < c < 128)%N s -> from_utf16_lossy (Z.of_N <$> s) = s.
Proof.
  intros Hs. rewrite <- (utf16_roundtrip s) at 2.
  - f_equal. unfold encode_utf16. induction Hs as [|c s Hc _ IH]; [done|]. rewrite fmap_cons. cbn [mbind list_bind].
    rewrite <- IH. unfold encode_units. by destruct (Z.ltb_spec (Z.of_N c) 65536); [|lia].
  - eapply Forall_impl; [exact Hs|]. intros c Hc. unfold scalar. cbn in Hc. lia.
Qed.

(** One allocation, freed. *)
Lemma wp_sid_string w sid s (Q : outcome (option rstr) -> Ledger -> Prop) :
  (forall d, d ∈ dacls s -> snd d ∈ heap s) ->
  (forall r s', handles s' = handles s -> heap s' = heap s -> impersonating s' = impersonating s ->
     (forall d, d ∈ dacls s' -> snd d ∈ heap s') -> (forall t, r = Some t -> t = sid_at w sid) -> Q (Returns r) s') ->
  wp w (sid_string sid) Q s.
Proof.
  intros Hd HQ. apply wp_try. cbn. split; [done|]. intros [raw|] Hr; cbn; [|by apply HQ].
  assert (Hfree : forall r, (forall t, r = Some t -> t = sid_at w sid) ->
    Q (Returns r) (after (owns (gains (Some raw)) s) (LocalFree raw) tt)).
  { intros r Ht. apply HQ; [done|cbn; by rewrite Z.eqb_refl|done| |done].
    cbn. rewrite Z.eqb_refl. intros d [Hne Hin]%list_elem_of_filter. by apply Hd. }
  unfold wide_to_string. destruct (raw =? 0); cbn.
  - split; [constructor|]. intros _ _. by apply Hfree.
  - split; [constructor|]. intros units ->. split; [constructor|]. intros [] _. apply Hfree. intros t [= <-].
    destruct Hr as (rest & -> & Ha). by rewrite before_nul_ascii, ascii_utf16.
Qed.

(** Nothing held, nothing out of bounds, no panic. *)
Lemma wp_account_name w sid s (Q : outcome (option rstr) -> Ledger -> Prop) :
  (forall r, Q (Returns r) s) -> wp w (account_name sid) Q s.
Proof.
  intros HQ. cbn. split; [lia|]. intros [[ok [n nl]] [d dl]] (Hn & Hd & Hnl & Hdl & _). cbn.
  destruct (nl =? 0); [apply HQ|]. cbn. split; [lia|]. intros [[ok' [n' nl']] [d' dl']] (Hn' & Hd' & _ & _ & Hok). cbn.
  destruct ok'; cbn [negb]; [|apply HQ]. destruct (Hok eq_refl) as [Hnl' Hdl']. unfold slice.
  destruct (Z.leb_spec nl' (Z.of_nat (length n'))); [|lia]. cbn.
  destruct (Z.leb_spec dl' (Z.of_nat (length d'))); [|lia]. cbn. apply HQ.
Qed.

(** The client described is the one the token speaks of. *)
Definition described (i : Identity) (c : PipeClient) : Prop := pc_sid c = id_sid i /\ pc_elevated c = id_elevated i.

(** The thread is as it was, lists of permissions apart. *)
Definition restored (s s' : Ledger) : Prop :=
  handles s' = handles s /\ heap s' = heap s /\ impersonating s' = impersonating s /\ (forall d, d ∈ dacls s' -> snd d ∈ heap s').

Lemma wp_describe_token w token s (Q : outcome (option PipeClient) -> Ledger -> Prop) :
  token ∈ handles s -> (forall d, d ∈ dacls s -> snd d ∈ heap s) ->
  (forall r s', restored s s' -> (forall c, r = Some c -> described (token_of w token) c) -> Q (Returns r) s') ->
  wp w (describe_token token) Q s.
Proof.
  intros Ht Hd HQ. apply wp_try, wp_token_information; [done|]. intros [sid|] Hsid; [|by apply HQ].
  apply wp_try, wp_token_information; [done|]. intros [e|] He; [|by apply HQ].
  apply wp_try, wp_sid_string; [done|]. intros [t|] s' H1 H2 H3 H4 Hs; [|by apply HQ].
  apply wp_bind, wp_account_name. intros account. apply HQ; [done|]. intros c [= <-].
  specialize (Hsid _ eq_refl). specialize (He _ eq_refl). cbn in Hsid, He. split; cbn; [|done].
  rewrite (Hs _ eq_refl). exact Hsid.
Qed.

Lemma without_head x l : without x (x :: l) = l.
Proof. cbn. by rewrite Z.eqb_refl. Qed.

Lemma wp_read_token w (opening : call (option HANDLE)) i s (Q : outcome (option PipeClient) -> Ledger -> Prop) :
  allowed s opening ->
  (forall r, after s opening r = holds (gains r) s /\ (honest w s opening r -> forall h, r = Some h -> token_of w h = i)) ->
  (forall d, d ∈ dacls s -> snd d ∈ heap s) ->
  (forall r s', restored s s' -> (forall c, r = Some c -> described i c) -> Q (Returns r) s') ->
  wp w (read_token opening) Q s.
Proof.
  intros Ha Ho Hd HQ. apply wp_try, wp_ask; [done|]. intros r Hr. destruct (Ho r) as [-> Hi].
  destruct r as [token|]; [|by apply HQ]. rewrite <- (Hi Hr token eq_refl) in HQ. apply wp_bind, wp_describe_token; [constructor|done|].
  intros c s' (Hh & Hp & Him & Hl) Hc. cbn. rewrite Hh. split; [constructor|]. intros [] _. apply HQ; [|done].
  split; [cbn; rewrite Hh; apply without_head|done].
Qed.

(** ** Properties *)

(** What becomes of identifying a client: the thread wears nobody's identity
    unless Windows would not have it back, in which case there is no answer. *)
Definition identified (w : Windows) (o : outcome (option PipeClient)) (s : Ledger) : Prop :=
  exists r, o = Returns r
    /\ handles s = [] /\ heap s = []
    /\ (impersonating s = true -> r = None)
    /\ (forall c, r = Some c -> described (client w) c).

Lemma wp_identify w : wp w identify (identified w) idle.
Proof.
  apply wp_bind, wp_ask; [done|]. intros [] _; [|by exists None]. cbn [negb].
  apply wp_bind. apply (wp_read_token _ _ (client w)); [done| |by intros d ?%elem_of_nil|].
  - intros r. split; [done|]. intros Hr h ->. exact Hr.
  - intros r s' (Hh & Hp & Hi & _) Hc. cbn. split; [by rewrite Hi|]. intros [] _; cbn; [by exists r|]. by exists None.
Qed.

(** C16: however the calls of identifying a client fail, every handle is closed and
    every allocation freed, each once and none used afterwards; the token asked for
    is the client's; nothing panics; the thread is its own again or nobody was
    identified; and who was identified is the client, with its own SID and
    elevation. *)
Theorem a_client_is_who_windows_says w tr o : runs identify tr o -> honest_trace w idle tr ->
  all_allowed idle tr /\ identified w o (at_end idle tr).
Proof. intros Hr Hh. by eapply wp_runs; [apply wp_identify|..]. Qed.

(** This process is read the same way, without wearing anybody's identity. *)
Definition is_this_process (w : Windows) (o : outcome (option PipeClient)) (s : Ledger) : Prop :=
  exists r, o = Returns r /\ handles s = [] /\ heap s = [] /\ impersonating s = false /\ forall c, r = Some c -> described (self w) c.

Lemma wp_current_process w : wp w current_process (is_this_process w) idle.
Proof.
  apply (wp_read_token _ _ (self w)); [done| |by intros d ?%elem_of_nil|].
  - intros r. split; [done|]. intros Hr' h ->. exact Hr'.
  - intros r s' (Hh' & Hp & Hi & _) Hc. by exists r.
Qed.

Lemma current_process_spec w tr o : runs current_process tr o -> honest_trace w idle tr ->
  all_allowed idle tr /\ is_this_process w o (at_end idle tr).
Proof. intros Hr Hh. by eapply wp_runs; [apply wp_current_process|..]. Qed.

(** over a pipe a command that changes anything runs only for a client whose own
    token is elevated, or whose own SID is the operator's: not for one that could
    not be identified, and not for one that looks like somebody else. *)
Theorem a_pipe_grants_what_windows_grants w tr c u req o : runs identify tr (Returns c) -> honest_trace w idle tr ->
  check true u req (caller_of (as_credentials c)) o = Ok tt ->
  is_read_only req = true \/ id_elevated (client w) = true \/ sid o = Some (id_sid (client w)).
Proof.
  intros Hr Hh Hc. destruct (wp_runs _ _ _ _ _ _ (wp_identify w) Hr Hh) as (_ & r & [= <-] & _ & _ & _ & Hd).
  unfold check in Hc. destruct (is_read_only req); [by left|]. right. destruct c as [c|]; [|done].
  destruct (Hd c eq_refl) as [Hs He]. cbn in Hc. rewrite <- Hs, <- He.
  destruct (pc_elevated c); [by left|]. right. cbn in Hc. by destruct (bool_decide_reflect (sid o = Some (pc_sid c))).
Qed.

(** ** A system that answers *)

Module Desk.
Definition alice : Identity := {| id_sid := lit "S-1-5-21-7-1001"; id_elevated := true |}.
Definition service : Identity := {| id_sid := lit "S-1-5-18"; id_elevated := true |}.
Definition windows : Windows :=
  {| client := alice; self := service; token_of := fun h => if h =? 4 then alice else service;
     sid_at := fun p => if p =? 1000 then id_sid alice else id_sid service;
     units_at := fun p => (Z.of_N <$> id_sid (if p =? 2000 then alice else service)) ++ [0] |}.

Definition token_info (h : Z) (class : TokenClass) : Z * option (field class) :=
  match class with TokenUser => (28, Some (if h =? 4 then 1000 else 1001)) | TokenElevation => (4, Some 1) end.

Definition os : forall R, call R -> R := fun R c =>
  match c with
  | ImpersonateNamedPipeClient | RevertToSelf => true
  | OpenThreadToken => Some 4
  | OpenProcessToken => Some 5
  | CloseHandle _ | LocalFree _ => tt
  | GetTokenInformation h class _ _ => token_info h class
  | ConvertSidToStringSidW p => Some (if p =? 1000 then 2000 else 2001)
  | Memory p => units_at windows p
  | LookupAccountSidW _ name domain name_len domain_len =>
      if name =? 0 then (false, ([], 6), ([], 5))
      else (true, ([97; 108; 105; 99; 101; 0], 5), ([68; 69; 83; 75; 0], 4))
  | GetLastError => 0
  | ConvertStringSecurityDescriptorToSecurityDescriptorW _ => Some 3000
  | GetSecurityDescriptorDacl _ => Some (Some 3008)
  | SetNamedSecurityInfoW _ _ _ => 0
  | ShellExecuteExW _ _ _ _ => Some 6
  | WaitForSingleObject _ => tt
  | GetExitCodeProcess _ => Some 0
  | OpenAppend _ => Ok 7
  | SetStdHandle _ _ => true
  end.

Definition seen : option PipeClient :=
  Some {| pc_sid := lit "S-1-5-21-7-1001"; pc_account := Some (lit "DESK\alice"); pc_elevated := true |}.

Definition nobody : Operator := {| uid := None; sid := None |}.
Definition no_users : Users := {| user_name := fun _ => None; user_by_name := fun _ => None |}.

Lemma ascii_sid i : i = alice \/ i = service -> Forall (fun c => 0 < c < 128)%N (id_sid i).
Proof. intros [->| ->]; cbn; repeat constructor. Qed.

Lemma identify_runs : runs identify (fst (ran os identify)) (Returns seen).
Proof. apply (ran_runs os identify). Qed.

Lemma identify_honest : honest_trace windows idle (fst (ran os identify)).
Proof.
  cbn. repeat split; try done; try lia. exists []. split; [done|]. apply (ascii_sid alice). by left.
Qed.
End Desk.

Example a_client_is_who_windows_says_witness :
  length (fst (ran Desk.os identify)) = 13%nat
  /\ all_allowed idle (fst (ran Desk.os identify)) /\ identified Desk.windows (Returns Desk.seen) (at_end idle (fst (ran Desk.os identify))).
Proof.
  split; [reflexivity|].
  apply (a_client_is_who_windows_says Desk.windows _ _ Desk.identify_runs Desk.identify_honest).
Defined.

Example a_pipe_grants_what_windows_grants_witness :
  is_read_only Leave = true \/ id_elevated Desk.alice = true \/ sid Desk.nobody = Some (id_sid Desk.alice).
Proof.
  apply (a_pipe_grants_what_windows_grants Desk.windows _ Desk.seen Desk.no_users Leave Desk.nobody Desk.identify_runs Desk.identify_honest).
  reflexivity.
Defined.

(** when Windows does not take its identity back nobody is identified, but the
    thread goes on as the client, and what anybody may read is still answered. *)
Theorem a_failed_revert_stays u o : exists tr, runs identify tr (Returns None)
  /\ impersonating (at_end idle tr) = true /\ check true u Status (caller_of (as_credentials None)) o = Ok tt.
Proof.
  exists [Event ImpersonateNamedPipeClient true; Event OpenThreadToken None; Event RevertToSelf false].
  split; [|done]. cbn. exists true. eexists. split; [done|]. exists None. eexists. split; [done|].
  exists false. eexists. by split.
Qed.
