(* ===== verification/Ipc.v ===== *)
(** * Local commands ([daemon/src/ipc.rs])

    One request per connection, authorized and dispatched on the whole state.
    What the network, the clock, the random source and the user database give is
    in [Outside]. *)

From S2P Require Import Prelude External Proto Names Net Tun Membership Peers Routes Stats Files Frame Transfer Node Admin Authz.

Local Abbreviation list := Datatypes.list.

Section Ipc.
Context `{!EndpointIds, !Sha256, !HexCrate, !Bs58, !WireJson} {Link : Type}.
Notation State := (State (Link := Link)).

Record Outside := {
  world : World;
  now : Z;                                                    (* both clocks *)
  random : list Z;                                            (* a network id's bytes *)
  token : list Z;                                             (* an invite's *)
  admin_call : nat -> EndpointId -> AdminRequest -> outcome;  (* the n-th call *)
  notice_in_time : bool;                                      (* the kick notice's five seconds *)
  waited : option Connection;
  rtt : Connection -> option Z;
  debug : AdminResponse -> message;
  users : Users;
  windows : bool;
  counters : Counters;
}.

(** Requests that go on past their answer. *)
Definition is_transfer (req : Request) : bool :=
  match req with FileSend _ _ _ _ | FileAccept _ => true | _ => false end.

Definition zone (n : State) : rstr :=
  match network_name (membership n) with
  | Some name => network_label name ++ lit "." ++ ZONE
  | None => ZONE
  end.

Definition create_network (o : Outside) (n : State) (name : rstr) (hostname : option rstr) : State * result message () :=
  match validate_network name with
  | Err e => (n, Err e)
  | Ok name =>
      match hostname with
      | Some requested =>
          match validate requested (own_id n) with
          | Err e => (n, Err e)
          | Ok h => Node.create_network (world o) n name (Some h) (random o)
          end
      | None => Node.create_network (world o) n name None (random o)
      end
  end.

Definition set_hostname (o : Outside) (n : State) (requested : rstr) (force : bool)
    : State * result message rstr * list push :=
  match validate requested (own_id n) with
  | Err e => (n, Err e, [])
  | Ok wanted =>
      if is_coordinator n then
        match Node.claim_hostname (world o) n (own_id n) wanted force with
        | (n, Ok (Ok assigned)) =>
            (n, Ok assigned, broadcast_roster n (own_id n) (network_name (membership n)) (Node.roster n))
        | (n, Ok (Err e)) => (n, Err e, [])
        | (n, Err e) => (n, Err e, [])
        end
      else
        match coordinator_id (membership n) with
        | None => (n, Err (Fmt "not a member of any network" []), [])
        | Some coordinator =>
            match parse_id coordinator with
            | None => (n, Err (context (Fmt "stored coordinator id" []) (Fmt "{}" [])), [])
            | Some id =>
                match Admin.claim_hostname (debug o) (admin_call o 0 id (Admin.SetHostname wanted)) with
                | Ok assigned =>
                    match adopt_hostname (world o) n assigned with
                    | (n, Ok _) => (n, Ok assigned, [])
                    | (n, Err e) => (n, Err e, [])
                    end
                | Err _ =>
                    match adopt_hostname (world o) n wanted with
                    | (n, Ok _) => (n, Ok wanted, [])
                    | (n, Err e) => (n, Err e, [])
                    end
                end
            end
        end
  end.

Definition kick (o : Outside) (n : State) (peer : rstr) : State * Response * list push :=
  if negb (is_coordinator n) then (n, RError (Fmt "only the coordinator can kick" []), [])
  else
    match Node.kick (world o) n peer with
    | (n, Err e) => (n, RError e, [])
    | (n, Ok (Err m)) => (n, RError m, [])
    | (n, Ok (Ok member)) =>
        let pushes := broadcast_roster n (m_id member) (network_name (membership n)) (Node.roster n) in
        let notified :=
          match parse_id (m_id member) with
          | Some id =>
              is_ok (notify_kicked (debug o)
                (if notice_in_time o then Some (admin_call o 0 id Admin.Kicked) else None))
          | None => false
          end in
        (n, RKicked (Names.display (m_id member) (m_hostname member)) (m_id member) notified, pushes)
    end.

(** One row of the status. *)
Definition peer_status (hostnames : gmap rstr rstr) (row : PeerRow) : PeerStatus :=
  let id := show_id (row_id row) in
  let hostname := hostnames !! id in
  {| ps_id := id; ps_name := Names.display id hostname; ps_named := bool_decide (is_Some hostname);
     ps_v6 := show_ip (row_v6 row); ps_v4 := show_ip (row_v4 row); ps_linked := row_linked row;
     ps_datagram_max := (fun max => max mod 2 ^ 32) <$> row_datagram_max row |}.

Definition status (o : Outside) (n : State) : Response :=
  let '(v4, v6) := virtual_addrs (id_bytes (own n)) in
  RStatus (own_id n) (Names.display (own_id n) (hostname n)) (bool_decide (is_Some (hostname n))) (show_ip v6) (show_ip v4)
    (network_name (membership n)) (is_coordinator n) (peer_status (hostnames n) <$> snapshot (peers n)) (zone n)
    (stats_snapshot (counters o)) (conflicts n) (dns n).

Definition answer {A} (r : State * result message A) (ok : State -> A -> Response) : State * Response * list push :=
  match r with
  | (n, Ok a) => (n, ok n a, [])
  | (n, Err e) => (n, RError e, [])
  end.

(** Telling the coordinator of a departure. *)
Definition told_coordinator (o : Outside) (n : State) : bool :=
  match coordinator_id (membership n) with
  | Some id =>
      if str_eqb id (own_id n) then false
      else match parse_id id with
           | Some id => is_ok (notify_leave (debug o) (admin_call o 0 id Admin.Leave))
           | None => false
           end
  | None => false
  end.

Definition dispatch (o : Outside) (n : State) (req : Request) : State * Response * list push :=
  match req with
  | Ping peer =>
      answer (probe (world o) n peer (waited o) (rtt o))
        (fun _ p => RPong (show_ip (pr_v6 p)) (show_ip (pr_v4 p)) (pr_rtt p))
  | Status => (n, status o n, [])
  | CreateNetwork name hostname =>
      answer (create_network o n name hostname) (fun _ _ => ROk (lit "network created"))
  | Invite ttl_secs =>
      if negb (is_coordinator n) then (n, RError (Fmt "only the coordinator can invite" []), [])
      else
        let ttl_secs := clamp 1 MAX_INVITE_TTL ttl_secs in
        answer (generate_invite (world o) n (from_secs ttl_secs) (now o) (token o))
          (fun _ '(code, expires_at) => RInvite code expires_at)
  | Proto.SetHostname hostname force =>
      match set_hostname o n hostname force with
      | (n, Ok assigned, pushes) => (n, RHostnameSet assigned hostname, pushes)
      | (n, Err e, pushes) => (n, RError e, pushes)
      end
  | Kick peer => kick o n peer
  | FileList =>
      let '(fs, (incoming, outgoing)) := Files.list (files n) (now o) in
      (with_files fs n, RFiles incoming outgoing, [])
  | FileReject id =>
      let '(fs, resp, _) := reject (files n) id (now o) in
      (with_files fs n, resp, [])
  | FileSend _ _ _ _ | FileAccept _ =>
      (n, RError (Fmt "a transfer cannot be dispatched as a single request" []), [])
  | SetOperator user =>
      match resolve_user (windows o) (users o) user with
      | Ok id => answer (set_operator (world o) n user id) (fun _ _ => ROperatorSet user id)
      | Err m => (n, RError m, [])
      end
  | Proto.Leave =>
      let notified := told_coordinator o n in
      answer (Node.leave (world o) n) (fun _ name => RLeft name notified)
  | Proto.Join code hostname =>
      match join_network (debug o) code hostname (admin_call o) with
      | Err e => (n, RError e, [])
      | Ok ad =>
          answer (set_joined (world o) n (show_id (ad_coordinator_id ad)) (ad_network_name ad) (ad_members ad))
            (fun n _ => RJoined (ad_network_name ad) (ad_hostname ad) (zone n))
      end
  end.

(** [transfer], up to the tasks of [Transfer.v]: whom a file is sent to. *)
Inductive transfer_start :=
  | Sends (peer : EndpointId) (name : rstr) (size ttl_secs : Z)
  | Accepts (id : rstr)
  | NoTransfer (r : Response).

Definition transfer (n : State) (req : Request) : transfer_start :=
  match req with
  | FileSend name size target ttl_secs =>
      match find_peer n target with
      | Ok (peer, _) => Sends peer name size ttl_secs
      | Err m => NoTransfer (RError m)
      end
  | FileAccept id => Accepts id
  | _ => NoTransfer (RError (Fmt "unreachable" []))
  end.

(** [handle]: one connection.  [from_str] is [serde_json]'s reader, and [buffered]
    whether the client had sent more than its line. *)
Inductive handled :=
  | Dropped (e : message)
  | Transferring (t : transfer_start)
  | Replied (r : Response) (pushes : list push).

Definition handle (from_str : rstr -> result message Request) (o : Outside) (n : State) (line : rstr) (caller : Caller)
    (buffered : bool) : State * handled :=
  match from_str (trim line) with
  | Err e => (n, Dropped e)
  | Ok req =>
      match check (windows o) (users o) req caller (operator n) with
      | Err m => (n, Replied (RUnauthorized m) [])
      | Ok _ =>
          if is_transfer req then
            if buffered then (n, Dropped (Fmt "client sent data before the request was answered" []))
            else (n, Transferring (transfer n req))
          else let '(n, resp, pushes) := dispatch o n req in (n, Replied resp pushes)
      end
  end.
End Ipc.
