(* ===== verification/IpcProps.v ===== *)
(** * Properties of local commands *)

From S2P Require Import Prelude External Proto Names Net Tun Membership MembershipProps MembershipLookup Peers Routes Stats Files Frame Transfer TransferProps Node NodeProps Admin AdminProps Authz Ipc.

Local Abbreviation list := Datatypes.list.

Section IpcProps.
Context `{!EndpointIds, !Sha256, !HexCrate, !Bs58, !WireJson} {Link : Type}.
Notation State := (State (Link := Link)).

Lemma with_mesh_membership p r k d (n : State) : membership (with_mesh p r k d n) = membership n.
Proof. done. Qed.

(** ** Requests as methods *)

(** The methods a request may come down to. *)
Definition may (req : Request) (m : method (Link := Link)) : bool :=
  match req, m with
  | Ping _, MRequestDial _ | CreateNetwork _ _, MCreateNetwork _ _ _ | Invite _, MGenerateInvite _ _ _
  | Proto.Join _ _, MSetJoined _ _ _ | Proto.Leave, MLeave | SetOperator _, MSetOperator _ _
  | Proto.SetHostname _ _, MClaimHostname _ _ _ | Proto.SetHostname _ _, MAdoptHostname _ | Kick _, MKick _
  | FileList, MFile _ | FileReject _, MFile _ => true
  | _, _ => false
  end.

Definition admin_may (req : AdminRequest) (requester : rstr) (m : method (Link := Link)) : bool :=
  match req, m with
  | Admin.Join _ _, MRedeemInvite _ r _ _ | Admin.Leave, MRemoveMember r | Admin.SetHostname _, MClaimHostname r _ _ =>
      str_eqb r requester
  | Roster _ _, MSetRoster _ _ | Kicked, MLeave => true
  | _, _ => false
  end.

Lemma answer_state {A} (r : State * result message A) (ok : State -> A -> Response) : fst (fst (answer r ok)) = fst r.
Proof. by destruct r as [n [a|e]]. Qed.

Lemma dispatch_is_a_method o (n : State) req :
  let n' := fst (fst (Ipc.dispatch o n req)) in
  n' = n \/ exists m, may req m = true /\ n' = call (world o) n m.
Proof.
  cbv zeta. destruct req as [peer| |name h|ttl|code h| |user|h force|peer|name size target ttl| |id|id];
    cbn [Ipc.dispatch]; try (by left).
  - rewrite answer_state. unfold probe. destruct (parse_id peer) as [id|]; [|by left]. destruct (negb _); [by left|].
    destruct (virtual_addrs _). destruct (link _ _); [by left|]. right. by exists (MRequestDial id).
  - rewrite answer_state. unfold Ipc.create_network. destruct (validate_network name) as [name'|]; [|by left].
    destruct h as [r|]; [destruct (validate r (own_id n)) as [h'|]; [|by left]|]; right.
    + by exists (MCreateNetwork name' (Some h') (random o)).
    + by exists (MCreateNetwork name' None (random o)).
  - destruct (negb _); [by left|]. rewrite answer_state. right.
    by exists (MGenerateInvite (from_secs (clamp 1 MAX_INVITE_TTL ttl)) (now o) (token o)).
  - destruct (join_network _ _ _ _) as [ad|]; [|by left]. rewrite answer_state. right.
    by exists (MSetJoined (show_id (ad_coordinator_id ad)) (ad_network_name ad) (ad_members ad)).
  - rewrite answer_state. right. by exists MLeave.
  - destruct (resolve_user _ _ _) as [uid|]; [|by left]. rewrite answer_state. right. by exists (MSetOperator user uid).
  - unfold Ipc.set_hostname. destruct (validate h (own_id n)) as [wanted|]; [|by left]. destruct (is_coordinator n).
    + right. exists (MClaimHostname (own_id n) wanted force). split; [done|]. cbn [call].
      by destruct (Node.claim_hostname _ _ _ _ _) as [n' [[a|e]|e]].
    + destruct (coordinator_id _) as [c|]; [|by left]. destruct (parse_id c) as [id|]; [|by left]. right.
      destruct (Admin.claim_hostname _ _) as [a|e]; [exists (MAdoptHostname a)|exists (MAdoptHostname wanted)]; (split; [done|]);
        cbn [call]; by destruct (adopt_hostname _ _ _) as [n' [[]|e']].
  - unfold Ipc.kick. destruct (negb _); [by left|]. right. exists (MKick peer). split; [done|]. cbn [call].
    by destruct (Node.kick _ _ _) as [n' [[x|e]|e]].
  - right. exists (MFile (ListOffers (now o))). split; [done|]. cbn [call is_set_roster Files.apply].
    by destruct (Files.list _ _) as [fs [inc out]].
  - right. exists (MFile (Take id (now o))). split; [done|]. unfold reject. cbn [call is_set_roster Files.apply].
    by destruct (take_answerable (files n) id (now o)) as [fs [[offer lk]|e]].
Qed.

Lemma admin_dispatch_is_a_method w (n : State) req requester at_ :
  let n' := fst (fst (Admin.dispatch w n req requester at_)) in
  n' = n \/ exists m, admin_may req requester m = true /\ n' = call w n m
    /\ match req with
       | Roster _ _ | Kicked => coordinator_id (membership n) = Some requester
       | _ => is_coordinator n = true
       end.
Proof.
  cbv zeta. pose proof (str_eqb_refl requester) as Hr. destruct req as [tok h| |h|name l|]; cbn [Admin.dispatch].
  - unfold Admin.join. destruct (is_coordinator n); [|by left]. cbn [negb]. destruct (decode_token tok) as [t|]; [|by left].
    right. exists (MRedeemInvite t requester h at_). split; [done|]. split; [|done]. cbn [call].
    by destruct (Node.redeem_invite _ _ _ _ _ _) as [n' [[[l a]|]|e]].
  - unfold Admin.leave. destruct (is_coordinator n); [|by left]. cbn [negb].
    right. exists (MRemoveMember requester). split; [done|]. split; [|done]. cbn [call].
    by destruct (Node.remove_member _ _ _) as [n' [[]|e]].
  - unfold Admin.set_hostname. destruct (is_coordinator n); [|by left]. cbn [negb]. destruct (negb _); [by left|].
    right. exists (MClaimHostname requester h false). split; [done|]. split; [|done]. cbn [call].
    by destruct (Node.claim_hostname _ _ _ _ _) as [n' [[a|e]|e]].
  - unfold Admin.roster. case_bool_decide; [|by left]. cbn [negb].
    right. exists (MSetRoster name l). split; [done|]. split; [|done]. cbn [call].
    by destruct (Node.set_roster _ _ _ _) as [n' [[]|e]].
  - unfold Admin.kicked. case_bool_decide; [|by left]. cbn [negb].
    right. exists MLeave. split; [done|]. split; [|done]. cbn [call].
    by destruct (Node.leave _ _) as [n' [[x|]|e]].
Qed.

Lemma dispatch_in_step o (n : State) req : fair (world o) -> in_step n -> in_step (fst (fst (Ipc.dispatch o n req))).
Proof.
  intros Hw Hn. destruct (dispatch_is_a_method o n req) as [->|(m & _ & ->)]; [done|]. by apply call_in_step.
Qed.

Lemma admin_dispatch_in_step w (n : State) req requester at_ :
  fair w -> in_step n -> in_step (fst (fst (Admin.dispatch w n req requester at_))).
Proof.
  intros Hw Hn. destruct (admin_dispatch_is_a_method w n req requester at_) as [->|(m & _ & -> & _)]; [done|]. by apply call_in_step.
Qed.

(** ** Properties *)

(** every local command and every admin request, whoever sends it and however
    it ends, leaves the parts of the node in step. *)
Theorem requests_keep_the_node_in_step o (n : State) from_str line caller buffered req requester :
  fair (world o) -> in_step n ->
  in_step (fst (handle from_str o n line caller buffered))
  /\ in_step (fst (fst (Admin.dispatch (world o) n req requester (now o)))).
Proof.
  intros Hw Hn. split; [|by apply admin_dispatch_in_step].
  unfold handle. destruct (from_str _) as [r|]; [|done]. destruct (check _ _ _ _ _); [|done].
  destruct (is_transfer r); [by destruct buffered|].
  pose proof (dispatch_in_step o n r Hw Hn) as Hs. by destruct (Ipc.dispatch o n r) as [[n' resp] pushes].
Qed.

(** C15: a local user who is neither root, elevated nor the operator can change
    nothing, whatever bytes they send: the most they can make the daemon do is
    dial a member, and nothing is sent to anybody. *)
Theorem unprivileged_callers_change_nothing from_str o (n : State) line caller buffered :
  is_superuser caller = false -> is_operator caller (operator n) = false ->
  let '(n', h) := handle from_str o n line caller buffered in
  (exists q, n' = with_mesh (peers n) (routes n) (kernel n) q n)
  /\ match h with
     | Replied _ pushes => pushes = []
     | Transferring _ => False
     | Dropped _ => True
     end.
Proof.
  intros Hs Ho. assert (Hid : n = with_mesh (peers n) (routes n) (kernel n) (dial_tx n) n) by by destruct n.
  unfold handle. destruct (from_str _) as [r|]; [|split; [eauto|done]].
  unfold check. rewrite Hs, Ho, !orb_false_r. destruct (is_read_only r) eqn:Er; [|split; [eauto|done]].
  destruct r as [peer| |name h|ttl|code h| |user|h force|peer|name size target ttl| |id|id]; try done; cbn [is_transfer Ipc.dispatch].
  - unfold probe. destruct (parse_id peer) as [id|]; [|split; [eauto|done]]. destruct (negb _); [split; [eauto|done]|].
    destruct (virtual_addrs _). destruct (link _ _); [split; [eauto|done]|]. destruct (waited o); split; try done; eauto.
  - split; [eauto|done].
Qed.

(** an invite is handed out only by a coordinator, and dies between a second
    and thirty days from now whatever window was asked for; its code names this
    node and the token. *)
Theorem invites_are_clamped o (n : State) ttl :
  bytes_ok (token o) -> length (token o) = 16%nat ->
  match snd (fst (Ipc.dispatch o n (Invite ttl))) with
  | RInvite code expires =>
      is_coordinator n = true /\ save_to (world o) = Ok tt
      /\ now o + from_secs 1 <= expires <= now o + from_secs MAX_INVITE_TTL
      /\ (1 <= ttl <= MAX_INVITE_TTL -> expires = now o + from_secs ttl)
      /\ decode_invite code = Ok (own n, token o)
  | RError _ => is_coordinator n = false \/ save_to (world o) <> Ok tt
  | _ => False
  end.
Proof.
  intros Hok Hlen. cbn [Ipc.dispatch]. destruct (is_coordinator n); cbn [negb]; [|by left].
  unfold Node.generate_invite, Membership.generate_invite, save, answer. cbv zeta.
  destruct (save_to (world o)) as [[]|e]; cbn [fst snd]; [|by right].
  split; [done|]. split; [done|]. split; [|split].
  - assert (1 <= clamp 1 MAX_INVITE_TTL ttl <= MAX_INVITE_TTL) by by apply clamp_bounds.
    unfold from_secs. assert (0 < NANOS) by done. nia.
  - intros Ht. by rewrite clamp_id.
  - by apply decode_encode_invite.
Qed.

(** a name this node gave itself while its coordinator could not be reached is
    not reconciled by the next roster: if the coordinator gave the name to
    another member meanwhile, the push is refused that name, on this node, and
    reported as a conflict. *)
Theorem offline_rename_is_not_reconciled o (n : State) wanted e c id l x w :
  Names.validate wanted (own_id n) = Ok wanted ->
  is_coordinator n = false -> coordinator_id (membership n) = Some c -> parse_id c = Some id ->
  Admin.claim_hostname (debug o) (admin_call o 0 id (Admin.SetHostname wanted)) = Err e ->
  save_to (world o) = Ok tt -> save_to w = Ok tt ->
  (forall y, y ∈ members (membership n) -> fallback (m_id y) <> wanted) ->
  x ∈ l -> m_hostname x = Some wanted -> m_id x <> own_id n ->
  let n1 := fst (fst (Ipc.dispatch o n (Proto.SetHostname wanted false))) in
  let n2 := fst (Node.set_roster w n1 None l) in
  snd (fst (Ipc.dispatch o n (Proto.SetHostname wanted false))) = RHostnameSet wanted wanted
  /\ conflicts n2 <> [] /\ forall y, y ∈ members (membership n2) -> m_id y = m_id x -> m_hostname y <> Some wanted.
Proof.
  intros Hv Hco Hc Hp Hcall Hs Hsw Hfb Hx Hxh Hne n1 n2.
  assert (Hns : spoken_for (force_release (membership n) wanted) wanted (own_id n) = false).
  { unfold spoken_for, force_release. cbn [bindings members with_members with_bindings]. rewrite lookup_delete_eq. cbn [orb].
    apply not_true_iff_false. intros (y & Hy & Hb)%existsb_exists.
    apply andb_true_iff in Hb as [_ Hb]. apply str_eqb_eq in Hb. apply list_elem_of_In, elem_of_ids in Hy.
    rewrite ids_update_first in Hy by done. apply list_elem_of_fmap in Hy as (z & Hz & Hin). apply (Hfb z Hin). congruence. }
  assert (Hd : exists m1, bindings m1 !! wanted = Some (own_id n) /\
    Ipc.dispatch o n (Proto.SetHostname wanted false)
      = (with_saved m1 (with_membership (fun _ => m1) n), RHostnameSet wanted wanted, [])).
  { cbn [Ipc.dispatch]. unfold Ipc.set_hostname. rewrite Hv, Hco, Hc, Hp, Hcall. unfold adopt_hostname.
    destruct (Membership.claim_hostname (membership n) (own_id n) wanted true) as [m1 [a|e']] eqn:E.
    2:{ apply claim_hostname_err in E as [_ E]. congruence. }
    exists m1. unfold save. rewrite Hs. split; [|done].
    apply claim_hostname_ok in E as (w' & Hw & -> & _ & _ & Hcase).
    2:{ intros w' Hw. assert (w' = wanted) as -> by congruence. by left. }
    rewrite Hv in Hw. injection Hw as <-.
    destruct Hcase as [->|[Hsp' _]]; [cbn; by rewrite lookup_insert_eq|]. cbn [claim_base] in Hsp'. congruence. }
  destruct Hd as (m1 & Hb1 & Hd). subst n2 n1. rewrite Hd. cbn [fst snd]. split; [done|].
  unfold Node.set_roster. set (n1 := with_saved _ _).
  destruct (set_roster_spec m1 (own_id n) None l) as (Hb & _ & Hshown & Hcs).
  change (Membership.set_roster (membership n1) (own_id n1) None l) with (Membership.set_roster m1 (own_id n) None l).
  destruct (Membership.set_roster m1 (own_id n) None l) as [m2 found]. cbn [fst snd] in *.
  unfold save. rewrite Hsw. cbn [fst].
  assert (Hpin : bindings m2 !! wanted = Some (own_id n)) by (rewrite Hb; unfold pinned; by rewrite Hb1).
  set (n2 := with_conflicts found _). destruct (refresh_fields w n2) as (Hf & _).
  assert (Hcf : conflicts (refresh_routes w n2) = found).
  { unfold refresh_routes. by destruct (Files.set_roster _ _), (set_routes _ _), (Routes.sync _ _ _ _). }
  rewrite Hf, Hcf. split.
  - rewrite Hcs. intros Hnil. assert (Hin : exists c, c ∈ omap (refusal (fun h => bindings m2 !! h)) l).
    { eexists. apply list_elem_of_omap. exists x. split; [done|]. unfold refusal. rewrite Hxh. cbn [mbind option_bind].
      rewrite Hpin. cbn [mbind option_bind]. rewrite (proj2 (str_eqb_neq _ _)); [reflexivity|]. congruence. }
    destruct Hin as [c' Hin]. rewrite Hnil in Hin. by apply elem_of_nil in Hin.
  - intros y Hy Hid Hh. destruct (Hshown y wanted Hy Hh) as [Hbb _]. congruence.
Qed.

(** a member's [--force] never reaches its coordinator. *)
Theorem force_is_dropped_for_members o (n : State) wanted force :
  is_coordinator n = false ->
  Ipc.dispatch o n (Proto.SetHostname wanted force) = Ipc.dispatch o n (Proto.SetHostname wanted false).
Proof.
  intros Hco. cbn [Ipc.dispatch]. unfold Ipc.set_hostname. destruct (Names.validate _ _); [|done]. by rewrite Hco.
Qed.

(** [status] on a node in step has exactly one row for every other member and
    nobody else, with its IPv6 address, whether it is linked, and its IPv4 address
    unless another member's collides with it, as long as no two members' IPv6
    addresses collide. *)
Theorem status_lists_every_member (n : State) hosts :
  in_step n ->
  (forall i j, i ∈ other_ids n -> j ∈ other_ids n -> v6_of i = v6_of j -> i = j) ->
  let rows := peer_status hosts <$> snapshot (peers n) in
  NoDup (ps_id <$> rows)
  /\ (forall row, row ∈ rows -> exists id, id ∈ other_ids n /\ ps_id row = show_id id
        /\ ps_v6 row = show_ip (v6_of id) /\ ps_linked row = bool_decide (is_Some (link (peers n) id))
        /\ ps_name row = Names.display (show_id id) (hosts !! show_id id)
        /\ ((forall j, j ∈ other_ids n -> v4_of j = v4_of id -> j = id) -> ps_v4 row = show_ip (v4_of id)))
  /\ (forall id, id ∈ other_ids n -> show_id id ∈ ps_id <$> rows).
Proof.
  intros Hn Hinj rows. pose proof (snapshot_ok (peers n)) as [Hd Hl H4 H6].
  assert (Hroute : forall a id, (a, id) ∈ rev (map_to_list (Peers.routes (peers n))) <-> foldl add_routes ∅ (other_ids n) !! a = Some id).
  { intros a id. rewrite elem_of_routes. unfold route. by rewrite (step_routes _ Hn). }
  assert (Hmine : forall a id, foldl add_routes ∅ (other_ids n) !! a = Some id -> id ∈ other_ids n /\ (a = v4_of id \/ a = v6_of id)).
  { intros a id Ha. apply routes_sound in Ha as [?|Ha]; [done|]. by rewrite lookup_empty in Ha. }
  assert (H6own : forall id, id ∈ other_ids n -> foldl add_routes ∅ (other_ids n) !! v6_of id = Some id).
  { intros id Hid. destruct (routes_complete ∅ (other_ids n) id Hid) as [_ [j Hj]]. rewrite Hj. f_equal.
    destruct (Hmine _ _ Hj) as [Hjo [Hv|Hv]]; [symmetry in Hv; by apply v4_v6_ne in Hv|]. symmetry. by apply Hinj. }
  assert (H4own : forall id, id ∈ other_ids n -> (forall j, j ∈ other_ids n -> v4_of j = v4_of id -> j = id) ->
    foldl add_routes ∅ (other_ids n) !! v4_of id = Some id).
  { intros id Hid Hu. destruct (routes_complete ∅ (other_ids n) id Hid) as [[j Hj] _]. rewrite Hj. f_equal.
    destruct (Hmine _ _ Hj) as [Hjo [Hv|Hv]]; [by apply Hu|by apply v4_v6_ne in Hv]. }
  assert (Hps : forall l : list PeerRow, ps_id <$> (peer_status hosts <$> l) = show_id <$> (row_id <$> l)).
  { intros l. rewrite <- !list_fmap_compose. done. }
  unfold rows. rewrite Hps. split; [|split].
  - apply NoDup_fmap_2; [|apply snapshot_ids_NoDup]. intros i j. apply show_id_inj.
  - intros st Hst. apply list_elem_of_fmap in Hst as (row & -> & Hrow). apply elem_of_snapshot in Hrow.
    set (id := row_id row) in *. exists id. destruct (Hl _ _ Hrow) as [_ Hlink].
    assert (Hseen : exists a, (a, id) ∈ rev (map_to_list (Peers.routes (peers n)))) by (apply Hd; eauto).
    destruct Hseen as [a Ha]. apply Hroute, Hmine in Ha as [Hid _].
    assert (Hv6 : row_v6 row = v6_of id).
    { destruct (H6 _ _ Hrow) as [[_ Hno]|(oct & -> & Ho)].
      - pose proof (H6own id Hid) as Ho. apply Hroute in Ho.
        destruct (virtual_ipv6_octets (id_bytes id)) as (? & ? & _ & _ & _ & Heq). unfold v6_of, virtual_addrs in Ho. cbn [snd] in Ho.
        rewrite Heq in Ho. by apply Hno in Ho.
      - apply Hroute, Hmine in Ho as [_ [Hv|Hv]]; [|done]. exfalso.
        destruct (virtual_ipv4_octets (id_bytes id)) as (? & ? & ? & ? & ? & _ & _ & _ & Heq).
        unfold v4_of, virtual_addrs in Hv. cbn [fst] in Hv. by rewrite Heq in Hv. }
    split_and!; try done.
    + cbn. by rewrite Hv6.
    + intros Hu. change (show_ip (row_v4 row) = show_ip (v4_of id)). f_equal. pose proof (H4own id Hid Hu) as Ho. apply Hroute in Ho.
      destruct (H4 _ _ Hrow) as [[_ Hno]|(oct & -> & Ho')].
      * destruct (virtual_ipv4_octets (id_bytes id)) as (? & ? & ? & ? & ? & _ & _ & _ & Heq).
        unfold v4_of, virtual_addrs in Ho. cbn [fst] in Ho. rewrite Heq in Ho. by apply Hno in Ho.
      * apply Hroute, Hmine in Ho' as [_ [Hv|Hv]]; [done|]. exfalso.
        destruct (virtual_ipv6_octets (id_bytes id)) as (? & ? & _ & _ & _ & Heq).
        unfold v6_of, virtual_addrs in Hv. cbn [snd] in Hv. by rewrite Heq in Hv.
  - intros id Hid. apply list_elem_of_fmap. exists id. split; [done|]. apply list_elem_of_fmap.
    pose proof (H6own id Hid) as Ho. apply Hroute in Ho. destruct (proj2 (Hd id)) as [row Hrow]; [eauto|].
    destruct (Hl _ _ Hrow) as [Hri _]. exists row. split; [done|]. apply elem_of_snapshot. by rewrite Hri.
Qed.

Lemma answer_authorized {A} (r : Node.State (Link := Link) * result message A) ok :
  (forall n a m, ok n a <> RUnauthorized m) -> forall m, snd (fst (Ipc.answer r ok)) <> RUnauthorized m.
Proof. intros Hok m. destruct r as [n [a|e]]; cbn; auto. Qed.

(** Only the check refuses a caller; no handler does. *)
Lemma dispatch_authorized o (n : Node.State (Link := Link)) req m : snd (fst (dispatch o n req)) <> RUnauthorized m.
Proof.
  destruct req as [peer| |name h|ttl|code h| |user|h force|peer|name size target ttl| |id|id]; cbn [dispatch]; try done;
    try by apply answer_authorized.
  - destruct (negb _); [done|]. apply answer_authorized. by intros _ [] ?.
  - destruct (join_network _ _ _ _); [|done]. by apply answer_authorized.
  - destruct (resolve_user _ _ _); [|done]. by apply answer_authorized.
  - by destruct (set_hostname _ _ _ _) as [[? []] ?].
  - unfold Ipc.kick. destruct (negb _); [done|]. by destruct (Node.kick _ _ _) as [? [[]|]].
  - unfold reject. by destruct (take_answerable (files n) _ _) as [fs [[offer ?]|e]].
Qed.

End IpcProps.

(** ** Witnesses *)

Import Concrete.

Module IpcDemo.
(** Nobody can be reached. *)
Definition alone : Outside :=
  {| world := NodeDemo.world; now := 0; random := replicate 16 3; token := AdminDemo.token;
     admin_call := fun _ _ _ => Err (Fmt "connect" []); notice_in_time := false; waited := None; rtt := fun _ => None;
     debug := AdminDemo.debug; users := {| user_name := fun _ => None; user_by_name := fun _ => None |};
     windows := false; counters := Counters_default |}.

(** K2, a member of K1's network. *)
Definition k2 : EndpointId := K2.
Definition member : State (Link := unit) :=
  fst (Node.set_joined NodeDemo.world
    {| own := k2; membership := Membership_default; saved := Membership_default; settings := Settings_default;
       saved_settings := Settings_default; peers := Peers_default; routes := Routes.new (lit "quix"); kernel := ∅;
       conflicts := []; dns := Unknown; dial_tx := []; files := Registry_default; effects := [] |}
    Demo.id1 (Some (lit "home")) [Demo.member1]).
Definition parse (s : rstr) : result message Request := Ok Proto.Leave.
End IpcDemo.

Example requests_keep_the_node_in_step_witness :
  in_step (fst (handle IpcDemo.parse IpcDemo.alone NodeDemo.linked (lit "{}") (Uid 0) false)).
Proof.
  exact (proj1 (requests_keep_the_node_in_step IpcDemo.alone NodeDemo.linked IpcDemo.parse (lit "{}") (Uid 0) false Admin.Leave []
    NodeDemo.fair_world NodeDemo.linked_in_step)).
Defined.

Example unprivileged_callers_change_nothing_witness :
  membership (fst (handle IpcDemo.parse IpcDemo.alone NodeDemo.linked (lit "{}") (Uid 1000) false)) = membership NodeDemo.linked.
Proof.
  assert (Ho : is_operator (Uid 1000) (operator NodeDemo.linked) = false) by by vm_compute.
  pose proof (unprivileged_callers_change_nothing IpcDemo.parse IpcDemo.alone NodeDemo.linked (lit "{}") (Uid 1000) false
    eq_refl Ho) as Hu.
  destruct (handle _ _ _ _ _ _) as [n' h]. destruct Hu as [[q ->] _].
  exact (with_mesh_membership _ _ _ _ _).
Defined.

Example invites_are_clamped_witness :
  match snd (fst (Ipc.dispatch IpcDemo.alone NodeDemo.started (Invite 0))) with
  | RInvite _ expires => expires <= from_secs MAX_INVITE_TTL
  | _ => True
  end.
Proof.
  pose proof (invites_are_clamped IpcDemo.alone NodeDemo.started 0 AdminDemo.token_ok eq_refl) as Hi.
  destruct (snd (fst (Ipc.dispatch IpcDemo.alone NodeDemo.started (Invite 0)))); try done.
  destruct Hi as (_ & _ & [_ Hi] & _). exact Hi.
Defined.

Example status_lists_every_member_witness :
  show_id NodeDemo.k2 ∈ ps_id <$> (peer_status ∅ <$> snapshot (peers NodeDemo.linked)).
Proof.
  apply (status_lists_every_member NodeDemo.linked ∅ NodeDemo.linked_in_step).
  - assert (Ho : forallb (fun i => bool_decide (i = NodeDemo.k2)) (other_ids NodeDemo.linked) = true) by by vm_compute.
    intros i j Hi Hj _. rewrite forallb_forall in Ho. apply list_elem_of_In, Ho, bool_decide_eq_true in Hi.
    apply list_elem_of_In, Ho, bool_decide_eq_true in Hj. congruence.
  - apply (step_links _ NodeDemo.linked_in_step). pose proof NodeDemo.is_linked as Hl. unfold link in Hl. rewrite Hl. eauto.
Defined.

Example offline_rename_is_not_reconciled_witness :
  own_id IpcDemo.member = Demo.id2
  /\ conflicts (fst (Node.set_roster NodeDemo.world (fst (fst (Ipc.dispatch IpcDemo.alone IpcDemo.member (Proto.SetHostname (lit "nas") false))))
       None [{| m_id := Demo.id3; m_hostname := Some (lit "nas") |}])) <> [].
Proof.
  split; [by vm_compute|].
  apply (offline_rename_is_not_reconciled IpcDemo.alone IpcDemo.member (lit "nas") (Fmt "connect" []) Demo.id1 K1
    [{| m_id := Demo.id3; m_hostname := Some (lit "nas") |}] {| m_id := Demo.id3; m_hostname := Some (lit "nas") |}
    NodeDemo.world).
  - by vm_compute.
  - by vm_compute.
  - by vm_compute.
  - by vm_compute.
  - done.
  - done.
  - done.
  - assert (Hf : forallb (fun y => negb (str_eqb (fallback (m_id y)) (lit "nas"))) (members (membership IpcDemo.member)) = true)
      by by vm_compute.
    intros y Hy. rewrite forallb_forall in Hf. apply list_elem_of_In, Hf, negb_true_iff, str_eqb_neq in Hy. done.
  - apply list_elem_of_singleton. done.
  - done.
  - assert (Hs : str_eqb Demo.id3 (own_id IpcDemo.member) = false) by by vm_compute. by apply str_eqb_neq.
Defined.
