(* ===== verification/Steps.v ===== *)
(** * The daemon one critical section at a time ([daemon/src/state.rs])

    The methods of [Node] are functions on the whole state.  Here they are what
    they are in the code: tasks that take a lock, let go of it and go on with what
    they read, while other tasks do the same ([Task]).  Run alone, each is its
    function. *)

From S2P Require Import Prelude External Task Proto Names Net Tun Membership Peers Routes Files Node.

Local Abbreviation list := Datatypes.list.

Section Steps.
Context `{!EndpointIds, !Sha256, !HexCrate, !Bs58} {Link : Type}.
Notation State := (State (Link := Link)).
Notation task := (task State).

(** ** [State]'s methods *)

Definition request_dial (w : World) (id : EndpointId) : task () :=
  atomically (fun n => (with_mesh (peers n) (routes n) (kernel n) (Node.request_dial w (dial_tx n) id) n, tt)).

Fixpoint dial_all (w : World) (ids : list EndpointId) : task () :=
  match ids with
  | [] => Finished tt
  | id :: ids => _ ← request_dial w id; dial_all w ids
  end.

(** The roster is read in one section and used in the others. *)
Definition refresh_routes (w : World) : task () :=
  '(members, named) ← reads (fun n => (other_ids n, named n));
  _ ← atomically (fun n =>
        let '(fs, ended) := Files.set_roster (files n) named in
        (with_effects (CloseOffer <$> ended) (with_files fs n), tt));
  _ ← atomically (fun n =>
        let '(p, dropped) := Peers.set_routes (peers n) members in
        (with_effects (CloseLink <$> dropped) (with_mesh p (routes n) (kernel n) (dial_tx n) n), tt));
  wanted ← reads (fun n => routed_addrs (peers n));
  _ ← atomically (fun n =>
        let '(r, k) := Routes.sync (routes n) wanted (succeeds w) (kernel n) in
        (with_mesh (peers n) r k (dial_tx n) n, tt));
  ids ← reads (fun n => unlinked (peers n));
  dial_all w ids.

(** What changes the roster and saves it does so under one lock. *)
Definition saving {A} (w : World) (f : State -> State * A) : task (result message A) :=
  atomically (fun n =>
    let '(n, a) := f n in
    match save w n with (n, Ok _) => (n, Ok a) | (n, Err e) => (n, Err e) end).

Definition saving_and_refreshing {A} (w : World) (f : State -> State * A) : task (result message A) :=
  r ← saving w f;
  match r with
  | Ok a => _ ← refresh_routes w; Finished (Ok a)
  | Err e => Finished (Err e)
  end.

Definition create_network (w : World) (name : rstr) (hostname : option rstr) (random : list Z) : task (result message ()) :=
  saving_and_refreshing w (fun n => (with_membership (fun m => create m name (own_id n) hostname random) n, tt)).

Definition redeem_invite (w : World) (token : list Z) (requester : rstr) (hostname : option rstr) (now : Z)
    : task (result message (option (list Member * option rstr))) :=
  r ← atomically (fun n =>
        match Membership.redeem_invite (membership n) token requester now with
        | (m, false) => (with_membership (fun _ => m) n, Ok None)
        | (m, true) =>
            let '(m, assigned) :=
              match hostname with
              | Some requested =>
                  match Membership.claim_hostname m requester requested false with
                  | (m, Ok name) => (m, Some name)
                  | (m, Err _) => (m, None)
                  end
              | None => (m, None)
              end in
            match save w (with_membership (fun _ => m) n) with
            | (n, Ok _) => (n, Ok (Some (Membership.roster m, assigned)))
            | (n, Err e) => (n, Err e)
            end
        end);
  match r with
  | Ok (Some admitted) => _ ← refresh_routes w; Finished (Ok (Some admitted))
  | r => Finished r
  end.

Definition set_joined (w : World) (coordinator : rstr) (name : option rstr) (roster : list Member) : task (result message ()) :=
  saving_and_refreshing w (fun n => (with_membership (fun m => Membership.set_joined m coordinator (own_id n) name roster) n, tt)).

Definition set_roster (w : World) (name : option rstr) (roster : list Member) : task (result message ()) :=
  r ← saving w (fun n =>
        let '(m, found) := Membership.set_roster (membership n) (own_id n) name roster in
        (with_membership (fun _ => m) n, found));
  match r with
  | Ok found =>
      _ ← atomically (fun n => (with_conflicts found n, tt));
      _ ← refresh_routes w;
      Finished (Ok tt)
  | Err e => Finished (Err e)
  end.

Definition leave (w : World) : task (result message (option rstr)) :=
  r ← saving w (fun n => (with_membership Membership.leave n, network_name (membership n)));
  match r with
  | Ok name =>
      _ ← atomically (fun n =>
            let '(p, dropped) := close_all (peers n) in
            (with_effects (CloseLink <$> dropped) (with_mesh p (routes n) (kernel n) (dial_tx n) n), tt));
      _ ← refresh_routes w;
      Finished (Ok name)
  | Err e => Finished (Err e)
  end.

Definition kick (w : World) (query : rstr) : task (result message (result message Member)) :=
  r ← atomically (fun n =>
        match Membership.kick (membership n) query (own_id n) with
        | (m, Err e) => (with_membership (fun _ => m) n, Ok (Err e))
        | (m, Ok x) =>
            match save w (with_membership (fun _ => m) n) with
            | (n, Ok _) => (n, Ok (Ok x))
            | (n, Err e) => (n, Err e)
            end
        end);
  match r with
  | Ok (Ok x) => _ ← refresh_routes w; Finished (Ok (Ok x))
  | r => Finished r
  end.

Definition remove_member (w : World) (id : rstr) : task (result message bool) :=
  r ← atomically (fun n =>
        match Membership.remove_member (membership n) id with
        | (m, false) => (with_membership (fun _ => m) n, Ok false)
        | (m, true) =>
            match save w (with_membership (fun _ => m) n) with
            | (n, Ok _) => (n, Ok true)
            | (n, Err e) => (n, Err e)
            end
        end);
  match r with
  | Ok true => _ ← refresh_routes w; Finished (Ok true)
  | r => Finished r
  end.

(** These are one section each. *)
Definition generate_invite (w : World) (ttl now : Z) (token : list Z) : task (result message (rstr * Z)) :=
  atomically (fun n => Node.generate_invite w n ttl now token).
Definition claim_hostname (w : World) (claimant requested : rstr) (force : bool) : task (result message (result message rstr)) :=
  atomically (fun n => Node.claim_hostname w n claimant requested force).
Definition adopt_hostname (w : World) (hostname : rstr) : task (result message ()) :=
  atomically (fun n => Node.adopt_hostname w n hostname).
Definition set_operator (w : World) (name : rstr) (id : Z) : task (result message ()) :=
  atomically (fun n => Node.set_operator w n name id).

(** *** Alone, they are [Node]'s *)

Lemma alone_dial_all w ids n : alone (dial_all w ids) n
  = (with_mesh (peers n) (routes n) (kernel n) (foldl (Node.request_dial w) (dial_tx n) ids) n, tt).
Proof.
  revert n. induction ids as [|id ids IH]; intros n; [by destruct n|]. cbn [dial_all]. rewrite alone_bind. cbn. apply IH.
Qed.

Lemma alone_refresh w n : alone (refresh_routes w) n = (Node.refresh_routes w n, tt).
Proof.
  unfold refresh_routes, Node.refresh_routes. rewrite alone_bind. cbn [alone reads atomically].
  rewrite alone_bind. cbn [alone atomically]. destruct (Files.set_roster (files n) (named n)) as [fs ended].
  rewrite alone_bind. cbn [alone atomically]. cbn [peers with_effects with_files].
  destruct (Peers.set_routes (peers n) (other_ids n)) as [p dropped].
  rewrite alone_bind. cbn [alone reads atomically]. rewrite alone_bind. cbn [alone atomically]. cbn.
  rewrite alone_dial_all. unfold with_effects, with_mesh, with_files. cbn. by rewrite <- app_assoc.
Qed.

Lemma alone_saving {A} w (f : State -> State * A) n :
  alone (saving w f) n = (let '(n, a) := f n in match save w n with (n, Ok _) => (n, Ok a) | (n, Err e) => (n, Err e) end).
Proof. cbn. destruct (f n) as [n' a]. by destruct (save w n') as [? []]. Qed.

Lemma alone_saving_and_refreshing {A} w (f : State -> State * A) n :
  alone (saving_and_refreshing w f) n = (let '(n, a) := f n in save_and_refresh w n a).
Proof.
  unfold saving_and_refreshing, save_and_refresh. rewrite alone_bind, alone_saving. destruct (f n) as [n' a].
  destruct (save w n') as [m [[]|e]]; [|done]. by rewrite alone_bind, alone_refresh.
Qed.

Lemma alone_create_network w name h random n : alone (create_network w name h random) n = Node.create_network w n name h random.
Proof. unfold create_network. by rewrite alone_saving_and_refreshing. Qed.

Lemma alone_set_joined w c name l n : alone (set_joined w c name l) n = Node.set_joined w n c name l.
Proof. unfold set_joined. by rewrite alone_saving_and_refreshing. Qed.

Lemma alone_redeem_invite w token r h now n : alone (redeem_invite w token r h now) n = Node.redeem_invite w n token r h now.
Proof.
  unfold redeem_invite, Node.redeem_invite, save_and_refresh. rewrite alone_bind. cbn [alone atomically].
  destruct (Membership.redeem_invite _ token r now) as [m []]; [|done].
  destruct (match h with Some _ => _ | None => _ end) as [m' a].
  destruct (save w _) as [n' [[]|e]]; [|done]. by rewrite alone_bind, alone_refresh.
Qed.

Lemma alone_set_roster w name l n : alone (set_roster w name l) n = Node.set_roster w n name l.
Proof.
  unfold set_roster, Node.set_roster. rewrite alone_bind, alone_saving.
  destruct (Membership.set_roster _ _ name l) as [m found]. destruct (save w _) as [n' [[]|e]]; [|done].
  rewrite alone_bind. cbn [alone atomically]. by rewrite alone_bind, alone_refresh.
Qed.

Lemma alone_leave w n : alone (leave w) n = Node.leave w n.
Proof.
  unfold leave, Node.leave. rewrite alone_bind, alone_saving. destruct (save w _) as [n' [[]|e]]; [|done].
  rewrite alone_bind. cbn [alone atomically]. destruct (close_all (peers n')) as [p dropped].
  by rewrite alone_bind, alone_refresh.
Qed.

Lemma alone_kick w q n : alone (kick w q) n = Node.kick w n q.
Proof.
  unfold kick, Node.kick, save_and_refresh. rewrite alone_bind. cbn [alone atomically].
  destruct (Membership.kick _ q _) as [m [x|e]]; [|done]. destruct (save w _) as [n' [[]|e]]; [|done].
  by rewrite alone_bind, alone_refresh.
Qed.

Lemma alone_remove_member w id n : alone (remove_member w id) n = Node.remove_member w n id.
Proof.
  unfold remove_member, Node.remove_member, save_and_refresh. rewrite alone_bind. cbn [alone atomically].
  destruct (Membership.remove_member _ id) as [m []]; [|done]. destruct (save w _) as [n' [[]|e]]; [|done].
  by rewrite alone_bind, alone_refresh.
Qed.
End Steps.
