(* ===== verification/HandlerSteps.v ===== *)
(** * The handlers one critical section at a time ([daemon/src/admin.rs], [daemon/src/ipc.rs], [daemon/src/mesh.rs])

    What a peer or a local user asks, as a task ([Steps]): what a handler checks it
    checks in one section and acts on in another.  Run alone, each is the handler
    of [Admin] or [Ipc]. *)

From S2P Require Import Prelude External Task Proto Names Net Tun Membership Peers Routes Stats Files Frame Transfer Node Admin Authz Ipc Steps.

Local Abbreviation list := Datatypes.list.

Module AdminSteps.
Section AdminSteps.
Context `{!EndpointIds, !Sha256, !HexCrate, !Bs58} {Link : Type}.
Notation State := (State (Link := Link)).
Notation task := (task State).
Definition kicked (w : World) (requester : rstr) : task (AdminResponse * list push) :=
  coordinator ← reads (fun n => coordinator_id (membership n));
  if negb (bool_decide (coordinator = Some requester)) then
    Finished (AError (Fmt "only the coordinator can remove a member" []), [])
  else
    r ← leave w;
    Finished (match r with Ok _ => Ack | Err e => AError e end, []).

Definition join (w : World) (token_hex : rstr) (hostname : option rstr) (requester : rstr) (now : Z)
    : task (AdminResponse * list push) :=
  coordinator ← reads is_coordinator;
  if negb coordinator then Finished (AError (Fmt "this node does not admit members to a network" []), [])
  else
    match decode_token token_hex with
    | Err e => Finished (AError e, [])
    | Ok token =>
        r ← redeem_invite w token requester hostname now;
        match r with
        | Ok (Some (roster, hostname)) =>
            name ← reads (fun n => network_name (membership n));
            pushes ← reads (fun n => broadcast_roster n requester name roster);
            Finished (Joined name roster hostname, pushes)
        | Ok None => Finished (AError (Fmt "invalid, expired, or already used invite" []), [])
        | Err e => Finished (AError e, [])
        end
    end.

(** The pushes of the roster as it is by then. *)
Definition broadcast (subject : rstr) : task (list push) :=
  name ← reads (fun n => network_name (membership n));
  roster ← reads Node.roster;
  reads (fun n => broadcast_roster n subject name roster).

Definition set_hostname (w : World) (hostname requester : rstr) : task (AdminResponse * list push) :=
  coordinator ← reads is_coordinator;
  if negb coordinator then Finished (AError (Fmt "only the coordinator assigns hostnames" []), [])
  else
    member ← reads (fun n => is_member n requester);
    if negb member then Finished (AError (Fmt "not a member of this network" []), [])
    else
      r ← claim_hostname w requester hostname false;
      match r with
      | Ok (Ok assigned) => pushes ← broadcast requester; Finished (HostnameSet assigned, pushes)
      | Ok (Err m) => Finished (AError m, [])
      | Err e => Finished (AError e, [])
      end.

Definition leave (w : World) (requester : rstr) : task (AdminResponse * list push) :=
  coordinator ← reads is_coordinator;
  if negb coordinator then Finished (AError (Fmt "only the coordinator maintains the roster" []), [])
  else
    r ← remove_member w requester;
    match r with
    | Ok false => Finished (Ack, [])
    | Ok true => pushes ← broadcast requester; Finished (Ack, pushes)
    | Err e => Finished (AError e, [])
    end.

Definition roster (w : World) (network_name : option rstr) (members : list Member) (requester : rstr)
    : task (AdminResponse * list push) :=
  coordinator ← reads (fun n => coordinator_id (membership n));
  if negb (bool_decide (coordinator = Some requester)) then
    Finished (AError (Fmt "only the coordinator can push a roster" []), [])
  else
    r ← set_roster w network_name members;
    Finished (match r with Ok _ => Ack | Err e => AError e end, []).

Definition dispatch (w : World) (req : AdminRequest) (requester : rstr) (now : Z) : task (AdminResponse * list push) :=
  match req with
  | Join token_hex hostname => join w token_hex hostname requester now
  | Leave => leave w requester
  | SetHostname hostname => set_hostname w hostname requester
  | Roster name members => roster w name members requester
  | Kicked => kicked w requester
  end.

Lemma alone_broadcast subject n :
  alone (broadcast subject) n = (n, broadcast_roster n subject (network_name (membership n)) (Node.roster n)).
Proof. done. Qed.

Lemma alone_asked w req requester now n :
  alone (dispatch w req requester now) n = (let '(n, resp, pushes) := Admin.dispatch w n req requester now in (n, (resp, pushes))).
Proof.
  destruct req as [tok h| |h|name l|]; cbn [dispatch Admin.dispatch].
  - unfold join, Admin.join. rewrite alone_bind. cbn [alone reads atomically]. destruct (negb _); [done|].
    destruct (decode_token tok) as [token|e]; [|done]. rewrite alone_bind, alone_redeem_invite.
    by destruct (Node.redeem_invite _ _ _ _ _ _) as [n' [[[l a]|]|e]].
  - unfold leave, Admin.leave. rewrite alone_bind. cbn [alone reads atomically]. destruct (negb _); [done|].
    rewrite alone_bind, alone_remove_member. by destruct (Node.remove_member _ _ _) as [n' [[]|e]].
  - unfold set_hostname, Admin.set_hostname. rewrite alone_bind. cbn [alone reads atomically]. destruct (negb _); [done|].
    rewrite alone_bind. cbn [alone reads atomically]. destruct (negb _); [done|]. rewrite alone_bind. cbn [alone atomically claim_hostname].
    by destruct (Node.claim_hostname _ _ _ _ _) as [n' [[a|m]|e]].
  - unfold roster, Admin.roster. rewrite alone_bind. cbn [alone reads atomically]. destruct (negb _); [done|].
    rewrite alone_bind, alone_set_roster. by destruct (Node.set_roster _ _ _ _) as [n' [[]|e]].
  - unfold kicked, Admin.kicked. rewrite alone_bind. cbn [alone reads atomically]. destruct (negb _); [done|].
    rewrite alone_bind, alone_leave. by destruct (Node.leave _ _) as [n' [[]|e]].
Qed.
End AdminSteps.
End AdminSteps.

Module IpcSteps.
Section IpcSteps.
Context `{!EndpointIds, !Sha256, !HexCrate, !Bs58, !WireJson} {Link : Type}.
Notation State := (State (Link := Link)).
Notation task := (task State).

(** What a handler answers, and the pushes it leaves. *)
Definition answer {A} (t : task (result message A)) (ok : A -> Response) : task (Response * list push) :=
  r ← t;
  Finished (match r with Ok a => ok a | Err e => RError e end, []).

Definition probe (w : World) (peer : rstr) (waited : option Connection) (rtt : Connection -> option Z) : task (result message Probe) :=
  match parse_id peer with
  | None => Finished (Err (context (Fmt "parse peer id" []) (Fmt "{}" [])))
  | Some id =>
      member ← reads (fun n => is_member n (show_id id));
      if negb member then Finished (Err (Fmt "{id} is not a member of this network" [Text (show_id id)]))
      else
        let '(v4, v6) := virtual_addrs (id_bytes id) in
        let found conn := Ok {| pr_v4 := v4; pr_v6 := v6; pr_rtt := rtt conn |} in
        linked ← reads (fun n => link (peers n) id);
        match linked with
        | Some conn => Finished (found conn)
        | None =>
            _ ← request_dial w id;
            Finished match waited with
                     | Some conn => found conn
                     | None => Err (Fmt "no link to peer — it may be offline" [])
                     end
        end
  end.

Definition zone : task rstr :=
  name ← reads (fun n => network_name (membership n));
  Finished match name with Some name => network_label name ++ lit "." ++ ZONE | None => ZONE end.

(** [status] takes the lock for every part of its answer. *)
Definition status (o : Outside) : task Response :=
  hostnames ← reads Node.hostnames;
  own_hostname ← reads Node.hostname;
  zone ← zone;
  rows ← reads (fun n => snapshot (peers n));
  own ← reads own;
  let '(v4, v6) := virtual_addrs (id_bytes own) in
  network ← reads (fun n => network_name (membership n));
  coordinator ← reads is_coordinator;
  conflicts ← reads conflicts;
  dns ← reads dns;
  Finished (RStatus (show_id own) (Names.display (show_id own) own_hostname) (bool_decide (is_Some own_hostname))
    (show_ip v6) (show_ip v4) network coordinator (peer_status hostnames <$> rows) zone (stats_snapshot (counters o)) conflicts dns).

Definition create_network (o : Outside) (name : rstr) (hostname : option rstr) : task (result message ()) :=
  match validate_network name with
  | Err e => Finished (Err e)
  | Ok name =>
      match hostname with
      | Some requested =>
          own_id ← reads own_id;
          match validate requested own_id with
          | Err e => Finished (Err e)
          | Ok h => Steps.create_network (world o) name (Some h) (random o)
          end
      | None => Steps.create_network (world o) name None (random o)
      end
  end.

Definition set_hostname (o : Outside) (requested : rstr) (force : bool) : task (result message rstr * list push) :=
  own_id ← reads own_id;
  match validate requested own_id with
  | Err e => Finished (Err e, [])
  | Ok wanted =>
      coordinates ← reads is_coordinator;
      if coordinates : bool then
        r ← claim_hostname (world o) own_id wanted force;
        match r with
        | Ok (Ok assigned) => pushes ← AdminSteps.broadcast own_id; Finished (Ok assigned, pushes)
        | Ok (Err e) | Err e => Finished (Err e, [])
        end
      else
        coordinator ← reads (fun n => coordinator_id (membership n));
        match coordinator with
        | None => Finished (Err (Fmt "not a member of any network" []), [])
        | Some coordinator =>
            match parse_id coordinator with
            | None => Finished (Err (context (Fmt "stored coordinator id" []) (Fmt "{}" [])), [])
            | Some id =>
                let adopted := match Admin.claim_hostname (debug o) (admin_call o 0 id (Admin.SetHostname wanted)) with
                               | Ok assigned => assigned | Err _ => wanted end in
                r ← adopt_hostname (world o) adopted;
                Finished (match r with Ok _ => Ok adopted | Err e => Err e end, [])
            end
        end
  end.

Definition kick (o : Outside) (peer : rstr) : task (Response * list push) :=
  coordinator ← reads is_coordinator;
  if negb coordinator then Finished (RError (Fmt "only the coordinator can kick" []), [])
  else
    r ← Steps.kick (world o) peer;
    match r with
    | Err e | Ok (Err e) => Finished (RError e, [])
    | Ok (Ok member) =>
        pushes ← AdminSteps.broadcast (m_id member);
        let notified :=
          match parse_id (m_id member) with
          | Some id =>
              is_ok (notify_kicked (debug o)
                (if notice_in_time o then Some (admin_call o 0 id Admin.Kicked) else None))
          | None => false
          end in
        Finished (RKicked (Names.display (m_id member) (m_hostname member)) (m_id member) notified, pushes)
    end.

(** Who is told of a departure is looked up before, in a section of its own. *)
Definition told_coordinator (o : Outside) (own_id : rstr) (coordinator : option rstr) : bool :=
  match coordinator with
  | Some id =>
      if str_eqb id own_id then false
      else match parse_id id with
           | Some id => is_ok (notify_leave (debug o) (admin_call o 0 id Admin.Leave))
           | None => false
           end
  | None => false
  end.

Definition reject (id : rstr) (now : Z) : task Response :=
  taken ← atomically (fun n => let '(fs, r) := Files.take_answerable (files n) id now in (with_files fs n, r));
  match taken with
  | Err m => Finished (RError m)
  | Ok (offer, _) =>
      from ← reads (fun n => Files.display (files n) (i_peer offer));
      Finished (RFileRejected id (i_name offer) from)
  end.

Definition dispatch (o : Outside) (req : Request) : task (Response * list push) :=
  match req with
  | Ping peer =>
      answer (probe (world o) peer (waited o) (rtt o)) (fun p => RPong (show_ip (pr_v6 p)) (show_ip (pr_v4 p)) (pr_rtt p))
  | Status => r ← status o; Finished (r, [])
  | CreateNetwork name hostname => answer (create_network o name hostname) (fun _ => ROk (lit "network created"))
  | Invite ttl_secs =>
      coordinator ← reads is_coordinator;
      if negb coordinator then Finished (RError (Fmt "only the coordinator can invite" []), [])
      else
        answer (generate_invite (world o) (from_secs (clamp 1 MAX_INVITE_TTL ttl_secs)) (Ipc.now o) (token o))
          (fun '(code, expires_at) => RInvite code expires_at)
  | Proto.SetHostname hostname force =>
      '(r, pushes) ← set_hostname o hostname force;
      Finished (match r with Ok assigned => RHostnameSet assigned hostname | Err e => RError e end, pushes)
  | Kick peer => kick o peer
  | FileList =>
      listed ← atomically (fun n => let '(fs, l) := Files.list (files n) (Ipc.now o) in (with_files fs n, l));
      Finished (RFiles listed.1 listed.2, [])
  | FileReject id => r ← reject id (Ipc.now o); Finished (r, [])
  | FileSend _ _ _ _ | FileAccept _ =>
      Finished (RError (Fmt "a transfer cannot be dispatched as a single request" []), [])
  | SetOperator user =>
      match resolve_user (windows o) (users o) user with
      | Ok id => answer (set_operator (world o) user id) (fun _ => ROperatorSet user id)
      | Err m => Finished (RError m, [])
      end
  | Proto.Leave =>
      coordinator ← reads (fun n => coordinator_id (membership n));
      own_id ← reads own_id;
      let notified := told_coordinator o own_id coordinator in
      answer (Steps.leave (world o)) (fun name => RLeft name notified)
  | Proto.Join code hostname =>
      match join_network (debug o) code hostname (admin_call o) with
      | Err e => Finished (RError e, [])
      | Ok ad =>
          r ← Steps.set_joined (world o) (show_id (ad_coordinator_id ad)) (ad_network_name ad) (ad_members ad);
          match r with
          | Ok _ => zone ← zone; Finished (RJoined (ad_network_name ad) (ad_hostname ad) zone, [])
          | Err e => Finished (RError e, [])
          end
      end
  end.

(** *** Alone, they are [Ipc]'s *)

Definition paired {A B C} (x : A * B * C) : A * (B * C) := let '(a, b, c) := x in (a, (b, c)).

Lemma alone_answer {A} (t : task (result message A)) (ok : A -> Response) n :
  alone (answer t ok) n = paired (Ipc.answer (alone t n) (fun _ => ok)).
Proof. unfold answer. rewrite alone_bind. by destruct (alone t n) as [n' []]. Qed.

Lemma alone_probe w peer waited rtt n : alone (probe w peer waited rtt) n = Admin.probe w n peer waited rtt.
Proof.
  unfold probe, Admin.probe. destruct (parse_id peer) as [id|]; [|done]. rewrite alone_bind. cbn [alone reads atomically].
  destruct (negb _); [done|]. destruct (virtual_addrs _) as [v4 v6]. rewrite alone_bind. cbn [alone reads atomically].
  by destruct (link (peers n) id).
Qed.

Lemma alone_zone n : alone zone n = (n, Ipc.zone n).
Proof. done. Qed.

Lemma alone_status o n : alone (status o) n = (n, Ipc.status o n).
Proof.
  unfold status, Ipc.status. do 2 (rewrite alone_bind; cbn [alone reads atomically]). rewrite alone_bind, alone_zone.
  do 2 (rewrite alone_bind; cbn [alone reads atomically]). by destruct (virtual_addrs (id_bytes (own n))) as [v4 v6].
Qed.

Lemma alone_network_command o name h n : alone (create_network o name h) n = Ipc.create_network o n name h.
Proof.
  unfold create_network, Ipc.create_network. destruct (validate_network name); [|done].
  destruct h as [requested|]; [|apply Steps.alone_create_network]. rewrite alone_bind. cbn [alone reads atomically].
  destruct (validate requested _); [|done]. apply Steps.alone_create_network.
Qed.

Lemma alone_set_hostname o requested force n :
  alone (set_hostname o requested force) n = paired (Ipc.set_hostname o n requested force).
Proof.
  unfold set_hostname, Ipc.set_hostname. rewrite alone_bind. cbn [alone reads atomically].
  destruct (validate requested _) as [wanted|]; [|done]. rewrite alone_bind. cbn [alone reads atomically].
  destruct (is_coordinator n).
  - rewrite alone_bind. cbn [alone atomically claim_hostname].
    destruct (Node.claim_hostname _ _ _ _ _) as [n' [[a|m]|e]] eqn:E; [|done..]. cbn.
    assert (Ho : own_id n' = own_id n).
    { unfold Node.claim_hostname in E. destruct (Membership.claim_hostname _ _ _ _) as [m [x|]]; [|done].
      unfold save in E. by destruct (save_to (world o)); injection E as <-. }
    by rewrite Ho.
  - rewrite alone_bind. cbn [alone reads atomically]. destruct (coordinator_id (membership n)) as [c|]; [|done].
    destruct (parse_id c) as [id|]; [|done]. cbv zeta.
    destruct (Admin.claim_hostname _ _) as [a|e0]; rewrite alone_bind; cbn [alone atomically adopt_hostname];
      by destruct (Node.adopt_hostname _ _ _) as [n' [[]|e]].
Qed.

Lemma alone_kick_command o peer n : alone (kick o peer) n = paired (Ipc.kick o n peer).
Proof.
  unfold kick, Ipc.kick. rewrite alone_bind. cbn [alone reads atomically]. destruct (negb _); [done|].
  rewrite alone_bind, Steps.alone_kick. by destruct (Node.kick _ _ _) as [n' [[x|m]|e]].
Qed.

Lemma alone_commanded o req n : alone (dispatch o req) n = paired (Ipc.dispatch o n req).
Proof.
  destruct req as [peer| |name h|ttl|code h| |user|h force|peer|name size target ttl| |id|id]; cbn [dispatch Ipc.dispatch].
  - by rewrite alone_answer, alone_probe.
  - by rewrite alone_bind, alone_status.
  - by rewrite alone_answer, alone_network_command.
  - rewrite alone_bind. cbn [alone reads atomically]. destruct (negb _); [done|]. rewrite alone_answer. cbn [alone atomically generate_invite].
    by destruct (Node.generate_invite _ _ _ _ _) as [n' [[code at_]|e]].
  - destruct (join_network _ _ _ _) as [ad|e]; [|done]. rewrite alone_bind, Steps.alone_set_joined.
    destruct (Node.set_joined _ _ _ _ _) as [n' [[]|e]]; [|done]. by rewrite alone_bind, alone_zone.
  - rewrite alone_bind. cbn [alone reads atomically]. rewrite alone_bind. cbn [alone reads atomically].
    by rewrite alone_answer, Steps.alone_leave.
  - destruct (resolve_user _ _ _) as [uid|m]; [|done]. rewrite alone_answer. unfold set_operator. cbn [alone atomically]. by destruct (Node.set_operator _ _ _ _) as [n' []].
  - rewrite alone_bind, alone_set_hostname. by destruct (Ipc.set_hostname _ _ _ _) as [[n' [a|e]] pushes].
  - apply alone_kick_command.
  - done.
  - rewrite alone_bind. cbn [alone atomically]. by destruct (Files.list _ _) as [fs []].
  - done.
  - rewrite alone_bind. unfold reject, Transfer.reject. rewrite alone_bind. cbn [alone atomically].
    by destruct (Files.take_answerable _ _ _) as [fs [[offer k]|m]].
Qed.
End IpcSteps.
End IpcSteps.

Module LinkSteps.
Section LinkSteps.
Context `{!EndpointIds, !Sha256, !HexCrate, !Bs58} {Link : Type}.
Notation State := (State (Link := Link)).
Notation task := (task State).

(** [serve_link] up to its loop: whether the link is served, and the push a
    coordinator spawns. *)
Definition serve_link (conn : Connection) : task (bool * list push) :=
  let peer := remote_id conn in
  member ← reads (fun n => is_member n (show_id peer));
  if negb member then Finished (false, [])
  else
    registered ← atomically (fun n => let '(p, ok) := register (peers n) peer conn in
                                      (with_mesh p (routes n) (kernel n) (dial_tx n) n, ok));
    if negb registered then Finished (false, [])
    else
      coordinator ← reads is_coordinator;
      if negb coordinator then Finished (true, [])
      else
        name ← reads (fun n => network_name (membership n));
        roster ← reads Node.roster;
        Finished (true, [(peer, Admin.Roster name roster)]).

(** What its loop ends in. *)
Definition end_link (id : EndpointId) : task () :=
  atomically (fun n => (with_mesh (unregister (peers n) id) (routes n) (kernel n) (dial_tx n) n, tt)).

(** [dialer] takes a request off its queue. *)
Definition take_dial : task (option EndpointId) :=
  atomically (fun n => (with_mesh (peers n) (routes n) (kernel n) (tail (dial_tx n)) n, head (dial_tx n))).

Lemma alone_serve_link conn n :
  alone (serve_link conn) n =
    (let peer := remote_id conn in
     if is_member n (show_id peer) && snd (register (peers n) peer conn)
     then (with_mesh (fst (register (peers n) peer conn)) (routes n) (kernel n) (dial_tx n) n, (true, catch_up n peer))
     else (n, (false, []))).
Proof.
  unfold serve_link. rewrite alone_bind. cbn [alone reads atomically].
  destruct (is_member n _); [|done]. cbn [negb andb]. rewrite alone_bind. cbn [alone atomically].
  unfold register. destruct (links (peers n) !! remote_id conn) eqn:E; cbn [fst snd].
  { by destruct n. }
  cbn [negb]. rewrite alone_bind. cbn [alone reads atomically]. unfold catch_up.
  change (is_coordinator (with_mesh _ _ _ _ n)) with (is_coordinator n). by destruct (is_coordinator n).
Qed.
End LinkSteps.
End LinkSteps.
