(* ===== verification/Interleave.v ===== *)
(** * The daemon's tasks, interleaved

    The jobs the daemon can have in hand at once, each as a task of critical sections
    ([HandlerSteps]); and what a section of any of them keeps: what the state keeps
    whenever nobody holds a lock, and that a job changes the roster in one section
    at most, by an operation it was asked for. *)

From S2P Require Import Prelude External Task Proto Names Net Tun Membership MembershipProps MembershipLookup Peers Routes Stats Files Frame Transfer Node NodeProps Admin AdminProps Authz Ipc Steps HandlerSteps.

Local Abbreviation list := Datatypes.list.

Section Interleave.
Context `{!EndpointIds, !Sha256, !HexCrate, !Bs58, !WireJson} {Link : Type}.
Notation State := (State (Link := Link)).
Notation task := (task State).
Implicit Types n : State.

(** ** Jobs *)

Inductive job :=
  | Local (o : Outside) (req : Request)                                       (* a local command *)
  | Asked (w : World) (from : EndpointId) (now : Z) (req : AdminRequest)      (* a peer's request *)
  | Links (conn : Connection)                                                 (* a connection that came in, or was made *)
  | Unlinks (id : EndpointId)                                                 (* one that ended *)
  | Dials                                                                     (* the dialer takes a request *)
  | Registers (d : DnsRegistration)                                           (* how the zone's registration stands *)
  | Offers (o : Files.op (Link := Link)).                                     (* what a transfer does to the registry *)

Inductive reply :=
  | Replies (r : Response) (pushes : list push)
  | Answers (r : AdminResponse) (pushes : list push)
  | Served (b : bool) (pushes : list push)
  | Worked.

Definition program (j : job) : task reply :=
  match j with
  | Local o req => '(r, pushes) ← IpcSteps.dispatch o req; Finished (Replies r pushes)
  | Asked w from now req => '(r, pushes) ← AdminSteps.dispatch w req (show_id from) now; Finished (Answers r pushes)
  | Links conn => '(b, pushes) ← LinkSteps.serve_link conn; Finished (Served b pushes)
  | Unlinks id => _ ← LinkSteps.end_link id; Finished Worked
  | Dials => _ ← LinkSteps.take_dial; Finished Worked
  | Registers d => atomically (fun n => (set_dns n d, Worked))
  | Offers o => atomically (fun n => (if is_set_roster o then n else with_files (Files.apply (files n) o) n, Worked))
  end.

Definition programs (js : list job) : list (task reply) := program <$> js.

(** A handler that nothing comes in between of is the function of [Ipc] and [Admin]
    that the other theorems are about. *)
Definition handled (j : job) n : option (State * reply) :=
  match j with
  | Local o req => let '(n, r, pushes) := Ipc.dispatch o n req in Some (n, Replies r pushes)
  | Asked w from now req => let '(n, r, pushes) := Admin.dispatch w n req (show_id from) now in Some (n, Answers r pushes)
  | _ => None
  end.

(** ** What every section keeps *)

(** What a job may do to the roster. *)
Definition adopted_name (o : Outside) (coordinator : EndpointId) (wanted : rstr) : rstr :=
  match Admin.claim_hostname (debug o) (admin_call o 0 coordinator (Admin.SetHostname wanted)) with
  | Ok assigned => assigned
  | Err _ => wanted
  end.

Definition asks_for (own : EndpointId) (j : job) (op : MembershipProps.op) : Prop :=
  match j, op with
  | Local o (CreateNetwork name h), OpCreate name' h' random' =>
      validate_network name = Ok name' /\ random' = random o
      /\ match h with Some r => exists x, validate r (show_id own) = Ok x /\ h' = Some x | None => h' = None end
  | Local o (Invite ttl), OpInvite ttl' now' token' =>
      ttl' = from_secs (clamp 1 MAX_INVITE_TTL ttl) /\ now' = Ipc.now o /\ token' = token o
  | Local o (Proto.SetHostname h force), OpClaim c r f =>
      c = show_id own /\ exists wanted, validate h c = Ok wanted
      /\ (r = wanted /\ f = force \/ f = true /\ exists id, r = adopted_name o id wanted)
  | Local o (Kick peer), OpKick q => q = peer
  | Local o Proto.Leave, OpLeave => True
  | Local o (Proto.Join code h), OpJoined c name l =>
      exists ad, join_network (debug o) code h (admin_call o) = Ok ad
      /\ c = show_id (ad_coordinator_id ad) /\ name = ad_network_name ad /\ l = ad_members ad
  | Asked w from now (Admin.Join tok h), OpRedeem t r now' => decode_token tok = Ok t /\ r = show_id from /\ now' = now
  | Asked w from now (Admin.Join tok h), OpClaim c r f => c = show_id from /\ h = Some r /\ f = false
  | Asked w from now (Admin.SetHostname h), OpClaim c r f => c = show_id from /\ r = h /\ f = false
  | Asked w from now Admin.Leave, OpRemove id => id = show_id from
  | Asked w from now (Admin.Roster name l), OpRoster name' l' => name' = name /\ l' = l
  | Asked w from now Admin.Kicked, OpLeave => True
  | _, _ => False
  end.

(** What is answered by a handler that changed nothing. *)
Definition unchanged_by_peer (r : AdminResponse * list push) : Prop := match fst r with AError _ => True | _ => False end.
Definition unchanged_by_user (r : Response * list push) : Prop :=
  match fst r with
  | RError _ | RPong _ _ _ | RStatus _ _ _ _ _ _ _ _ _ _ _ _ | RFiles _ _ | RFileRejected _ _ _ | ROperatorSet _ _ => True
  | _ => False
  end.
Definition unchanged (r : reply) : Prop :=
  match r with
  | Replies r pushes => unchanged_by_user (r, pushes)
  | Answers r pushes => unchanged_by_peer (r, pushes)
  | Served _ _ | Worked => True
  end.

Definition fair_job (j : job) : Prop :=
  match j with Local o _ => fair (world o) | Asked w _ _ _ => fair w | _ => True end.

(** What is so whenever nobody holds a lock. *)
Variable me : EndpointId.

(** What needs every save and every route command to succeed is kept if they do. *)
Variable strict : Prop.

Record kept n : Prop := {
  kept_own : own n = me;
  kept_kernel : strict -> kernel n = installed (routes n);
  kept_files : Files.inv (files n);
  kept_saved : strict -> members (saved n) = members (membership n);
}.

(** A section that leaves the roster alone, and a task of nothing else. *)
Definition still n n' : Prop := kept n' /\ own n' = own n /\ membership n' = membership n.
Notation quiet := (always kept still).

Lemma still_refl n : kept n -> still n n.
Proof. done. Qed.

Lemma quiet_reads {A} (f : State -> A) : quiet (reads f).
Proof. intros n Hn. split; [by apply still_refl|done]. Qed.

Lemma quiet_atomically {A} (f : State -> State * A) : (forall n, kept n -> still n (fst (f n))) -> quiet (atomically f).
Proof. intros Hf n Hn. split; [by apply Hf|done]. Qed.

(** A task that changes the roster in one section at most, by the operations [P],
    and in one at least if what it comes to is not [idle]. *)
Section Once.
Variable P : MembershipProps.op -> Prop.

Definition moves n n' : Prop :=
  kept n' /\ own n' = own n /\ exists ops, Forall P ops /\ membership n' = foldl (MembershipProps.apply me) (membership n) ops.

Fixpoint once {A} (idle : A -> Prop) (t : task A) : Prop :=
  match t with
  | Finished a => idle a
  | Act f k => forall n, kept n ->
      still n (fst (f n)) /\ once idle (k (snd (f n))) \/ moves n (fst (f n)) /\ quiet (k (snd (f n)))
  end.

(** One that surely has its section. *)
Definition once_surely {A} (t : task A) : Prop := once (fun _ => False) t.

(** Before the section, and after it. *)
Lemma once_before {A B} idle (t : task A) (k : A -> task B) : quiet t -> (forall a, once idle (k a)) -> once idle (t ≫= k).
Proof.
  intros Ht Hk. induction t as [a|C f next IH]; [apply Hk|]. intros n Hn. destruct (Ht n Hn) as [Hs Hn']. left.
  split; [exact Hs|by apply IH].
Qed.

Lemma once_after {A B} idle idle' (t : task A) (k : A -> task B) : once idle t -> (forall a, quiet (k a)) ->
  (forall a, idle a -> once idle' (k a)) -> once idle' (t ≫= k).
Proof.
  intros Ht Hk Hi. induction t as [a|C f next IH]; [by apply Hi|]. intros n Hn. destruct (Ht n Hn) as [[Hs Hn']|[Hm Hq]].
  - left. split; [exact Hs|by apply IH].
  - right. split; [exact Hm|by apply always_bind].
Qed.

Lemma once_then {A B} idle (t : task A) (k : A -> task B) : once_surely t -> (forall a, quiet (k a)) -> once idle (t ≫= k).
Proof. intros Ht Hk. by apply (once_after (fun _ => False)). Qed.

Lemma once_finish {A B} idle idle' (t : task A) (g : A -> B) : once idle t -> (forall a, idle a -> idle' (g a)) ->
  once idle' (t ≫= fun a => Finished (g a)).
Proof. intros Ht Hg. by apply (once_after idle). Qed.

Lemma once_reads {A B} idle (f : State -> A) (k : A -> task B) : (forall n, kept n -> once idle (k (f n))) -> once idle (reads f ≫= k).
Proof. intros Hk n Hn. left. split; [by apply still_refl|by apply Hk]. Qed.
End Once.

(** A section that changes the roster, and saves it if the members change. *)
Definition changes (P : MembershipProps.op -> Prop) (w : World) n n' : Prop :=
  exists m ops, Forall P ops /\ m = foldl (MembershipProps.apply me) (membership n) ops
  /\ (n' = fst (save w (with_membership (fun _ => m) n)) \/ n' = with_membership (fun _ => m) n /\ members m = members (membership n)).

(** A task that begins with such a section and goes on as [Q] says. *)
Definition starts (P : MembershipProps.op -> Prop) (w : World) {A} (Q : task A -> Prop) (t : task A) : Prop :=
  match t with
  | Finished _ => False
  | Act f k => (forall n, own n = me -> changes P w n (fst (f n))) /\ forall b, Q (k b)
  end.

Lemma once_starts P {A} w (t : task A) : (strict -> fair w) -> starts P w quiet t -> once_surely P t.
Proof.
  destruct t as [a|B f k]; [done|]. intros Hw [Hf Hk] n [K0 K1 K2 K3]. right. split; [|done].
  destruct (Hf n K0) as (m & ops & Hp & Hm & [-> |[-> He]]).
  - assert (Hs : strict -> members (saved (fst (save w (with_membership (fun _ => m) n)))) = members m).
    { intros Hst. unfold save. by rewrite (proj1 (Hw Hst)). }
    unfold save in *. destruct (save_to w); (split; [by split|]; split; [done|by exists ops]).
  - split; [split; [done|done|done|cbn; by rewrite He]|]. split; [done|]. by exists ops.
Qed.

Lemma once_change P {A} w (f : State -> State * A) : (strict -> fair w) -> (forall n, own n = me -> changes P w n (fst (f n))) -> once_surely P (atomically f).
Proof. intros Hw Hf. by apply (once_starts P w). Qed.

(** One operation, whatever comes of it. *)
Lemma changes_one (P : MembershipProps.op -> Prop) w n op n' : P op ->
  (n' = fst (save w (with_membership (fun _ => MembershipProps.apply me (membership n) op) n))
   \/ n' = with_membership (fun _ => MembershipProps.apply me (membership n) op) n
      /\ members (MembershipProps.apply me (membership n) op) = members (membership n)) -> changes P w n n'.
Proof. intros Hp Hor. exists (MembershipProps.apply me (membership n) op), [op]. split; [by constructor|]. by split. Qed.

Lemma once_saving (P : MembershipProps.op -> Prop) {A} w (f : State -> State * A) op : (strict -> fair w) -> P op ->
  (forall n, own n = me -> fst (f n) = with_membership (fun _ => MembershipProps.apply me (membership n) op) n) -> once_surely P (saving w f).
Proof.
  intros Hw Hp Hf. apply (once_change P w); [done|]. intros n Hown. apply (changes_one P w n op); [done|]. left.
  specialize (Hf n Hown). destruct (f n) as [n' a]. cbn in Hf. subst n'. by destruct (save w _) as [n' [[]|e]].
Qed.

Lemma quiet_dial_all w ids : quiet (dial_all w ids).
Proof.
  induction ids as [|id ids IH]; [done|]. apply always_bind; [|by intros []]. apply quiet_atomically. intros n [K0 K1 K2 K3].
  split; [by split|done].
Qed.

Lemma quiet_refresh w : (strict -> fair w) -> quiet (refresh_routes w).
Proof.
  intros Hw. apply always_bind; [apply quiet_reads|]. intros [ids named]. apply always_bind.
  { apply quiet_atomically. intros n [K0 K1 K2 K3]. pose proof (inv_set_roster (files n) named K2) as Hi.
    destruct (Files.set_roster (files n) named) as [fs ended]. by split. }
  intros []. apply always_bind.
  { apply quiet_atomically. intros n [K0 K1 K2 K3]. by destruct (Peers.set_routes (peers n) ids). }
  intros []. apply always_bind; [apply quiet_reads|]. intros wanted. apply always_bind.
  { apply quiet_atomically. intros n [K0 K1 K2 K3]. 
    assert (Hs : strict -> snd (Routes.sync (routes n) wanted (succeeds w) (kernel n)) = wanted).
    { intros Hst. destruct (Hw Hst) as [_ Hw']. by apply sync_in_step; [|apply K1]. }
    destruct (Routes.sync _ _ _ _) as [r k] eqn:E. cbn [snd] in Hs. unfold Routes.sync in E. injection E as <- _. by split. }
  intros []. apply always_bind; [apply quiet_reads|]. intros ids'. apply quiet_dial_all.
Qed.

(** *** The methods *)

#[local] Hint Extern 1 (always _ _ (Finished _)) => exact I : core.
#[local] Hint Extern 1 (once _ (Finished _)) => exact I : core.
#[local] Hint Resolve quiet_reads quiet_refresh still_refl : core.

Lemma once_saving_and_refreshing (P : MembershipProps.op -> Prop) {A} w (f : State -> State * A) op : (strict -> fair w) -> P op ->
  (forall n, own n = me -> fst (f n) = with_membership (fun _ => MembershipProps.apply me (membership n) op) n) ->
  once_surely P (saving_and_refreshing w f).
Proof. intros Hw Hp Hf. apply once_then; [by apply (once_saving P w f op)|]. intros [a|e]; [|done]. apply always_bind; auto. Qed.

Lemma once_create (P : MembershipProps.op -> Prop) w name h random : (strict -> fair w) -> P (OpCreate name h random) ->
  once_surely P (create_network w name h random).
Proof. intros Hw Hp. apply (once_saving_and_refreshing P w _ (OpCreate name h random)); [done..|]. intros n Hown. by rewrite <- Hown. Qed.

Lemma once_set_joined (P : MembershipProps.op -> Prop) w c name l : (strict -> fair w) -> P (OpJoined c name l) -> once_surely P (set_joined w c name l).
Proof. intros Hw Hp. apply (once_saving_and_refreshing P w _ (OpJoined c name l)); [done..|]. intros n Hown. by rewrite <- Hown. Qed.

Lemma starts_redeem (P : MembershipProps.op -> Prop) w token r h now Q : P (OpRedeem token r now) ->
  (forall x, h = Some x -> P (OpClaim r x false)) -> (forall a, Q (Finished a)) -> (forall a, Q (_ ← refresh_routes w; Finished a)) ->
  starts P w Q (redeem_invite w token r h now).
Proof.
  intros Hr Hc Qf Qr. split; [|intros [[x|]|e]; [apply Qr|apply Qf..]]. intros n Hown.
  destruct (Membership.redeem_invite (membership n) token r now) as [m [|]] eqn:E.
  - assert (Hm : m = MembershipProps.apply me (membership n) (OpRedeem token r now)) by (cbn; by rewrite E).
    destruct h as [x|].
    + exists (MembershipProps.apply me m (OpClaim r x false)), [OpRedeem token r now; OpClaim r x false].
      split; [by repeat constructor; auto|]. split; [by rewrite Hm|]. left. cbn [MembershipProps.apply].
      destruct (Membership.claim_hostname m r x false) as [m' [a|e]]; cbn [fst]; by destruct (save w _) as [? [[]|]].
    + exists m, [OpRedeem token r now]. split; [by constructor|]. split; [done|]. left. by destruct (save w _) as [? [[]|]].
  - apply (changes_one P w n (OpRedeem token r now)); [done|]. right. cbn [MembershipProps.apply]. rewrite E. split; [done|].
    cbn [fst]. unfold Membership.redeem_invite in E. destruct (pending_invites _ !! token); [|by injection E as <-].
    destruct (negb _); [by injection E as <-|done].
Qed.

Lemma once_redeem (P : MembershipProps.op -> Prop) w token r h now : (strict -> fair w) -> P (OpRedeem token r now) ->
  (forall x, h = Some x -> P (OpClaim r x false)) -> once_surely P (redeem_invite w token r h now).
Proof. intros Hw Hr Hc. apply (once_starts P w); [done|]. apply starts_redeem; [done|done|done|]. intros a. apply always_bind; auto. Qed.

Lemma starts_claim (P : MembershipProps.op -> Prop) w c r f Q : P (OpClaim c r f) -> (forall a, Q (Finished a)) ->
  starts P w Q (claim_hostname w c r f).
Proof.
  intros Hp Qf. split; [|exact Qf]. intros n Hown. apply (changes_one P w n (OpClaim c r f)); [done|].
  unfold Node.claim_hostname. cbn [MembershipProps.apply].
  destruct (Membership.claim_hostname (membership n) c r f) as [m [a|e]] eqn:E; cbn [fst].
  - left. by destruct (save w _) as [? [[]|]].
  - right. split; [done|]. by apply claim_hostname_err in E as [-> _].
Qed.

Lemma once_claim (P : MembershipProps.op -> Prop) w c r f : (strict -> fair w) -> P (OpClaim c r f) -> once_surely P (claim_hostname w c r f).
Proof. intros Hw Hp. apply (once_starts P w); [done|]. by apply starts_claim. Qed.

Lemma starts_adopt (P : MembershipProps.op -> Prop) w h Q : P (OpClaim (show_id me) h true) -> (forall a, Q (Finished a)) ->
  starts P w Q (adopt_hostname w h).
Proof.
  intros Hp Qf. split; [|exact Qf]. intros n Hown. apply (changes_one P w n (OpClaim (show_id me) h true)); [done|].
  unfold Node.adopt_hostname, own_id. rewrite Hown. cbn [MembershipProps.apply].
  destruct (Membership.claim_hostname (membership n) (show_id me) h true) as [m [a|e]] eqn:E; cbn [fst]; [by left|].
  right. split; [done|]. by apply claim_hostname_err in E as [-> _].
Qed.

Lemma once_adopt (P : MembershipProps.op -> Prop) w h : (strict -> fair w) -> P (OpClaim (show_id me) h true) -> once_surely P (adopt_hostname w h).
Proof. intros Hw Hp. apply (once_starts P w); [done|]. by apply starts_adopt. Qed.

Lemma starts_invite (P : MembershipProps.op -> Prop) w ttl now token Q : P (OpInvite ttl now token) -> (forall a, Q (Finished a)) ->
  starts P w Q (generate_invite w ttl now token).
Proof.
  intros Hp Qf. split; [|exact Qf]. intros n Hown. apply (changes_one P w n (OpInvite ttl now token)); [done|]. left.
  unfold Node.generate_invite. cbn [MembershipProps.apply]. rewrite <- Hown.
  destruct (Membership.generate_invite _ _ _ _ _) as [m res]. by destruct (save w _) as [? [[]|]].
Qed.

Lemma once_invite (P : MembershipProps.op -> Prop) w ttl now token : (strict -> fair w) -> P (OpInvite ttl now token) ->
  once_surely P (generate_invite w ttl now token).
Proof. intros Hw Hp. apply (once_starts P w); [done|]. by apply starts_invite. Qed.

Lemma once_set_roster (P : MembershipProps.op -> Prop) w name l : (strict -> fair w) -> P (OpRoster name l) -> once_surely P (set_roster w name l).
Proof.
  intros Hw Hp. apply once_then.
  - apply (once_saving P w _ (OpRoster name l)); [done..|]. intros n Hown. cbn [MembershipProps.apply]. unfold own_id. rewrite Hown.
    by destruct (Membership.set_roster _ _ _ _).
  - intros [found|e]; [|done]. apply always_bind; [|intros []; apply always_bind; auto].
    apply quiet_atomically. intros n [K0 K1 K2 K3]. by split.
Qed.

Lemma once_leave (P : MembershipProps.op -> Prop) w : (strict -> fair w) -> P OpLeave -> once_surely P (leave w).
Proof.
  intros Hw Hp. apply once_then; [by apply (once_saving P w _ OpLeave)|]. intros [name|e]; [|done].
  apply always_bind; [|intros []; apply always_bind; auto]. apply quiet_atomically. intros n [K0 K1 K2 K3]. by split.
Qed.

Lemma starts_kick (P : MembershipProps.op -> Prop) w q Q : P (OpKick q) -> (forall a, Q (Finished a)) ->
  (forall a, Q (_ ← refresh_routes w; Finished a)) -> starts P w Q (kick w q).
Proof.
  intros Hp Qf Qr. split; [|intros [[x|m]|e]; [apply Qr|apply Qf..]]. intros n Hown.
  apply (changes_one P w n (OpKick q)); [done|]. cbn [MembershipProps.apply]. unfold own_id. rewrite Hown.
  destruct (Membership.kick (membership n) q _) as [m [x|e]] eqn:E; cbn [fst].
  - left. by destruct (save w _) as [? [[]|]].
  - right. split; [done|]. by apply kick_err in E as ->.
Qed.

Lemma once_kick (P : MembershipProps.op -> Prop) w q : (strict -> fair w) -> P (OpKick q) -> once_surely P (kick w q).
Proof. intros Hw Hp. apply (once_starts P w); [done|]. apply starts_kick; [done|done|]. intros a. apply always_bind; auto. Qed.

Lemma starts_remove (P : MembershipProps.op -> Prop) w id Q : P (OpRemove id) -> (forall a, Q (Finished a)) ->
  (forall a, Q (_ ← refresh_routes w; Finished a)) -> starts P w Q (remove_member w id).
Proof.
  intros Hp Qf Qr. split; [|intros [[]|e]; [apply Qr|apply Qf..]]. intros n Hown.
  apply (changes_one P w n (OpRemove id)); [done|]. cbn [MembershipProps.apply].
  destruct (Membership.remove_member (membership n) id) as [m []] eqn:E; cbn [fst].
  - left. by destruct (save w _) as [? [[]|]].
  - right. split; [done|]. unfold Membership.remove_member in E. injection E as <- Hlen. cbn in *.
    apply negb_false_iff, Nat.eqb_eq in Hlen. by apply filter_same_length.
Qed.

Lemma once_remove (P : MembershipProps.op -> Prop) w id : (strict -> fair w) -> P (OpRemove id) -> once_surely P (remove_member w id).
Proof. intros Hw Hp. apply (once_starts P w); [done|]. apply starts_remove; [done|done|]. intros a. apply always_bind; auto. Qed.

(** *** The handlers *)

Lemma quiet_broadcast subject : quiet (AdminSteps.broadcast subject).
Proof. do 2 (apply always_bind; [done|]; intros ?). done. Qed.

#[local] Hint Resolve quiet_broadcast : core.

(** Looking at something first. *)
#[local] Ltac looks := apply once_before; [done|].

Lemma once_asked P w from now req : (strict -> fair w) -> (forall op, asks_for me (Asked w from now req) op -> P op) ->
  once P unchanged_by_peer (AdminSteps.dispatch w req (show_id from) now).
Proof.
  intros Hw HP. destruct req as [tok h| |h|name l|]; cbn [AdminSteps.dispatch].
  - looks. intros []; [|done]. cbn [negb]. destruct (decode_token tok) as [t|e] eqn:Et; [|done].
    apply once_then; [apply once_redeem; [done|by apply HP|intros x ->; by apply HP]|].
    intros [[[l a]|]|e]; [|done..]. do 2 (apply always_bind; [done|]; intros ?). done.
  - looks. intros []; [|done]. apply once_then; [apply once_remove; [done|by apply HP]|]. intros [[]|e]; [|done..]. by apply always_bind.
  - looks. intros []; [|done]. looks. intros []; [|done].
    apply once_then; [apply once_claim; [done|by apply HP]|]. intros [[a|e]|e]; [|done..]. by apply always_bind.
  - looks. intros c. destruct (negb _); [done|]. apply once_then; [apply once_set_roster; [done|by apply HP]|done].
  - looks. intros c. destruct (negb _); [done|]. apply once_then; [apply once_leave; [done|by apply HP]|done].
Qed.

Lemma once_status P o : once P (fun r => unchanged_by_user (r, [])) (IpcSteps.status o).
Proof.
  do 2 (looks; intros ?). apply once_before; [by apply always_bind|]. intros ?. do 2 (looks; intros ?).
  destruct (virtual_addrs _). do 4 (looks; intros ?). done.
Qed.

Lemma quiet_probe w peer waited rtt : quiet (IpcSteps.probe w peer waited rtt).
Proof.
  unfold IpcSteps.probe. destruct (parse_id peer) as [id|]; [|done]. apply always_bind; [done|]. intros []; [|done].
  cbn [negb]. destruct (virtual_addrs _). apply always_bind; [done|]. intros [conn|]; [done|].
  apply always_bind; [|done]. apply quiet_atomically. intros n [K0 K1 K2 K3]. by split.
Qed.

Lemma quiet_take id now : quiet (atomically (fun n : State => let '(fs, r) := Files.take_answerable (files n) id now in (with_files fs n, r))).
Proof.
  apply quiet_atomically. intros n [K0 K1 K2 K3]. pose proof (inv_take (files n) id now K2) as Hi.
  destruct (Files.take_answerable _ _ _) as [fs r]. by split.
Qed.

Lemma quiet_list now : quiet (atomically (fun n : State => let '(fs, l) := Files.list (files n) now in (with_files fs n, l))).
Proof. apply quiet_atomically. intros n [K0 K1 K2 K3]. pose proof (inv_forget (files n) now K2) as Hi. by split. Qed.

Lemma quiet_set_operator w user id : quiet (set_operator w user id).
Proof. apply quiet_atomically. intros n [K0 K1 K2 K3]. unfold Node.set_operator. destruct (save_to w); by split. Qed.

Lemma once_answer P {A} idle (t : task (result message A)) ok : once P idle t -> (forall a, idle (Ok a) -> unchanged_by_user (ok a, [])) ->
  once P unchanged_by_user (IpcSteps.answer t ok).
Proof. intros Ht Hok. apply (once_finish P idle _ t); [done|]. intros [a|e]; [apply Hok|done]. Qed.

(** An answer to a task that leaves the roster alone. *)
Lemma once_told P {A} (t : task (result message A)) ok : quiet t -> (forall a, unchanged_by_user (ok a, [])) ->
  once P unchanged_by_user (IpcSteps.answer t ok).
Proof. intros Ht Hok. apply once_before; [done|]. intros [a|e]; [apply Hok|done]. Qed.

Lemma kept_own_id n : kept n -> own_id n = show_id me.
Proof. intros Hn. unfold own_id. by rewrite (kept_own _ Hn). Qed.

Definition failed {A} (r : result message A) : Prop := if r is Err _ then True else False.

Lemma surely P {A} idle (t : task A) : once_surely P t -> once P idle t.
Proof.
  unfold once_surely. induction t as [a|B f k IH]; [done|]. intros Ht n Hn. destruct (Ht n Hn) as [[Hs Hk]|Hm]; [left|by right].
  split; [done|by apply IH].
Qed.

Lemma once_network_command P o name h : (strict -> fair (world o)) -> (forall op, asks_for me (Local o (CreateNetwork name h)) op -> P op) ->
  once P failed (IpcSteps.create_network o name h).
Proof.
  intros Hw HP. unfold IpcSteps.create_network. destruct (validate_network name) as [name'|e] eqn:En; [|done].
  destruct h as [requested|]; [|apply surely, once_create; [done|by apply HP]].
  apply once_reads. intros n Hn. rewrite (kept_own_id n Hn). destruct (validate requested _) as [x|e] eqn:Ev; [|done].
  apply surely, once_create; [done|]. apply HP. split_and!; [done..|by exists x].
Qed.

Lemma once_hostname_command P o h force : (strict -> fair (world o)) -> (forall op, asks_for me (Local o (Proto.SetHostname h force)) op -> P op) ->
  once P (fun r => failed (fst r)) (IpcSteps.set_hostname o h force).
Proof.
  intros Hw HP. apply once_reads. intros n Hn. rewrite (kept_own_id n Hn).
  destruct (validate h _) as [wanted|e] eqn:Ev; [|done]. looks. intros [].
  - apply once_then; [apply once_claim; [done|]|].
    { apply HP. split; [done|]. exists wanted. by split; [|left]. }
    intros [[a|e]|e]; [|done..]. by apply always_bind.
  - looks. intros [c|]; [|done]. destruct (parse_id c) as [id|]; [|done]. apply once_then; [|done]. apply once_adopt; [done|].
    apply HP. split; [done|]. exists wanted. split; [done|]. right. split; [done|]. by exists id.
Qed.

Lemma once_local P o req : (strict -> fair (world o)) -> (forall op, asks_for me (Local o req) op -> P op) ->
  once P unchanged_by_user (IpcSteps.dispatch o req).
Proof.
  intros Hw HP. destruct req as [peer| |name h|ttl|code h| |user|h force|peer|name size target ttl| |id|id]; cbn [IpcSteps.dispatch].
  - apply once_told; [apply quiet_probe|done].
  - apply (once_finish P (fun r => unchanged_by_user (r, []))); [apply once_status|done].
  - apply (once_answer P failed); [by apply once_network_command|done].
  - looks. intros []; [|done]. apply (once_answer P (fun _ => False)); [apply once_invite; [done|by apply HP]|done].
  - destruct (join_network _ _ _ _) as [ad|e] eqn:Ej; [|done]. apply once_then; [apply once_set_joined; [done|apply HP; by exists ad]|].
    intros [[]|e]; [|done]. apply always_bind; [by apply always_bind|done].
  - looks. intros c. looks. intros own_id. apply (once_answer P (fun _ => False)); [apply once_leave; [done|by apply HP]|done].
  - destruct (resolve_user _ _ _); [|done]. apply once_told; [apply quiet_set_operator|done].
  - apply (once_after P (fun r => failed (fst r))); [by apply once_hostname_command|by intros []|]. by intros [[a|e] pushes].
  - looks. intros []; [|done]. apply once_then; [apply once_kick; [done|by apply HP]|]. intros [[x|m]|e]; [|done..]. by apply always_bind.
  - done.
  - apply once_before; [apply quiet_list|done].
  - done.
  - apply (once_finish P (fun r => unchanged_by_user (r, []))); [|done]. apply once_before; [apply quiet_take|].
    intros [[offer k]|m]; [|done]. by looks.
Qed.

Lemma quiet_serve_link conn : quiet (LinkSteps.serve_link conn).
Proof.
  apply always_bind; [done|]. intros []; [|done]. cbn [negb]. apply always_bind.
  { apply quiet_atomically. intros n [K0 K1 K2 K3]. destruct (register _ _ _). by split. }
  intros []; [|done]. apply always_bind; [done|]. intros []; [|done]. do 2 (apply always_bind; [done|]; intros ?). done.
Qed.

Lemma once_program P j : (strict -> fair_job j) -> (forall op, asks_for me j op -> P op) -> once P unchanged (program j).
Proof.
  intros Hw HP. destruct j as [o req|w from now req|conn|id| |d|o]; cbn [program fair_job] in *.
  - apply (once_after P unchanged_by_user); [by apply once_local|by intros []|by intros []].
  - apply (once_after P unchanged_by_peer); [by apply once_asked|by intros []|by intros []].
  - apply once_before; [apply quiet_serve_link|by intros []].
  - intros n [K0 K1 K2 K3]. left. by split; [split; [split|]|].
  - intros n [K0 K1 K2 K3]. left. by split; [split; [split|]|].
  - intros n [K0 K1 K2 K3]. left. by split; [split; [split|]|].
  - intros n [K0 K1 K2 K3]. left. destruct (is_set_roster o); [by split; [split; [split|]|]|].
    split; [split; [split; [done|done|by apply inv_apply|done]|done]|done].
Qed.
End Interleave.
