(* ===== verification/Schedules.v ===== *)
(** * Any schedule of the daemon's tasks

    Any number of handlers at once, on any schedule of their critical sections: what
    each is alone, what no schedule breaks, what the next refresh mends, that two
    joins with one code do not both get in; and what a schedule can break. *)

From S2P Require Import Prelude External Task Proto Names Net Tun Membership MembershipProps MembershipLookup Peers Routes Stats Files Frame Transfer Node NodeProps Admin AdminProps Authz Ipc IpcProps Steps HandlerSteps Interleave.

Local Abbreviation list := Datatypes.list.

Section Linear.
Context `{!EndpointIds, !Sha256, !HexCrate, !Bs58, !WireJson} {Link : Type}.
Notation State := (State (Link := Link)).
Notation task := (task State).
Notation job := (job (Link := Link)).
Implicit Types n : State.
Variable me : EndpointId.
Variable strict : Prop.
Notation kept := (kept me strict).
Notation quiet := (always kept (still me strict)).
Notation once := (once me strict).
Notation moves := (moves me strict).

(** ** One at a time *)

(** The roster after the jobs [past], one after the other: each asked for what it did. *)
Inductive served (js : list job) : list nat -> Membership -> Membership -> Prop :=
  | served_none m : served js [] m m
  | served_next past m m' i j ops : served js past m m' -> i ∉ past -> js !! i = Some j -> Forall (asks_for me j) ops ->
      served js (past ++ [i]) m (foldl (MembershipProps.apply me) m' ops).

(** Whose turn to change the roster has been is done with it. *)
Definition linear (js : list job) (m : Membership) (p : pool State reply) : Prop :=
  kept (fst p) /\ exists past, served js past m (membership (fst p))
  /\ forall i t, snd p !! i = Some t -> exists j, js !! i = Some j /\ (i ∈ past -> quiet t) /\ (i ∉ past -> once (asks_for me j) unchanged t).

Lemma linear_turn js m p x : linear js m p -> linear js m (turn p x).
Proof.
  destruct p as [n ts]. intros (Hn & past & Hs & Hts). cbn [fst snd] in *. unfold turn.
  destruct (ts !! x) as [[a|B f k]|] eqn:Ex; [by split; [|exists past]| |by split; [|exists past]].
  destruct (Hts x _ Ex) as (j & Hj & Hin & Hout). destruct (f n) as [n' b] eqn:Ef.
  assert (Hothers : forall later : list nat, (forall i, i ∈ later <-> i ∈ past \/ i = x /\ x ∈ later) ->
    (x ∈ later -> quiet (k b)) -> (x ∉ later -> once (asks_for me j) unchanged (k b)) -> forall i t, <[x := k b]> ts !! i = Some t ->
    exists j', js !! i = Some j' /\ (i ∈ later -> quiet t) /\ (i ∉ later -> once (asks_for me j') unchanged t)).
  { intros later His Hq Ho i t Hi. apply list_lookup_insert_Some in Hi as [(-> & <- & _)|[Hne Hi]]; [by exists j|].
    destruct (Hts i t Hi) as (j' & Hj' & Ha & Hb). exists j'. rewrite His. naive_solver. }
  destruct (decide (x ∈ past)) as [Hx|Hx].
  - destruct (Hin Hx n Hn) as [(Hk & Ho & Hm) Hq]. rewrite Ef in *. cbn [fst snd] in *. split; [done|]. exists past.
    cbn [fst snd]. rewrite Hm. split; [done|]. apply (Hothers past); [naive_solver|done|done].
  - destruct (Hout Hx n Hn) as [[(Hk & Ho & Hm) Hq]|[(Hk & Ho & ops & Hops & Hm) Hq]]; rewrite Ef in *; cbn [fst snd] in *; split; try done.
    + exists past. cbn [fst snd]. rewrite Hm. split; [done|]. apply (Hothers past); [naive_solver|done|done].
    + exists (past ++ [x]). cbn [fst snd]. rewrite Hm. split; [by eapply served_next|].
      apply (Hothers (past ++ [x])); [|done|set_solver]. intros i. set_solver.
Qed.

Lemma linear_turns js n l : (strict -> Forall fair_job js) -> kept n -> linear js (membership n) (turns (n, programs js) l).
Proof.
  intros Hf Hn. assert (Hl : linear js (membership n) (n, programs js)).
  { split; [done|]. exists []. split; [constructor|]. cbn [snd]. intros i t Hi. apply list_lookup_fmap_Some in Hi as (j & -> & Hj).
    exists j. split; [done|]. split; [set_solver|]. intros _. apply once_program; [|done].
    intros Hst. specialize (Hf Hst). rewrite Forall_lookup in Hf. by eapply Hf. }
  revert Hl. generalize (n, programs js). induction l as [|x l IH]; intros p Hl; [done|]. by apply IH, linear_turn.
Qed.

(** *** One invite *)

Definition minted (t : list Z) (j : job) : Prop := match j with Local o (Invite _) => token o = t | _ => False end.
Definition presents (t : list Z) (j : job) : Prop :=
  match j with Asked _ _ _ (Admin.Join tok _) => decode_token tok = Ok t | _ => False end.
Definition admitted (r : reply) : Prop := match r with Answers (Joined _ _ _) _ => True | _ => False end.
Definition unredeemable (t : list Z) n : Prop := pending_invites (membership n) !! t = None.

(** Nothing but minting it again brings a token back. *)
Lemma unredeemable_apply t m o : ~ mints t o -> pending_invites m !! t = None -> pending_invites (MembershipProps.apply me m o) !! t = None.
Proof.
  intros Ho Hm. apply eq_None_not_Some. intros [i Hi]. apply invites_apply in Hi as [_ Hi]; [|done]. by rewrite Hm in Hi.
Qed.

Lemma unredeemable_moves t m ops : Forall (fun o => ~ mints t o) ops -> pending_invites m !! t = None ->
  pending_invites (foldl (MembershipProps.apply me) m ops) !! t = None.
Proof.
  revert m. induction ops as [|o ops IH]; intros m Hops Hm; [done|]. apply Forall_cons in Hops as [Ho Hops].
  apply IH; [done|by apply unredeemable_apply].
Qed.

Lemma quiet_never_back t {A} (x : task A) : quiet x -> always kept (never_back kept (unredeemable t)) x.
Proof.
  induction x as [a|B f k IH]; [done|]. intros Hx n Hn. destruct (Hx n Hn) as [(Hk & _ & Hm) Hq]. split; [|by apply IH].
  split; [done|]. unfold unredeemable. by rewrite Hm.
Qed.

Lemma once_never_back t P {A} idle (x : task A) : (forall o, P o -> ~ mints t o) -> once P idle x ->
  always kept (never_back kept (unredeemable t)) x.
Proof.
  intros HP. induction x as [a|B f k IH]; [done|]. intros Hx n Hn.
  destruct (Hx n Hn) as [[(Hk & _ & Hm) Hq]|[(Hk & _ & ops & Hops & Hm) Hq]].
  - split; [|by apply IH]. split; [done|]. unfold unredeemable. by rewrite Hm.
  - split; [|by apply quiet_never_back]. split; [done|]. unfold unredeemable. rewrite Hm. apply unredeemable_moves.
    eapply Forall_impl; [exact Hops|exact HP].
Qed.

Lemma asks_mints t j o : ~ minted t j -> asks_for me j o -> ~ mints t o.
Proof.
  intros Hj Ho Hm. destruct o; try done. cbn in Hm. subst.
  destruct j as [out req|w from at_ req| | | | |]; [destruct req| destruct req|..]; cbn in *; try done.
  destruct Ho as (_ & _ & ->). done.
Qed.

Lemma claim_invites (m : Membership) c r f : pending_invites (fst (Membership.claim_hostname m c r f)) = pending_invites m.
Proof. unfold Membership.claim_hostname. by destruct (validate r c), f. Qed.

Lemma save_membership w n : membership (fst (save w n)) = membership n.
Proof. unfold save. by destruct (save_to w). Qed.

Lemma redeem_claims (m : Membership) r (h : option rstr) :
  pending_invites m = pending_invites (fst match h with
    | Some x => match Membership.claim_hostname m r x false with (m, Ok name) => (m, Some name) | (m, Err _) => (m, None) end
    | None => (m, None)
    end).
Proof. destruct h as [x|]; [|done]. pose proof (claim_invites m r x false) as Hc. by destruct (Membership.claim_hostname _ _ _ _) as [? []]. Qed.

(** A join gets in by taking the token, in the section that checks it. *)
Lemma join_contends t j : presents t j -> contends kept (unredeemable t) admitted (program j).
Proof.
  destruct j as [o req|w from at_ req| | | | |]; try done. destruct req as [tok h| | | |]; try done. cbn [presents]. intros Ht.
  refine (contends_bind _ _ _ (reads is_coordinator) _ _). intros c. cbn beta. destruct c; [|by intros []]. cbn [negb]. rewrite Ht.
  refine (contends_take _ _ _ _ _ _ _); cbn beta.
  - intros n _ Hn. rewrite (redeem_absent _ _ _ _ Hn). cbn. tauto.
  - intros n _. pose proof (redeem_spends (membership n) t (show_id from) at_) as Hs. unfold unredeemable.
    destruct (Membership.redeem_invite (membership n) t (show_id from) at_) as [m []]; [|exact Hs]. cbn [fst] in Hs.
    rewrite (redeem_claims m (show_id from) h) in Hs.
    destruct (match h with Some _ => _ | None => _ end) as [m' a]. cbn [fst] in Hs.
    pose proof (save_membership w (with_membership (fun _ => m') n)) as Hm. destruct (save w _) as [? [[]|]]; cbn [fst] in *; by rewrite Hm.
Qed.
End Linear.

(** ** Properties *)

Section Schedules.
Context `{!EndpointIds, !Sha256, !HexCrate, !Bs58, !WireJson} {Link : Type}.
Notation State := (State (Link := Link)).
Implicit Types n : State.

Lemma in_step_kept strict n : in_step n -> kept (own n) strict n.
Proof. intros [S1 S2 S3 S4 S5 S6 S7]. split; [done|intros _; by rewrite S4, S3|done|done]. Qed.

Lemma served_nodup me (js : list (job (Link := Link))) past m m' : served me js past m m' -> NoDup past.
Proof.
  induction 1 as [|past m m' i j ops _ IH Hi _ _]; [by constructor|]. apply NoDup_app. split; [done|]. split; [|by apply NoDup_singleton].
  intros x Hx ->%list_elem_of_singleton. done.
Qed.

Lemma handled_asked n w from now req : exists n' r, handled (Asked w from now req) n = Some (n', r).
Proof. cbn [handled]. destruct (Admin.dispatch _ _ _ _ _) as [[n' r] pushes]. by eexists _, _. Qed.

(** running alone, or scheduled so that nobody comes in between, every local
    command and every peer's request, taken one critical section at a time, does
    and answers exactly what its handler as one function does and answers. *)
Theorem a_task_alone_is_its_handler j n n' r : handled j n = Some (n', r) ->
  alone (program j) n = (n', r)
  /\ forall js i, js !! i = Some j ->
     exists k, turns (n, programs js) (replicate k i) = (n', <[i := Finished r]> (programs js)).
Proof.
  intros Hj. assert (Ha : alone (program j) n = (n', r)).
  { destruct j as [o req|w from now req| | | | |]; cbn [handled program] in *; [| |done..]; rewrite alone_bind.
    - rewrite IpcSteps.alone_commanded. destruct (Ipc.dispatch o n req) as [[? ?] ?]. by injection Hj as <- <-.
    - rewrite AdminSteps.alone_asked. destruct (Admin.dispatch _ _ _ _ _) as [[? ?] ?]. by injection Hj as <- <-. }
  split; [done|]. intros js i Hi.
  destruct (turns_alone (programs js) n i (program j)) as [k Hk]; [by apply list_lookup_fmap_Some; exists j|].
  exists k. by rewrite Hk, Ha.
Qed.

(** C11: however many commands, peers' requests, links and transfers are in hand at
    once, and in whatever order the daemon gets round to their critical sections,
    the roster always is what some of them, each once and one after the other,
    asked for, and whoever was told of a change is among them: no change is lost,
    doubled or torn.  As long as saving and the commands that set routes succeed,
    the roster file keeps up with it and the system's routes with what is installed;
    and whatever the schedule left unrouted, the next refresh that runs on its own
    puts back in step. *)
Theorem any_schedule_serves_one_at_a_time (js : list job) n l :
  in_step n ->
  let p := turns (n, programs js) l in
  let n' := fst p in
  (exists past, NoDup past /\ served (own n) js past (membership n) (membership n')
     /\ forall i r, came_to p i = Some r -> i ∉ past -> unchanged r)
  /\ own n' = own n /\ Files.inv (files n')
  /\ (Forall fair_job js -> members (saved n') = members (membership n') /\ kernel n' = installed (routes n')
     /\ forall w, fair w -> in_step (Node.refresh_routes w n')).
Proof.
  intros Hn p n'. pose proof (in_step_kept (Forall fair_job js) n Hn) as Hk.
  destruct (linear_turns (own n) (Forall fair_job js) js n l (fun H => H) Hk) as ([K0 K1 K2 K3] & past & Hs & Hts).
  fold p n' in K0, K1, K2, K3, Hs, Hts.
  split_and!; [|done..|intros Hf; split_and!; [by apply K3|by apply K1|]; intros w [_ Hw]; apply refresh_in_step; auto].
  exists past. split; [by eapply served_nodup|]. split; [done|]. intros i r Hr Hi. unfold came_to in Hr.
  destruct (snd p !! i) as [[a|]|] eqn:Ei; try done. injection Hr as ->. destruct (Hts i _ Ei) as (j & _ & _ & Ho). by apply Ho.
Qed.

(** Job [i] is done, and its joiner is in. *)
Definition lets_in (p : pool State reply) (i : nat) : Prop :=
  match came_to p i with Some r => admitted r | None => False end.

(** C12: one code lets one machine in: of two joins that present the same invite,
    however their sections and everybody else's are interleaved, at most one is
    admitted, as long as nobody mints the very token again. *)
Theorem one_code_admits_one_joiner (js : list job) n l i j ji jj t :
  in_step n -> Forall (fun x => ~ minted t x) js ->
  i <> j -> js !! i = Some ji -> js !! j = Some jj -> presents t ji -> presents t jj ->
  ~ (lets_in (turns (n, programs js) l) i /\ lets_in (turns (n, programs js) l) j).
Proof.
  intros Hn Hm Hne Hi Hj Hpi Hpj.
  enough (Hone : ~ (exists a b, came_to (turns (n, programs js) l) i = Some a /\ came_to (turns (n, programs js) l) j = Some b
      /\ admitted a /\ admitted b)).
  { unfold lets_in. intros [Ha Hb]. destruct (came_to _ i) as [a|]; [|done]. destruct (came_to _ j) as [b|]; [|done].
    apply Hone. by exists a, b. }
  apply (at_most_one_wins (kept (own n) False) (unredeemable t)); [done|]. split; [by apply in_step_kept|]. split.
  - apply Forall_fmap, Forall_forall. intros x Hx. rewrite Forall_forall in Hm.
    apply (once_never_back (own n) False t (asks_for (own n) x) unchanged); [|apply once_program; done].
    intros o. by apply asks_mints, Hm.
  - exists (program ji), (program jj). split; [by apply list_lookup_fmap_Some; exists ji|]. split; [by apply list_lookup_fmap_Some; exists jj|].
    left. split; by apply join_contends.
Qed.
End Schedules.

(** ** Witnesses, and what a schedule can break *)

(** What a run comes to, by running it. *)
#[local] Ltac vm_same := match goal with |- _ = ?x => vm_cast_no_check (eq_refl x) end.

Import Concrete.

Module SchedDemo.
Definition world : World := NodeDemo.world.
Definition token2 : list Z := replicate 16 6.
(** K1's network with two invites out. *)
Definition inviting : State (Link := unit) :=
  call world (call world NodeDemo.started (MGenerateInvite 300 0 AdminDemo.token)) (MGenerateInvite 300 0 token2).
Definition knock (k : EndpointId) (t : list Z) : job (Link := unit) := Asked world k 299 (Admin.Join (hex_encode t) None).

Lemma inviting_in_step : in_step inviting.
Proof. do 2 (apply call_in_step; [exact NodeDemo.fair_world|]). exact NodeDemo.started_in_step. Qed.

Definition two_joins : list (job (Link := unit)) := [knock K3 AdminDemo.token; knock K4 token2].
(** K3 is admitted and its refresh reads the roster; K4's join runs; K3's goes on. *)
Definition overtaken : list nat := replicate 3 0%nat ++ replicate 40 1%nat ++ replicate 40 0%nat.

(** K2, in K1's network, makes one of its own while K1's request is being looked at. *)
Definition own_network : job (Link := unit) := Local IpcDemo.alone (CreateNetwork (lit "mine") None).
Definition pushed : list (job (Link := unit)) :=
  [Asked world K1 0 (Admin.Roster (Some (lit "home")) [Demo.member1; Demo.member2]); own_network].
Definition dismissed : list (job (Link := unit)) := [Asked world K1 0 Admin.Kicked; own_network].
Definition checked_first : list nat := [0%nat] ++ replicate 40 1%nat ++ replicate 40 0%nat.

Lemma member_in_step : in_step IpcDemo.member.
Proof.
  apply save_and_refresh_in_step; [exact NodeDemo.fair_world|].
  split; [done|by intros id [c Hc]|by vm_compute|by vm_compute|by vm_compute|apply inv_default|done].
Qed.
#[local] Ltac all_fair := do 2 (apply Forall_cons; split; [exact NodeDemo.fair_world|]); by apply Forall_nil.
Lemma two_joins_fair : Forall fair_job two_joins.
Proof. all_fair. Qed.
Lemma pushed_fair : Forall fair_job pushed.
Proof. all_fair. Qed.
Lemma dismissed_fair : Forall fair_job dismissed.
Proof. all_fair. Qed.

(** K3's code, read over its shoulder. *)
Definition one_code : list (job (Link := unit)) := [knock K3 AdminDemo.token; knock K4 AdminDemo.token].
Definition side_by_side : list nat := mjoin (replicate 40 [0%nat; 1%nat]).
Lemma knock_presents k : presents AdminDemo.token (knock k AdminDemo.token).
Proof. unfold presents, knock. vm_same. Qed.
Lemma one_code_unminted : Forall (fun j => ~ minted AdminDemo.token j) one_code.
Proof. do 2 (apply Forall_cons; split; [by intros []|]). by apply Forall_nil. Qed.
End SchedDemo.

(** two people let in at the same time: both are told they are in, both are on the
    roster, and no packet can be sent to the second, here or by the kernel, until
    the roster changes again; the refresh of the first, begun before the second
    was in, ended after the refresh of the second. *)
Theorem a_slow_refresh_unroutes_a_new_member :
  exists (n : State (Link := unit)) js l id, in_step n /\ Forall fair_job js /\
    let p := turns (n, programs js) l in
    lets_in p 0 /\ lets_in p 1 /\ is_member (fst p) (show_id id) = true
    /\ route (peers (fst p)) (v4_of id) = None /\ bool_decide (v4_of id ∈ kernel (fst p)) = false.
Proof.
  exists SchedDemo.inviting, SchedDemo.two_joins, SchedDemo.overtaken, K4.
  split; [exact SchedDemo.inviting_in_step|]. split; [exact SchedDemo.two_joins_fair|].
  split_and!; [vm_compute; exact I|vm_compute; exact I|by vm_compute..].
Qed.

(** what a peer sent is checked against one network and done to another: K2, a
    member of K1's network, makes a network of its own between the check and the
    effect of a roster K1 pushed, and ends up running a network under the old name
    with K1 in it, routed. *)
Theorem a_checked_push_outlives_its_network :
  exists (n : State (Link := unit)) js l old, in_step n /\ Forall fair_job js /\
    let p := turns (n, programs js) l in
    came_to p 0 = Some (Answers Ack []) /\ came_to p 1 = Some (Replies (ROk (lit "network created")) [])
    /\ is_coordinator (fst p) = true /\ network_name (membership (fst p)) = Some (lit "home")
    /\ is_member (fst p) (show_id old) = true /\ route (peers (fst p)) (v4_of old) = Some old.
Proof.
  exists IpcDemo.member, SchedDemo.pushed, SchedDemo.checked_first, K1.
  split; [exact SchedDemo.member_in_step|]. split; [exact SchedDemo.pushed_fair|]. intros p. split; [vm_same|]. split; [vm_same|].
  split; [vm_same|]. split; [vm_same|]. split; vm_same.
Qed.

(** likewise with the notice of a kick: the network made between its check and its
    effect is gone, although the user was told it was made. *)
Theorem a_checked_kick_takes_the_next_network :
  exists (n : State (Link := unit)) js l, in_step n /\ Forall fair_job js /\
    let p := turns (n, programs js) l in
    came_to p 1 = Some (Replies (ROk (lit "network created")) [])
    /\ came_to p 0 = Some (Answers Ack []) /\ network_id (membership (fst p)) = None /\ members (membership (fst p)) = [].
Proof.
  exists IpcDemo.member, SchedDemo.dismissed, SchedDemo.checked_first.
  split; [exact SchedDemo.member_in_step|]. split; [exact SchedDemo.dismissed_fair|]. intros p.
  split; [vm_same|]. split; [vm_same|]. split; vm_same.
Qed.

Example a_task_alone_is_its_handler_witness :
  exists n' r, handled (SchedDemo.knock K3 AdminDemo.token) SchedDemo.inviting = Some (n', r)
  /\ alone (program (SchedDemo.knock K3 AdminDemo.token)) SchedDemo.inviting = (n', r).
Proof.
  destruct (handled_asked SchedDemo.inviting SchedDemo.world K3 299 (Admin.Join (hex_encode AdminDemo.token) None)) as (n' & r & E).
  exists n', r. split; [exact E|]. exact (proj1 (a_task_alone_is_its_handler _ _ _ _ E)).
Defined.

Example any_schedule_serves_one_at_a_time_witness :
  is_member (fst (turns (SchedDemo.inviting, programs SchedDemo.two_joins) SchedDemo.overtaken)) (show_id K4) = true
  /\ in_step (Node.refresh_routes SchedDemo.world (fst (turns (SchedDemo.inviting, programs SchedDemo.two_joins) SchedDemo.overtaken))).
Proof.
  split; [by vm_compute|].
  apply (any_schedule_serves_one_at_a_time SchedDemo.two_joins SchedDemo.inviting SchedDemo.overtaken
    SchedDemo.inviting_in_step); [exact SchedDemo.two_joins_fair|]. exact NodeDemo.fair_world.
Defined.

Example one_code_admits_one_joiner_witness :
  let p := turns (SchedDemo.inviting, programs SchedDemo.one_code) SchedDemo.side_by_side in
  lets_in p 0 /\ ~ (lets_in p 0 /\ lets_in p 1).
Proof.
  intros p. split; [vm_compute; exact I|].
  exact (one_code_admits_one_joiner SchedDemo.one_code SchedDemo.inviting SchedDemo.side_by_side 0 1
    (SchedDemo.knock K3 AdminDemo.token) (SchedDemo.knock K4 AdminDemo.token) AdminDemo.token
    SchedDemo.inviting_in_step SchedDemo.one_code_unminted ltac:(done) eq_refl eq_refl
    (SchedDemo.knock_presents K3) (SchedDemo.knock_presents K4)).
Defined.
