(* ===== verification/Outsider.v ===== *)
(** * Somebody outside

    A coordinator with any number of tasks in hand, on any schedule of their
    critical sections, whatever fails: what an outsider can ask for, and that
    none of it lists, links or routes them. *)

From S2P Require Import Prelude External Task Proto Names Net Tun Membership MembershipProps MembershipLookup Peers Routes Stats Files Frame Transfer Node NodeProps Admin AdminProps Authz Ipc IpcProps Steps HandlerSteps Interleave Schedules.

Local Abbreviation list := Datatypes.list.

Section Outsider.
Context `{!EndpointIds, !Sha256, !HexCrate, !Bs58, !WireJson} {Link : Type}.
Notation State := (State (Link := Link)).
Notation task := (task State).
Notation job := (job (Link := Link)).
Implicit Types n : State.
Variable c : EndpointId.              (* a coordinator *)
Variable x : EndpointId.              (* somebody not in its network *)
Variable T : list (list Z).           (* the tokens they have *)
Hypothesis other : x <> c.

(** The coordinator's user neither changes network nor mints one of these tokens,
    nobody speaks to it with its own key, and these are all the outsider presents. *)
Definition barred (j : job) : Prop :=
  match j with
  | Local o (CreateNetwork _ _) | Local o (Proto.Join _ _) | Local o Proto.Leave => False
  | Local o (Invite _) => token o ∉ T
  | Asked _ from _ (Admin.Join tok _) => from <> c /\ (from = x -> forall t, decode_token tok = Ok t -> t ∈ T)
  | Asked _ from _ _ => from <> c
  | _ => True
  end.

Record keeps_out n : Prop := {
  ko_own : own n = c;
  ko_coordinates : coordinator_id (membership n) = Some (show_id c);
  ko_outside : forall i, i ∈ ids (members (membership n)) -> parse_id i <> Some x;
  ko_spent : forall t, t ∈ T -> pending_invites (membership n) !! t = None;
  ko_link : link (peers n) x = None;
  ko_route : forall a, route (peers n) a <> Some x;
}.

Lemma keeps_out_other_ids n : keeps_out n -> x ∉ other_ids n.
Proof. intros Hn (_ & i & Hi & Hp)%elem_of_other_ids. by eapply ko_outside. Qed.

Lemma keeps_out_not_member n : keeps_out n -> is_member n (show_id x) = false.
Proof. intros Hn. apply is_member_false. intros Hi%(ko_outside _ Hn). by rewrite parse_show_id in Hi. Qed.

(** Every section of a task keeps them out, whoever had the lock before. *)
Notation bars := (always keeps_out (fun _ n' => keeps_out n')).

#[local] Hint Extern 1 (bars (Finished _)) => exact I : core.

Lemma bars_reads {A B} (f : State -> A) (k : A -> task B) : (forall n, keeps_out n -> bars (k (f n))) -> bars (reads f ≫= k).
Proof. intros Hk. by apply always_reads_bind. Qed.

Lemma bars_look {A} (f : State -> A) : bars (reads f).
Proof. by intros n Hn. Qed.

#[local] Hint Resolve bars_look : core.

Lemma bars_then {A B} (t : task A) (k : A -> task B) : bars t -> (forall a, bars (k a)) -> bars (t ≫= k).
Proof. apply always_bind. Qed.

(** A section that leaves the roster and the mesh alone. *)
Lemma bars_elsewhere {A} (f : State -> State * A) :
  (forall n, own (fst (f n)) = own n /\ membership (fst (f n)) = membership n /\ peers (fst (f n)) = peers n) -> bars (atomically f).
Proof. intros Hf n [K1 K2 K3 K4 K5 K6]. destruct (Hf n) as (Ho & Hm & Hp). split; [|done]. by split; rewrite ?Ho, ?Hm, ?Hp. Qed.

(** *** What changes the roster *)

Definition harmless (o : MembershipProps.op) : Prop :=
  ~ changes_network o /\ (forall name l, o <> OpRoster name l)
  /\ (forall t i now, o = OpRedeem t i now -> parse_id i = Some x -> t ∈ T) /\ (forall t, mints t o -> t ∉ T).

Lemma harmless_other o :
  match o with OpClaim _ _ _ | OpRemove _ | OpKick _ => True | _ => False end -> harmless o.
Proof. intros Ho. destruct o; try done; (split; [by intros []|]); (split; [done|]); split; done. Qed.

Lemma harmless_ops l m :
  Forall harmless l -> coordinator_id m = Some (show_id c) -> (forall i, i ∈ ids (members m) -> parse_id i <> Some x) ->
  (forall t, t ∈ T -> pending_invites m !! t = None) ->
  let m' := foldl (MembershipProps.apply c) m l in
  coordinator_id m' = Some (show_id c) /\ (forall i, i ∈ ids (members m') -> parse_id i <> Some x)
  /\ forall t, t ∈ T -> pending_invites m' !! t = None.
Proof.
  revert m. induction l as [|o l IH]; intros m Hl Hc Hx Ht; [done|]. apply Forall_cons in Hl as [(Hn & Hr & Hj & Hm) Hl].
  cbn [foldl]. apply IH; [done| | |].
  - by rewrite coordinator_apply.
  - intros i Hi Hp. apply ids_apply in Hi as [Hi|(t & now & -> & [j Hpi])]; [by eapply Hx| |done..].
    rewrite Ht in Hpi; [done|]. by eapply Hj.
  - intros t Hin. destruct (pending_invites (MembershipProps.apply c m o) !! t) eqn:E; [|done].
    apply invites_apply in E as [_ E]; [by rewrite Ht in E|]. intros Hmt. by apply Hm in Hmt.
Qed.

Lemma bars_starts {A} w (t : task A) : starts c harmless w bars t -> bars t.
Proof.
  destruct t as [a|B f k]; [done|]. intros [Hf Hk] n [K1 K2 K3 K4 K5 K6]. split; [|apply Hk].
  destruct (Hf n K1) as (m & ops & Hp & Hm & Hor). destruct (harmless_ops ops (membership n) Hp K2 K3 K4) as (Hc & Hx & Ht).
  rewrite <- Hm in Hc, Hx, Ht. assert (Hb : keeps_out (with_membership (fun _ => m) n)) by by split.
  destruct Hor as [-> |[-> _]]; [|exact Hb]. unfold save. destruct (save_to w); [|exact Hb]. destruct Hb. by split.
Qed.

(** *** The routing table follows a roster they are not in *)

Lemma bars_dial_all w l : bars (dial_all w l).
Proof. induction l as [|id l IH]; [done|]. apply bars_then; [by apply bars_elsewhere|by intros []]. Qed.

Lemma bars_refresh w : bars (refresh_routes w).
Proof.
  apply bars_reads. intros n Hn. pose proof (keeps_out_other_ids n Hn) as Hx. cbn beta iota. apply bars_then.
  { apply bars_elsewhere. intros n'. by destruct (Files.set_roster _ _). }
  intros []. apply bars_then.
  { intros n' [K1 K2 K3 K4 K5 K6]. pose proof (set_routes_links (peers n') (other_ids n) x) as Hl.
    assert (Hr : Peers.routes (fst (Peers.set_routes (peers n') (other_ids n))) = foldl add_routes ∅ (other_ids n)) by done.
    destruct (Peers.set_routes (peers n') (other_ids n)) as [p dropped]. cbn [fst snd] in *. split; [|done]. split; try done; cbn.
    - unfold link. destruct (links p !! x) as [conn|]; [|done]. by destruct (proj1 (Hl conn) eq_refl) as [_ ?].
    - intros a. unfold route. rewrite Hr. intros Ha. apply routes_sound in Ha as [[Hin _]|Ha]; [done|by rewrite lookup_empty in Ha]. }
  intros []. apply bars_reads. intros n' _. apply bars_then.
  { apply bars_elsewhere. intros n2. by destruct (Routes.sync _ _ _ _). }
  intros []. apply bars_reads. intros n2 _. apply bars_dial_all.
Qed.

Lemma bars_refreshed {A} w (a : A) : bars (_ ← refresh_routes w; Finished a).
Proof. apply bars_then; [apply bars_refresh|done]. Qed.

#[local] Hint Resolve bars_refreshed : core.

(** *** The handlers *)

Lemma bars_broadcast subject : bars (AdminSteps.broadcast subject).
Proof. do 2 (apply bars_reads; intros ? _). done. Qed.

#[local] Hint Resolve bars_broadcast : core.

Lemma bars_asked w from now req : barred (Asked w from now req) -> bars (AdminSteps.dispatch w req (show_id from) now).
Proof.
  assert (Hstranger : from <> c -> forall n, keeps_out n -> negb (bool_decide (coordinator_id (membership n) = Some (show_id from))) = true).
  { intros Hne n Hn. rewrite (ko_coordinates _ Hn), bool_decide_eq_false_2; [done|]. intros [= He]. by apply show_id_inj in He. }
  destruct req as [tok h| |h|name l|]; cbn [AdminSteps.dispatch barred]; intros Hb.
  - destruct Hb as [Hne Hx]. apply bars_reads. intros n _. destruct (negb _); [done|].
    destruct (decode_token tok) as [t|e] eqn:Et; [|done]. apply bars_then.
    + apply (bars_starts w). apply starts_redeem; [|intros y _; by apply harmless_other|done|done].
      split; [by intros []|]. split; [done|]. split; [|done]. intros t' i now' [= <- <- _]. rewrite parse_show_id. intros [= He]. by apply Hx.
    + intros [[[l a]|]|e]; [|done..]. do 2 (apply bars_reads; intros ? _). done.
  - apply bars_reads. intros n _. destruct (negb _); [done|]. apply bars_then.
    + apply (bars_starts w), starts_remove; [by apply harmless_other|done|done].
    + intros [[]|e]; [|done..]. by apply bars_then.
  - apply bars_reads. intros n _. destruct (negb _); [done|]. apply bars_reads. intros n' _. destruct (negb _); [done|]. apply bars_then.
    + apply (bars_starts w), starts_claim; [by apply harmless_other|done].
    + intros [[a|e]|e]; [|done..]. by apply bars_then.
  - apply bars_reads. intros n Hn. by rewrite Hstranger.
  - apply bars_reads. intros n Hn. by rewrite Hstranger.
Qed.

Lemma bars_answer {A} (t : task (result message A)) ok : bars t -> bars (IpcSteps.answer t ok).
Proof. intros Ht. by apply bars_then. Qed.

Lemma bars_status o : bars (IpcSteps.status o).
Proof.
  do 2 (apply bars_reads; intros ? _). apply bars_then; [by apply bars_reads|]. intros ?. do 2 (apply bars_reads; intros ? _).
  destruct (virtual_addrs _). do 4 (apply bars_reads; intros ? _). done.
Qed.

Lemma bars_probe w peer waited rtt : bars (IpcSteps.probe w peer waited rtt).
Proof.
  unfold IpcSteps.probe. destruct (parse_id peer) as [id|]; [|done]. apply bars_reads. intros n _. destruct (negb _); [done|].
  destruct (virtual_addrs _). apply bars_reads. intros n' _. destruct (link _ id); [done|]. apply bars_then; [by apply bars_elsewhere|done].
Qed.

Lemma bars_hostname o h force : bars (IpcSteps.set_hostname o h force).
Proof.
  apply bars_reads. intros n Hn. unfold own_id. rewrite (ko_own _ Hn). destruct (validate h _) as [wanted|e]; [|done].
  apply bars_reads. intros n' _. destruct (is_coordinator n').
  - apply bars_then; [apply (bars_starts (world o)), starts_claim; [by apply harmless_other|done]|].
    intros [[a|e]|e]; [|done..]. by apply bars_then.
  - apply bars_reads. intros n2 _. destruct (coordinator_id _) as [c'|]; [|done]. destruct (parse_id c') as [id|]; [|done].
    apply bars_then; [|done]. apply (bars_starts (world o)), starts_adopt; [by apply harmless_other|done].
Qed.

Lemma bars_local o req : barred (Local o req) -> bars (IpcSteps.dispatch o req).
Proof.
  destruct req as [peer| |name h|ttl|code h| |user|h force|peer|name size target ttl| |id|id]; cbn [IpcSteps.dispatch barred]; intros Hb; try contradiction.
  - apply bars_answer, bars_probe.
  - apply bars_then; [apply bars_status|done].
  - apply bars_reads. intros n _. destruct (negb _); [done|]. apply bars_answer, (bars_starts (world o)), starts_invite; [|done].
    split; [by intros []|]. split; [done|]. split; [done|]. by intros t <-.
  - destruct (resolve_user _ _ _); [|done]. apply bars_answer, bars_elsewhere. intros n. unfold Node.set_operator. by destruct (save_to _).
  - apply bars_then; [apply bars_hostname|]. by intros [[a|e] pushes].
  - apply bars_reads. intros n _. destruct (negb _); [done|].
    apply bars_then; [apply (bars_starts (world o)), starts_kick; [by apply harmless_other|done|done]|].
    intros [[y|m]|e]; [|done..]. by apply bars_then.
  - done.
  - apply bars_then; [|done]. apply bars_elsewhere. intros n. by destruct (Files.list _ _).
  - done.
  - apply bars_then; [|done]. apply bars_then; [apply bars_elsewhere; intros n; by destruct (Files.take_answerable _ _ _)|].
    intros [[offer k]|m]; [|done]. by apply bars_reads.
Qed.

(** A link of theirs is turned away, and nobody else's is taken for theirs. *)
Lemma bars_serve_link conn : bars (LinkSteps.serve_link conn).
Proof.
  destruct (decide (remote_id conn = x)) as [He|Hne].
  - apply bars_reads. intros n Hn. by rewrite He, keeps_out_not_member.
  - apply bars_reads. intros n _. destruct (negb _); [done|]. apply bars_then.
    + intros n' [K1 K2 K3 K4 K5 K6]. unfold register. destruct (links (peers n') !! remote_id conn) as [old|]; (split; [by split|done]) || idtac.
      split; [|done]. split; try done. unfold link. cbn. by rewrite lookup_insert_ne.
    + intros b. destruct (negb _); [done|]. apply bars_reads. intros n' _. destruct (negb _); [done|].
      do 2 (apply bars_reads; intros ? _). done.
Qed.

Lemma bars_program j : barred j -> bars (program j).
Proof.
  intros Hb. destruct j as [o req|w from now req|conn|id| |d|o]; cbn [program].
  - apply bars_then; [by apply bars_local|by intros []].
  - apply bars_then; [by apply bars_asked|by intros []].
  - apply bars_then; [apply bars_serve_link|by intros []].
  - apply bars_then; [|done]. intros n [K1 K2 K3 K4 K5 K6]. split; [|done]. split; try done. unfold link. cbn.
    destruct (decide (id = x)) as [->|Hne]; [by rewrite lookup_delete_eq|by rewrite lookup_delete_ne].
  - apply bars_then; [by apply bars_elsewhere|done].
  - by apply bars_elsewhere.
  - apply bars_elsewhere. intros n. by destruct (is_set_roster o).
Qed.
End Outsider.

(** ** Properties *)

Section Theorems.
Context `{!EndpointIds, !Sha256, !HexCrate, !Bs58, !WireJson} {Link : Type}.

(** C8: somebody who is not in a coordinator's network, with no link to it and no
    route, whether never invited, gone or kicked, does not get in until they present
    a token it has pending: whatever else its user and its peers ask of it, however
    many of these requests, links and transfers are in hand at once, in whatever
    order the daemon gets round to their critical sections, and whatever saves and
    route commands fail, they are not listed, linked or routed to.  That is as long
    as its user neither changes network nor mints one of the tokens they present, and
    nobody else has its own key ([barred]).  (The tasks all begin here: a link that was found to be a member's before the member was
    removed is the exception, [Mesh.removed_peer_can_still_be_linked].) *)
Theorem only_an_invite_lets_in (js : list (job (Link := Link))) (n : State) l x T :
  is_coordinator n = true -> x <> own n -> x ∉ other_ids n -> link (peers n) x = None -> (forall a, route (peers n) a <> Some x) ->
  (forall t, t ∈ T -> pending_invites (membership n) !! t = None) -> Forall (barred (own n) x T) js ->
  let n' := fst (turns (n, programs js) l) in
  own n' = own n /\ is_coordinator n' = true
  /\ is_member n' (show_id x) = false /\ x ∉ other_ids n' /\ link (peers n') x = None /\ (forall a, route (peers n') a <> Some x)
  /\ forall t, t ∈ T -> pending_invites (membership n') !! t = None.
Proof.
  intros Hco Hne Hx Hl Hr Ht Hb n'.
  assert (Hout : keeps_out (own n) x T n).
  { apply bool_decide_eq_true in Hco. split; try done. intros i Hi Hp. apply Hx, elem_of_other_ids. split; [done|eauto]. }
  destruct (turns_always (keeps_out (own n) x T) (fun _ n' => keeps_out (own n) x T n') (n, programs js) l) as (_ & Hk & _); [done| |done|].
  { apply Forall_fmap. eapply Forall_impl; [exact Hb|]. intros j Hj. by apply bars_program. }
  fold n' in Hk. split; [apply Hk|]. split; [|split; [by eapply keeps_out_not_member|split; [by eapply keeps_out_other_ids|]]].
  - apply bool_decide_eq_true. unfold own_id. rewrite (ko_own _ _ _ _ Hk). apply Hk.
  - split; [apply Hk|]. split; apply Hk.
Qed.
End Theorems.

(** ** Witnesses *)

Import Concrete.

Module OutsiderDemo.
Definition wrong : list Z := replicate 16 1.
(** K4 tries to join with a token nobody minted, to link and to rename itself, while
    K3 joins with its code and is kicked again. *)
Definition jobs : list (job (Link := unit)) :=
  [SchedDemo.knock K4 wrong; Links {| stable_id := 7%N; remote_id := K4; max_datagram_size := None |}; Asked SchedDemo.world K4 1 (Admin.SetHostname (lit "web"));
   SchedDemo.knock K3 AdminDemo.token; Local IpcDemo.alone (Kick Demo.id3)].
Definition schedule : list nat := mjoin (replicate 40 [0; 1; 2; 3; 4]%nat).

Lemma differ a b : bool_decide (a = b :> EndpointId) = false -> a <> b.
Proof. apply bool_decide_eq_false. Qed.
Lemma own_inviting : own SchedDemo.inviting = K1.
Proof. unfold SchedDemo.inviting. do 2 rewrite (proj2 (call_membership SchedDemo.world _ _)). apply show_id_inj, AdminDemo.started_own_id. Qed.
Lemma outsider_led : is_coordinator SchedDemo.inviting = true.
Proof. by vm_compute. Qed.
Lemma outside : bool_decide (K4 ∈ other_ids SchedDemo.inviting) = false.
Proof. by vm_compute. Qed.
Lemma outsider_unlinked : bool_decide (is_Some (link (peers SchedDemo.inviting) K4)) = false.
Proof. by vm_compute. Qed.
Lemma unminted : bool_decide (is_Some (pending_invites (membership SchedDemo.inviting) !! wrong)) = false.
Proof. by vm_compute. Qed.
End OutsiderDemo.

Example only_an_invite_lets_in_witness :
  is_member (fst (turns (SchedDemo.inviting, programs OutsiderDemo.jobs) OutsiderDemo.schedule)) (show_id K4) = false.
Proof.
  apply (only_an_invite_lets_in OutsiderDemo.jobs SchedDemo.inviting OutsiderDemo.schedule K4 [OutsiderDemo.wrong]).
  - exact OutsiderDemo.outsider_led.
  - rewrite OutsiderDemo.own_inviting. by apply OutsiderDemo.differ.
  - exact (proj1 (bool_decide_eq_false _) OutsiderDemo.outside).
  - exact (proj2 (eq_None_not_Some _) (proj1 (bool_decide_eq_false _) OutsiderDemo.outsider_unlinked)).
  - intros a. unfold route. rewrite (step_routes _ SchedDemo.inviting_in_step). intros Ha.
    apply routes_sound in Ha as [[Hin _]|Ha]; [exact (proj1 (bool_decide_eq_false _) OutsiderDemo.outside Hin)|by rewrite lookup_empty in Ha].
  - intros t ->%list_elem_of_singleton. exact (proj2 (eq_None_not_Some _) (proj1 (bool_decide_eq_false _) OutsiderDemo.unminted)).
  - rewrite OutsiderDemo.own_inviting. apply Forall_cons. split.
    { split; [by apply OutsiderDemo.differ|]. intros _ t Hd. rewrite decode_token_encode in Hd; [|by apply bytes_ok_check|done].
      injection Hd as <-. by apply list_elem_of_singleton. }
    apply Forall_cons. split; [exact I|]. apply Forall_cons. split; [by apply OutsiderDemo.differ|].
    apply Forall_cons. split; [|apply Forall_singleton; exact I].
    split; [by apply OutsiderDemo.differ|]. intros He. by apply OutsiderDemo.differ in He.
Defined.
