(* ===== verification/Socket.v ===== *)
(** * Listening for commands ([build_listener], [serve] of [daemon/src/ipc.rs], [create] of [daemon/src/tun.rs])

    What is asked of the system so that programs on this machine can speak to the
    daemon and packets can reach it, and the loop that accepts connections. *)

From S2P Require Import Prelude External Proto Net Tun.

Local Abbreviation list := Datatypes.list.

(** ** The socket *)

(** Who may connect. *)
Inductive access := Mode (bits : Z) | NullDacl.

Inductive step :=
  | MakesDir (path : rstr)
  | Unlinks (path : rstr)            (* whether or not there is something *)
  | Listens (name : rstr)
  | Grants (a : access).

(** How each step goes; [named] is the conversion of the name. *)
Record System := {
  windows : bool;
  raw : rstr;                        (* [proto::socket_name] *)
  parent : option rstr;
  mkdir : result message ();
  named : result message ();
  descriptor : result message ();    (* made, with a null list *)
  created : result message ();
  permitted : result message ();
}.

(** On Windows the permissions come with the pipe, on Unix they are put on the
    socket once it listens. *)
Definition build_listener (s : System) : list step * result message () :=
  if windows s then
    match named s, descriptor s with
    | Err e, _ | Ok _, Err e => ([], Err e)
    | Ok _, Ok _ => match created s with Err e => ([Grants NullDacl], Err e) | Ok _ => ([Grants NullDacl; Listens (raw s)], Ok tt) end
    end
  else
    let dir := match parent s with Some p => [MakesDir p] | None => [] end in
    match (match parent s with Some _ => mkdir s | None => Ok tt end) with
    | Err e => (dir, Err e)
    | Ok _ =>
        let done := dir ++ [Unlinks (raw s)] in
        match named s with
        | Err e => (done, Err e)
        | Ok _ =>
            match created s with
            | Err e => (done, Err e)
            | Ok _ => (done ++ [Listens (raw s); Grants (Mode 438)], permitted s)    (* 0o666 *)
            end
        end
    end.

(** ** Accepting *)

Inductive accepted (C : Type) := Connects (c : C) | Fails (e : message).
Arguments Connects {C} c.
Arguments Fails {C} e.

(** The tasks started for what [accept] returns, in order, and what is only
    logged. *)
Definition accept_loop {C} (l : list (accepted C)) : list C * list message :=
  foldl (fun '(tasks, warned) a =>
    match a with Connects c => (tasks ++ [c], warned) | Fails e => (tasks, warned ++ [Fmt "incoming ipc connection error: {e}" [e]]) end) ([], []) l.

(** [serve], as far as [l] goes; it only ever returns with the listener's
    error. *)
Definition serve {C} (s : System) (l : list (accepted C)) : list C * option (result message ()) :=
  match snd (build_listener s) with Err e => ([], Some (Err e)) | Ok _ => (fst (accept_loop l), None) end.

(** ** The interface *)

(** What the device is built with; building it is the system's. *)
Record Device := { d_name : rstr; d_ipv4 : IpAddr; d_ipv4_prefix : Z; d_ipv6 : IpAddr; d_ipv6_prefix : Z; d_mtu : Z }.

Definition create (QUIX_IFACE : option rstr) (build_async : Device -> result message ()) (v4 v6 : IpAddr) : result message Device :=
  let device := {| d_name := interface_name QUIX_IFACE; d_ipv4 := v4; d_ipv4_prefix := V4_PREFIX_LEN;
                   d_ipv6 := v6; d_ipv6_prefix := V6_PREFIX_LEN; d_mtu := MTU |} in
  match build_async device with
  | Ok _ => Ok device
  | Err e => Err (context (Fmt "creating TUN device (run as root?)" []) e)
  end.

(** ** Properties *)

(** the daemon listens exactly when every step went through, whatever an earlier
    run left behind; it then listens at the one name, open to everybody, and on
    Unix nothing is unlinked once it listens. *)
Theorem build_listener_functional s : let '(done, res) := build_listener s in
  (res = Ok () <-> named s = Ok () /\ created s = Ok ()
     /\ (if windows s then descriptor s = Ok () else (parent s = None \/ mkdir s = Ok ()) /\ permitted s = Ok ()))
  /\ (res = Ok () -> exists before after, done = before ++ Listens (raw s) :: after
       /\ (forall p, Unlinks p ∉ after)
       /\ (if windows s then Grants NullDacl ∈ before else Grants (Mode 438) ∈ after /\ Unlinks (raw s) ∈ before)).
Proof.
  unfold build_listener. destruct (windows s).
  - destruct (named s) as [[]|e]; [destruct (descriptor s) as [[]|e]; [destruct (created s) as [[]|e]|]|];
      (split; [naive_solver|intros Hr; try done]).
    eexists [_], []. split; [done|]. split; [by intros p ?%elem_of_nil|by left].
  - destruct (parent s) as [p|]; [destruct (mkdir s) as [[]|e]; [|split; naive_solver]|];
      (destruct (named s) as [[]|e]; [|split; naive_solver]);
      (destruct (created s) as [[]|e]; [|split; naive_solver]);
      (destruct (permitted s) as [[]|e]; [|split; naive_solver]);
      (split; [naive_solver|]); intros _; rewrite ?app_nil_l.
    + exists [MakesDir p; Unlinks (raw s)], [Grants (Mode 438)]. split; [done|].
      split; [intros q; set_solver|split; [by left|by right; left]].
    + exists [Unlinks (raw s)], [Grants (Mode 438)]. split; [done|].
      split; [intros q; set_solver|split; by left].
Qed.

Lemma accept_loop_app {C} (l l' : list (accepted C)) :
  fst (accept_loop (l ++ l')) = fst (accept_loop l) ++ fst (accept_loop l').
Proof.
  unfold accept_loop. rewrite foldl_app. generalize (foldl (fun '(tasks, warned) (a : accepted C) =>
    match a with Connects c => (tasks ++ [c], warned) | Fails e => (tasks, warned ++ [Fmt "incoming ipc connection error: {e}" [e]]) end) ([], []) l).
  intros [tasks warned]. cbn [fst]. assert (Hg : forall tasks warned l', fst (foldl (fun '(tasks, warned) (a : accepted C) =>
    match a with Connects c => (tasks ++ [c], warned) | Fails e => (tasks, warned ++ [Fmt "incoming ipc connection error: {e}" [e]]) end) (tasks, warned) l')
    = tasks ++ omap (fun a => match a with Connects c => Some c | Fails _ => None end) l').
  { clear. intros tasks warned l'. revert tasks warned. induction l' as [|[c|e] l' IH]; intros tasks warned; cbn; [by rewrite app_nil_r|..].
    - by rewrite IH, <- app_assoc.
    - apply IH. }
  by rewrite !Hg.
Qed.

(** nobody who connects is left unserved, and no failed connection ends it: while
    the daemon listens a connection made after any others, failed ones included,
    gets a task of its own. *)
Theorem every_connection_is_served {C} s (l l' : list (accepted C)) c : snd (build_listener s) = Ok () ->
  serve s (l ++ Connects c :: l') = (fst (accept_loop l) ++ c :: fst (accept_loop l'), None).
Proof.
  intros Hs. unfold serve. rewrite Hs, accept_loop_app. do 2 f_equal.
  change (Connects c :: l') with ([Connects c] ++ l'). by rewrite accept_loop_app.
Qed.
