(* ===== verification/Dns.v ===== *)
(** * The resolver ([daemon/src/dns.rs])

    Answers for the [.quix] zone from the roster.  The wire format of DNS is
    [simple_dns]'s: a query is what its parser gives, a reply what is handed to its
    builder.  Sockets are addresses here; what binding and probing one comes to is
    an argument. *)

From S2P Require Import Prelude External Proto Names Net Tun Membership MembershipProps MembershipLookup Peers Routes Files Node NodeProps.

Local Abbreviation list := Datatypes.list.

Definition PROBE_NAME : rstr := lit "probe".
Definition PROBE_ID : Z := 37143.
Definition TTL : Z := 30.
Definition MAX_PACKET : nat := 512.
Definition BIND_ATTEMPTS : nat := 10.
Definition PROBE_ATTEMPTS : nat := 3.
Definition DEFAULT_ADDR : rstr := lit "127.0.0.1:5354".
Definition ZONE_PORT (windows : bool) : Z := if windows then 53 else 5354.

(** ** Messages *)

Inductive qtype := TypeA | TypeAAAA | TypeOther (code : Z).

Record Question := { q_name : rstr; q_type : qtype }.

Record Query := { query_id : Z; recursion_desired : bool; q_questions : list Question }.

Inductive rdata := RdA (v4 : IpAddr) | RdAAAA (v6 : IpAddr).

Record Answer := { a_name : rstr; a_ttl : Z; a_rdata : rdata }.

Inductive rcode := NoError | NameError.

Record Reply := {
  reply_id : Z;
  authoritative : bool;
  reply_recursion_desired : bool;
  r_questions : list Question;
  answers : list Answer;
  code : rcode;
}.

(** [listen_addr]: the environment, and the standard parser of addresses. *)
Definition listen_addr {A} (parse : rstr -> option A) (QUIX_DNS_ADDR : option rstr) : result message A :=
  let raw := match QUIX_DNS_ADDR with Some r => r | None => DEFAULT_ADDR end in
  ok_or (Fmt "QUIX_DNS_ADDR is not an address: {raw}" [Text raw]) (parse raw).

(** ** Names in the zone *)

Definition host_in_zone (qname : rstr) (network : option rstr) : option rstr :=
  let name := to_ascii_lowercase (trim_end_matches (N.eqb 46) qname) in
  inner ← strip_suffix (lit "." ++ ZONE) name;
  match split_once 46 inner with
  | Some (host, rest) => if negb (is_empty host) && bool_decide (Some rest = network) then Some host else None
  | None => if negb (is_empty inner) then Some inner else None
  end.

(** [Entry]. *)
Definition Entry : Type := rstr * IpAddr * IpAddr.

Definition entry_named (label : rstr) (e : Entry) : bool := let '(name, _, _) := e in str_eqb name label.

Definition lookup (peers : list Entry) (label : rstr) : option (IpAddr * IpAddr) :=
  (fun '(_, v4, v6) => (v4, v6)) <$> List.find (entry_named label) peers.

(** One question: what it adds to the answers, and whether its name exists. *)
Definition answer_question (peers : list Entry) (network : option rstr) (q : Question) : option Answer * bool :=
  match host_in_zone (q_name q) network with
  | None => (None, false)
  | Some label =>
      match lookup peers label with
      | None => (None, false)
      | Some (v4, v6) =>
          match q_type q with
          | TypeA => (Some {| a_name := q_name q; a_ttl := TTL; a_rdata := RdA v4 |}, true)
          | TypeAAAA => (Some {| a_name := q_name q; a_ttl := TTL; a_rdata := RdAAAA v6 |}, true)
          | TypeOther _ => (None, true)
          end
      end
  end.

Definition reply_to (query : Query) (peers : list Entry) (network : option rstr) : Reply :=
  let results := answer_question peers network <$> q_questions query in
  {| reply_id := query_id query; authoritative := true; reply_recursion_desired := recursion_desired query;
     r_questions := q_questions query; answers := omap fst results;
     code := if existsb snd results then NoError else NameError |}.

(** [answer]: [parse] and [build] are [simple_dns]'s. *)
Definition answer (parse : list Z -> option Query) (build : Reply -> option (list Z)) (request : list Z)
    (peers : list Entry) (network : option rstr) : option (list Z) :=
  query ← parse request; build (reply_to query peers network).

(** ** Where to listen, and which address to hand over *)

Section Listening.
Context {Addr : Type}.

(** [bind_with_retry], by what each attempt came to. *)
Definition bind_with_retry (binds : nat -> bool) : bool := existsb binds (seq 0 BIND_ATTEMPTS).

(** [bind]: the loopback socket is required, the mesh addresses are not. *)
Definition bind (testing v6 v4 : Addr) (loopback : bool) (binds : Addr -> nat -> bool) : option (list Addr * list Addr) :=
  if loopback then
    let bound := filter (fun a => bind_with_retry (binds a) = true) [v6; v4] in
    Some (testing :: bound, bound)
  else None.

(** What came back within the probe's time: a reply's id and authority bit. *)
Definition probe_once (reply : option (Z * bool)) : bool :=
  match reply with Some (id, authority) => (id =? PROBE_ID) && authority | None => false end.

(** [query]: what building the probe came to. *)
Definition probe {Q} (query : option Q) (replies : Q -> nat -> option (Z * bool)) : bool :=
  match query with None => false | Some q => existsb (fun i => probe_once (replies q i)) (seq 0 PROBE_ATTEMPTS) end.

Definition reachable_server {Q} (query : option Q) (candidates : list Addr) (replies : Addr -> Q -> nat -> option (Z * bool))
    : option Addr :=
  List.find (fun a => probe query (replies a)) candidates.
End Listening.

(** The probe, built by [simple_dns]. *)
Definition probe_query {Q} (build : Query -> option Q) : option Q :=
  build {| query_id := PROBE_ID; recursion_desired := false;
     q_questions := [{| q_name := PROBE_NAME ++ lit "." ++ ZONE; q_type := TypeAAAA |}] |}.

Section Dns.
Context `{!EndpointIds, !Sha256, !HexCrate, !Bs58} {Link : Type}.
Notation State := (State (Link := Link)).

Definition resolvable (n : State) : list Entry :=
  all_addrs n ≫= fun '(id, v4, v6) =>
    (fallback id, v4, v6)
    :: match hostnames n !! id with Some hostname => [(hostname, v4, v6)] | None => [] end.

Definition network (n : State) : option rstr := network_label <$> network_name (membership n).

(** One datagram of [answer_loop]. *)
Definition answer_datagram (parse : list Z -> option Query) (build : Reply -> option (list Z)) (n : State) (request : list Z)
    : option (list Z) :=
  answer parse build request (resolvable n) (network n).
End Dns.

(** ** What the resolver answers *)

(** exactly two forms of a name are answered for, in any case and with or
    without the root's dot: a host directly under the zone and a host under this
    node's network; nothing deeper, nothing in another zone, and never an empty
    host. *)
Theorem host_in_zone_spec qname network label :
  host_in_zone qname network = Some label <->
  label <> [] /\ Forall (fun c => c <> 46%N) label /\
  let name := to_ascii_lowercase (trim_end_matches (N.eqb 46) qname) in
  name = label ++ lit "." ++ ZONE \/ exists net, network = Some net /\ name = label ++ lit "." ++ net ++ lit "." ++ ZONE.
Proof.
  unfold host_in_zone. cbv zeta. set (name := to_ascii_lowercase _). split.
  - intros Hh. apply bind_Some in Hh as (inner & Hs & Hh). apply strip_suffix_spec in Hs.
    destruct (split_once 46 inner) as [[host rest]|] eqn:E.
    + apply split_once_spec in E as [-> Hno]. destruct host as [|c host]; [done|]. cbn [is_empty negb andb] in Hh.
      case_bool_decide as Hr; [|done]. injection Hh as <-. split; [done|]. split; [done|]. right. exists rest.
      split; [done|]. rewrite Hs. rewrite <- app_assoc. done.
    + apply split_once_None in E. destruct inner as [|c inner]; [done|]. injection Hh as <-. split; [done|]. split; [done|].
      by left.
  - intros (Hne & Hno & [Hn|(net & -> & Hn)]).
    + apply strip_suffix_spec in Hn. rewrite Hn. cbn [mbind option_bind].
      rewrite (proj2 (split_once_None 46 label) Hno). by destruct label.
    + assert (Hs : strip_suffix (lit "." ++ ZONE) name = Some (label ++ 46%N :: net)).
      { apply strip_suffix_spec. rewrite Hn, <- app_assoc. done. }
      rewrite Hs. cbn [mbind option_bind].
      rewrite (proj2 (split_once_spec 46 _ label net) (conj eq_refl Hno)).
      rewrite bool_decide_eq_true_2 by done. by destruct label.
Qed.

Section Answers.
Context `{!EndpointIds, !Sha256, !HexCrate, !Bs58} {Link : Type}.
Notation State := (State (Link := Link)).

(** The addresses behind a member, and the names it answers to. *)
Definition addrs_of (x : Member) : IpAddr * IpAddr :=
  virtual_addrs (match parse_id (m_id x) with Some id => id_bytes id | None => [] end).
Definition named (label : rstr) (x : Member) : bool := str_eqb (fallback (m_id x)) label || has_hostname label x.

Lemma named_spec label x : named label x = true <-> fallback (m_id x) = label \/ m_hostname x = Some label.
Proof. unfold named. by rewrite orb_true_iff, str_eqb_eq, has_hostname_spec. Qed.

Lemma collected_hostnames l m id :
  foldl (fun m x => match m_hostname x with Some h => <[m_id x := h]> m | None => m end) m l !! id
  = match List.find (fun x => str_eqb (m_id x) id && bool_decide (is_Some (m_hostname x))) (rev l) with
    | Some x => m_hostname x
    | None => (m : gmap rstr rstr) !! id
    end.
Proof.
  revert m. induction l as [|x l IH] using rev_ind; intros m; [done|].
  rewrite foldl_app, rev_app_distr. cbn [foldl app rev List.find].
  destruct (m_hostname x) as [h|] eqn:Eh.
  - rewrite bool_decide_eq_true_2 by done. rewrite andb_true_r. destruct (str_eqb (m_id x) id) eqn:E.
    + apply str_eqb_eq in E as ->. by rewrite lookup_insert_eq.
    + rewrite lookup_insert_ne; [apply IH|]. intros Hid. by rewrite (proj2 (str_eqb_eq _ _) Hid) in E.
  - rewrite bool_decide_eq_false_2 by (intros []; done). rewrite andb_false_r. apply IH.
Qed.

Lemma elem_of_roster (n : State) x : x ∈ roster n <-> x ∈ members (membership n).
Proof. unfold roster, Membership.roster. by rewrite merge_sort_Permutation. Qed.

Lemma hostnames_lookup (n : State) x : wf (membership n) -> x ∈ roster n -> hostnames n !! m_id x = m_hostname x.
Proof.
  intros Hw Hx. unfold hostnames. rewrite collected_hostnames.
  destruct (List.find _ _) as [y|] eqn:E.
  - apply List.find_some in E as [Hy [Hid _]%andb_prop]. apply str_eqb_eq in Hid.
    rewrite <- in_rev, <- list_elem_of_In, elem_of_roster in Hy. apply elem_of_roster in Hx.
    by rewrite (NoDup_ids_eq _ y x (wf_ids _ Hw) Hy Hx Hid).
  - rewrite lookup_empty. destruct (m_hostname x) eqn:Eh; [|done].
    apply (List.find_none _ _) with (x := x) in E; [|by rewrite <- in_rev, <- list_elem_of_In].
    rewrite (proj2 (str_eqb_eq _ _)) in E by done. rewrite Eh in E. rewrite bool_decide_eq_true_2 in E; done.
Qed.

(** Looking a label up among the entries is finding the first member of that name. *)
Lemma lookup_resolvable (n : State) label :
  wf (membership n) -> lookup (resolvable n) label = addrs_of <$> List.find (named label) (roster n).
Proof.
  intros Hw. unfold resolvable, all_addrs.
  assert (Hh : forall x, x ∈ roster n -> hostnames n !! m_id x = m_hostname x).
  { intros x. by apply hostnames_lookup. }
  revert Hh. generalize (roster n) as l. induction l as [|x l IH]; intros Hh; [done|].
  cbn [fmap list_fmap List.find]. fold (addrs_of x). destruct (addrs_of x) as [v4 v6] eqn:Ea.
  cbn [mbind list_bind]. rewrite (Hh x) by constructor. unfold lookup in *.
  specialize (IH (fun y Hy => Hh y (list_elem_of_further y x l Hy))).
  unfold named at 1, has_hostname. cbn [app List.find entry_named].
  destruct (str_eqb (fallback (m_id x)) label); cbn [orb].
  - cbn [fmap option_fmap option_map]. by rewrite Ea.
  - destruct (m_hostname x) as [h|]; cbn [app List.find entry_named]; [|exact IH].
    destruct (str_eqb h label); [cbn [fmap option_fmap option_map]; by rewrite Ea|exact IH].
Qed.

Lemma lookup_sound (n : State) label a :
  wf (membership n) -> lookup (resolvable n) label = Some a ->
  exists x, x ∈ members (membership n) /\ (fallback (m_id x) = label \/ m_hostname x = Some label) /\ a = addrs_of x.
Proof.
  intros Hw. rewrite lookup_resolvable by done. intros (x & Hf & ->)%fmap_Some.
  apply List.find_some in Hf as [Hx Hn]. exists x.
  by rewrite <- elem_of_roster, list_elem_of_In, <- named_spec.
Qed.

Lemma lookup_none (n : State) label :
  wf (membership n) ->
  lookup (resolvable n) label = None <->
  forall x, x ∈ members (membership n) -> ~ (fallback (m_id x) = label \/ m_hostname x = Some label).
Proof.
  intros Hw. rewrite lookup_resolvable, fmap_None by done. split.
  - intros Hf x Hx. apply elem_of_roster, list_elem_of_In, (List.find_none _ _ Hf) in Hx.
    rewrite <- named_spec. congruence.
  - intros Hno. destruct (List.find _ _) as [x|] eqn:E; [|done]. apply List.find_some in E as [Hx Hn].
    apply list_elem_of_In, elem_of_roster in Hx. apply named_spec in Hn. naive_solver.
Qed.

(** The record of a member for a question, where its type has one. *)
Definition record_of (q : Question) (x : Member) : option Answer :=
  match q_type q with
  | TypeA => Some {| a_name := q_name q; a_ttl := TTL; a_rdata := RdA (fst (addrs_of x)) |}
  | TypeAAAA => Some {| a_name := q_name q; a_ttl := TTL; a_rdata := RdAAAA (snd (addrs_of x)) |}
  | TypeOther _ => None
  end.

Definition names_member (n : State) (q : Question) (x : Member) : Prop :=
  x ∈ members (membership n) /\
  exists label, host_in_zone (q_name q) (network n) = Some label /\ (fallback (m_id x) = label \/ m_hostname x = Some label).

Lemma answer_question_spec (n : State) q :
  wf (membership n) ->
  (exists x, names_member n q x /\ answer_question (resolvable n) (network n) q = (record_of q x, true))
  \/ (forall x, ~ names_member n q x) /\ answer_question (resolvable n) (network n) q = (None, false).
Proof.
  intros Hw. unfold answer_question, names_member.
  destruct (host_in_zone (q_name q) (network n)) as [label|]; [|right; split; [|done]; naive_solver].
  destruct (lookup (resolvable n) label) as [[v4 v6]|] eqn:E.
  - apply lookup_sound in E as (x & Hx & Hn & Ha); [|done]. left. exists x.
    split; [by eauto|]. unfold record_of. rewrite <- Ha. by destruct (q_type q).
  - right. split; [|done]. intros x (Hx & l & [= <-] & Hn). by apply lookup_none with (x := x) in E.
Qed.

(** C29: a reply carries its query's id and questions, speaks with authority and
    reflects the recursion bit; every record in it is a member's, for a question
    that names that member in this zone; and NXDOMAIN is said exactly when no
    question names any member. *)
Theorem replies_follow_the_roster (n : State) query :
  wf (membership n) ->
  let r := reply_to query (resolvable n) (network n) in
  reply_id r = query_id query /\ r_questions r = q_questions query /\ authoritative r = true
  /\ reply_recursion_desired r = recursion_desired query
  /\ (forall a, a ∈ answers r -> exists q x, q ∈ q_questions query /\ names_member n q x /\ record_of q x = Some a)
  /\ (code r = NameError <-> forall q x, q ∈ q_questions query -> ~ names_member n q x).
Proof.
  intros Hw. cbv zeta. cbn [reply_to reply_id r_questions authoritative reply_recursion_desired answers code].
  do 4 (split; [done|]). split.
  - intros a (p & Hp & Ha)%list_elem_of_omap. apply list_elem_of_fmap in Hp as (q & -> & Hq).
    destruct (answer_question_spec n q Hw) as [(x & Hx & E)|[_ E]]; rewrite E in Ha; [by eauto|done].
  - destruct (existsb _ _) eqn:E.
    + split; [done|]. intros Hno. apply existsb_exists in E as (p & Hp & Hs).
      apply list_elem_of_In, list_elem_of_fmap in Hp as (q & -> & Hq).
      destruct (answer_question_spec n q Hw) as [(x & Hx & _)|[_ E]]; [by destruct (Hno q x Hq)|by rewrite E in Hs].
    + split; [|done]. intros _ q x Hq Hx.
      destruct (answer_question_spec n q Hw) as [(y & _ & Ey)|[Hno _]]; [|by destruct (Hno x)].
      assert (Hs : existsb snd (answer_question (resolvable n) (network n) <$> q_questions query) = true).
      { apply existsb_exists. exists (record_of q y, true). split; [|done].
        apply list_elem_of_In, list_elem_of_fmap. by exists q. }
      congruence.
Qed.

(** a name only one member has resolves to that member, in both address
    families; for any other type the name exists without a record. *)
Theorem a_members_name_resolves (n : State) x label q :
  wf (membership n) -> x ∈ members (membership n) ->
  fallback (m_id x) = label \/ m_hostname x = Some label ->
  (forall y, y ∈ members (membership n) -> fallback (m_id y) = label \/ m_hostname y = Some label -> y = x) ->
  host_in_zone (q_name q) (network n) = Some label ->
  answer_question (resolvable n) (network n) q = (record_of q x, true).
Proof.
  intros Hw Hx Hn Hsole Hz.
  destruct (answer_question_spec n q Hw) as [(y & (Hy & l & Hl & Hny) & ->)|[Hno _]].
  - rewrite Hz in Hl. injection Hl as <-. by rewrite (Hsole y Hy Hny).
  - destruct (Hno x). split; [done|]. eauto.
Qed.
End Answers.

(** the server handed to the system is the first candidate one of whose probes
    came back with the probe's id and the authority bit, both of which every reply
    of this resolver to the probe has, whatever its roster. *)
Theorem reachable_server_answers {Addr Q} (q : Q) (candidates : list Addr) replies :
  match reachable_server (Some q) candidates replies with
  | Some a => exists before after i, candidates = before ++ a :: after /\ (i < PROBE_ATTEMPTS)%nat
      /\ replies a q i = Some (PROBE_ID, true)
      /\ forall b j, b ∈ before -> (j < PROBE_ATTEMPTS)%nat -> replies b q j <> Some (PROBE_ID, true)
  | None => forall b j, b ∈ candidates -> (j < PROBE_ATTEMPTS)%nat -> replies b q j <> Some (PROBE_ID, true)
  end
  /\ forall peers network, option_map (fun p => let r := reply_to p peers network in (reply_id r, authoritative r))
                             (probe_query Some) = Some (PROBE_ID, true).
Proof.
  assert (Hone : forall r, probe_once r = true <-> r = Some (PROBE_ID, true)).
  { intros [[id au]|]; [|done]. cbn [probe_once]. rewrite andb_true_iff, Z.eqb_eq. split; [by intros [-> ->]|by intros [= -> ->]]. }
  assert (Hprobe : forall a, probe (Some q) (replies a) = true <-> exists i, (i < PROBE_ATTEMPTS)%nat /\ replies a q i = Some (PROBE_ID, true)).
  { intros a. unfold probe. rewrite existsb_exists. setoid_rewrite Hone. setoid_rewrite in_seq.
    split; intros (i & Hi & Hr); exists i; (split; [lia|done]). }
  split; [|done]. induction candidates as [|a l IH]; [intros b j Hb; by apply elem_of_nil in Hb|].
  cbn [reachable_server List.find]. destruct (probe (Some q) (replies a)) eqn:E.
  - apply Hprobe in E as (i & Hi & Hr). exists [], l, i. split_and!; try done. intros b j Hb. by apply elem_of_nil in Hb.
  - assert (Ha : forall j, (j < PROBE_ATTEMPTS)%nat -> replies a q j <> Some (PROBE_ID, true)).
    { intros j Hj Hr. rewrite (proj2 (Hprobe a)) in E; [done|by exists j]. }
    unfold reachable_server in IH. destruct (List.find _ l) as [c|].
    + destruct IH as (before & after & i & -> & Hi & Hr & Hb). exists (a :: before), after, i. split_and!; try done.
      intros b j [->|Hin]%elem_of_cons Hj; [by apply Ha|by apply Hb].
    + intros b j [->|Hin]%elem_of_cons Hj; [by apply Ha|by apply IH].
Qed.

(** ** Witnesses *)

Import Concrete.

Module DnsDemo.
Definition n : State (Link := unit) := NodeDemo.started.
Definition q : Question := {| q_name := lit "Web-1.HOME.quix."; q_type := TypeAAAA |}.
Lemma q_zone : host_in_zone (q_name q) (network n) = Some (lit "web-1").
Proof. vm_cast_no_check (@eq_refl (option rstr) (Some (lit "web-1"))). Qed.
Lemma n_membership : membership n = Demo.state.
Proof. exact NodeDemo.started_membership. Qed.
End DnsDemo.

Example replies_follow_the_roster_witness :
  let query := {| query_id := 7; recursion_desired := true; q_questions := [DnsDemo.q] |} in
  reply_id (reply_to query (resolvable DnsDemo.n) (network DnsDemo.n)) = 7.
Proof.
  intros query. apply (replies_follow_the_roster DnsDemo.n query). rewrite DnsDemo.n_membership. exact Demo.wf_state.
Defined.

Example a_members_name_resolves_witness :
  answer_question (resolvable DnsDemo.n) (network DnsDemo.n) DnsDemo.q = (record_of DnsDemo.q Demo.member2, true).
Proof.
  apply (a_members_name_resolves DnsDemo.n Demo.member2 (lit "web-1")).
  - rewrite DnsDemo.n_membership. exact Demo.wf_state.
  - rewrite DnsDemo.n_membership, Demo.members_state. do 2 constructor.
  - by right.
  - rewrite DnsDemo.n_membership. intros y Hy [Hf|Hh]; [apply demo_no_shadow; auto|].
    apply (wf_hostname_unique Demo.state y Demo.member2 (lit "web-1")); try done; [exact Demo.wf_state|].
    rewrite Demo.members_state. do 2 constructor.
  - exact DnsDemo.q_zone.
Defined.
