(* ===== verification/Resolv.v ===== *)
(** * The system's resolver ([daemon/src/resolv.rs])

    Pointing systemd-resolved or NRPT at the daemon for the zone.  Running a
    program is its outcome, by command ([Routes.output]); what each function
    issues is part of its result. *)

From S2P Require Import Prelude External Proto Names Net Routes.

Local Abbreviation list := Datatypes.list.

Inductive Error :=
  | NoResolver (source : message) (remedy : option rstr)
  | Transient (source : message).

(** A program and its arguments. *)
Definition Command : Type := rstr * list rstr.

(** [SocketAddr] and its [Display]. *)
Record SocketAddr := { ip : IpAddr; port : Z }.

#[export] Instance SocketAddr_eq_dec : EqDecision SocketAddr.
Proof. solve_decision. Defined.

Definition show_addr (a : SocketAddr) : rstr :=
  match ip a with
  | V4 _ => show_ip (ip a) ++ lit ":" ++ show_Z (port a)
  | V6 _ => lit "[" ++ show_ip (ip a) ++ lit "]:" ++ show_Z (port a)
  end.

(** Unlike that of [Routes], it says which program could not be started. *)
Definition run_program (program : rstr) (args : list rstr) (out : output) : result message () :=
  match out with
  | Unstarted e => Err (context (Fmt "running {program}" [Text program]) e)
  | Success => Ok tt
  | Failure stderr stdout =>
      let message := trim stderr in
      let message := if is_empty message then trim stdout else message in
      Err (Fmt "{program} {}: {message}" [Text program; Text (join (lit " ") args); Text message])
  end.

(** ** systemd-resolved *)

Module Unix.
Definition REMEDY (linux : bool) : option rstr :=
  if linux then Some (lit "systemd-resolved is not running; enable it with `sudo systemctl enable --now systemd-resolved`")
  else None.

Definition probe_command : Command := (lit "resolvectl", [lit "status"]).
Definition dns_command (iface : rstr) (server : SocketAddr) : Command := (lit "resolvectl", [lit "dns"; iface; show_addr server]).
Definition domain_command (iface : rstr) : Command := (lit "resolvectl", [lit "domain"; iface; lit "~" ++ ZONE]).
Definition revert_command (iface : rstr) : Command := (lit "resolvectl", [lit "revert"; iface]).

Definition available (out : Command -> output) : result message () :=
  match out probe_command with
  | Success => Ok tt
  | _ => Err (Fmt "resolvectl is missing or systemd-resolved is not running" [])
  end.

Definition run (out : Command -> output) (c : Command) : result message () := run_program (fst c) (snd c) (out c).

Definition register (linux : bool) (iface : rstr) (server : SocketAddr) (out : Command -> output)
    : list Command * result Error () :=
  match available out with
  | Err e => ([probe_command], Err (NoResolver (context (Fmt "systemd-resolved is not available" []) e) (REMEDY linux)))
  | Ok _ =>
      match run out (dns_command iface server) with
      | Err e => ([probe_command; dns_command iface server], Err (Transient (context (Fmt "pointing the link at our resolver" []) e)))
      | Ok _ =>
          ([probe_command; dns_command iface server; domain_command iface],
           map_err (fun e => Transient (context (Fmt "claiming the zone" []) e)) (run out (domain_command iface)))
      end
  end.

Definition deregister (iface : rstr) (out : Command -> output) : list Command * result message () :=
  ([revert_command iface], run out (revert_command iface)).
End Unix.

(** ** NRPT *)

Module Windows.
Definition COMMENT : rstr := lit "quix mesh resolver".

Definition powershell (script : rstr) : Command :=
  (lit "powershell", [lit "-NoProfile"; lit "-NonInteractive"; lit "-Command"; script]).

Definition add_rule (server : SocketAddr) : Command :=
  powershell (lit "Add-DnsClientNrptRule -Namespace '." ++ ZONE ++ lit "' -NameServers '" ++ show_ip (ip server)
              ++ lit "' -Comment '" ++ COMMENT ++ lit "'").

Definition remove_rules : Command :=
  powershell (lit "Get-DnsClientNrptRule | Where-Object { $_.Comment -eq '" ++ COMMENT
              ++ lit "' } | Remove-DnsClientNrptRule -Force -ErrorAction SilentlyContinue").

Definition deregister (iface : rstr) (out : Command -> output) : list Command * result message () :=
  ([remove_rules], map_err (context (Fmt "removing the NRPT rule" [])) (Unix.run out remove_rules)).

Definition register (iface : rstr) (server : SocketAddr) (out : Command -> output) : list Command * result Error () :=
  let '(cleared, _) := deregister iface out in
  (cleared ++ [add_rule server],
   map_err (fun e => Transient (context (Fmt "adding the NRPT rule" []) e)) (Unix.run out (add_rule server))).
End Windows.

Inductive Os := Linux | Mac | Win.

Definition register (os : Os) (iface : rstr) (server : SocketAddr) (out : Command -> output) : list Command * result Error () :=
  match os with
  | Linux => Unix.register true iface server out
  | Mac => Unix.register false iface server out
  | Win => Windows.register iface server out
  end.

Definition deregister (os : Os) (iface : rstr) (out : Command -> output) : list Command * result message () :=
  match os with Linux | Mac => Unix.deregister iface out | Win => Windows.deregister iface out end.

(** ** Properties *)

Lemma run_ok p args out : run_program p args out = Ok tt <-> out = Success.
Proof. destruct out; naive_solver. Qed.

Definition ours (os : Os) (iface : rstr) (server : SocketAddr) : list Command :=
  match os with
  | Win => [Windows.add_rule server]
  | _ => [Unix.dns_command iface server; Unix.domain_command iface]
  end.

(** registering succeeds exactly when every command that claims the zone did,
    and then they have all been issued; it says there is no resolver only where
    systemd-resolved itself did not answer, and has then changed nothing; any
    other failure is worth another attempt, and a command is never issued after
    one that failed. *)
Theorem register_functional os iface server out :
  let '(issued, r) := register os iface server out in
  (r = Ok tt <-> (os <> Win -> out Unix.probe_command = Success) /\ Forall (fun c => out c = Success) (ours os iface server))
  /\ (r = Ok tt -> forall c, c ∈ ours os iface server -> c ∈ issued)
  /\ (forall source remedy, r = Err (NoResolver source remedy) ->
        os <> Win /\ out Unix.probe_command <> Success /\ issued = [Unix.probe_command]
        /\ (is_Some remedy <-> os = Linux))
  /\ (os <> Win -> forall before c after, issued = before ++ c :: after -> out c <> Success -> after = []).
Proof.
  assert (Hunix : forall linux, let '(issued, r) := Unix.register linux iface server out in
    (r = Ok tt <-> out Unix.probe_command = Success /\ Forall (fun c => out c = Success) [Unix.dns_command iface server; Unix.domain_command iface])
    /\ (r = Ok tt -> forall c, c ∈ [Unix.dns_command iface server; Unix.domain_command iface] -> c ∈ issued)
    /\ (forall source remedy, r = Err (NoResolver source remedy) ->
          out Unix.probe_command <> Success /\ issued = [Unix.probe_command] /\ remedy = Unix.REMEDY linux)
    /\ (forall before c after, issued = before ++ c :: after -> out c <> Success -> after = [])).
  { intros linux. unfold Unix.register, Unix.available, Unix.run.
    assert (Hlast : forall l (d : Command), Forall (fun c => out c = Success) l ->
      forall before c after, l ++ [d] = before ++ c :: after -> out c <> Success -> after = []).
    { intros l d Hall before c after Heq Hc. destruct after as [|a after _] using rev_ind; [done|].
      rewrite app_comm_cons, app_assoc in Heq. apply app_inj_tail in Heq as [-> _].
      apply Forall_app in Hall as [_ [? _]%Forall_cons]. done. }
    assert (Htwo : forall c d : Command, Forall (fun c => out c = Success) [c; d] <-> out c = Success /\ out d = Success).
    { intros c d. by rewrite Forall_cons, Forall_singleton. }
    destruct (out Unix.probe_command) eqn:Ep;
      [rewrite Htwo; split_and!; [naive_solver..|by apply (Hlast [])]| |rewrite Htwo; split_and!; [naive_solver..|by apply (Hlast [])]].
    destruct (run_program _ _ (out (Unix.dns_command iface server))) as [[]|e] eqn:Ed.
    - apply run_ok in Ed. destruct (run_program _ _ (out (Unix.domain_command iface))) as [[]|e] eqn:Em.
      + apply run_ok in Em. cbn [map_err]. rewrite Htwo. split_and!; [naive_solver| |naive_solver|].
        * intros _ c Hc. by constructor.
        * by apply (Hlast [_; _]); repeat constructor.
      + assert (out (Unix.domain_command iface) <> Success) by (intros Hm; by rewrite Hm in Em).
        cbn [map_err]. rewrite Htwo. split_and!; [naive_solver..|by apply (Hlast [_; _]); repeat constructor].
    - assert (out (Unix.dns_command iface server) <> Success) by (intros Hm; by rewrite Hm in Ed).
      rewrite Htwo. split_and!; [naive_solver..|by apply (Hlast [_]); repeat constructor]. }
  destruct os; cbn [register ours].
  - specialize (Hunix true). destruct (Unix.register true iface server out) as [issued r].
    destruct Hunix as (Hr & Hc & He & Hl). split_and!; [naive_solver|done| |naive_solver].
    intros s m Hm. destruct (He s m Hm) as (? & ? & ->). split_and!; first [done|by eexists|by intros []].
  - specialize (Hunix false). destruct (Unix.register false iface server out) as [issued r].
    destruct Hunix as (Hr & Hc & He & Hl). split_and!; [naive_solver|done| |naive_solver].
    intros s m Hm. destruct (He s m Hm) as (? & ? & ->). split_and!; try done. split; [by intros []|done].
  - cbn [Windows.register Windows.deregister]. unfold Unix.run. 
    destruct (out (Windows.add_rule server)) eqn:E; cbn [run_program map_err]; rewrite Forall_singleton, ?E; split_and!; try naive_solver.
    intros _ c ->%list_elem_of_singleton. do 2 constructor.
Qed.
