(* ===== verification/Registration.v ===== *)
(** * Keeping the zone registered ([daemon/src/registration.rs])

    The first attempt, the background retry as a machine driven by what each of
    its awaits comes to, and the stop at shutdown.  What is asked of the system
    and what is reported to [status] is kept as a log.  Times are in seconds. *)

From S2P Require Import Prelude External Proto Names Net Routes Dns Resolv.

Local Abbreviation list := Datatypes.list.

Definition FIRST_RETRY : Z := 2.
Definition MAX_RETRY : Z := 60.
Definition STOP_LIMIT : Z := 10.

Inductive Failure := Unreachable | Register (e : Resolv.Error).

Inductive Outcome := Succeeded (retries : Z) (target : SocketAddr) | Stopped.

(** [u32::checked_shl]: [None] only when the shift is not less than the width. *)
Definition checked_shl (a shift : Z) : option Z := if shift <? 32 then Some (Z.shiftl a shift mod 2 ^ 32) else None.

Definition delay (retry : Z) : Z :=
  let factor := match checked_shl 1 (sat_sub retry 1) with Some f => f | None => u32_max end in
  match checked_mul u64_max FIRST_RETRY factor with
  | Some wait => Z.min wait MAX_RETRY
  | None => MAX_RETRY
  end.

Definition reported (failure : Failure) (fallback : rstr) : DnsRegistration :=
  match failure with
  | Register (NoResolver _ remedy) => Unavailable (Some fallback) remedy
  | Unreachable | Register (Transient _) => Retrying fallback
  end.

(** Where names resolve without the system: [unwrap_or_default]. *)
Definition fallback {A} (show : A -> rstr) (listen_addr : result message A) : rstr :=
  match listen_addr with Ok addr => show addr | Err _ => [] end.

(** What is handed to the system, what came of it, and what [status] is told. *)
Inductive event := Registers (t : SocketAddr) | Lands (t : SocketAddr) (ok : bool) | Deregisters | Reports (d : DnsRegistration).

(** [attempt]: whether the system was asked, the log and the result. *)
Definition attempt (os : Os) (iface : rstr) (server : option SocketAddr) (out : Command -> output)
    : bool * list event * result Failure SocketAddr :=
  match server with
  | None => (false, [], Err Unreachable)
  | Some server =>
      let r := snd (register os iface server out) in
      (true, [Registers server; Lands server (is_ok r)],
       match r with Ok _ => Ok server | Err e => Err (Register e) end)
  end.

(** ** The background retry *)

Inductive phase := Waiting | Probing | Registering (target : SocketAddr) | Ended (o : Outcome) | Cancelled.

(** [asked]: the stop signal was sent, or its sender is gone. *)
Record Retry := { retry : Z; at_phase : phase; asked : bool; attempted : bool; log : list event }.

Definition with_phase (p : phase) (s : Retry) : Retry :=
  {| retry := retry s; at_phase := p; asked := asked s; attempted := attempted s; log := log s |}.
Definition ask (s : Retry) : Retry :=
  {| retry := retry s; at_phase := at_phase s; asked := true; attempted := attempted s; log := log s |}.
Definition note (e : list event) (s : Retry) : Retry :=
  {| retry := retry s; at_phase := at_phase s; asked := asked s; attempted := attempted s; log := log s ++ e |}.

(** The bottom of the loop. *)
Definition again (s : Retry) : Retry :=
  {| retry := sat_add u32_max (retry s) 1; at_phase := Waiting; asked := asked s; attempted := attempted s; log := log s |}.

(** The closure given as [register]: the flag goes up before the command goes out. *)
Definition hand_over (target : SocketAddr) (s : Retry) : Retry :=
  {| retry := retry s; at_phase := Registering target; asked := asked s; attempted := true; log := log s ++ [Registers target] |}.

Inductive input :=
  | AskStop  (** the signal *)
  | Woken  (** polled with nothing ready *)
  | Elapsed  (** the sleep is over *)
  | Probed (found : option SocketAddr) (late : bool)  (** the probe is over; [late]: the signal got in right after *)
  | Landed (ok : bool).  (** the registration command returned *)

(** [unless_stopped]: the stop is looked at first. *)
Definition unless_stopped (s : Retry) (work : Retry) : Retry := if asked s then with_phase (Ended Stopped) s else work.

(** One poll of [retry_until_stopped] and of the task around it. *)
Definition step (s : Retry) (i : input) : Retry :=
  match i, at_phase s with
  | AskStop, _ => ask s
  | Woken, (Waiting | Probing) => unless_stopped s s
  | Elapsed, Waiting => unless_stopped s (with_phase Probing s)
  | Probed found late, Probing =>
      unless_stopped s
        (let s := if late then ask s else s in
         match found with
         | Some target => if asked s then with_phase (Ended Stopped) s else hand_over target s
         | None => again s
         end)
  | Landed ok, Registering target =>
      let s := note [Lands target ok] s in
      if ok then note [Reports Registered] (with_phase (Ended (Succeeded (retry s) target)) s) else again s
  | _, _ => s
  end.

Definition run (s : Retry) (l : list input) : Retry := foldl step s l.

(** ** Starting and stopping *)

Record Registration := { ever_attempted : bool; retrying : option Retry; so_far : list event }.

Definition start (os : Os) (iface : rstr) (candidates : list SocketAddr) (server : option SocketAddr) (fallback : rstr)
    (out : Command -> output) : Registration :=
  match candidates with
  | [] => {| ever_attempted := false; retrying := None; so_far := [Reports (Unavailable (Some fallback) None)] |}
  | _ =>
      let '(tried, events, r) := attempt os iface server out in
      match r with
      | Ok _ => {| ever_attempted := tried; retrying := None; so_far := events ++ [Reports Registered] |}
      | Err failure =>
          let events := events ++ [Reports (reported failure fallback)] in
          {| ever_attempted := tried; so_far := events;
             retrying := Some {| retry := 1; at_phase := Waiting; asked := false; attempted := tried; log := events |} |}
      end
  end.

Definition is_over (s : Retry) : bool := match at_phase s with Ended _ | Cancelled => true | _ => false end.

(** [wait_for_stop]: [within] is what the task does inside the limit. *)
Definition wait_for_stop (s : Retry) (within : list input) : Retry * bool :=
  let s := run (step s AskStop) within in
  if is_over s then (s, true) else (with_phase Cancelled s, false).

(** [Registration::stop], after the task has done [before]: the whole log, and
    whether the task had to be cancelled. *)
Definition stop (r : Registration) (before within : list input) : list event * bool :=
  match retrying r with
  | None => (so_far r ++ (if ever_attempted r then [Deregisters] else []), false)
  | Some s =>
      let '(s, finished) := wait_for_stop (run s before) within in
      (log s ++ (if attempted s then [Deregisters] else []), negb finished)
  end.

(** ** Delays *)

Lemma delay_small r : 1 <= r <= 6 -> delay r = Z.min 60 (2 ^ r).
Proof. intros Hr. assert (r = 1 \/ r = 2 \/ r = 3 \/ r = 4 \/ r = 5 \/ r = 6) as [->|[->|[->|[->|[->| ->]]]]] by lia; done. Qed.

Lemma delay_large r : 6 <= r -> delay r = 60.
Proof.
  intros Hr. unfold delay, checked_shl, sat_sub, checked_mul, FIRST_RETRY, MAX_RETRY, u64_max, u32_max.
  destruct (Z.ltb_spec (Z.max 0 (r - 1)) 32); [|done].
  rewrite Z.max_r, Z.shiftl_mul_pow2, Z.mul_1_l by lia.
  assert (2 ^ 5 <= 2 ^ (r - 1) <= 2 ^ 31) by (split; apply Z.pow_le_mono_r; lia).
  rewrite Z.mod_small by lia. destruct (Z.leb_spec (2 * 2 ^ (r - 1)) (2 ^ 64 - 1)); [|lia].
  change (2 ^ 5) with 32 in *. lia.
Qed.

(** the wait before retry [r] is [2^r] seconds, at least two, until it reaches a
    minute and stays there, however many retries there have been. *)
Theorem delay_doubles_to_a_minute r : 1 <= r ->
  delay r = Z.min 60 (2 ^ r) /\ 2 <= delay r <= 60 /\ forall r', r <= r' -> delay r <= delay r'.
Proof.
  assert (Hall : forall r, 1 <= r -> delay r = Z.min 60 (2 ^ r)).
  { intros x Hx. destruct (decide (x <= 6)); [by apply delay_small|]. rewrite delay_large by lia.
    assert (2 ^ 6 <= 2 ^ x) by (apply Z.pow_le_mono_r; lia). lia. }
  intros Hr. rewrite Hall by done. assert (2 ^ 1 <= 2 ^ r) by (apply Z.pow_le_mono_r; lia).
  split; [done|]. split; [lia|]. intros r' Hle. rewrite Hall by lia.
  assert (2 ^ r <= 2 ^ r') by (apply Z.pow_le_mono_r; lia). lia.
Qed.

(** ** The log *)

Definition asked_system (l : list event) : bool := existsb (fun e => match e with Registers _ => true | _ => false end) l.
Definition pending_step (p : option SocketAddr) (e : event) : option SocketAddr :=
  match e with Registers t => Some t | Lands _ _ => None | _ => p end.
Definition pending (l : list event) : option SocketAddr := foldl pending_step None l.
Definition registers (l : list event) : list SocketAddr := omap (fun e => match e with Registers t => Some t | _ => None end) l.

Record log_ok (s : Retry) : Prop := {
  lo_running : at_phase s <> Cancelled;
  lo_dereg : Deregisters ∉ log s;
  lo_attempted : attempted s = asked_system (log s);
  lo_pending : pending (log s) = match at_phase s with Registering t => Some t | _ => None end;
  lo_reported : Reports Registered ∈ log s <-> exists t, Lands t true ∈ log s;
}.

Lemma asked_system_app l e : asked_system (l ++ e) = asked_system l || asked_system e.
Proof. apply existsb_app. Qed.

Lemma step_log_ok s i : log_ok s -> log_ok (step s i).
Proof.
  intros [Hc Hd Ha Hp Hr]. destruct s as [r p a at_ l].
  unfold step, unless_stopped, with_phase, ask, note, again, hand_over in *. cbn in *.
  destruct i as [| | |found late|ok], p; try (constructor; cbn; done); try (destruct a; constructor; cbn; done).
  - destruct a; [by constructor|]. destruct found as [t|]; [|destruct late; by constructor].
    destruct late; [by constructor|]. constructor; cbn; [done|..].
    + rewrite not_elem_of_app, list_elem_of_singleton. naive_solver.
    + by rewrite asked_system_app, orb_comm.
    + unfold pending. by rewrite foldl_app.
    + setoid_rewrite elem_of_app. setoid_rewrite list_elem_of_singleton. naive_solver.
  - destruct ok; constructor; cbn; try done.
    + rewrite !not_elem_of_app, !list_elem_of_singleton. naive_solver.
    + rewrite !asked_system_app. cbn. by rewrite !orb_false_r.
    + unfold pending. by rewrite !foldl_app.
    + rewrite !elem_of_app, !list_elem_of_singleton. split; [|by auto]. intros _. exists target.
      rewrite !elem_of_app, !list_elem_of_singleton. auto.
    + rewrite !not_elem_of_app, !list_elem_of_singleton. naive_solver.
    + rewrite !asked_system_app. cbn. by rewrite !orb_false_r.
    + unfold pending. by rewrite !foldl_app.
    + setoid_rewrite elem_of_app. setoid_rewrite list_elem_of_singleton. naive_solver.
Qed.

Lemma run_log_ok s l : log_ok s -> log_ok (run s l).
Proof. revert s. induction l as [|i l IH]; intros s Hs; [done|]. by apply IH, step_log_ok. Qed.

Definition handed_back (l : list event) (cancelled : bool) : Prop :=
  exists events, l = events ++ (if asked_system events then [Deregisters] else [])
    /\ Deregisters ∉ events
    /\ (cancelled = false -> pending events = None)
    /\ (Reports Registered ∈ events <-> exists t, Lands t true ∈ events).

Lemma wait_handed_back s within : log_ok s ->
  let '(s, finished) := wait_for_stop s within in
  handed_back (log s ++ (if attempted s then [Deregisters] else [])) (negb finished).
Proof.
  intros Hs. unfold wait_for_stop.
  assert (H1 : log_ok (run (step s AskStop) within)) by by apply run_log_ok, step_log_ok.
  destruct H1 as [Hc Hd Ha Hp Hr]. destruct (is_over _) eqn:E; exists (log (run (step s AskStop) within)).
  - rewrite Ha. split_and!; try done; [|apply Hr..]. intros _. rewrite Hp.
    unfold is_over in E. by destruct (at_phase _).
  - cbn [with_phase log attempted]. rewrite Ha. split_and!; try done; apply Hr.
Qed.

Lemma reported_not_registered f fb : reported f fb <> Registered.
Proof. by destruct f as [|[]]. Qed.

(** C28: whatever happened before and whenever the stop comes, the zone is handed
    back exactly when the system was ever asked for it, once, as the last thing
    done; unless the task had to be cancelled nothing handed to the system is
    still on its way then; and [status] was told of a registration exactly when
    one had landed. *)
Theorem zone_is_handed_back os iface candidates server fb out before within :
  let '(l, cancelled) := stop (start os iface candidates server fb out) before within in
  exists events, l = events ++ (if asked_system events then [Deregisters] else [])
    /\ Deregisters ∉ events
    /\ (cancelled = false -> pending events = None)
    /\ (Reports Registered ∈ events <-> exists t, Lands t true ∈ events).
Proof.
  assert (Hwait : forall s, log_ok s ->
    let '(l, cancelled) := stop {| ever_attempted := attempted s; retrying := Some s; so_far := log s |} before within in
    handed_back l cancelled).
  { intros s Hs. unfold stop. cbn [retrying]. pose proof (wait_handed_back (run s before) within (run_log_ok _ _ Hs)) as Hw.
    by destruct (wait_for_stop (run s before) within). }
  unfold start. destruct candidates as [|c0 candidates]; cbn [retrying].
  { exists [Reports (Unavailable (Some fb) None)]. cbn. split_and!; try done; set_solver. }
  destruct server as [server|]; cbn [attempt].
  - destruct (snd (register os iface server out)) as [[]|e]; cbn [is_ok].
    + exists ([Registers server; Lands server true] ++ [Reports Registered]). cbn. split_and!; try done; set_solver.
    + refine (Hwait {| retry := 1; at_phase := Waiting; asked := false; attempted := true; log := _ |} _).
      pose proof (reported_not_registered (Register e) fb). constructor; cbn [at_phase log attempted]; try done; set_solver.
  - refine (Hwait {| retry := 1; at_phase := Waiting; asked := false; attempted := false; log := _ |} _).
    pose proof (reported_not_registered Unreachable fb). constructor; cbn [at_phase log attempted]; try done; set_solver.
Qed.

(** ** The loop *)

Lemma registers_app l l' : registers (l ++ l') = registers l ++ registers l'.
Proof. apply omap_app. Qed.

Lemma asked_step s i : asked s = true -> asked (step s i) = true /\ registers (log (step s i)) = registers (log s).
Proof.
  intros Ha. destruct s as [r p a at_ l]. cbn in Ha. subst a.
  unfold step, unless_stopped. destruct i as [| | |found late|[]], p; try done;
    cbn [at_phase note with_phase again log asked]; (split; [done|]); rewrite !registers_app; by rewrite ?app_nil_r.
Qed.

(** once a stop is asked for nothing more is handed to the system, whatever
    happens; and the task ends at its next poll, or, where a registration is in
    progress, at the first poll after it lands. *)
Theorem a_stop_is_honoured s l :
  registers (log (run (step s AskStop) l)) = registers (log s)
  /\ forall ok, is_over (run (step s AskStop) [Landed ok; Woken]) = true.
Proof.
  split.
  - assert (Hall : forall s, asked s = true -> registers (log (run s l)) = registers (log s)).
    { induction l as [|i l IH]; intros x Hx; [done|]. destruct (asked_step x i Hx) as [Ha Hl].
      cbn [run foldl]. fold (run (step x i) l). by rewrite IH. }
    by rewrite Hall.
  - intros ok. destruct s as [r [] a at_ l']; try done. by destruct ok.
Qed.

(** A retry that comes to nothing: no address answers, or the system refuses the
    one that does. *)
Definition failed_round (found : option SocketAddr) : list input :=
  match found with
  | None => [Elapsed; Probed None false]
  | Some t => [Elapsed; Probed (Some t) false; Landed false]
  end.

Lemma failed_rounds rounds s :
  at_phase s = Waiting -> asked s = false -> 1 <= retry s <= u32_max ->
  let s' := run s (rounds ≫= failed_round) in
  at_phase s' = Waiting /\ asked s' = false /\ retry s' = Z.min u32_max (retry s + Z.of_nat (length rounds))
  /\ registers (log s') = registers (log s) ++ omap id rounds.
Proof.
  revert s. induction rounds as [|found rounds IH]; intros s Hp Ha Hr.
  - cbn. rewrite app_nil_r. split_and!; try done. lia.
  - cbv zeta. cbn [mbind list_bind]. unfold run. rewrite foldl_app. fold (run s (failed_round found)).
    set (s1 := run s (failed_round found)). fold (run s1 (rounds ≫= failed_round)).
    destruct s as [r p a at_ l]. cbn in Hp, Ha, Hr. subst p a.
    assert (H1 : at_phase s1 = Waiting /\ asked s1 = false /\ retry s1 = sat_add u32_max r 1
      /\ registers (log s1) = registers l ++ omap id [found]).
    { subst s1. destruct found as [t|]; cbn; [|by rewrite app_nil_r]. rewrite !registers_app. cbn. by rewrite app_nil_r. }
    destruct H1 as (Hp1 & Ha1 & Hr1 & Hl1). unfold sat_add in Hr1.
    destruct (IH s1) as (H1 & H2 & H3 & H4); [done|done|unfold u32_max in *; lia|].
    split_and!; [done|done| |].
    + rewrite H3, Hr1. cbn [retry length]. lia.
    + rewrite H4, Hl1, <- app_assoc. by destruct found.
Qed.

(** the retry never gives up: however many rounds have failed, it waits again,
    its count saturating, and the first round whose registration is accepted ends
    it, registered and reported. *)
Theorem retries_until_registered rounds s t :
  at_phase s = Waiting -> asked s = false -> 1 <= retry s <= u32_max ->
  let s' := run s (rounds ≫= failed_round) in
  at_phase s' = Waiting /\ retry s' = Z.min u32_max (retry s + Z.of_nat (length rounds))
  /\ registers (log s') = registers (log s) ++ omap id rounds
  /\ let done := run s' [Elapsed; Probed (Some t) false; Landed true] in
     at_phase done = Ended (Succeeded (retry s') t) /\ last (log done) = Some (Reports Registered).
Proof.
  intros Hp Ha Hr. cbv zeta. destruct (failed_rounds rounds s Hp Ha Hr) as (H1 & H2 & H3 & H4).
  split_and!; try done; destruct (run s _) as [r p a at_ l]; cbn in H1, H2; subst p a; [done|].
  cbn. by rewrite last_snoc.
Qed.

(** what [status] says once the first attempt is decided: registered exactly
    when the system took it; unavailable exactly when nothing was bound or there
    is no resolver to register with; retrying for everything that waiting can
    fix.  It always tells where names resolve meanwhile, and keeps trying in the
    background unless it registered or has nothing to try. *)
Theorem first_report os iface candidates server fb out :
  let r := start os iface candidates server fb out in
  exists events d, so_far r = events ++ [Reports d] /\
  match candidates, server with
  | [], _ => d = Unavailable (Some fb) None /\ retrying r = None /\ events = []
  | _, None => d = Retrying fb /\ is_Some (retrying r) /\ events = []
  | _, Some a =>
      ever_attempted r = true /\
      match snd (register os iface a out) with
      | Ok _ => d = Registered /\ retrying r = None
      | Err (NoResolver _ remedy) => d = Unavailable (Some fb) remedy /\ is_Some (retrying r)
      | Err (Transient _) => d = Retrying fb /\ is_Some (retrying r)
      end
  end.
Proof.
  cbv zeta. unfold start. destruct candidates as [|c0 candidates]; [by exists [], (Unavailable (Some fb) None)|].
  destruct server as [a|]; cbn [attempt].
  - destruct (snd (register os iface a out)) as [[]|[source remedy|source]]; cbn [is_ok so_far retrying ever_attempted].
    + exists [Registers a; Lands a true], Registered. done.
    + exists [Registers a; Lands a false], (Unavailable (Some fb) remedy). by split_and!.
    + exists [Registers a; Lands a false], (Retrying fb). by split_and!.
  - exists [], (Retrying fb). by split_and!.
Qed.

(** ** Witnesses *)

Example delay_doubles_to_a_minute_witness : delay 1 = 2 /\ delay 6 <= delay u32_max.
Proof.
  destruct (delay_doubles_to_a_minute 1 ltac:(lia)) as (H1 & _). destruct (delay_doubles_to_a_minute 6 ltac:(lia)) as (_ & _ & H6).
  split; [by rewrite H1|]. apply H6. unfold u32_max. lia.
Defined.

Module RegistrationDemo.
Definition server : SocketAddr := {| ip := V6 (replicate 16 1); port := ZONE_PORT false |}.
Definition begun : Retry := {| retry := 1; at_phase := Waiting; asked := false; attempted := false; log := [Reports (Retrying [])] |}.
End RegistrationDemo.

Example retries_until_registered_witness :
  let s := run RegistrationDemo.begun ([None; Some RegistrationDemo.server; None] ≫= failed_round) in
  at_phase (run s [Elapsed; Probed (Some RegistrationDemo.server) false; Landed true])
  = Ended (Succeeded (retry s) RegistrationDemo.server).
Proof.
  intros s. apply (retries_until_registered [None; Some RegistrationDemo.server; None] RegistrationDemo.begun
    RegistrationDemo.server); [done|done|]. unfold u32_max. cbn. lia.
Defined.
