(* ===== verification/Startup.v ===== *)
(** * Starting the daemon ([daemon/src/args.rs], [daemon/src/identity.rs])

    What a command line asks for, and the node's key: loaded, or made once and
    never overwritten.  A secret key is its 32 bytes. *)

From S2P Require Import Prelude Proto.

Local Abbreviation list := Datatypes.list.

(** ** The command line *)

Inductive Invocation := Run | Version | Help.

Section Args.
(** [USAGE] is printed with every refusal. *)
Variable USAGE : message.

Definition parse (args : list rstr) : result message Invocation :=
  match args with
  | [] => Ok Run
  | [one] =>
      let spelt := existsb (fun w => str_eqb one (lit w)) in
      if spelt ["--version"; "-V"; "version"]%string then Ok Version
      else if spelt ["--help"; "-h"; "help"]%string then Ok Help
      else Err (Fmt "unrecognized argument `{other}`\n\n{USAGE}" [Text one; USAGE])
  | extra => Err (Fmt "expected at most one argument, got {}\n\n{USAGE}" [num (Z.of_nat (length extra)); USAGE])
  end.

(** What [main] does: on Windows the service manager is asked first. *)
Inductive action := UnderServiceManager | Starts | Prints (what : Invocation) | Refuses (m : message).

Definition main (service_run : bool) (args : list rstr) : action :=
  if service_run then UnderServiceManager
  else match parse args with
       | Err m => Refuses m
       | Ok Run => Starts
       | Ok other => Prints other
       end.

(** a daemon is only ever started by the service manager or by a bare command
    line; every argument is either one of the six spellings that print something
    or refused. *)
Theorem only_a_bare_command_line_starts service_run args :
  (main service_run args = Starts <-> service_run = false /\ args = [])
  /\ (forall what, main service_run args = Prints what ->
        what <> Run /\ exists one, args = [one] /\ one ∈ lit <$> ["--version"; "-V"; "version"; "--help"; "-h"; "help"]%string)
  /\ (service_run = false -> (2 <= length args)%nat -> exists m, main service_run args = Refuses m).
Proof.
  assert (Hone : forall one, let r := parse [one] in
    r <> Ok Run /\ forall what, r = Ok what -> one ∈ lit <$> ["--version"; "-V"; "version"; "--help"; "-h"; "help"]%string).
  { intros one. cbn [parse]. destruct (existsb _ _) eqn:Ev; [|destruct (existsb _ ["--help"; "-h"; "help"]%string) eqn:Eh].
    - split; [done|]. intros what _. apply existsb_exists in Ev as (w & Hw & He%str_eqb_eq). subst one.
      apply list_elem_of_In in Hw. apply list_elem_of_fmap. exists w. split; [done|]. set_solver.
    - split; [done|]. intros what _. apply existsb_exists in Eh as (w & Hw & He%str_eqb_eq). subst one.
      apply list_elem_of_In in Hw. apply list_elem_of_fmap. exists w. split; [done|]. set_solver.
    - split; [done|]. by intros what. }
  unfold main. destruct service_run; [naive_solver|]. destruct args as [|one [|two more]].
  - split; [done|]. split; [by intros what|cbn; lia].
  - destruct (Hone one) as [Hrun Hp]. assert (Hlen : (2 <= length [one])%nat -> False) by (cbn; lia).
    destruct (parse [one]) as [[]|m]; [done|..]; (split; [naive_solver|]); (split; [|by intros _ ?%Hlen]).
    + intros what [= <-]. split; [done|]. exists one. split; [done|]. by eapply Hp.
    + intros what [= <-]. split; [done|]. exists one. split; [done|]. by eapply Hp.
    + by intros what.
  - split; [naive_solver|]. split; [by intros what|]. intros _ _. by eexists.
Qed.
End Args.

(** ** The identity *)

Definition key_path (QUIX_KEY_PATH : option rstr) (config_dir : option rstr) (join : rstr -> rstr -> rstr) : result message rstr :=
  match QUIX_KEY_PATH with
  | Some custom => Ok custom
  | None =>
      dir ← ok_or (Fmt "resolve config dir" []) config_dir;
      Ok (join (join dir (lit "quix")) (lit "key"))
  end.

(** How far writing the new file got. *)
Inductive written :=
  | OpenFailed (e : message)
  | RestrictFailed (e : message)
  | WriteFailed (n : nat) (e : message)
  | SyncFailed (e : message)
  | Durable.

(** The file at the path, if there is one. *)
Definition KeyFile : Type := option (list Z).

(** [create_new]: an existing file is an error whatever the system could do. *)
Definition write_protected (exists_already : message) (file : KeyFile) (key : list Z) (w : written) : KeyFile * result message () :=
  match file, w with
  | Some _, _ => (file, Err exists_already)
  | None, OpenFailed e => (None, Err e)
  | None, RestrictFailed e => (Some [], Err e)
  | None, WriteFailed n e => (Some (take n key), Err e)
  | None, SyncFailed e => (Some key, Err e)
  | None, Durable => (Some key, Ok tt)
  end.

(** [load_or_create]: [readable] is whether the file could be read, [generated]
    the key made where it could not. *)
Definition load_or_create (exists_already : message) (path : result message rstr) (file : KeyFile) (readable : bool)
    (mkdir : result message ()) (generated : list Z) (w : written) : KeyFile * result message (list Z) :=
  match path with
  | Err e => (file, Err e)
  | Ok shown =>
      match (if readable then file else None) with
      | Some bytes =>
          (file, if (length bytes =? 32)%nat then Ok bytes else Err (Fmt "key file has wrong length" []))
      | None =>
          match mkdir with
          | Err e => (file, Err e)
          | Ok _ =>
              match write_protected exists_already file generated w with
              | (file, Ok _) => (file, Ok generated)
              | (file, Err e) => (file, Err (context (Fmt "writing the identity key to {}" [Text shown]) e))
              end
          end
      end
  end.

(** a node keeps its identity: a key that was there is never changed, a start
    that succeeds leaves its key on disk, every later start that can read the file
    has that same key whatever was generated meanwhile, and one that cannot read
    it fails instead of becoming somebody else. *)
Theorem identity_is_kept busy path file readable mkdir generated w :
  let '(file', r) := load_or_create busy path file readable mkdir generated w in
  (is_Some file -> file' = file)
  /\ match r with
     | Ok key => file' = Some key
         /\ forall generated' mkdir' w', length generated = 32%nat ->
              load_or_create busy path file' true mkdir' generated' w' = (file', Ok key)
              /\ exists e, load_or_create busy path file' false mkdir' generated' w' = (file', Err e)
     | Err _ => True
     end.
Proof.
  assert (Hagain : forall shown key, length key = 32%nat -> forall generated' mkdir' w',
    load_or_create busy (Ok shown) (Some key) true mkdir' generated' w' = (Some key, Ok key)
    /\ exists e, load_or_create busy (Ok shown) (Some key) false mkdir' generated' w' = (Some key, Err e)).
  { intros shown key Hk g m w'. unfold load_or_create. rewrite Hk, Nat.eqb_refl. split; [done|].
    destruct m; by eexists. }
  unfold load_or_create at 1. destruct path as [shown|e]; [|done].
  destruct file as [bytes|]; [destruct readable|]; cbn [write_protected].
  - destruct (length bytes =? 32)%nat eqn:E; (split; [done|]); [|done]. split; [done|]. intros g m w' _.
    by apply Hagain, Nat.eqb_eq.
  - destruct mkdir; by split.
  - destruct readable, mkdir as [[]|e]; try (by split; [intros []|]); destruct w; (split; [by intros []|]); try done; (split; [done|]);
      intros g m w' Hg; by apply Hagain.
Qed.

(** a first start whose write broke off leaves a file that every later start
    takes for a damaged key: the node does not start again until it is removed. *)
Theorem a_broken_first_write_stays busy shown generated e n :
  length generated = 32%nat -> (n < 32)%nat ->
  let file := fst (load_or_create busy (Ok shown) None true (Ok tt) generated (WriteFailed n e)) in
  forall mkdir generated' w, load_or_create busy (Ok shown) file true mkdir generated' w = (file, Err (Fmt "key file has wrong length" [])).
Proof.
  intros Hg Hn file mkdir generated' w. subst file. cbn [load_or_create write_protected fst]. unfold load_or_create.
  rewrite length_take, Hg. destruct (Nat.eqb_spec (n `min` 32) 32); [lia|done].
Qed.

Example a_broken_first_write_stays_witness :
  load_or_create (Text []) (Ok []) (Some []) true (Ok tt) (replicate 32 7) Durable = (Some [], Err (Fmt "key file has wrong length" [])).
Proof.
  exact (a_broken_first_write_stays (Text []) [] (replicate 32 7) (Text []) 0 eq_refl ltac:(lia) (Ok tt) (replicate 32 7) Durable).
Defined.
