(* ===== verification/Winacl.v ===== *)
(** * Locking a file down on Windows ([daemon/src/winacl.rs], [write_protected] of [daemon/src/identity.rs])

    The permission list written for the secret key, as a string of SDDL, and the
    calls that put it on the file; and the states the key's file goes through. *)

From S2P Require Import Prelude Win32 Proto Files Node Authz Winauth Startup.

Local Abbreviation list := Datatypes.list.

Definition LOCAL_SYSTEM : rstr := lit "S-1-5-18".

Definition is_sid (text : rstr) : bool :=
  match strip_prefix (lit "S-1-") text with Some _ => true | None => false end
  && (str_len text <=? 184)%nat
  && forallb (fun c => is_digit c || (c =? 83)%N || (c =? 45)%N) text.

(** The list for whoever we are. *)
Definition sddl_for (me : option PipeClient) : rstr :=
  lit "D:P(A;;FA;;;SY)(A;;FA;;;BA)"
  ++ match me with
     | Some c => if negb (str_eqb (pc_sid c) LOCAL_SYSTEM) && is_sid (pc_sid c) then lit "(A;;FA;;;" ++ pc_sid c ++ lit ")" else []
     | None => []
     end.

Definition set_dacl (path : rstr) (descriptor : pointer) : prog (result message ()) :=
  r ← ask (GetSecurityDescriptorDacl descriptor);
  match r with
  | None => code ← ask GetLastError; Ret (Err (context (Fmt "reading the permission list back" []) (os_error code)))
  | Some None => Ret (Err (Fmt "the permission list came back empty" []))
  | Some (Some dacl) =>
      status ← ask (SetNamedSecurityInfoW (wide path) true dacl);
      Ret (if status =? 0 then Ok tt else Err (context (Fmt "applying the permission list" []) (os_error status)))
  end.

Definition apply (path sddl : rstr) : prog (result message ()) :=
  r ← ask (ConvertStringSecurityDescriptorToSecurityDescriptorW (wide sddl));
  match r with
  | None => code ← ask GetLastError; Ret (Err (context (Fmt "building the permission list" []) (os_error code)))
  | Some descriptor =>
      result ← set_dacl path descriptor;
      _ ← ask (LocalFree descriptor);
      Ret result
  end.

Definition restrict_to_administrators (path : rstr) : prog (result message ()) :=
  me ← current_process;
  r ← apply path (sddl_for me);
  Ret (map_err (context (Fmt "restricting access to {}" [Text path])) r).

(** ** Reading SDDL

    The entries of a list stand in parentheses, their fields between semicolons,
    and the last field is whom the entry is about. *)

Fixpoint entries (fuel : nat) (s : rstr) : list rstr :=
  match fuel, split_once 40 s with
  | S fuel, Some (_, rest) =>
      match split_once 41 rest with Some (entry, rest) => entry :: entries fuel rest | None => [rest] end
  | _, _ => []
  end.

Fixpoint last_field (fuel : nat) (s : rstr) : rstr :=
  match fuel, split_once 59 s with S fuel, Some (_, rest) => last_field fuel rest | _, _ => s end.

Definition trustees (sddl : rstr) : list rstr := (fun e => last_field (length e) e) <$> entries (length sddl) sddl.

(** Whom the list lets in besides SYSTEM and the administrators. *)
Definition ourselves (me : option PipeClient) : list rstr :=
  match me with Some c => if negb (str_eqb (pc_sid c) LOCAL_SYSTEM) && is_sid (pc_sid c) then [pc_sid c] else [] | None => [] end.

Lemma split_once_none c s : forallb (fun d => negb (d =? c)%N) s = true -> split_once c s = None.
Proof. induction s as [|d s IH]; [done|]. cbn. intros [Hd Hs]%andb_true_iff. apply negb_true_iff in Hd. by rewrite Hd, IH. Qed.

Lemma split_once_at c s t : forallb (fun d => negb (d =? c)%N) s = true -> split_once c (s ++ c :: t) = Some (s, t).
Proof.
  induction s as [|d s IH]; cbn; [by rewrite N.eqb_refl|]. intros [Hd Hs]%andb_true_iff. apply negb_true_iff in Hd. by rewrite Hd, IH.
Qed.

(** A SID has none of the language's marks. *)
Lemma is_sid_plain text c : is_sid text = true -> c ∈ [40; 41; 59]%N -> forallb (fun d => negb (d =? c)%N) text = true.
Proof.
  unfold is_sid. rewrite andb_true_iff. intros [_ Ht] Hc. rewrite !forallb_forall in *. intros d Hd. specialize (Ht d Hd).
  unfold is_digit in Ht. rewrite !elem_of_cons, elem_of_nil in Hc. destruct (N.eqb_spec d c); [|done]. subst. lia.
Qed.

Lemma entries_step fuel pre e rest :
  forallb (fun d => negb (d =? 40)%N) pre = true -> forallb (fun d => negb (d =? 41)%N) e = true ->
  entries (S fuel) (pre ++ 40%N :: e ++ 41%N :: rest) = e :: entries fuel rest.
Proof. intros Hp He. cbn [entries]. by rewrite split_once_at, split_once_at. Qed.

Lemma last_field_step fuel pre rest : forallb (fun d => negb (d =? 59)%N) pre = true ->
  last_field (S fuel) (pre ++ 59%N :: rest) = last_field fuel rest.
Proof. intros Hp. cbn [last_field]. by rewrite split_once_at. Qed.

Lemma last_field_end fuel s : forallb (fun d => negb (d =? 59)%N) s = true -> last_field fuel s = s.
Proof. intros Hs. destruct fuel; [done|]. cbn. by rewrite split_once_none. Qed.

Lemma trustees_spec me : trustees (sddl_for me) = [lit "SY"; lit "BA"] ++ ourselves me.
Proof.
  unfold sddl_for, ourselves. destruct me as [c|]; [|by vm_compute].
  destruct (negb _ && is_sid (pc_sid c)) eqn:E; [|by vm_compute]. apply andb_true_iff in E as [_ Hs].
  set (sid := pc_sid c) in *. unfold trustees. rewrite length_app.
  change (length (lit "D:P(A;;FA;;;SY)(A;;FA;;;BA)")) with 27%nat. cbn [Nat.add].
  change (lit "D:P(A;;FA;;;SY)(A;;FA;;;BA)" ++ lit "(A;;FA;;;" ++ sid ++ lit ")")
    with (lit "D:P" ++ 40%N :: lit "A;;FA;;;SY" ++ 41%N :: [] ++ 40%N :: lit "A;;FA;;;BA" ++ 41%N :: [] ++ 40%N :: (lit "A;;FA;;;" ++ sid) ++ 41%N :: []).
  rewrite !entries_step by (done || by rewrite forallb_app, (is_sid_plain sid 41 Hs) by set_solver).
  cbn [entries split_once]. rewrite !fmap_cons. cbn [fmap list_fmap app]. do 3 f_equal; [by vm_compute..|].
  f_equal. rewrite length_app. change (length (lit "A;;FA;;;")) with 8%nat. cbn [Nat.add].
  change (lit "A;;FA;;;" ++ sid) with (lit "A" ++ 59%N :: [] ++ 59%N :: lit "FA" ++ 59%N :: [] ++ 59%N :: [] ++ 59%N :: sid).
  rewrite !last_field_step by done. apply last_field_end. apply (is_sid_plain sid 59 Hs). set_solver.
Qed.

(** ** Properties *)

(** The permission lists a trace puts on files, with what came of it. *)
Definition sets (tr : list event) : list (list Z * bool * pointer * Z) :=
  omap (fun '(Event c r) =>
    match c in call R return R -> option (list Z * bool * pointer * Z) with
    | SetNamedSecurityInfoW path protected dacl => fun status => Some (path, protected, dacl, status)
    | _ => fun _ => None
    end r) tr.

Lemma sets_app tr tr' : sets (tr ++ tr') = sets tr ++ sets tr'.
Proof. apply omap_app. Qed.

(** Programs that put none. *)
Fixpoint never_sets {A} (p : prog A) : Prop :=
  match p with
  | Do c k => match c with SetNamedSecurityInfoW _ _ _ => False | _ => True end /\ forall r, never_sets (k r)
  | _ => True
  end.

Lemma never_sets_bind {A B} (p : prog A) (f : A -> prog B) : never_sets p -> (forall a, never_sets (f a)) -> never_sets (p ≫= f).
Proof. unfold mbind, prog_mbind. induction p as [a| |R c k IH]; cbn; [auto..|]. intros [Hc Hk] Hf. split; [done|]. auto. Qed.

Lemma never_sets_runs {A} (p : prog A) tr o : never_sets p -> runs p tr o -> sets tr = [].
Proof.
  revert tr. induction p as [a| |R c k IH]; cbn; intros tr Hp Hr; [by destruct Hr as [-> _]..|].
  destruct Hp as [Hc Hk], Hr as (r & tr' & -> & Hr). specialize (IH r tr' (Hk r) Hr). by destruct c.
Qed.

Lemma never_sets_token opening : never_sets (ask opening) -> never_sets (read_token opening).
Proof.
  intros Ho. unfold read_token, prog_try. apply never_sets_bind; [done|]. intros [token|]; [|done].
  apply never_sets_bind; [|by intros client]. unfold describe_token, prog_try, token_information, sid_string, prog_try, wide_to_string, account_name, slice.
  repeat first [done | apply never_sets_bind | progress intros | case_match | progress cbn ].
Qed.

(** Putting a list on a file: the descriptor is freed, and success is one list,
    the one asked for, on that file, taken. *)
Definition applied (path sddl : rstr) (tr : list event) (r : result message ()) : Prop :=
  match r with
  | Ok _ => exists d l, tr = [Event (ConvertStringSecurityDescriptorToSecurityDescriptorW (wide sddl)) (Some d);
                              Event (GetSecurityDescriptorDacl d) (Some (Some l));
                              Event (SetNamedSecurityInfoW (wide path) true l) 0; Event (LocalFree d) tt]
  | Err _ => forall x, x ∈ sets tr -> snd x <> 0
  end.

Lemma apply_runs path sddl tr o : runs (apply path sddl) tr o -> exists r, o = Returns r /\ applied path sddl tr r.
Proof.
  unfold apply, set_dacl, ask. cbn. intros ([d|] & tr1 & -> & Hr).
  2: { cbn in Hr. destruct Hr as (code & tr2 & -> & -> & ->). eexists. split; [done|]. by intros x ?%elem_of_nil. }
  cbn in Hr. destruct Hr as ([[l|]|] & tr2 & -> & Hr); cbn in Hr.
  - destruct Hr as (status & tr3 & -> & [] & tr4 & -> & -> & ->). eexists. split; [done|].
    destruct (Z.eqb_spec status 0) as [->|Hs]; cbn.
    + by exists d, l.
    + by intros x ->%list_elem_of_singleton.
  - destruct Hr as ([] & tr4 & -> & -> & ->). eexists. split; [done|]. by intros x ?%elem_of_nil.
  - destruct Hr as (code & tr3 & -> & [] & tr4 & -> & -> & ->). eexists. split; [done|]. by intros x ?%elem_of_nil.
Qed.

Lemma wp_apply w path sddl s (Q : outcome (result message ()) -> Ledger -> Prop) :
  (forall r s', handles s' = handles s -> heap s' = heap s -> impersonating s' = impersonating s -> Q (Returns r) s') ->
  wp w (apply path sddl) Q s.
Proof.
  intros HQ. apply wp_bind, wp_ask; [done|]. intros [d|] _; [|cbn; split; [done|]; intros code _; by apply HQ].
  assert (Hfree : forall b r, wp w (ask (LocalFree d) ≫= fun _ => Ret r) Q (borrows b (owns (gains (Some d)) s))).
  { intros b r. cbn. split; [constructor|]. intros [] _. apply HQ; [done|cbn; by rewrite Z.eqb_refl|done]. }
  apply wp_bind. cbn. split; [constructor|]. intros [[l|]|] _; cbn.
  - split; [exists d; split; constructor|]. intros status _. apply (Hfree (cons (l, d))).
  - apply (Hfree id).
  - split; [done|]. intros code _. apply (Hfree id).
Qed.

(** The SIDs a list for this process may let in: its own, unless that is
    SYSTEM's. *)
Lemma ourselves_are_us w me x : (forall c, me = Some c -> described (self w) c) -> x ∈ ourselves me ->
  x = id_sid (self w) /\ x <> LOCAL_SYSTEM /\ is_sid x = true.
Proof.
  intros Hd. unfold ourselves. destruct me as [c|]; [|by intros ?%elem_of_nil]. destruct (Hd c eq_refl) as [<- _].
  destruct (str_eqb (pc_sid c) LOCAL_SYSTEM) eqn:E; cbn [negb andb]; [by intros ?%elem_of_nil|].
  destruct (is_sid (pc_sid c)) eqn:Es; [|by intros ?%elem_of_nil]. intros ->%list_elem_of_singleton.
  apply str_eqb_neq in E. done.
Qed.

Lemma wp_restrict w path : wp w (restrict_to_administrators path) (fun o s =>
  handles s = [] /\ heap s = [] /\ impersonating s = false /\ exists r, o = Returns r) idle.
Proof.
  apply wp_bind. eapply wp_mono; [apply wp_current_process|]. intros o s (me & -> & Hh & Hp & Hi & _). cbn beta iota.
  apply wp_bind, wp_apply. intros r s' Hh' Hp' Hi'. cbn. rewrite Hh', Hp', Hi'. eauto.
Qed.

(** C32: restricting a file succeeds only when Windows took a list for that file, cut
    off from what it would inherit, that lets in SYSTEM, the administrators and
    nobody else but this process's own account; on every failure no list was taken;
    and either way every handle is closed and every allocation freed. *)
Theorem only_administrators_and_we_are_let_in w path tr o :
  runs (restrict_to_administrators path) tr o -> honest_trace w idle tr ->
  all_allowed idle tr
  /\ handles (at_end idle tr) = [] /\ heap (at_end idle tr) = [] /\ impersonating (at_end idle tr) = false
  /\ exists r, o = Returns r
  /\ match r with
     | Err _ => forall x, x ∈ sets tr -> snd x <> 0
     | Ok _ => exists tr1 d l sddl us,
         tr = tr1 ++ [Event (ConvertStringSecurityDescriptorToSecurityDescriptorW (wide sddl)) (Some d);
                      Event (GetSecurityDescriptorDacl d) (Some (Some l));
                      Event (SetNamedSecurityInfoW (wide path) true l) 0; Event (LocalFree d) tt]
         /\ trustees sddl = [lit "SY"; lit "BA"] ++ us
         /\ (forall x, x ∈ us -> x = id_sid (self w) /\ x <> LOCAL_SYSTEM /\ is_sid x = true)
     end.
Proof.
  intros Hr Hh. pose proof Hr as Hr'. apply runs_bind in Hr as [(tr1 & tr2 & me & -> & H1 & H2)|[H1 ->]].
  - apply honest_trace_app in Hh as Hh'. destruct Hh' as [Hh1 _].
    destruct (current_process_spec w _ _ H1 Hh1) as (_ & me' & [= <-] & _ & _ & _ & Hd).
    destruct (wp_runs _ _ _ _ _ _ (wp_restrict w path) Hr' Hh) as (Ha & Hhs & Hp & Hi & r0 & _).
    split; [done|]. split; [done|]. split; [done|]. split; [done|].
    apply runs_bind in H2 as [(tr3 & tr4 & r & -> & H3 & H4)|[H3 ->]].
    + cbn in H4. destruct H4 as [-> ->]. rewrite app_nil_r. apply apply_runs in H3 as (r' & [= <-] & Hr).
      eexists. split; [done|]. destruct r as [[]|e]; cbn [map_err applied] in *.
      * destruct Hr as (d & l & ->). exists tr1, d, l, (sddl_for me), (ourselves me). split; [done|].
        split; [apply trustees_spec|]. intros x. by apply ourselves_are_us.
      * intros x Hx. rewrite sets_app in Hx. rewrite (never_sets_runs _ _ _ (never_sets_token OpenProcessToken ltac:(by cbn)) H1) in Hx.
        by apply Hr.
    + apply apply_runs in H3 as (r & [=] & _).
  - pose proof (wp_runs _ _ _ _ _ _ (wp_restrict w path) Hr' Hh) as (_ & _ & _ & _ & r & [=]).
Qed.

(** ** The key's file

    Its contents and whether only the administrators, SYSTEM and we can read it,
    from the moment it is there. *)

Record Instant := { contents : list Z; private_ : bool }.

(** [write_protected]: on Unix the mode comes with the file; on Windows the list
    goes on before a byte does. *)
Definition write_protected_instants (windows : bool) (file : KeyFile) (key : list Z) (w : written) : list Instant :=
  match file with
  | Some _ => []
  | None =>
      let created := {| contents := []; private_ := negb windows |} in
      let restricted := {| contents := []; private_ := true |} in
      let grown n := (fun i => {| contents := take i key; private_ := true |}) <$> seq 0 (S n) in
      match w with
      | OpenFailed _ => []
      | RestrictFailed _ => [created]
      | WriteFailed n _ => created :: restricted :: grown n
      | SyncFailed _ | Durable => created :: restricted :: grown (length key)
      end
  end.

Lemma last_grown (key : list Z) n : last ((fun i => {| contents := take i key; private_ := true |}) <$> seq 0 (S n))
  = Some {| contents := take n key; private_ := true |}.
Proof. rewrite seq_S, fmap_app. cbn [fmap list_fmap]. by rewrite last_snoc. Qed.

(** the key is never in a file others could read: whatever fails and whenever
    somebody looks, the file this node makes holds a part of the key only once it
    is private; and what is there at the end is what [write_protected] left. *)
Theorem the_key_is_never_exposed windows exists_already key w :
  let l := write_protected_instants windows None key w in
  (forall i, i ∈ l -> private_ i = true \/ contents i = [])
  /\ contents <$> last l = fst (write_protected exists_already None key w).
Proof.
  assert (Hg : forall n i, i ∈ {| contents := []; private_ := negb windows |} :: {| contents := []; private_ := true |}
      :: ((fun i => {| contents := take i key; private_ := true |}) <$> seq 0 (S n)) ->
    private_ i = true \/ contents i = []).
  { intros n i Hi. rewrite !elem_of_cons, list_elem_of_fmap in Hi. destruct Hi as [->|[->|(k & -> & _)]]; auto. }
  assert (Hl : forall n, contents <$> last ({| contents := []; private_ := negb windows |} :: {| contents := []; private_ := true |}
      :: ((fun i => {| contents := take i key; private_ := true |}) <$> seq 0 (S n))) = Some (take n key)).
  { intros n. rewrite !last_cons, last_grown. done. }
  destruct w; cbn [write_protected_instants write_protected fst]; (split; [try apply Hg|rewrite ?Hl, ?firstn_all; try done]).
  - by intros i ?%elem_of_nil.
  - intros i ->%list_elem_of_singleton. by right.
Qed.

(** ** A file of a service's *)

Module Locked.
Definition path : rstr := lit "C:\ProgramData\quix\key".
Definition tr : list event := fst (ran Desk.os (restrict_to_administrators path)).
Lemma tr_runs : runs (restrict_to_administrators path) tr (Returns (Ok tt)).
Proof. apply (ran_runs Desk.os (restrict_to_administrators path)). Qed.
Lemma tr_honest : honest_trace Desk.windows idle tr.
Proof.
  cbn. repeat split; try done; try lia. exists []. split; [done|]. apply (Desk.ascii_sid Desk.service). by right.
Qed.
End Locked.

Example only_administrators_and_we_are_let_in_witness :
  all_allowed idle Locked.tr /\ handles (at_end idle Locked.tr) = [] /\ sets Locked.tr = [(wide Locked.path, true, 3008, 0)].
Proof.
  destruct (only_administrators_and_we_are_let_in Desk.windows Locked.path _ _ Locked.tr_runs Locked.tr_honest) as (Ha & Hh & _).
  split; [exact Ha|]. split; [exact Hh|]. reflexivity.
Defined.
