(* ===== verification/Daemon.v ===== *)
(** * The daemon's life ([daemon/src/main.rs])

    What [run] starts, in which order, and what it takes down again, given what
    every part comes to. *)

From S2P Require Import Prelude External Proto Names Net Tun Membership MembershipProps MembershipLookup Peers Routes Files Node NodeProps Resolv Registration Startup.

Local Abbreviation list := Datatypes.list.

(** What the daemon does, in order.  The parts that go on by themselves are
    written where they are started. *)
Inductive deed :=
  | Binds                             (* the endpoint, under the node's key *)
  | AwaitsRelay (found : bool)        (* up to ten seconds *)
  | TunUp (v4 v6 : IpAddr)
  | Seeds                             (* [refresh_routes] *)
  | AcceptsLinks                      (* the router, for all three protocols *)
  | ServesZone
  | ClaimsZone (events : list event)
  | Forwards
  | DialsMembers
  | ServesLocally (ended : option (result message ()))   (* [None]: told to stop *)
  | HandsZoneBack (events : list event)
  | ShutsRouter.

Section Daemon.
Context `{!EndpointIds, !Sha256} {Link : Type}.

(** What each part comes to; [while_up] and [while_stopping] are what the
    background registration sees while the daemon serves and while it stops. *)
Record Parts := {
  identity : result message (list Z);
  bound : list Z -> result message EndpointId;
  relay : bool;
  tun : result message ();
  roster_file : result message Membership;
  settings_file : result message Settings;
  host : World;
  interface_name : rstr;
  resolver : option (list SocketAddr);                   (* [dns::bind]'s candidates *)
  os : Os;
  reachable : option SocketAddr;
  fallback_addr : rstr;
  tool : Command -> output;
  while_up : list input;
  while_stopping : list input;
  served : option (result message ());
  closed : result message ();
}.

(** From the state on: the router, the zone, the two tasks, and serving until
    told to stop. *)
Definition serve (d : Parts) : list deed * result message () :=
  let registration :=
    candidates ← resolver d;
    Some (start (os d) (interface_name d) candidates (reachable d) (fallback_addr d) (tool d)) in
  (AcceptsLinks
     :: match registration with Some r => [ServesZone; ClaimsZone (so_far r)] | None => [] end
     ++ [Forwards; DialsMembers; ServesLocally (served d)]
     ++ match registration with Some r => [HandsZoneBack (fst (stop r (while_up d) (while_stopping d)))] | None => [] end
     ++ [ShutsRouter],
   _ ← closed d; match served d with Some r => r | None => Ok tt end).

(** [run]: what was done, the state it serves with, and how it ended. *)
Definition run (d : Parts) : list deed * option (State (Link := Link)) * result message () :=
  match identity d with
  | Err e => ([], None, Err e)
  | Ok key =>
      match bound d key with
      | Err e => ([], None, Err e)
      | Ok endpoint =>
          let '(v4, v6) := virtual_addrs (id_bytes endpoint) in
          let up := [Binds; AwaitsRelay (relay d)] in
          match tun d with
          | Err e => (up, None, Err e)
          | Ok _ =>
              let up := up ++ [TunUp v4 v6] in
              match Node.new endpoint (interface_name d) (roster_file d) (settings_file d) with
              | Err e => (up, None, Err e)
              | Ok n =>
                  let '(deeds, res) := serve d in
                  (up ++ Seeds :: deeds, Some (refresh_routes (host d) n), res)
              end
          end
      end
  end.

(** ** Properties *)

(** What serving needs. *)
Definition can_serve (d : Parts) : Prop :=
  exists key endpoint m, identity d = Ok key /\ bound d key = Ok endpoint /\ tun d = Ok tt /\ roster_file d = Ok m.

(** What is done before there is a state. *)
Definition preparing (x : deed) : bool := match x with Binds | AwaitsRelay _ | TunUp _ _ => true | _ => false end.

Lemma run_cases d :
  (exists key endpoint n before, identity d = Ok key /\ bound d key = Ok endpoint /\ tun d = Ok tt
    /\ Node.new (Link := Link) endpoint (interface_name d) (roster_file d) (settings_file d) = Ok n
    /\ run d = (before ++ Seeds :: fst (serve d), Some (refresh_routes (host d) n), snd (serve d))
    /\ forallb preparing before = true)
  \/ ~ can_serve d /\ exists before e, run d = (before, None, Err e) /\ forallb preparing before = true.
Proof.
  unfold run, can_serve. destruct (identity d) as [key|e]; [|right; split; [intros (k' & ep & m' & Hk & Hb & Ht & Hr); congruence|by eexists [], e]].
  destruct (bound d key) as [endpoint|e] eqn:Eb; [|right; split; [intros (k' & ep & m' & Hk & Hb & Ht & Hr); congruence|by eexists [], e]].
  destruct (virtual_addrs _) as [v4 v6]. destruct (tun d) as [[]|e]; [|right; split; [intros (k' & ep & m' & Hk & Hb & Ht & Hr); congruence|by eexists _, e]].
  destruct (roster_file d) as [m|e]; [|right; split; [intros (k' & ep & m' & Hk & Hb & Ht & Hr); congruence|by eexists _, e]].
  left. cbn [Node.new mbind result_bind]. destruct (serve d) as [deeds res]. eexists key, endpoint, _, _. by split_and!.
Qed.

Lemma not_preparing before x : forallb preparing before = true -> preparing x = false -> x ∉ before.
Proof. intros Hb Hx Hin. rewrite forallb_forall in Hb. apply list_elem_of_In, Hb in Hin. congruence. Qed.

(** Serving lets the zone go last but for the router. *)
Lemma serve_hands_back d events : ClaimsZone events ∈ fst (serve d) ->
  exists before back, fst (serve d) = before ++ [HandsZoneBack back; ShutsRouter] /\ forall other, HandsZoneBack other ∉ before.
Proof.
  unfold serve. cbv zeta. cbn [fst]. destruct (c ← resolver d; _) as [r|]; [|intros Hin; set_solver]. intros _.
  eexists [AcceptsLinks; ServesZone; ClaimsZone (so_far r); Forwards; DialsMembers; ServesLocally (served d)], _.
  split; [done|]. intros other Hin. set_solver.
Qed.

Lemma serve_result d : snd (serve d) = Ok () <-> closed d = Ok () /\ (served d = None \/ served d = Some (Ok ())).
Proof. unfold serve. cbv zeta. cbn [snd]. destruct (closed d) as [[]|e], (served d) as [[[]|e']|]; cbn; naive_solver. Qed.

Lemma run_result d : snd (run d) = Ok () <-> can_serve d /\ closed d = Ok () /\ (served d = None \/ served d = Some (Ok ())).
Proof.
  destruct (run_cases d) as [(key & endpoint & n & before & Hk & Hb & Ht & Hn & -> & _)|(Hno & before & e & -> & _)]; cbn [snd].
  - assert (Hcan : can_serve d).
    { unfold Node.new in Hn. destruct (roster_file d) as [m|] eqn:Er; [|done]. by exists key, endpoint, m. }
    rewrite serve_result. naive_solver.
  - split; [done|]. by intros [? _].
Qed.

(** The state as it is seeded. *)
Lemma seeded_fields w endpoint iface roster set (n : State (Link := Link)) : Node.new endpoint iface roster set = Ok n ->
  let n' := refresh_routes w n in
  own n' = endpoint /\ roster = Ok (membership n') /\ Peers.routes (peers n') = foldl add_routes ∅ (other_ids n')
  /\ links (peers n') = ∅ /\ ((forall c, succeeds w c = true) -> in_step n').
Proof.
  unfold Node.new. destruct roster as [m|]; [|done]. intros [= <-]. cbv zeta.
  match goal with |- context [refresh_routes w ?b] => set (base := b) end.
  destruct (refresh_fields w base) as (Hm & _ & Ho). rewrite Hm, Ho. split; [done|]. split; [done|].
  split; [|split; [|intros Hw; apply refresh_in_step; [done|done|apply inv_default|done]]].
  - unfold refresh_routes. destruct (Files.set_roster _ _).
    assert (Hr : Peers.routes (fst (set_routes (peers base) (other_ids base))) = foldl add_routes ∅ (other_ids base)) by done.
    destruct (set_routes _ _) as [p dropped]. cbn [fst] in Hr. by destruct (Routes.sync _ _ _ _).
  - unfold refresh_routes. destruct (Files.set_roster _ _). pose proof (set_routes_links (peers base) (other_ids base)) as Hl.
    destruct (set_routes _ _) as [p dropped]. cbn [fst] in Hl. destruct (Routes.sync _ _ _ _).
    apply map_empty. intros id. cbn. destruct (links p !! id) as [c|] eqn:E; [|done]. exfalso.
    apply Hl in E as [E _]. assert (Hz : links (peers base) = ∅) by done. by rewrite Hz, lookup_empty in E.
Qed.

(** C37: A daemon comes up whole or not at all.  It serves exactly when it has its key,
    its endpoint, the interface and a roster it can read, whatever became of the
    relay, the settings and the resolver; nobody is let in before the routes are
    seeded from the roster, and the state it then serves with is that roster, under
    the key that was loaded, with its table routing to the roster's other members
    and no links yet.  It is in step if the system took every route; one that it
    did not take is only warned about, and the daemon serves all the same.  A
    resolver that claimed the zone gives it back, after everything that was started
    and just before the router goes, however serving ended; and it is a failure exactly when something it needs failed. *)
Theorem the_daemon_comes_up_whole_or_not_at_all d :
  let '(deeds, state, res) := run d in
  (can_serve d <-> is_Some state)
  /\ (forall n, state = Some n -> (exists key, identity d = Ok key /\ bound d key = Ok (own n))
       /\ roster_file d = Ok (membership n) /\ Peers.routes (peers n) = foldl add_routes ∅ (other_ids n) /\ links (peers n) = ∅
       /\ ((forall c, succeeds (host d) c = true) -> in_step n)
       /\ exists before, deeds = before ++ Seeds :: fst (serve d) /\ AcceptsLinks ∉ before /\ Seeds ∉ before
            /\ [Forwards; DialsMembers; ServesLocally (served d)] ⊆ fst (serve d))
  /\ (state = None -> (forall x, x ∈ deeds -> preparing x = true) /\ exists e, res = Err e)
  /\ (forall events, ClaimsZone events ∈ deeds -> exists before back, deeds = before ++ [HandsZoneBack back; ShutsRouter]
        /\ forall other, HandsZoneBack other ∉ before)
  /\ (res = Ok () <-> can_serve d /\ closed d = Ok () /\ (served d = None \/ served d = Some (Ok ()))).
Proof.
  destruct (run_cases d) as [(key & endpoint & n & before & Hk & Hb & Ht & Hn & -> & Hp)|(Hno & before & e & -> & Hp)].
  - assert (Hcan : can_serve d).
    { unfold Node.new in Hn. destruct (roster_file d) as [m|] eqn:Er; [|done]. by exists key, endpoint, m. }
    split; [split; eauto|]. split; [|split; [done|split]].
    + intros n' [= <-]. destruct (seeded_fields (host d) _ _ _ _ n Hn) as (Ho & Hr & Hro & Hl & Hstep).
      split; [exists key; split; [done|]; by rewrite Hb, Ho|]. split; [done|]. split; [done|]. split; [done|]. split; [done|].
      exists before. split; [done|]. split; [by apply not_preparing|]. split; [by apply not_preparing|].
      unfold serve. cbv zeta. cbn [fst]. set_solver.
    + intros events Hin. apply elem_of_app in Hin as [Hin|[?|Hin]%elem_of_cons]; [by apply (not_preparing _ _ Hp) in Hin|done|].
      destruct (serve_hands_back d events Hin) as (b & back & -> & Hno). exists (before ++ Seeds :: b), back.
      split; [by rewrite <- app_assoc|]. intros other. rewrite elem_of_app, elem_of_cons. intros [Hi|[?|Hi]]; [by apply (not_preparing _ _ Hp) in Hi|done|by apply Hno in Hi].
    + rewrite serve_result. naive_solver.
  - split; [split; [done|by intros []]|]. split; [done|]. split; [|split].
    + intros _. split; [|by exists e]. intros x Hin. rewrite forallb_forall in Hp. apply list_elem_of_In, Hp in Hin. by destruct x.
    + intros events Hin. by apply (not_preparing _ _ Hp) in Hin.
    + split; [done|]. by intros [? _].
Qed.
End Daemon.

(** ** Witness *)

Import Concrete.

Module DaemonDemo.
Definition parts : Parts :=
  {| identity := Ok (replicate 32 7); bound := fun _ => Ok NodeDemo.k1; relay := false; tun := Ok tt; roster_file := Ok Demo.state;
     settings_file := Err (Fmt "parse" []); host := NodeDemo.world; interface_name := lit "quix"; resolver := Some []; os := Linux;
     reachable := None; fallback_addr := []; tool := fun _ => Success; while_up := []; while_stopping := [];
     served := None; closed := Ok tt |}.
End DaemonDemo.

Example the_daemon_comes_up_whole_or_not_at_all_witness :
  snd (Daemon.run (Link := unit) DaemonDemo.parts) = Ok tt.
Proof.
  pose proof (the_daemon_comes_up_whole_or_not_at_all (Link := unit) DaemonDemo.parts) as Hd.
  destruct (Daemon.run DaemonDemo.parts) as [[deeds state] res]. destruct Hd as (_ & _ & _ & _ & Hr).
  apply Hr. split; [|split; [reflexivity|by left]]. exists (replicate 32 7), NodeDemo.k1, Demo.state. split_and!; reflexivity.
Defined.
