(* ===== verification/Storage.v ===== *)
(** * The roster and the settings on disk ([load], [save] and [path] of [daemon/src/membership.rs] and [daemon/src/settings.rs])

    Where the two files are, the states a file goes through while it is saved, what
    is read of each of them, and what a daemon that stops at any moment comes back
    with. *)

From S2P Require Import Prelude External Proto Names Net Utf8 Membership MembershipProps Files Node NodeProps Startup Daemon.

Local Abbreviation list := Datatypes.list.

(** ** Where *)

(** [path] of the module whose environment variable and file name are given. *)
Definition path_of (name : rstr) (custom config_dir : option rstr) (join : rstr -> rstr -> rstr) : result message rstr :=
  match custom with
  | Some custom => Ok custom
  | None =>
      dir ← ok_or (Fmt "resolve config dir" []) config_dir;
      Ok (join (join dir (lit "quix")) name)
  end.

(** [QUIX_NETWORK_PATH] and [QUIX_SETTINGS_PATH]. *)
Definition network_path := path_of (lit "network.json").
Definition settings_path := path_of (lit "settings.json").

(** ** Saving and loading *)

(** A file's bytes, if it is there. *)
Definition File : Type := option (list Z).

(** How far [std::fs::write] gets: it empties the file, or makes it, and then
    writes. *)
Inductive write_outcome := CannotOpen (e : message) | Breaks (n : nat) (e : message) | Whole.

(** The states of the file from when it is opened. *)
Definition write_instants (data : list Z) (w : write_outcome) : list File :=
  match w with
  | CannotOpen _ => []
  | Breaks n _ => (fun i => Some (take i data)) <$> seq 0 (S n)
  | Whole => (fun i => Some (take i data)) <$> seq 0 (S (length data))
  end.

Section Saved.
Context {A : Type}.
(** [serde_json::to_string_pretty] and [from_str] of the file's type. *)
Variable to_string_pretty : A -> result message rstr.
Variable from_str : rstr -> result message A.
Variable default_ : A.

(** [save]: the states the file goes through and the result. *)
Definition save (path : result message rstr) (mkdir : result message ()) (w : write_outcome) (a : A) : list File * result message () :=
  match path with
  | Err e => ([], Err e)
  | Ok _ =>
      match mkdir with
      | Err e => ([], Err e)
      | Ok _ =>
          match to_string_pretty a with
          | Err e => ([], Err e)
          | Ok text =>
              (write_instants (as_bytes text) w, match w with CannotOpen e | Breaks _ e => Err e | Whole => Ok tt end)
          end
      end
  end.

(** [read_to_string] of the file. *)
Definition read (file : File) : read_outcome :=
  match file with
  | None => NotFound
  | Some bytes => match from_utf8 bytes with Some text => Read text | None => ReadError (Fmt "stream did not contain valid UTF-8" []) end
  end.

(** [load] as both files have it. *)
Definition load_file (file : File) : result message A :=
  match read file with
  | Read data => map_err (fun e => Fmt "parse {}" [e]) (from_str (trim_start_matches (N.eqb 65279) data))
  | NotFound => Ok default_
  | ReadError e => Err (Fmt "read {}" [e])
  end.

(** What is relied on of JSON: a value is read back as it was written, its text is
    of characters and does not begin with a byte order mark, and a text cut short
    is no value's. *)
Record faithful : Prop := {
  reads_back : forall a s, to_string_pretty a = Ok s -> from_str s = Ok a;
  is_text : forall a s, to_string_pretty a = Ok s -> Forall scalar s /\ trim_start_matches (N.eqb 65279) s = s;
  cut_short : forall a s k, to_string_pretty a = Ok s -> (k < length s)%nat -> exists e, from_str (take k s) = Err e;
}.

Lemma load_whole a s : faithful -> to_string_pretty a = Ok s -> load_file (Some (as_bytes s)) = Ok a.
Proof.
  intros [H1 H2 H3] Hs. destruct (H2 a s Hs) as [Hc Ht]. unfold load_file, read. rewrite from_utf8_as_bytes by done.
  by rewrite Ht, (H1 a s Hs).
Qed.

Lemma take_no_bom (s : rstr) k : trim_start_matches (N.eqb 65279) s = s -> trim_start_matches (N.eqb 65279) (take k s) = take k s.
Proof.
  intros Hs. destruct s as [|c s], k as [|k]; try done. unfold trim_start_matches in *. cbn [take drop_while] in *.
  destruct (N.eqb 65279 c) eqn:E; [|done]. exfalso. apply (f_equal length) in Hs. destruct (drop_while_suffix (N.eqb 65279) s) as (p & Hp & _).
  apply (f_equal length) in Hp. rewrite length_app in Hp. cbn in Hs. lia.
Qed.

Lemma load_cut a s n : faithful -> to_string_pretty a = Ok s -> (n < length (as_bytes s))%nat ->
  exists e, load_file (Some (take n (as_bytes s))) = Err e.
Proof.
  intros [H1 H2 H3] Hs Hn. destruct (H2 a s Hs) as [Hc Ht]. unfold load_file, read.
  destruct (from_utf8 (take n (as_bytes s))) as [t|] eqn:E; [|by eexists].
  apply from_utf8_cut in E as (k & Hk & ->); [|done..]. rewrite take_no_bom by done.
  destruct (H3 a s k Hs Hk) as [e ->]. by eexists.
Qed.

(** What is loaded of every state a save puts the file in: what was saved, once it
    is whole, and an error until then. *)
Lemma load_instants a s w file : faithful -> to_string_pretty a = Ok s -> file ∈ write_instants (as_bytes s) w ->
  (file = Some (as_bytes s) /\ load_file file = Ok a) \/ exists e, load_file file = Err e.
Proof.
  intros Hf Hs Hin. assert (Hi : exists i, file = Some (take i (as_bytes s))).
  { destruct w as [e|n e|]; cbn [write_instants] in Hin; [by apply elem_of_nil in Hin|..];
      apply list_elem_of_fmap in Hin as (i & -> & _); by exists i. }
  destruct Hi as [i ->]. destruct (decide (i < length (as_bytes s))%nat) as [Hlt|Hge].
  - right. by eapply load_cut.
  - left. rewrite take_ge by lia. split; [done|]. by apply load_whole.
Qed.

Lemma last_whole (data : list Z) : last (write_instants data Whole) = Some (Some data).
Proof. cbn [write_instants]. rewrite seq_S, fmap_app. cbn [fmap list_fmap]. by rewrite last_snoc, Nat.add_0_l, firstn_all. Qed.

(** C33: saving is kept: what a save that succeeded wrote is what is loaded, whatever
    was there before; and of every state it goes through on the way, which a daemon
    that is stopped leaves behind, either all of it is loaded or nothing can be,
    never a part or a mixture. *)
Theorem what_is_saved_is_loaded path mkdir w a old : faithful ->
  let '(states, res) := save path mkdir w a in
  (res = Ok () -> load_file (default old (last states)) = Ok a)
  /\ (forall file, file ∈ states -> load_file file = Ok a \/ exists e, load_file file = Err e)
  /\ (states = [] -> exists e, res = Err e).
Proof.
  intros Hf. unfold save. destruct path as [p|e]; [|split; [done|]; split; [by intros f ?%elem_of_nil|by eexists]].
  destruct mkdir as [[]|e]; [|split; [done|]; split; [by intros f ?%elem_of_nil|by eexists]].
  destruct (to_string_pretty a) as [s|e] eqn:Es; [|split; [done|]; split; [by intros f ?%elem_of_nil|by eexists]].
  split; [|split].
  - destruct w; try done. intros _. rewrite last_whole. cbn [default]. by apply load_whole.
  - intros file Hin. destruct (load_instants a s w file Hf Es Hin) as [[_ ?]|?]; auto.
  - destruct w; cbn [write_instants]; [by eexists|by eexists|]. rewrite seq_S, fmap_app. by intros [_ ?]%app_eq_nil.
Qed.
End Saved.

(** Both files are read alike. *)
Lemma load_roster from_str file : load_file from_str Membership_default file = Membership.load from_str (read file).
Proof. done. Qed.
Lemma load_settings from_str file : load_file from_str Settings_default file = settings_load from_str (read file).
Proof. done. Qed.

(** [Membership::save] and [Settings::save]. *)
Definition membership_save := save (A := Membership).
Definition settings_save := save (A := Settings).

(** ** Stopping and starting again *)

Section Restarts.
Context `{!EndpointIds, !Sha256} {Link : Type}.
Variable to_string_pretty : Membership -> result message rstr.
Variable from_str : rstr -> result message Membership.
Hypothesis Hjson : faithful to_string_pretty from_str.
Implicit Types n : Node.State (Link := Link).

(** a daemon that is stopped and started again is in the network it was in: where
    the file holds what the node last saved, the new one has the same members under
    the same key, and once it has seeded its routes every part of it agrees with
    them. *)
Theorem a_restart_changes_nobody w n iface settings s : in_step n -> fair w -> to_string_pretty (saved n) = Ok s ->
  exists n', Node.new (own n) iface (Membership.load from_str (read (Some (as_bytes s)))) settings = Ok n'
  /\ own n' = own n /\ membership n' = saved n /\ members (membership n') = members (membership n)
  /\ in_step (refresh_routes w n').
Proof.
  intros Hn Hw Hs. rewrite <- load_roster, (load_whole _ _ _ _ _ Hjson Hs). eexists. split; [reflexivity|].
  split; [done|]. split; [done|]. split; [apply Hn|]. by apply (new_in_step w (own n) iface (Ok (saved n)) settings).
Qed.

(** but saving is not atomic: a daemon stopped while it saves can leave a roster
    that no daemon starts with, until somebody repairs or removes the file. *)
Theorem a_save_cut_short_keeps_the_daemon_down m s : to_string_pretty m = Ok s -> s <> [] ->
  exists file, file ∈ fst (membership_save to_string_pretty (Ok []) (Ok tt) Whole m)
  /\ forall d, roster_file d = Membership.load from_str (read file) ->
     ~ can_serve d /\ snd (Daemon.run (Link := Link) d) <> Ok tt.
Proof.
  intros Hs Hne. exists (Some []). unfold membership_save, save. rewrite Hs. cbn [fst]. split; [cbn [write_instants seq]; rewrite fmap_cons; by left|].
  intros d Hd. assert (Hlen : (0 < length (as_bytes s))%nat).
  { destruct s as [|c s]; [done|]. cbn [as_bytes]. rewrite length_app. unfold encode_char. repeat case_match; cbn; lia. }
  destruct (load_cut _ _ Membership_default m s 0 Hjson Hs Hlen) as [e He]. rewrite load_roster in He. change (take 0 (as_bytes s)) with (@nil Z) in He. rewrite He in Hd.
  assert (Hno : ~ can_serve d) by (intros (k & ep & m' & _ & _ & _ & Hr); congruence).
  split; [done|]. intros Hr%run_result. tauto.
Qed.
End Restarts.

(** settings that cannot be read are not fatal, whatever is in the file: the daemon
    starts without an operator. *)
Theorem damaged_settings_name_no_operator `{!EndpointIds} {Link : Type} endpoint iface m e :
  exists n : Node.State (Link := Link), Node.new endpoint iface (Ok m) (Err e) = Ok n
  /\ operator n = {| uid := None; sid := None |} /\ membership n = m.
Proof. eexists. by split. Qed.

(** ** A roster on disk *)

Import Concrete.

Module StorageDemo.
(** Enough of JSON for one roster. *)
Definition text : rstr := lit "{}".
Definition out (m : Membership) : result message rstr :=
  if bool_decide (members m = [] /\ bindings m = ∅ /\ pending_invites m = ∅ /\ network_name m = None /\ coordinator_id m = None /\ network_id m = None)
  then Ok text else Err (Fmt "" []).
Definition into (s : rstr) : result message Membership := if str_eqb s text then Ok Membership_default else Err (Fmt "EOF while parsing" []).

Lemma out_ok m s : out m = Ok s -> m = Membership_default /\ s = text.
Proof.
  unfold out. case_bool_decide as H; [|done]. intros [= <-]. split; [|done]. destruct m. cbn in H.
  by destruct H as (-> & -> & -> & -> & -> & ->).
Qed.

Lemma json : faithful out into.
Proof.
  split.
  - by intros m s [-> ->]%out_ok.
  - intros m s [-> ->]%out_ok. split; [|done]. repeat constructor.
  - intros m s k [-> ->]%out_ok Hk. destruct k as [|[|k]]; [by eexists..|cbn in Hk; lia].
Qed.
End StorageDemo.

Example a_restart_changes_nobody_witness :
  exists n', Node.new NodeDemo.k1 (lit "quix") (Membership.load StorageDemo.into (read (Some (as_bytes StorageDemo.text)))) (Ok Settings_default) = Ok n'
  /\ in_step (Link := unit) (refresh_routes NodeDemo.world n').
Proof.
  pose (n0 := {| own := NodeDemo.k1; membership := Membership_default; saved := Membership_default; settings := Settings_default;
    saved_settings := Settings_default; Node.peers := Peers.Peers_default; Node.routes := Routes.new (lit "quix"); kernel := ∅; conflicts := [];
    dns := Unavailable None None; dial_tx := []; files := Registry_default; effects := [] |} : Node.State (Link := unit)).
  assert (Hs : in_step (refresh_routes NodeDemo.world n0))
    by exact (new_in_step NodeDemo.world NodeDemo.k1 (lit "quix") (Ok Membership_default) (Ok Settings_default) n0 NodeDemo.fair_world eq_refl).
  destruct (a_restart_changes_nobody StorageDemo.out StorageDemo.into StorageDemo.json NodeDemo.world (refresh_routes NodeDemo.world n0) (lit "quix")
    (Ok Settings_default) StorageDemo.text Hs NodeDemo.fair_world ltac:(by vm_compute)) as (n' & Hn & _ & _ & _ & Hi).
  exists n'. split; [exact Hn|exact Hi].
Defined.

Example what_is_saved_is_loaded_witness :
  load_file StorageDemo.into Membership_default (default None (last (fst (save StorageDemo.out (Ok []) (Ok tt) Whole Membership_default)))) = Ok Membership_default.
Proof.
  pose proof (what_is_saved_is_loaded StorageDemo.out StorageDemo.into Membership_default (Ok []) (Ok tt) Whole Membership_default None StorageDemo.json) as Hs.
  destruct (save StorageDemo.out (Ok []) (Ok ()) Whole Membership_default) as [states res] eqn:E. cbn [fst].
  assert (Hr : res = Ok tt) by (vm_compute in E; congruence). exact (proj1 Hs Hr).
Defined.
