(* ===== verification/Host.v ===== *)
(** * The daemon and its host ([daemon/src/service.rs], [daemon/src/log.rs], [shutdown_signal] of [daemon/src/main.rs])

    What asks the daemon to stop, what the Windows service manager is told, and
    where a line of the log goes. *)

From S2P Require Import Prelude External Proto MembershipProps Node NodeProps Startup Daemon.

Local Abbreviation list := Datatypes.list.

(** ** Being asked to stop *)

Inductive signal := CtrlC | Terminate.
#[export] Instance signal_eq_dec : EqDecision signal.
Proof. solve_decision. Defined.

(** Whether the future resolves once these have come in since it was made:
    [terminate] is how installing the second handler went, which only Unix has,
    and [ctrl_c] whether Ctrl+C can be waited for; where it cannot, waiting ends at
    once. *)
Definition shutdown_signal (unix : bool) (terminate : result message ()) (ctrl_c : bool) (l : list signal) : bool :=
  let interrupted := negb ctrl_c || bool_decide (CtrlC ∈ l) in
  if unix then
    match terminate with Ok _ => interrupted || bool_decide (Terminate ∈ l) | Err _ => interrupted end
  else interrupted.

(** ** The Windows service *)

Inductive ServiceControl := Interrogate | Stop | Shutdown | OtherControl (code : Z).
Inductive ServiceControlHandlerResult := NoError | NotImplemented.
Inductive ServiceState := Running | Stopped.
Inductive ServiceExitCode := Win32 (code : Z) | ServiceSpecific (code : Z).
Record ServiceStatus := { current_state : ServiceState; controls_accepted : list ServiceControl; exit_code : ServiceExitCode }.

#[export] Instance ServiceControl_eq_dec : EqDecision ServiceControl.
Proof. solve_decision. Defined.

(** The handler: its answer, and whether it asks the daemon to stop. *)
Definition handler (control : ServiceControl) : ServiceControlHandlerResult * bool :=
  match control with
  | Interrogate => (NoError, false)
  | Stop | Shutdown => (NoError, true)
  | OtherControl _ => (NotImplemented, false)
  end.

(** What the daemon's thread waits for has come. *)
Definition told_to_stop (controls : list ServiceControl) : bool := existsb (fun c => snd (handler c)) controls.

(** How each step of serving goes; [report] is of each status. *)
Record Manager := {
  register : result message ();
  report : ServiceState -> result message ();
  runtime : result message ();
}.

Definition status (state : ServiceState) (controls : list ServiceControl) (code : ServiceExitCode) : ServiceStatus :=
  {| current_state := state; controls_accepted := controls; exit_code := code |}.

Definition ended (result : result message ()) : ServiceExitCode :=
  match result with Ok _ => Win32 0 | Err _ => ServiceSpecific 1 end.

(** [serve]: what the service manager was told, in order, and the result; the
    daemon is only run with a runtime to run it on. *)
Definition serve (w : Manager) (daemon : result message ()) : list ServiceStatus * result message () :=
  match register w with
  | Err e => ([], Err e)
  | Ok _ =>
      let running := status Running [Stop; Shutdown] (Win32 0) in
      match report w Running with
      | Err e => ([running], Err e)
      | Ok _ =>
          match runtime w with
          | Err e => ([running], Err e)
          | Ok _ =>
              let told := [running; status Stopped [] (ended daemon)] in
              match report w Stopped with Err e => (told, Err e) | Ok _ => (told, daemon) end
          end
      end
  end.

(** [service_main]: what goes wrong is only logged. *)
Definition service_main (w : Manager) (daemon : result message ()) : list ServiceStatus * option message :=
  let '(told, res) := serve w daemon in
  (told, match res with Err e => Some (Fmt "service failed: {e}" [e]) | Ok _ => None end).

Section Service.
Context `{!EndpointIds, !Sha256} {Link : Type}.

(** a service that could be registered, reported and run tells the manager that it
    runs and what it can be asked, and, once the daemon has ended, that it has
    stopped and how: with code 0 exactly when the daemon had all it needs, nothing
    failed while it served and its router closed. *)
Theorem the_manager_is_told w (d : Parts) :
  register w = Ok () -> (forall s, report w s = Ok ()) -> runtime w = Ok () ->
  let '(told, res) := serve w (snd (run (Link := Link) d)) in
  exists code, told = [status Running [Stop; Shutdown] (Win32 0); status Stopped [] code]
  /\ res = snd (run (Link := Link) d)
  /\ (code = Win32 0 <-> can_serve d /\ closed d = Ok () /\ (served d = None \/ served d = Some (Ok ())))
  /\ (code <> Win32 0 -> code = ServiceSpecific 1).
Proof.
  intros Hg Hp Hr. unfold serve. rewrite Hg, !Hp, Hr. exists (ended (snd (run (Link := Link) d))). split; [done|]. split; [done|].
  rewrite <- (run_result (Link := Link) d). unfold ended. destruct (snd (run d)) as [[]|e]; naive_solver.
Qed.

(** without a runtime the manager is left believing that the service runs. *)
Theorem a_service_without_a_runtime_never_stops w daemon e :
  register w = Ok () -> (forall s, report w s = Ok ()) -> runtime w = Err e ->
  serve w daemon = ([status Running [Stop; Shutdown] (Win32 0)], Err e).
Proof. intros Hg Hp Hr. unfold serve. by rewrite Hg, Hp, Hr. Qed.
End Service.

(** every control the service says it accepts is answered, and exactly those two
    ask the daemon to stop. *)
Theorem accepted_controls_stop_the_daemon w daemon controls s c :
  s ∈ fst (serve w daemon) ->
  (c ∈ controls_accepted s -> handler c = (NoError, true))
  /\ (told_to_stop controls = true <-> Stop ∈ controls \/ Shutdown ∈ controls).
Proof.
  intros Hs. split.
  - assert (Hc : controls_accepted s = [Stop; Shutdown] \/ controls_accepted s = []).
    { unfold serve in Hs. destruct (register w); [|by apply elem_of_nil in Hs]. destruct (report w Running);
        [|apply list_elem_of_singleton in Hs as ->; by left]. destruct (runtime w); [|apply list_elem_of_singleton in Hs as ->; by left].
      assert (Hs' : s ∈ [status Running [Stop; Shutdown] (Win32 0); status Stopped [] (ended daemon)]) by (by destruct (report w Stopped)).
      rewrite !elem_of_cons, elem_of_nil in Hs'. destruct Hs' as [->|[->|[]]]; [by left|by right]. }
    destruct Hc as [->| ->]; [|by intros ?%elem_of_nil]. rewrite !elem_of_cons, elem_of_nil. by intros [->|[->|[]]].
  - unfold told_to_stop. rewrite existsb_exists. split.
    + intros (x & Hx & Hs'). apply list_elem_of_In in Hx. destruct x; try done; [by left|by right].
    + intros [Hx|Hx]; apply list_elem_of_In in Hx; eauto.
Qed.

(** ** The log *)

Inductive logged :=
  | Stdout (m : message)
  | Stderr (m : message)
  | CreatesDir (path : rstr)
  | Opens (path : rstr) (ok : bool)
  | Line (path : rstr) (level : rstr) (m : message).      (* with the time, flushed *)

(** What a log finds when it is first used and later: [QUIX_LOG_PATH], the
    directory of a path, whether it opens for appending, and whether the file's
    lock is sound. *)
Record Disk := { log_path : option rstr; parent : rstr -> option rstr; opens : rstr -> result message (); lockable : bool }.

(** [FILE]: not tried yet, tried in vain, or the file open at a path. *)
Definition Cell : Type := option (option rstr).

(** [file], with what it does. *)
Definition file (disk : Disk) (FILE : Cell) : Cell * option rstr * list logged :=
  match FILE with
  | Some f => (FILE, f, [])
  | None =>
      match log_path disk with
      | None => (Some None, None, [])
      | Some path =>
          let dirs := match parent disk path with Some p => [CreatesDir p] | None => [] end in
          match opens disk path with
          | Ok _ => (Some (Some path), Some path, dirs ++ [Opens path true])
          | Err e => (Some None, None, dirs ++ [Opens path false; Stderr (Fmt "could not open {}: {e}" [Text path; e])])
          end
      end
  end.

(** [write]: a record of a level and a message. *)
Definition write (disk : Disk) (FILE : Cell) (level : rstr) (m : message) : Cell * list logged :=
  let console := if str_eqb level (lit "WARN") then Stderr m else Stdout m in
  let '(FILE, f, acts) := file disk FILE in
  (FILE, console :: acts ++ match f with Some path => if lockable disk then [Line path level m] else [] | None => [] end).

(** A daemon's log, each message on the disk as it then is. *)
Fixpoint writes (FILE : Cell) (l : list (Disk * rstr * message)) : list logged :=
  match l with
  | [] => []
  | (disk, level, m) :: l => let '(FILE, acts) := write disk FILE level m in acts ++ writes FILE l
  end.

Definition opening (x : logged) : bool := match x with Opens _ _ => true | _ => false end.
Definition lines (l : list logged) : list (rstr * rstr * message) :=
  omap (fun x => match x with Line path level m => Some (path, level, m) | _ => None end) l.

Lemma lines_app l l' : lines (l ++ l') = lines l ++ lines l'.
Proof. apply omap_app. Qed.

(** Once tried, a file is not tried again, and an open one takes every line while
    its lock is sound. *)
Lemma writes_tried f l : forallb (fun x => negb (opening x)) (writes (Some f) l) = true
  /\ ((forall x, x ∈ l -> lockable (fst (fst x)) = true) -> forall path, f = Some path ->
      lines (writes (Some f) l) = (fun x => (path, snd (fst x), snd x)) <$> l).
Proof.
  induction l as [|[[disk level] m] l [IH1 IH2]]; [done|]. cbn [writes write file]. rewrite forallb_app, IH1, andb_true_r. split.
  - cbn [forallb app]. destruct (str_eqb _ _), f as [path|]; [destruct (lockable disk)|..|destruct (lockable disk)|]; done.
  - intros Hl path ->. specialize (IH2 ltac:(intros x Hx; apply Hl; by constructor) path eq_refl).
    assert (Hk : lockable disk = true) by (apply (Hl (disk, level, m)); constructor).
    rewrite lines_app, Hk, fmap_cons. cbn [app fst snd]. rewrite <- IH2. by destruct (str_eqb level (lit "WARN")).
Qed.

Lemma filter_none {A} (p : A -> bool) l : forallb (fun x => negb (p x)) l = true -> filter (fun x => p x = true) l = [].
Proof.
  induction l as [|x l IH]; [done|]. cbn [forallb]. intros [Hx Hl]%andb_true_iff. apply negb_true_iff in Hx.
  rewrite filter_cons_False by congruence. auto.
Qed.

(** every message goes to the console; the file is opened at most once, whatever
    becomes of it, and never again when it could not be; and one that opened, with
    its lock sound, has every message from the first on, in order. *)
Theorem no_message_is_lost FILE disk level m l :
  let all := writes FILE ((disk, level, m) :: l) in
  (forall d v x, (d, v, x) ∈ (disk, level, m) :: l -> (if str_eqb v (lit "WARN") then Stderr x else Stdout x) ∈ all)
  /\ (length (filter (fun x => opening x = true) all) <= 1)%nat
  /\ (forall path, FILE = None -> log_path disk = Some path -> opens disk path = Ok () ->
      (forall x, x ∈ (disk, level, m) :: l -> lockable (fst (fst x)) = true) ->
      lines all = (fun x => (path, snd (fst x), snd x)) <$> (disk, level, m) :: l).
Proof.
  cbv zeta. split; [|split].
  - generalize ((disk, level, m) :: l). intros l'. revert FILE. induction l' as [|[[d' v'] x'] l' IH]; intros FILE d v x; [by intros ?%elem_of_nil|].
    cbn [writes]. unfold write. destruct (file d' FILE) as [[F f] acts]. rewrite elem_of_cons.
    intros [[= -> -> ->]|Hin]; [constructor|]. apply elem_of_app. right. by eapply IH.
  - cbn [writes]. unfold write. assert (Hf : forall F : Cell, exists f, fst (fst (file disk F)) = Some f).
    { intros [f|]; cbn; [by exists f|]. destruct (log_path disk) as [p|]; [|by eexists]. destruct (opens disk p); by eexists. }
    destruct (Hf FILE) as [f Hc]. assert (Ha : (length (filter (fun x => opening x = true) (snd (file disk FILE))) <= 1)%nat).
    { unfold file. destruct FILE as [g|]; [cbn; lia|]. destruct (log_path disk) as [p|]; [|cbn; lia].
      destruct (opens disk p), (parent disk p); cbn [snd app]; rewrite ?filter_cons; cbn; repeat case_decide; done || (cbn; lia). }
    destruct (file disk FILE) as [[F g] acts]. cbn [fst snd] in *. subst F.
    assert (Ht : filter (fun x => opening x = true) (writes (Some f) l) = []).
    { apply filter_none, writes_tried. }
    assert (Hlast : filter (fun x => opening x = true) (match g with Some path => if lockable disk then [Line path level m] else [] | None => [] end) = []).
    { destruct g; [destruct (lockable disk)|]; done. }
    rewrite filter_app, Ht, app_nil_r, filter_cons_False by (by destruct (str_eqb level (lit "WARN"))).
    by rewrite filter_app, Hlast, app_nil_r.
  - intros path -> Hp Ho Hl. cbn [writes]. unfold write, file. rewrite Hp, Ho.
    destruct (writes_tried (Some path) l) as [_ Ht]. specialize (Ht ltac:(intros x Hx; apply Hl; by constructor) path eq_refl).
    assert (Hk : lockable disk = true) by (apply (Hl (disk, level, m)); constructor). rewrite Hk, lines_app, Ht, fmap_cons.
    by destruct (str_eqb level (lit "WARN")), (parent disk path).
Qed.

(** the daemon is told to stop exactly by Ctrl+C, or on Unix by SIGTERM where that
    could be caught, however long before it is waited for; where Ctrl+C cannot be
    waited for it stops at once. *)
Theorem shutdown_signal_functional unix terminate ctrl_c l :
  shutdown_signal unix terminate ctrl_c l = true <->
  ctrl_c = false \/ CtrlC ∈ l \/ (unix = true /\ terminate = Ok () /\ Terminate ∈ l).
Proof.
  unfold shutdown_signal. destruct ctrl_c; cbn [negb orb]; [|destruct unix, terminate; naive_solver].
  destruct (bool_decide_reflect (CtrlC ∈ l)); cbn [orb]; [destruct unix, terminate; naive_solver|].
  destruct unix, terminate as [[]|e]; [rewrite bool_decide_eq_true|..]; naive_solver.
Qed.

(** ** Witnesses *)

Import Concrete.

Module HostDemo.
Definition manager : Manager := {| register := Ok tt; report := fun _ => Ok tt; runtime := Ok tt |}.
End HostDemo.

Example the_manager_is_told_witness :
  exists code, fst (serve HostDemo.manager (snd (Daemon.run (Link := unit) DaemonDemo.parts)))
    = [status Running [Stop; Shutdown] (Win32 0); status Stopped [] code] /\ code = Win32 0.
Proof.
  pose proof (the_manager_is_told (Link := unit) HostDemo.manager DaemonDemo.parts eq_refl (fun _ => eq_refl) eq_refl) as Hm.
  destruct (serve _ _) as [told res]. destruct Hm as (code & Ht & _ & Hc & _). exists code. split; [exact Ht|].
  apply Hc. split; [|split; [reflexivity|by left]].
  exists (replicate 32 7), NodeDemo.k1, Demo.state. split_and!; reflexivity.
Defined.
