(* ===== verification/Expiry.v ===== *)
(** * Windows of time on the command line ([cli/src/commands/expiry.rs])

    [--expires <amount> <unit>] for invites and file offers, and the words a
    window is shown in. *)

From S2P Require Import Prelude External Proto Net.

(** The units and the seconds in one. *)
Definition per_unit (unit : rstr) : option Z :=
  let unit := to_ascii_lowercase unit in
  let spelt := existsb (fun w => str_eqb unit (lit w)) in
  if spelt ["min"; "mins"; "minute"; "minutes"]%string then Some 60
  else if spelt ["hour"; "hours"; "hr"; "hrs"]%string then Some (60 * 60)
  else if spelt ["day"; "days"]%string then Some (24 * 60 * 60)
  else None.

(** [span]: the largest whole unit that fits. *)
Definition MINUTE : Z := 60.
Definition HOUR : Z := 60 * MINUTE.
Definition DAY : Z := 24 * HOUR.

Definition largest_unit (seconds : Z) : Z * rstr :=
  if (seconds mod DAY =? 0) && (DAY <=? seconds) then (seconds / DAY, lit "day")
  else if (seconds mod HOUR =? 0) && (HOUR <=? seconds) then (seconds / HOUR, lit "hour")
  else if (seconds mod MINUTE =? 0) && (MINUTE <=? seconds) then (seconds / MINUTE, lit "minute")
  else (seconds, lit "second").

(** The count and the word [span] prints with a space between. *)
Definition span_words (seconds : Z) : rstr * rstr :=
  let '(count, unit) := largest_unit seconds in
  (show_Z count, if count =? 1 then unit else unit ++ lit "s").
Definition span (seconds : Z) : rstr := let '(count, unit) := span_words seconds in count ++ lit " " ++ unit.

Definition parse (amount unit : rstr) (max : Z) (what : rstr) : result message Z :=
  match parse_uint u64_max amount with
  | None => Err (Fmt "{amount:?} is not a whole number of {unit}" [Text amount; Text unit])
  | Some amount =>
      if amount =? 0 then Err (Fmt "{what} that expires immediately could never be used" [Text what])
      else
        match per_unit unit with
        | None => Err (Fmt "unknown unit {other:?} — use min, hours or days" [Text (to_ascii_lowercase unit)])
        | Some per_unit =>
            ok_or (Fmt "the longest {what} may last is {}" [Text what; Text (span max)])
              (s ← checked_mul u64_max amount per_unit; if s <=? max then Some s else None)
        end
  end.

(** [ttl_secs] of [invite.rs] and of [file/send.rs]: the two words of the option. *)
Definition invite_ttl_secs (expires : option (rstr * rstr)) : result message Z :=
  match expires with
  | Some (amount, unit) => parse amount unit MAX_INVITE_TTL (lit "an invite")
  | None => Ok DEFAULT_INVITE_TTL
  end.
Definition file_ttl_secs (expires : option (rstr * rstr)) : result message Z :=
  match expires with
  | Some (amount, unit) => parse amount unit MAX_FILE_TTL (lit "a file offer")
  | None => Ok DEFAULT_FILE_TTL
  end.
Definition describe (seconds : Z) : rstr := lit "in " ++ span seconds.

(** ** Properties *)

Lemma parse_uint_bounds max s n : parse_uint max s = Some n -> 0 <= n <= max.
Proof.
  assert (Hd : forall l acc m, 0 <= acc -> digits acc l = Some m -> 0 <= m).
  { induction l as [|c l IH]; intros acc m Hacc; cbn [digits]; [by intros [= <-]|].
    destruct (is_digit c) eqn:E; [|done]. apply IH. unfold is_digit in E. lia. }
  unfold parse_uint. set (body := match s with 43%N :: s' => s' | _ => s end).
  destruct body as [|c l]; [done|]. destruct (digits 0 (c :: l)) eqn:E; [|done].
  destruct (Z.leb_spec z max); [|done]. intros [= <-]. split; [by eapply (Hd (c :: l) 0)|done].
Qed.

Lemma per_unit_values unit k : per_unit unit = Some k -> k = MINUTE \/ k = HOUR \/ k = DAY.
Proof. unfold per_unit. cbv zeta. repeat case_match; naive_solver. Qed.

(** an expiry is taken exactly when its amount is a whole number other than
    zero, its unit one of the ten spellings, and the product no more than the
    ceiling; it is then that product of seconds, never wrapped around. *)
Theorem parse_functional amount unit max what n : max <= u64_max ->
  parse amount unit max what = Ok n <->
  exists a k, parse_uint u64_max amount = Some a /\ per_unit unit = Some k /\ n = a * k /\ 0 < n <= max.
Proof.
  intros Hmax. unfold parse, checked_mul. split.
  - destruct (parse_uint u64_max amount) as [a|] eqn:Ea; [|done]. apply parse_uint_bounds in Ea as Hb.
    destruct (Z.eqb_spec a 0) as [|Hz]; [done|]. destruct (per_unit unit) as [k|] eqn:Ek; [|done].
    apply per_unit_values in Ek as Hk. destruct (Z.leb_spec (a * k) u64_max); [|done]. cbn [mbind option_bind].
    destruct (Z.leb_spec (a * k) max); [|done]. intros [= <-]. exists a, k. split_and!; try done.
    destruct Hk as [->|[->| ->]]; unfold DAY, HOUR, MINUTE in *; lia.
  - intros (a & k & Ha & Hk & -> & Hn). rewrite Ha, Hk. apply parse_uint_bounds in Ha as Hb. apply per_unit_values in Hk.
    destruct (Z.eqb_spec a 0); [lia|]. destruct (Z.leb_spec (a * k) u64_max); [|lia]. cbn [mbind option_bind].
    by destruct (Z.leb_spec (a * k) max); [|lia].
Qed.

(** what the command line can ask for is what the daemon would give: an
    invite's window passes its clamp unchanged, and so do the defaults. *)
Theorem asked_windows_are_kept expires n :
  (invite_ttl_secs expires = Ok n -> clamp 1 MAX_INVITE_TTL n = n)
  /\ (file_ttl_secs expires = Ok n -> clamp 1 MAX_FILE_TTL n = n).
Proof.
  split; (destruct expires as [[amount unit]|]; cbn [invite_ttl_secs file_ttl_secs]; [|by intros [= <-]]);
    intros Hp; apply parse_functional in Hp as (a & k & _ & _ & _ & Hn); try done; apply clamp_id; lia.
Qed.

Lemma largest_unit_spec s : 0 <= s ->
  let '(count, unit) := largest_unit s in
  exists k, (unit, k) ∈ [(lit "day", DAY); (lit "hour", HOUR); (lit "minute", MINUTE); (lit "second", 1)]
    /\ s = count * k /\ 0 <= count /\ (MINUTE <= s -> s mod MINUTE = 0 -> k <> 1 /\ 0 < count).
Proof.
  intros Hs. unfold largest_unit.
  assert (Hk : forall k, 0 < k -> (s mod k =? 0) && (k <=? s) = true -> s = s / k * k /\ 0 <= s / k /\ 0 < s / k).
  { intros k Hk H. apply andb_prop in H as [Hm Hle]. apply Z.eqb_eq in Hm. apply Z.leb_le in Hle.
    pose proof (Z.div_mod s k). assert (0 < s / k) by (apply Z.div_str_pos; lia). lia. }
  destruct ((s mod DAY =? 0) && _) eqn:Ed; [|destruct ((s mod HOUR =? 0) && _) eqn:Eh;
    [|destruct ((s mod MINUTE =? 0) && _) eqn:Em]].
  - exists DAY. apply Hk in Ed as (? & ? & ?); [|done]. split; [repeat constructor|]. split_and!; try done; lia.
  - exists HOUR. apply Hk in Eh as (? & ? & ?); [|done]. split; [repeat constructor|]. split_and!; try done; lia.
  - exists MINUTE. apply Hk in Em as (? & ? & ?); [|done]. split; [repeat constructor|]. split_and!; try done; lia.
  - exists 1. split; [repeat constructor|]. split; [lia|]. split; [lia|]. intros Hle Hm. rewrite Hm in Em.
    destruct (Z.leb_spec MINUTE s); [done|lia].
Qed.

(** a window shown in words reads back as the same window: the count and the
    unit [span] prints, typed as an expiry, are that many seconds. *)
Theorem span_reads_back s max what :
  0 < s <= max -> max <= u64_max -> s mod MINUTE = 0 ->
  let '(count, unit) := span_words s in
  span s = count ++ lit " " ++ unit /\ parse count unit max what = Ok s.
Proof.
  intros Hs Hmax Hm. unfold span, span_words. pose proof (largest_unit_spec s ltac:(lia)) as Hl.
  destruct (largest_unit s) as [count unit]. destruct Hl as (k & Hin & Heq & Hc & Hk).
  split; [done|]. assert (MINUTE <= s).
  { unfold MINUTE in *. destruct (Z.le_gt_cases 60 s); [done|]. rewrite Z.mod_small in Hm; lia. }
  destruct Hk as [Hk1 Hpos]; [done|done|]. apply parse_functional; [done|].
  assert (Hle : count <= s) by (rewrite !elem_of_cons in Hin; unfold DAY, HOUR, MINUTE in Hin; naive_solver nia).
  exists count, k. split; [|split; [|lia]].
  - unfold show_Z. rewrite parse_show_nat; [f_equal; lia|lia].
  - rewrite !elem_of_cons in Hin. destruct Hin as [[= -> ->]|[[= -> ->]|[[= -> ->]|[[= -> ->]|Hin%elem_of_nil]]]]; try done;
      by destruct (count =? 1).
Qed.

(** ** Witnesses *)

Example parse_functional_witness : exists a k, parse_uint u64_max (lit "30") = Some a /\ per_unit (lit "Min") = Some k /\ 1800 = a * k.
Proof.
  destruct (proj1 (parse_functional (lit "30") (lit "Min") MAX_INVITE_TTL [] 1800 ltac:(done)) ltac:(by vm_compute))
    as (a & k & Ha & Hk & Hn & _). by exists a, k.
Defined.

Example asked_windows_are_kept_witness : clamp 1 MAX_INVITE_TTL (2 * DAY) = 2 * DAY.
Proof. apply (asked_windows_are_kept (Some (lit "2", lit "days"))). by vm_compute. Defined.

Example span_reads_back_witness : parse (fst (span_words MAX_INVITE_TTL)) (snd (span_words MAX_INVITE_TTL)) MAX_INVITE_TTL [] = Ok MAX_INVITE_TTL.
Proof. exact (proj2 (span_reads_back MAX_INVITE_TTL MAX_INVITE_TTL [] ltac:(done) ltac:(done) eq_refl)). Defined.
