(* ===== verification/CliFile.v ===== *)
(** * Files at the two terminals ([cli/src/commands/file/])

    Sending reads a file once and frames it; receiving writes what arrives to a
    hidden part file, verifies it and puts it in place under a free name.  A
    directory is the map from the names in it to their contents; what reading,
    writing and renaming come to is an argument. *)

From S2P Require Import Prelude External Proto Names Net Filename Utf8 Frame Expiry.

Local Abbreviation list := Datatypes.list.

(** ** Where a received file goes ([dest.rs]) *)

Record Destination := { dest_dir : rstr; dest_note : option message }.

Definition resolve (here : bool) (cwd : result message rstr) (downloads home : option rstr) : result message Destination :=
  if here then
    dir ← map_err (fun e => context (Fmt "could not tell which directory this is" []) e) cwd;
    Ok {| dest_dir := dir; dest_note := None |}
  else
    match downloads, home with
    | Some dir, _ => Ok {| dest_dir := dir; dest_note := None |}
    | None, Some home =>
        Ok {| dest_note := Some (Fmt "no Downloads folder is configured, so saving to {}" [Text home]); dest_dir := home |}
    | None, None =>
        Err (Fmt "there is no Downloads folder or home directory to save into — use --here to save into the current directory" [])
    end.

(** ** Free space ([space.rs]) *)

(** [available] on Unix, from what [statvfs] filled in. *)
Definition available (statvfs : option (Z * Z)) : option Z :=
  '(f_bavail, f_frsize) ← statvfs; checked_mul u64_max f_bavail f_frsize.

(** [space::check]; [shown] is [format::size]. *)
Definition space_check (shown : Z -> rstr) (dir : rstr) (available : option Z) (size : Z) : result message () :=
  match available with
  | Some free =>
      if free <? size then
        Err (Fmt "not enough space in {}: the file is {}, and {} is free" [Text dir; Text (shown size); Text (shown free)])
      else Ok tt
  | None => Ok tt
  end.

(** ** Sending ([send.rs]) *)

(** What [metadata] says a path is. *)
Inductive file_kind := Regular (len : Z) | Directory | Special.

Record Prepared := { p_name : rstr; p_size : Z }.

Definition cannot_send (shown : rstr) (why : message) : message := Fmt "cannot send {shown}: {}" [Text shown; why].

(** [prepare]: [stat] is the path's metadata, [opened] the opened file's, and
    [file_name] its last component where it has one: [Some None] when that is not
    Unicode. *)
Definition prepare (shown : rstr) (stat opened : result message file_kind) (file_name : option (option rstr)) (platform : Platform)
    : result message Prepared :=
  kind ← map_err (cannot_send shown) stat;
  match kind with
  | Directory => Err (cannot_send shown (Fmt "it is a directory, and only regular files can be sent" []))
  | _ =>
      kind ← map_err (cannot_send shown) opened;
      match kind with
      | Regular len =>
          name ← ok_or (cannot_send shown (Fmt "it has no file name" [])) file_name;
          name ← ok_or (cannot_send shown (Fmt "its name is not valid Unicode" [])) name;
          _ ← map_err (cannot_send shown) (check name platform);
          Ok {| p_name := name; p_size := len |}
      | _ => Err (cannot_send shown (Fmt "it is not a regular file" []))
      end
  end.

(** What the daemon's side of the socket did. *)
Inductive verdict :=
  | Sent
  | ReadFailed (e : rstr)
  | Grew
  | Shrank
  | BrokenOff.

Section Transfer.
Context `{!Blake3}.

(** [stream]: [reads] is what reading the file gives, up to the first empty read,
    and [writes] whether the n-th frame got out.  The frames written, the last of
    which may not have arrived, and how it ended. *)
Fixpoint stream_loop (reads : list (result rstr (list Z))) (writes : nat -> bool) (size sent : Z) (hashed : list Z) (n : nat)
    : list Frame * verdict :=
  match reads with
  | Err e :: _ => ([Error e], ReadFailed e)
  | Ok (b :: bs) :: reads' =>
      let chunk := b :: bs in
      let sent := sent + Z.of_nat (length chunk) in
      if size <? sent then ([Error (lit "the file grew while it was being sent")], Grew)
      else if writes n then
        let '(fs, v) := stream_loop reads' writes size sent (hashed ++ chunk) (S n) in (Data chunk :: fs, v)
      else ([Data chunk], BrokenOff)
  | Ok [] :: _ | [] =>
      if negb (sent =? size) then ([Error (lit "the file shrank while it was being sent")], Shrank)
      else if negb (writes n) then ([Hash (blake3 hashed)], BrokenOff)
      else if negb (writes (S n)) then ([Hash (blake3 hashed); End_], BrokenOff)
      else ([Hash (blake3 hashed); End_], Sent)
  end.

Definition stream (reads : list (result rstr (list Z))) (writes : nat -> bool) (size : Z) : list Frame * verdict :=
  stream_loop reads writes size 0 [] 0.

(** ** Receiving ([receive.rs]) *)

Definition MAX_SUFFIX : nat := 9999.

(** The names in a directory and what they hold. *)
Definition Dir : Type := gmap rstr (list Z).

Definition candidate (name : rstr) (n : nat) : rstr := match n with O => name | _ => numbered name n end.

(** [finish]'s loop over [0..=MAX_SUFFIX]: [persist] says what moving the file to
    a name that is not taken comes to. *)
Fixpoint place (dir : Dir) (persist : rstr -> result message ()) (name : rstr) (n fuel : nat) : result message rstr :=
  match fuel with
  | O => Err (Fmt "every name from {name} to {} is taken" [Text name; Text (numbered name MAX_SUFFIX)])
  | S fuel =>
      let target := candidate name n in
      match dir !! target with
      | Some _ => place dir persist name (S n) fuel
      | None =>
          match persist target with
          | Ok _ => Ok target
          | Err e => Err (Fmt "could not save {}: {}" [Text target; e])
          end
      end
  end.

(** [PartFile::finish] after what was written is [part]. *)
Definition part_finish (dir : Dir) (flush : result message ()) (persist : rstr -> result message ()) (part : list Z) (name : rstr)
    : Dir * result message rstr :=
  match flush with
  | Err e => (dir, Err e)
  | Ok _ =>
      match place dir persist name 0 (S MAX_SUFFIX) with
      | Ok target => (<[target := part]> dir, Ok target)
      | Err e => (dir, Err e)
      end
  end.

(** What the machine gives while a file arrives. *)
Record Disk := {
  write_part : nat -> result message ();        (* the n-th data frame *)
  flush : result message ();
  persist : rstr -> result message ();
  dir_shown : rstr;
}.

(** The directory after it, what was said to the daemon, and the name saved under. *)
Record Received := { r_dir : Dir; r_said : list Frame; r_saved : result message rstr }.

(** [refuse]; [render] is the error's text. *)
Definition refuse (render : message -> rstr) (dir : Dir) (reason : message) : Received :=
  {| r_dir := dir; r_said := [Error (render reason)]; r_saved := Err (Fmt "{reason}; nothing was saved" [reason]) |}.

Variable render : message -> rstr.

(** After [Frame::End]. *)
Definition receive_end (disk : Disk) (dir : Dir) (name : rstr) (size received : Z) (content : list Z) (trailer : option (list Z))
    : Received :=
  if negb (received =? size) then refuse render dir (Fmt "received {received} bytes of {size}" [num received; num size])
  else if negb (bool_decide (trailer = Some (blake3 content))) then
    refuse render dir (Fmt "the file did not match the sender's hash" [])
  else
    match part_finish dir (flush disk) (persist disk) content name with
    | (dir, Ok saved) => {| r_dir := dir; r_said := [End_]; r_saved := Ok saved |}
    | (dir, Err e) => refuse render dir e
    end.

(** The loop's variables: [content] is both the part file and what was hashed, and
    [turns] the data frames written. *)
Record Progress := { received : Z; content : list Z; trailer : option (list Z); turns : nat }.

Inductive turn := Continues (p : Progress) | Stops (r : Received).

(** One turn of [receive]'s loop, on a frame. *)
Definition receive_turn (disk : Disk) (dir : Dir) (name : rstr) (size : Z) (p : Progress) (f : Frame) : turn :=
  match f with
  | Data data =>
      let received := received p + Z.of_nat (length data) in
      if size <? received then Stops (refuse render dir (Fmt "more data arrived than was offered" []))
      else
        match write_part disk (turns p) with
        | Err e => Stops (refuse render dir (Fmt "could not write to {}: {e}" [Text (dir_shown disk); e]))
        | Ok _ => Continues {| received := received; content := content p ++ data; trailer := trailer p; turns := S (turns p) |}
        end
  | Hash hash => Continues {| received := received p; content := content p; trailer := Some hash; turns := turns p |}
  | End_ => Stops (receive_end disk dir name size (received p) (content p) (trailer p))
  | Error message => Stops {| r_dir := dir; r_said := []; r_saved := Err (Fmt "the transfer failed: {message}" [Text message]) |}
  | Control _ => Stops (refuse render dir (Fmt "unexpected message mid-transfer" []))
  end.

(** A turn on anything that is not a frame: the daemon is gone. *)
Definition receive_gone (dir : Dir) : Received :=
  {| r_dir := dir; r_said := []; r_saved := Err (Fmt "the daemon went away mid-transfer; nothing was saved" []) |}.

(** [receive], over the frames the reader still yields; after the last it fails. *)
Fixpoint receive_loop (disk : Disk) (dir : Dir) (name : rstr) (size : Z) (frames : list Frame) (p : Progress) : Received :=
  match frames with
  | [] => receive_gone dir
  | f :: frames =>
      match receive_turn disk dir name size p f with
      | Continues p => receive_loop disk dir name size frames p
      | Stops r => r
      end
  end.

Definition receive_start : Progress := {| received := 0; content := []; trailer := None; turns := 0 |}.

Definition receive (disk : Disk) (dir : Dir) (name : rstr) (size : Z) (frames : list Frame) : Received :=
  receive_loop disk dir name size frames receive_start.

(** The receiving end checks the name for itself. *)
Definition check_name (name : rstr) (platform : Platform) : result message () :=
  map_err (fun reason => Fmt "refusing the file {name:?}: {reason}" [Text name; reason]) (check name platform).
End Transfer.
