(* ===== verification/CliFileProps.v ===== *)
(** * From file to file

    What the two terminals promise by themselves, and, put around the two
    daemons of [TransferProps], that a delivered file is the file. *)

From S2P Require Import Prelude External Proto Names Net Filename Utf8 Frame Expiry Peers Files Transfer TransferProps CliFile.

Local Abbreviation list := Datatypes.list.

Section Sending.
Context `{!Blake3}.

(** What reading gives up to the end of the file. *)
Fixpoint read_content (reads : list (result rstr (list Z))) : option (list Z) :=
  match reads with
  | Err _ :: _ => None
  | Ok (b :: bs) :: reads => (fun c => (b :: bs) ++ c) <$> read_content reads
  | Ok [] :: _ | [] => Some []
  end.

Lemma stream_loop_end reads writes size sent hashed n :
  End_ ∈ fst (stream_loop reads writes size sent hashed n) ->
  exists chunks, read_content reads = Some (mjoin chunks) /\ sent + data_len (mjoin chunks) = size
    /\ fst (stream_loop reads writes size sent hashed n) = (Data <$> chunks) ++ [Hash (blake3 (hashed ++ mjoin chunks)); End_].
Proof.
  revert sent hashed n. induction reads as [|[[|b bs]|e] reads IH]; intros sent hashed n; cbn [stream_loop read_content].
  1,2: rewrite ?app_nil_r; destruct (Z.eqb_spec sent size) as [Hs|]; cbn [negb]; [|cbn [fst]; set_solver];
    destruct (writes n); cbn [negb]; [|cbn [fst]; set_solver]; intros _; exists [];
    (split; [done|]); (split; [unfold data_len; cbn; lia|]); rewrite app_nil_r; by destruct (writes (S n)).
  - destruct (Z.ltb_spec size (sent + Z.of_nat (length (b :: bs)))); [cbn [fst]; set_solver|].
    destruct (writes n); [|cbn [fst]; set_solver].
    specialize (IH (sent + Z.of_nat (length (b :: bs))) (hashed ++ b :: bs) (S n)).
    destruct (stream_loop reads _ _ _ _ _) as [fs v]. cbn [fst] in *. intros [He|He]%elem_of_cons; [done|].
    destruct (IH He) as (chunks & Hr & Hl & Hf). exists ((b :: bs) :: chunks). cbn [mjoin list_join].
    rewrite Hr, Hf. split; [done|]. rewrite data_len_app. unfold data_len in *. split; [by rewrite Z.add_assoc|].
    rewrite fmap_cons, <- app_comm_cons. by rewrite <- app_assoc.
  - cbn [fst]. set_solver.
Qed.

Lemma stream_loop_sent reads writes size sent hashed n :
  snd (stream_loop reads writes size sent hashed n) = Sent -> End_ ∈ fst (stream_loop reads writes size sent hashed n).
Proof.
  revert sent hashed n. induction reads as [|[[|b bs]|e] reads IH]; intros sent hashed n; cbn [stream_loop];
    [repeat case_match; cbn [fst snd]; try done; intros _; do 2 constructor..| |done].
  destruct (size <? _); [done|]. destruct (writes n); [|done].
  specialize (IH (sent + Z.of_nat (length (b :: bs))) (hashed ++ b :: bs) (S n)).
  destruct (stream_loop reads _ _ _ _ _) as [fs v]. cbn [fst snd] in *. intros Hv. constructor. by apply IH.
Qed.

Lemma stream_loop_bound reads writes size sent hashed n :
  sent <= size -> sent + data_len (frames_data (fst (stream_loop reads writes size sent hashed n))) <= size.
Proof.
  revert sent hashed n. induction reads as [|[[|b bs]|e] reads IH]; intros sent hashed n Hs; cbn [stream_loop];
    [repeat case_match; unfold data_len; cbn; lia..| |unfold data_len; cbn; lia].
  destruct (Z.ltb_spec size (sent + Z.of_nat (length (b :: bs)))) as [|Hle]; [unfold data_len; cbn; lia|].
  destruct (writes n).
  - specialize (IH (sent + Z.of_nat (length (b :: bs))) (hashed ++ b :: bs) (S n) Hle).
    destruct (stream_loop reads _ _ _ _ _) as [fs v]. cbn [fst frames_data mbind list_bind frame_data] in *.
    rewrite data_len_app. unfold data_len at 1. unfold frames_data in IH. lia.
  - cbn [fst frames_data mbind list_bind frame_data]. rewrite app_nil_r. unfold data_len. lia.
Qed.

Lemma stream_loop_complete reads writes size sent hashed n :
  (forall i, writes i = true) ->
  (exists c, read_content reads = Some c /\ sent + data_len c = size) ->
  snd (stream_loop reads writes size sent hashed n) = Sent.
Proof.
  intros Hw. revert sent hashed n. induction reads as [|[[|b bs]|e] reads IH]; intros sent hashed n (c & Hr & Hl);
    cbn [stream_loop read_content] in *; [| | |done].
  1,2: injection Hr as <-; rewrite !Hw; destruct (Z.eqb_spec sent size); [done|]; unfold data_len in Hl; cbn in Hl; lia.
  apply fmap_Some in Hr as (c' & Hr & ->). rewrite data_len_app in Hl. unfold data_len at 1 in Hl.
  assert (0 <= data_len c') by (unfold data_len; lia).
  destruct (Z.ltb_spec size (sent + Z.of_nat (length (b :: bs)))); [lia|]. rewrite Hw.
  specialize (IH (sent + Z.of_nat (length (b :: bs))) (hashed ++ b :: bs) (S n)).
  destruct (stream_loop reads _ _ _ _ _) as [fs v]. cbn [snd] in *. apply IH. exists c'. split; [done|lia].
Qed.

(** reading a file and framing it.  An [End] is only ever written after the
    whole file: its data frames then carry exactly what was read, of exactly the
    size offered, followed by its hash.  Where the daemon takes every frame, that
    happens exactly when the file could be read and kept its size; and whatever
    happens no more data than was offered leaves this process. *)
Theorem stream_functional reads writes size : 0 <= size ->
  let '(fs, v) := stream reads writes size in
  (End_ ∈ fs -> exists chunks, read_content reads = Some (mjoin chunks) /\ data_len (mjoin chunks) = size
     /\ fs = (Data <$> chunks) ++ [Hash (blake3 (mjoin chunks)); End_])
  /\ (v = Sent -> End_ ∈ fs)
  /\ ((forall i, writes i = true) -> v = Sent <-> exists c, read_content reads = Some c /\ data_len c = size)
  /\ data_len (frames_data fs) <= size.
Proof.
  intros Hs. rewrite (surjective_pairing (stream reads writes size)). unfold stream.
  pose proof (stream_loop_end reads writes size 0 [] 0) as He. pose proof (stream_loop_sent reads writes size 0 [] 0) as Hv.
  split; [exact He|]. split; [exact Hv|]. split.
  - intros Hw. split; [|by apply (stream_loop_complete reads writes size 0)]. intros Hsent. destruct (He (Hv Hsent)) as (chunks & Hr & Hl & _). eauto.
  - by apply (stream_loop_bound reads writes size 0 [] 0).
Qed.
End Sending.

Section Receiving.
Context `{!Blake3}.
Variable render : message -> rstr.

Lemma place_ok dir persist name n fuel target :
  place dir persist name n fuel = Ok target ->
  exists k, (n <= k < n + fuel)%nat /\ target = candidate name k /\ dir !! target = None /\ persist target = Ok tt
    /\ forall j, (n <= j < k)%nat -> is_Some (dir !! candidate name j).
Proof.
  revert n. induction fuel as [|fuel IH]; intros n; cbn [place]; [done|].
  destruct (dir !! candidate name n) eqn:E.
  - intros Hp. apply IH in Hp as (k & Hk & -> & Hf & Hper & Hj). exists k. split; [lia|]. split_and!; try done.
    intros j Hle. destruct (decide (j = n)) as [->|]; [by rewrite E; eexists|]. apply Hj. lia.
  - destruct (persist (candidate name n)) as [[]|e] eqn:Ep; [|done]. intros [= <-]. exists n. split; [lia|]. split_and!; try done. intros j Hj. lia.
Qed.

Lemma place_free dir persist name n fuel k :
  (n <= k < n + fuel)%nat -> dir !! candidate name k = None -> (forall t, persist t = Ok tt) ->
  is_ok (place dir persist name n fuel) = true.
Proof.
  intros Hk Hf Hp. revert n Hk. induction fuel as [|fuel IH]; intros n Hk; [lia|]. cbn [place].
  destruct (dir !! candidate name n) eqn:E; [|by rewrite Hp]. apply IH.
  destruct (decide (k = n)) as [->|]; [congruence|lia].
Qed.

Definition last_hash (t : option (list Z)) (l : list Frame) : option (list Z) :=
  foldl (fun t f => match f with Hash h => Some h | _ => t end) t l.

(** Frames of the file itself. *)
Definition is_body (f : Frame) : Prop := match f with Data _ | Hash _ => True | _ => False end.

Lemma part_finish_err disk dir content name :
  let '(dir', r) := part_finish dir (flush disk) (persist disk) content name in
  match r with Ok _ => True | Err _ => dir' = dir end.
Proof. unfold part_finish. destruct (flush disk); [|done]. by destruct (place _ _ _ _ _). Qed.

Lemma receive_loop_ok disk dir name size frames p target :
  r_saved (receive_loop render disk dir name size frames p) = Ok target ->
  exists pre post, frames = pre ++ End_ :: post /\ Forall is_body pre
    /\ received p + data_len (frames_data pre) = size
    /\ last_hash (trailer p) pre = Some (blake3 (content p ++ frames_data pre))
    /\ part_finish dir (flush disk) (persist disk) (content p ++ frames_data pre) name
       = (r_dir (receive_loop render disk dir name size frames p), Ok target)
    /\ r_said (receive_loop render disk dir name size frames p) = [End_].
Proof.
  revert p. induction frames as [|f frames IH]; intros p; [done|].
  destruct f as [data|hash| |json|reason]; cbn [receive_loop receive_turn]; [| | |done|done].
  - destruct (size <? _); [done|]. destruct (write_part disk (turns p)); [|done]. intros Hs.
    apply IH in Hs as (pre & post & -> & Hb & Hl & Ht & Hf & Hsaid). cbn [received content trailer] in *. exists (Data data :: pre), post.
    split; [done|]. split; [by constructor|]. change (frames_data (Data data :: pre)) with (data ++ frames_data pre).
    rewrite data_len_app, app_assoc. unfold data_len at 1. split; [lia|]. by split_and!.
  - intros Hs. apply IH in Hs as (pre & post & -> & Hb & Hl & Ht & Hf & Hsaid). cbn [received content trailer] in *. exists (Hash hash :: pre), post.
    split_and!; try done. by constructor.
  - unfold receive_end. destruct (Z.eqb_spec (received p) size) as [Hr|]; cbn [negb]; [|done].
    case_bool_decide as Ht; cbn [negb]; [|done].
    destruct (part_finish _ _ _ _ _) as [dir' [saved|e]] eqn:Ep; [|done]. cbn [r_saved r_dir r_said]. intros [= ->].
    exists [], frames. split; [done|]. split; [constructor|]. change (frames_data []) with (@nil Z). rewrite app_nil_r.
    unfold data_len. cbn [length]. split; [lia|]. by split_and!.
Qed.

Lemma receive_loop_err disk dir name size frames p e :
  r_saved (receive_loop render disk dir name size frames p) = Err e ->
  r_dir (receive_loop render disk dir name size frames p) = dir
  /\ ~ End_ ∈ r_said (receive_loop render disk dir name size frames p).
Proof.
  assert (Hrefuse : forall reason, r_dir (refuse render dir reason) = dir /\ ~ End_ ∈ r_said (refuse render dir reason)).
  { intros reason. split; [done|]. cbn. by intros [=]%list_elem_of_singleton. }
  revert p. induction frames as [|f frames IH]; intros p.
  { intros _. split; [done|]. apply not_elem_of_nil. }
  destruct f as [data|hash| |json|reason]; cbn [receive_loop receive_turn].
  - destruct (size <? _); [done|]. destruct (write_part disk (turns p)); [apply IH|done].
  - apply IH.
  - unfold receive_end. destruct (negb (received p =? size)); [done|]. destruct (negb _); [done|].
    pose proof (part_finish_err disk dir (content p) name) as Hp.
    destruct (part_finish _ _ _ _ _) as [dir' [saved|e']]; [done|]. by subst dir'.
  - done.
  - intros _. split; [done|]. apply not_elem_of_nil.
Qed.

Lemma receive_spec disk dir name size frames :
  let r := receive render disk dir name size frames in
  match r_saved r with
  | Ok target => exists pre post k, frames = pre ++ End_ :: post /\ Forall is_body pre
      /\ data_len (frames_data pre) = size /\ last_hash None pre = Some (blake3 (frames_data pre))
      /\ (k <= MAX_SUFFIX)%nat /\ target = candidate name k /\ dir !! target = None
      /\ (forall j, (j < k)%nat -> is_Some (dir !! candidate name j))
      /\ r_dir r = <[target := frames_data pre]> dir /\ r_said r = [End_]
  | Err _ => r_dir r = dir /\ ~ End_ ∈ r_said r
  end.
Proof.
  cbv zeta. destruct (r_saved _) as [target|e] eqn:E; [|by apply receive_loop_err in E].
  apply receive_loop_ok in E as (pre & post & Hf & Hb & Hl & Ht & Hp & Hs). fold (receive render disk dir name size frames) in *.
  unfold part_finish in Hp. destruct (flush disk); [|done].
  destruct (place _ _ _ _ _) as [t|] eqn:Ep; [|done]. injection Hp as Hd <-.
  apply place_ok in Ep as (k & Hk & -> & Hfree & _ & Hj). exists pre, post, k.
  assert (Hle : (k <= MAX_SUFFIX)%nat) by lia. split_and!; try done. intros j Hlt. apply Hj. lia.
Qed.

(** receiving a file keeps it or leaves nothing.  It is kept only when the
    frames before the [End] are exactly as many bytes as were offered and their
    hash is the one the sender computed; it is then under the first free name,
    holding exactly those bytes, everything else in the directory as it was, and
    only then the daemon is told.  Otherwise the directory is untouched and the
    daemon is never told the file was kept. *)
Theorem receive_functional disk dir name size frames :
  let r := receive render disk dir name size frames in
  match r_saved r with
  | Ok target => exists pre post k, frames = pre ++ End_ :: post /\ Forall is_body pre
      /\ data_len (frames_data pre) = size /\ last_hash None pre = Some (blake3 (frames_data pre))
      /\ (k <= MAX_SUFFIX)%nat /\ target = candidate name k /\ dir !! target = None
      /\ (forall j, (j < k)%nat -> is_Some (dir !! candidate name j))
      /\ r_dir r = <[target := frames_data pre]> dir /\ r_said r = [End_]
  | Err _ => r_dir r = dir /\ ~ End_ ∈ r_said r
  end.
Proof. apply receive_spec. Qed.

Lemma receive_loop_chunks disk dir name size chunks rest p :
  (forall i, write_part disk i = Ok tt) -> received p + data_len (mjoin chunks) <= size ->
  receive_loop render disk dir name size ((Data <$> chunks) ++ rest) p
  = receive_loop render disk dir name size rest
      {| received := received p + data_len (mjoin chunks); content := content p ++ mjoin chunks; trailer := trailer p;
         turns := (turns p + length chunks)%nat |}.
Proof.
  intros Hw. revert p. induction chunks as [|c chunks IH]; intros p Hle.
  - change (mjoin []) with (@nil Z). rewrite app_nil_r. unfold data_len. cbn [length fmap list_fmap app].
    rewrite Z.add_0_r, Nat.add_0_r. by destruct p.
  - change (mjoin (c :: chunks)) with (c ++ mjoin chunks) in *. rewrite data_len_app in Hle. unfold data_len at 1 in Hle.
    assert (0 <= data_len (mjoin chunks)) by (unfold data_len; lia).
    rewrite fmap_cons, <- app_comm_cons. cbn [receive_loop receive_turn].
    destruct (Z.ltb_spec size (received p + Z.of_nat (length c))); [lia|]. rewrite Hw, IH by (cbn [received]; lia).
    cbn [received content trailer turns length].
    rewrite data_len_app, app_assoc, Nat.add_succ_r, Nat.add_succ_l. unfold data_len. by rewrite <- Z.add_assoc.
Qed.

(** and it does keep it: the frames a whole file is sent as are received and
    saved wherever the disk takes them and one of the ten thousand names is free. *)
Theorem whole_file_is_kept disk dir name chunks post k :
  (forall i, write_part disk i = Ok tt) -> flush disk = Ok tt -> (forall t, persist disk t = Ok tt) ->
  (k <= MAX_SUFFIX)%nat -> dir !! candidate name k = None ->
  is_ok (r_saved (receive render disk dir name (data_len (mjoin chunks))
    ((Data <$> chunks) ++ [Hash (blake3 (mjoin chunks)); End_] ++ post))) = true.
Proof.
  intros Hw Hf Hp Hk Hfree. unfold receive. rewrite receive_loop_chunks by (try done; lia).
  cbn [app receive_loop receive_turn received content trailer turns receive_start]. unfold receive_end. rewrite Z.add_0_l, Z.eqb_refl, bool_decide_eq_true_2 by done. cbn [negb].
  unfold part_finish. rewrite Hf. pose proof (place_free dir (persist disk) name 0 (S MAX_SUFFIX) k ltac:(lia) Hfree Hp) as Hok.
  by destruct (place _ _ _ _ _).
Qed.
End Receiving.

(** ** From file to file *)

Lemma split_at_unique {A} (x : A) l1 l2 k1 k2 :
  x ∉ l1 -> x ∉ k1 -> l1 ++ x :: l2 = k1 ++ x :: k2 -> l1 = k1 /\ l2 = k2.
Proof.
  revert k1. induction l1 as [|a l1 IH]; intros [|b k1] Hl Hk Heq; simplify_eq/=; [done|set_solver|set_solver|].
  destruct (IH k1) as [-> ->]; [set_solver|set_solver|done|done].
Qed.

Lemma body_has_no_end l : Forall is_body l -> End_ ∉ l.
Proof. intros Hl Hin. by apply (proj1 (Forall_forall _ _) Hl) in Hin. Qed.

Lemma frames_data_chunks chunks : frames_data (Data <$> chunks) = mjoin chunks.
Proof.
  induction chunks as [|c chunks IH]; [done|]. change (mjoin (c :: chunks)) with (c ++ mjoin chunks). by rewrite <- IH.
Qed.

(** What is kept of the frames of one reading is what was read. *)
Lemma kept_is_read `{!Blake3} render reads writes size disk dir name fs target :
  fs `prefix_of` fst (stream reads writes size) ->
  r_saved (receive render disk dir name size fs) = Ok target ->
  exists content, read_content reads = Some content /\ data_len content = size
    /\ dir !! target = None /\ r_dir (receive render disk dir name size fs) = <[target := content]> dir.
Proof.
  intros [x Hx] Hs. apply receive_loop_ok in Hs as (pre & post & -> & Hb & Hl & _ & Hpart & _).
  cbn [content received receive_start] in Hpart, Hl. rewrite <- app_assoc, <- app_comm_cons in Hx.
  assert (Hin : End_ ∈ fst (stream reads writes size)) by (rewrite Hx; set_solver).
  apply stream_loop_end in Hin as (chunks & Hread & Hlen & Hstream). fold (stream reads writes size) in Hstream.
  assert (Hpc : pre = (Data <$> chunks) ++ [Hash (blake3 ([] ++ mjoin chunks))]).
  { apply (split_at_unique End_ pre (post ++ x) ((Data <$> chunks) ++ [Hash (blake3 ([] ++ mjoin chunks))]) []).
    - by apply body_has_no_end.
    - apply body_has_no_end, Forall_app. split; [by apply Forall_fmap, Forall_forall|by repeat constructor].
    - rewrite <- app_assoc, <- Hx. exact Hstream. }
  assert (Hcontent : [] ++ frames_data pre = mjoin chunks).
  { rewrite Hpc, frames_data_app, frames_data_chunks. cbn. by rewrite !app_nil_r. }
  rewrite Hcontent in Hpart. exists (mjoin chunks). split; [done|]. split; [lia|].
  unfold part_finish in Hpart. destruct (flush disk); [|done].
  destruct (place _ _ _ _ _) as [t|] eqn:Ep; [|done]. injection Hpart as Hdir ->.
  apply place_ok in Ep as (k & _ & _ & Hfree & _). split; [done|]. unfold receive. by rewrite Hdir.
Qed.

Section EndToEnd.
Context `{!EndpointIds, !HexCrate, !WireJson, !Blake3} {Link : Type}.
Variable render : message -> rstr.

(** a delivered file is the file.  Whatever happens between the two daemons
    and at either terminal: if the sending terminal writes the frames of one
    reading of a file, and the receiving one only commits to what its own
    receiving kept, then an offer reported delivered leaves, in the receiver's
    directory, under a name nothing had, exactly what was read from the sender's
    file, of exactly the size offered; and nothing else there has changed. *)
Theorem delivered_file_is_the_file id rid to from name rname size ttl told p0 l reads writes disk dir :
  0 <= size -> pair_start id rid to from name size ttl told = Some p0 ->
  sent_by_cli l `prefix_of` fst (stream reads writes size) ->
  let p := pair_run p0 l in
  let r := receive render disk dir rname size (given (r_out (rcv_ p))) in
  (RCli (Ok End_) ∈ l -> End_ ∈ r_said r) ->
  SEvent Delivered ∈ s_out (snd_ p) ->
  exists content target, read_content reads = Some content /\ data_len content = size
    /\ r_saved r = Ok target /\ dir !! target = None /\ r_dir r = <[target := content]> dir.
Proof.
  intros Hsz Hp0 Hsent p r Hcommit Hd.
  destruct (delivered_pair id rid to from name size ttl told p0 l Hsz Hp0 Hd) as (Hend & Hpre & _ & _).
  specialize (Hcommit Hend). fold p in Hpre.
  destruct (r_saved r) as [target|e] eqn:E; [|by apply receive_loop_err in E as [_ E]].
  destruct (kept_is_read render reads writes size disk dir rname (given (r_out (rcv_ p))) target) as (content & Hc); [by etransitivity|done|].
  exists content, target. naive_solver.
Qed.
End EndToEnd.

(** ** Witnesses *)

Import Concrete.

Module FileDemo.
Definition reads : list (result rstr (list Z)) := [Ok [104; 105]; Ok [33]].
Definition content : list Z := [104; 105; 33].
Definition all : nat -> bool := fun _ => true.
Definition disk : Disk :=
  {| write_part := fun _ => Ok tt; flush := Ok tt; persist := fun _ => Ok tt; dir_shown := lit "/home/u" |}.
Definition dir : Dir := {[ lit "a.txt" := [1] ]}.
Definition render (m : message) : rstr := [].
Definition story : list pair_event :=
  [SNext Codec.env; SCli (Ok (Data [104; 105])) true Codec.env; RNext true Codec.env; SCli (Ok (Data [33])) true Codec.env;
   SCli (Ok (Hash (blake3 content))) true Codec.env; SCli (Ok End_) true Codec.env; RNext true Codec.env; RNext true Codec.env;
   RNext true Codec.env; RCli (Ok End_); SNext Codec.env].
End FileDemo.

Example stream_functional_witness : snd (stream FileDemo.reads FileDemo.all 3) = Sent.
Proof.
  pose proof (stream_functional FileDemo.reads FileDemo.all 3 ltac:(done)) as Hs.
  rewrite (surjective_pairing (stream _ _ _)) in Hs. destruct Hs as (_ & _ & Hs & _).
  apply Hs; [done|]. by exists FileDemo.content.
Defined.

Example whole_file_is_kept_witness :
  is_ok (r_saved (receive FileDemo.render FileDemo.disk FileDemo.dir (lit "a.txt") 3
    [Data [104; 105]; Data [33]; Hash (blake3 FileDemo.content); End_])) = true.
Proof.
  apply (whole_file_is_kept FileDemo.render FileDemo.disk FileDemo.dir (lit "a.txt") [[104; 105]; [33]] [] 1); try done.
  unfold MAX_SUFFIX. apply Nat.leb_le. by vm_compute.
Defined.

Example delivered_file_is_the_file_witness :
  exists p0, Codec.pair = Some p0 /\ exists target,
    r_saved (receive FileDemo.render FileDemo.disk FileDemo.dir (lit "a.txt") 3
      (given (r_out (rcv_ (pair_run p0 FileDemo.story))))) = Ok target.
Proof.
  eexists. split; [reflexivity|].
  match goal with |- context [pair_run ?p0 _] =>
    destruct (delivered_file_is_the_file FileDemo.render (lit "ab12") (lit "cd34") (lit "nas") (lit "laptop") (lit "a.txt") (lit "a.txt") 3
      600 true p0 FileDemo.story FileDemo.reads FileDemo.all FileDemo.disk FileDemo.dir ltac:(done) eq_refl)
      as (content & target & _ & _ & Hs & _)
  end.
  - exists []. by vm_compute.
  - intros _. vm_compute. constructor.
  - apply Codec.is_delivered_spec. by vm_compute.
  - by exists target.
Defined.
