(* ===== verification/System.v ===== *)
(** * A transfer from terminal to terminal

    The sending terminal, the two daemons with the stream between them, and the
    receiving terminal as one machine, every turn of which is one of theirs; and
    the specification it refines, an atomic delivery: nothing, then the file kept,
    then the delivery reported. *)

From S2P Require Import Prelude External Proto Names Net Filename Utf8 Frame Peers Files Transfer TransferProps CliFile CliFileProps.

Local Abbreviation list := Datatypes.list.

Section System.
Context `{!EndpointIds, !HexCrate, !WireJson, !Blake3} {Link : Type}.
Variable render : message -> rstr.

(** What the receiving terminal was started on. *)
Variable disk : Disk.
Variable name : rstr.
Variable size : Z.

Record System := {
  todo : list Frame;             (* what the sending terminal has still to write *)
  pair : Pair;
  taken : nat;                   (* frames the receiving terminal has taken *)
  progress : option Progress;    (* its loop's variables; [None] once it is over *)
  dir : Dir;
  kept : option rstr;            (* the name it saved under *)
}.

Definition was_accepted (p : Pair) : bool :=
  existsb (fun x => match x with SEvent Accepted => true | _ => false end) (s_out (snd_ p)).
Definition was_delivered (p : Pair) : bool :=
  existsb (fun x => match x with SEvent Delivered => true | _ => false end) (s_out (snd_ p)).

Inductive turn_of :=
  | Writes (write_ok : bool) (env : Env)       (* the sending terminal's next frame *)
  | SenderGone (e : io_error) (env : Env)      (* its socket ends *)
  | Window                                     (* the offer's window closes *)
  | SenderReads (env : Env)                    (* the sending daemon reads the stream *)
  | SenderLoses (e : io_error) (env : Env)
  | ReceiverReads (write_ok : bool) (env : Env)
  | ReceiverLoses (e : io_error) (env : Env)
  | Takes                                      (* the receiving terminal's next frame *)
  | ReceiverGone (e : io_error).               (* its socket ends *)

Definition with_pair (p : Pair) (s : System) : System :=
  {| todo := todo s; pair := p; taken := taken s; progress := progress s; dir := dir s; kept := kept s |}.

(** The receiving terminal is done: what it says is the daemon's to read. *)
Definition concluded (s : System) (r : Received) : System :=
  {| todo := todo s; pair := pair_run (pair s) ((fun f => RCli (Ok f)) <$> r_said r); taken := S (taken s); progress := None;
     dir := r_dir r; kept := to_option (r_saved r) |}.

Definition takes (s : System) : System :=
  match progress s, given (r_out (rcv_ (pair s))) !! taken s with
  | Some p, Some f =>
      match receive_turn render disk (dir s) name size p f with
      | Continues p =>
          {| todo := todo s; pair := pair s; taken := S (taken s); progress := Some p; dir := dir s; kept := kept s |}
      | Stops r => concluded s r
      end
  | _, _ => s
  end.

Definition system_step (s : System) (t : turn_of) : System :=
  match t with
  | Writes write_ok env =>
      match todo s with
      | f :: rest =>
          if was_accepted (pair s) then
            {| todo := rest; pair := pair_step (pair s) (SCli (Ok f) write_ok env); taken := taken s; progress := progress s;
               dir := dir s; kept := kept s |}
          else s
      | [] => s
      end
  | SenderGone e env =>
      {| todo := []; pair := pair_step (pair s) (SCli (Err e) true env); taken := taken s; progress := progress s;
         dir := dir s; kept := kept s |}
  | Window => with_pair (pair_step (pair s) SWindow) s
  | SenderReads env => with_pair (pair_step (pair s) (SNext env)) s
  | SenderLoses e env => with_pair (pair_step (pair s) (SLost e env)) s
  | ReceiverReads write_ok env => with_pair (pair_step (pair s) (RNext write_ok env)) s
  | ReceiverLoses e env => with_pair (pair_step (pair s) (RLost e env)) s
  | Takes => takes s
  | ReceiverGone e =>
      {| todo := todo s; pair := pair_step (pair s) (RCli (Err e)); taken := taken s; progress := None; dir := dir s; kept := kept s |}
  end.

Definition system_run (s : System) (l : list turn_of) : System := foldl system_step s l.

Definition system_start (p0 : Pair) (frames : list Frame) (d : Dir) : System :=
  {| todo := frames; pair := p0; taken := 0; progress := Some receive_start; dir := d; kept := None |}.

(** ** The specification *)

Inductive stage := Pending | Kept | Reported.

Inductive spec_step : stage -> stage -> Prop :=
  | spec_keep : spec_step Pending Kept
  | spec_report : spec_step Kept Reported.

(** What a stage says of the directory, where reading the file gave [content]. *)
Definition describes (before : Dir) (content : option (list Z)) (st : stage) (now : Dir) : Prop :=
  match st with
  | Pending => now = before
  | Kept | Reported => exists c target, content = Some c /\ data_len c = size /\ before !! target = None /\ now = <[target := c]> before
  end.

Definition stage_of (s : System) : stage :=
  if was_delivered (pair s) then Reported else match kept s with Some _ => Kept | None => Pending end.

(** ** The invariant *)

Variable p0 : Pair.
Variable frames : list Frame.
Variable before : Dir.

(** [l] is what the two daemons have seen. *)
Record system_ok (s : System) (l : list pair_event) : Prop := {
  sk_pair : pair s = pair_run p0 l;
  sk_sent : sent_by_cli l ++ todo s `prefix_of` frames;
  sk_progress : forall p, progress s = Some p -> kept s = None /\ (taken s <= length (given (r_out (rcv_ (pair s)))))%nat
    /\ forall rest, receive_loop render disk before name size (take (taken s) (given (r_out (rcv_ (pair s)))) ++ rest) receive_start
                    = receive_loop render disk before name size rest p;
  sk_pending : kept s = None -> dir s = before /\ RCli (Ok End_) ∉ l;
  sk_kept : forall t, kept s = Some t -> exists fs, fs `prefix_of` given (r_out (rcv_ (pair s)))
    /\ r_saved (receive render disk before name size fs) = Ok t /\ dir s = r_dir (receive render disk before name size fs);
}.

Lemma given_grows p e : given (r_out (rcv_ p)) `prefix_of` given (r_out (rcv_ (pair_step p e))).
Proof.
  destruct e as [r w env| |env|e env|w env|e env|f]; cbn [pair_step]; cbv zeta; cbn [rcv_]; try done.
  - by destruct (r_link (rcv_ p) !! snd_read p).
  - destruct (r_phase (rcv_ p)), (s_link (snd_ p) !! rcv_read p) as [f|]; cbn [rcv_]; try done.
    destruct (receive_step_given (rcv_ p) (LinkSays (Ok f) w env)) as [->|(? & ? & ? & _ & _ & ->)]; [done|by apply prefix_app_r].
  - destruct (receive_step_given (rcv_ p) (LinkSays (Err e) true env)) as [->|(? & ? & ? & _ & _ & ->)]; [done|by apply prefix_app_r].
  - destruct (receive_step_given (rcv_ p) (CliSays f)) as [->|(? & ? & ? & _ & _ & ->)]; [done|by apply prefix_app_r].
Qed.

Lemma given_grows_run p l : given (r_out (rcv_ p)) `prefix_of` given (r_out (rcv_ (pair_run p l))).
Proof.
  revert p. induction l as [|e l IH]; intros p; [done|]. etransitivity; [apply given_grows|apply IH].
Qed.

(** Anything that happens to the daemons short of the receiver's commitment. *)
Lemma pair_turn_ok s l e f :
  system_ok s l -> e <> RCli (Ok End_) ->
  sent_by_cli [e] ++ f `prefix_of` todo s ->
  system_ok {| todo := f; pair := pair_step (pair s) e; taken := taken s; progress := progress s; dir := dir s; kept := kept s |} (l ++ [e]).
Proof.
  intros [K1 K2 K3 K4 K5] He Hf. pose proof (given_grows (pair s) e) as Hg.
  split; cbn [pair todo taken progress dir kept].
  - unfold pair_run in *. by rewrite foldl_app, K1.
  - rewrite sent_by_cli_snoc, <- app_assoc. etransitivity; [|exact K2]. by apply prefix_app.
  - intros p Hp. destruct (K3 p Hp) as (Hk & Hle & Hloop). destruct Hg as [x Hx]. rewrite Hx. split; [done|].
    split; [rewrite length_app; lia|]. intros rest. by rewrite take_app_le by done.
  - intros Hk. destruct (K4 Hk) as [Hd Hn]. split; [done|]. rewrite not_elem_of_app, list_elem_of_singleton. naive_solver.
  - intros t Ht. destruct (K5 t Ht) as (fs & Hfs & Hr). exists fs. split; [by etransitivity|done].
Qed.

Lemma pair_turn_ok_same s l e :
  system_ok s l -> e <> RCli (Ok End_) -> sent_by_cli [e] = [] -> system_ok (with_pair (pair_step (pair s) e) s) (l ++ [e]).
Proof. intros Hs He Hc. apply pair_turn_ok; [done|done|]. by rewrite Hc. Qed.

Lemma over_ok s l : system_ok s l ->
  system_ok {| todo := todo s; pair := pair s; taken := taken s; progress := None; dir := dir s; kept := kept s |} l.
Proof. intros [K1 K2 K3 K4 K5]. by split. Qed.

Lemma takes_ok s l : system_ok s l -> exists l', system_ok (takes s) l'.
Proof.
  intros Hs. pose proof Hs as [K1 K2 K3 K4 K5]. unfold takes.
  destruct (progress s) as [p|] eqn:Ep; [|by eexists]. destruct (given _ !! taken s) as [f|] eqn:Ef; [|by eexists].
  destruct (K3 p eq_refl) as (Hk & Hle & Hloop). destruct (K4 Hk) as [Hd Hn]. rewrite Hd.
  assert (Hnext : forall rest, receive_loop render disk before name size (take (S (taken s)) (given (r_out (rcv_ (pair s)))) ++ rest) receive_start
    = receive_loop render disk before name size (f :: rest) p).
  { intros rest. rewrite (take_S_r _ _ _ Ef), <- app_assoc. apply Hloop. }
  destruct (receive_turn render disk before name size p f) as [p'|r] eqn:Et.
  - exists l. split; cbn [pair todo taken progress dir kept]; try done; [|congruence].
    intros q [= <-]. apply lookup_lt_Some in Ef. split; [done|]. split; [lia|]. intros rest. rewrite Hnext. cbn [receive_loop]. by rewrite Et.
  - exists (l ++ ((fun f => RCli (Ok f)) <$> r_said r)).
    assert (Hr : receive render disk before name size (take (S (taken s)) (given (r_out (rcv_ (pair s))))) = r).
    { specialize (Hnext []). rewrite app_nil_r in Hnext. unfold receive. rewrite Hnext. cbn [receive_loop]. by rewrite Et. }
    split; cbn [concluded pair todo taken progress dir kept]; try done.
    + unfold pair_run in *. by rewrite foldl_app, K1.
    + unfold sent_by_cli. rewrite omap_app. assert (Hno : forall fs : list Frame, omap (fun e => match e with SCli (Ok f) _ _ => Some f | _ => None end)
        ((fun f => RCli (Ok f)) <$> fs) = []) by (intros fs; by induction fs). by rewrite Hno, app_nil_r.
    + intros Hkn. destruct (r_saved r) as [t|e] eqn:Er; [done|]. rewrite <- Hr in Er.
      apply receive_loop_err in Er as [Hdir Hsaid]. fold (receive render disk before name size (take (S (taken s)) (given (r_out (rcv_ (pair s)))))) in *.
      rewrite Hr in Hdir, Hsaid. split; [done|]. rewrite not_elem_of_app. split; [done|]. rewrite list_elem_of_fmap. naive_solver.
    + intros t Ht. destruct (r_saved r) as [t'|e] eqn:Er; [|done]. injection Ht as ->.
      exists (take (S (taken s)) (given (r_out (rcv_ (pair s))))). rewrite Hr. split; [|done].
      etransitivity; [apply prefix_take|apply given_grows_run].
Qed.

Lemma system_step_ok s l t : system_ok s l -> exists l', system_ok (system_step s t) l'.
Proof.
  intros Hs. destruct t as [w env|e env| |env|e env|w env|e env| |e]; cbn [system_step];
    try (eexists; by apply pair_turn_ok_same).
  - destruct (todo s) as [|f rest] eqn:Et; [by eexists|]. destruct (was_accepted _); [|by eexists].
    eexists. apply pair_turn_ok; [done|done|]. by rewrite Et.
  - eexists. apply pair_turn_ok; [done|done|]. apply prefix_nil.
  - by eapply takes_ok.
  - eexists. apply (over_ok (with_pair (pair_step (pair s) (RCli (Err e))) s)). by apply pair_turn_ok_same.
Qed.

Lemma system_start_ok : system_ok (system_start p0 frames before) [].
Proof.
  split; cbn [system_start pair todo taken progress dir kept]; try done.
  - intros p [= <-]. split; [done|]. split; [lia|]. intros rest. by rewrite take_0.
  - intros _. split; [done|]. apply not_elem_of_nil.
Qed.

Lemma system_run_ok s l ts : system_ok s l -> exists l', system_ok (system_run s ts) l'.
Proof.
  revert s l. induction ts as [|t ts IH]; intros s l Hs; [by exists l|].
  destruct (system_step_ok s l t Hs) as [l' Hs']. by apply (IH _ l').
Qed.

(** ** What a turn can change *)

Lemma was_delivered_spec p : was_delivered p = true <-> SEvent Delivered ∈ s_out (snd_ p).
Proof.
  unfold was_delivered. rewrite existsb_exists. split.
  - intros (x & Hx & Hd). apply list_elem_of_In in Hx. by destruct x as [|[]| |].
  - intros Hx. exists (SEvent Delivered). by rewrite <- list_elem_of_In.
Qed.

Lemma rcli_run_sender p fs : snd_ (pair_run p ((fun f => RCli (Ok f)) <$> fs)) = snd_ p.
Proof. revert p. induction fs as [|f fs IH]; intros p; [done|]. cbn [fmap list_fmap]. unfold pair_run in *. cbn [foldl]. by rewrite IH. Qed.

Lemma takes_delivered s : was_delivered (pair (takes s)) = was_delivered (pair s).
Proof.
  unfold takes. destruct (progress s); [|done]. destruct (given _ !! _); [|done].
  destruct (receive_turn _ _ _ _ _ _ _); [done|]. unfold was_delivered. cbn [concluded pair]. by rewrite rcli_run_sender.
Qed.

Lemma system_step_kept s t : t <> Takes -> kept (system_step s t) = kept s /\ dir (system_step s t) = dir s.
Proof.
  destruct t; try done. intros _. cbn [system_step]. destruct (todo s); [done|]. by destruct (was_accepted _).
Qed.

Lemma system_ok_delivered s l : system_ok s l -> pair_ok (pair s) l -> was_delivered (pair s) = true -> is_Some (kept s).
Proof.
  intros [K1 K2 K3 K4 K5] [P1 P2 P3 P4 P5 P6 P7 P8 P9] Hd. apply was_delivered_spec, (so_done _ P1) in Hd.
  destruct (kept s) eqn:E; [by eexists|]. destruct (K4 eq_refl) as [_ Hn]. destruct Hn. auto.
Qed.

(** A settled sender does nothing more. *)
Lemma delivered_sender_still p l e : pair_ok p l -> was_delivered p = true -> snd_ (pair_step p e) = snd_ p.
Proof.
  intros [P1 _ _ _ _ _ _ _ _] Hd. apply was_delivered_spec, (so_done _ P1) in Hd.
  assert (Hph : s_phase (snd_ p) = Over) by (apply (so_outcome _ P1); by destruct (s_outcome (snd_ p))).
  assert (Hs : forall ev, send_step (snd_ p) ev = snd_ p) by (intros ev; unfold send_step; by rewrite Hph).
  destruct e as [r w env| |env|e env|w env|e env|f]; cbn [pair_step]; cbv zeta; cbn [snd_]; try done.
  - by destruct (r_link (rcv_ p) !! snd_read p); cbn [snd_].
  - by destruct (r_phase (rcv_ p)), (s_link (snd_ p) !! rcv_read p).
Qed.

Lemma delivered_stays s l t : pair_ok (pair s) l -> was_delivered (pair s) = true -> was_delivered (pair (system_step s t)) = true.
Proof.
  intros Hp Hd.
  assert (Hs : forall e, was_delivered (pair_step (pair s) e) = true).
  { intros e. unfold was_delivered. by rewrite (delivered_sender_still _ l). }
  destruct t; cbn [system_step pair with_pair]; auto.
  - destruct (todo s); [done|]. destruct (was_accepted _); [apply Hs|done].
  - by rewrite takes_delivered.
Qed.
End System.
Arguments System : clear implicits.

(** ** The refinement *)

Section Refinement.
Context `{!EndpointIds, !HexCrate, !WireJson, !Blake3} {Link : Type}.
Variable render : message -> rstr.

(** The invariant along a run from the start of a transfer. *)
Lemma transfer_run_ok id rid to from oname rname size ttl told p0 reads writes disk before ts :
  0 <= size -> pair_start id rid to from oname size ttl told = Some p0 ->
  exists l, system_ok render disk rname size p0 (fst (stream reads writes size)) before
              (system_run render disk rname size (system_start p0 (fst (stream reads writes size)) before) ts) l
    /\ pair_ok (pair (system_run render disk rname size (system_start p0 (fst (stream reads writes size)) before) ts)) l.
Proof.
  intros Hsz Hp0. destruct (system_run_ok render disk rname size p0 (fst (stream reads writes size)) before _ [] ts
    (system_start_ok render disk rname size p0 _ before)) as [l Hs]. exists l. split; [exact Hs|].
  rewrite (sk_pair _ _ _ _ _ _ _ _ _ Hs). apply (pair_run_ok p0 []). by eapply pair_start_ok.
Qed.

(** What the invariant says of the directory. *)
Lemma ok_describes size p0 reads writes disk before rname s l :
  0 <= size -> system_ok render disk rname size p0 (fst (stream reads writes size)) before s l -> pair_ok (pair s) l ->
  describes size before (read_content reads) (stage_of s) (dir s).
Proof.
  intros Hsz Hs Hpair.
  assert (Hkept : forall k, kept s = Some k -> describes size before (read_content reads) Kept (dir s)).
  { intros k Hk. destruct (sk_kept _ _ _ _ _ _ _ _ _ Hs k Hk) as (fs & Hfs & Hr & ->).
    destruct Hpair as [_ _ _ P4 _ _ P7 _ _]. pose proof (sk_sent _ _ _ _ _ _ _ _ _ Hs) as Hsent.
    destruct (kept_is_read render reads writes size disk before rname fs k) as (c & Hc & Hl & Hf & Hd); [|done|by exists c, k].
    etransitivity; [exact Hfs|]. etransitivity; [exact P4|]. etransitivity; [exact P7|].
    etransitivity; [|exact Hsent]. by apply prefix_app_r. }
  unfold stage_of. destruct (was_delivered (pair s)) eqn:Hd.
  - destruct (system_ok_delivered _ _ _ _ _ _ _ _ _ Hs Hpair Hd) as [k Hk]. by apply (Hkept k).
  - destruct (kept s) as [k|] eqn:Hk; [by apply (Hkept k)|]. by apply (sk_pending _ _ _ _ _ _ _ _ _ Hs).
Qed.

(** C2: a transfer is an atomic delivery.  Whatever the terminals, the daemons and
    the network do, in whatever order, each turn leaves the stage as it was or
    takes it one step on, from nothing to the file kept and from the file kept to
    the delivery reported; and at every stage the receiver's directory is exactly
    what the stage says: untouched, or with the file that was read at the sender,
    of the size offered, under a name nothing had. *)
Theorem transfer_refines_atomic_delivery id rid to from oname rname size ttl told p0 reads writes disk before ts t :
  0 <= size -> pair_start id rid to from oname size ttl told = Some p0 ->
  let s := system_run render disk rname size (system_start p0 (fst (stream reads writes size)) before) ts in
  let s' := system_step render disk rname size s t in
  (stage_of s' = stage_of s \/ spec_step (stage_of s) (stage_of s'))
  /\ describes size before (read_content reads) (stage_of s) (dir s).
Proof.
  intros Hsz Hp0 s s'. destruct (transfer_run_ok id rid to from oname rname size ttl told p0 reads writes disk before ts Hsz Hp0) as (l & Hs & Hpair).
  fold s in Hs, Hpair. split; [|by eapply ok_describes].
  destruct (system_step_ok render disk rname size p0 _ before s l t Hs) as [l' Hs']. fold s' in Hs'.
  assert (Hpair' : pair_ok (pair s') l').
  { rewrite (sk_pair _ _ _ _ _ _ _ _ _ Hs'). apply (pair_run_ok p0 []). by eapply pair_start_ok. }
  pose proof (system_ok_delivered _ _ _ _ _ _ _ _ _ Hs' Hpair') as Hdk'.
  unfold stage_of. destruct (was_delivered (pair s)) eqn:Hd.
  { subst s'. rewrite (delivered_stays _ _ _ _ s l t Hpair Hd). by left. }
  assert (Hcases : t = Takes \/ t <> Takes) by (destruct t; auto). destruct Hcases as [->|Ht].
  - assert (Hn : was_delivered (pair s') = false) by (subst s'; cbn [system_step]; by rewrite takes_delivered).
    rewrite Hn. destruct (kept s) eqn:Ek; [|destruct (kept s'); auto using spec_step].
    assert (Hss : s' = s); [|rewrite Hss, Ek; by left].
    subst s'. cbn [system_step]. unfold takes. destruct (progress s) eqn:Ep; [|done].
    destruct (sk_progress _ _ _ _ _ _ _ _ _ Hs p Ep) as [Hk _]. congruence.
  - destruct (system_step_kept render disk rname size s t Ht) as [Hk _]. fold s' in Hk. rewrite Hk.
    destruct (was_delivered (pair s')) eqn:Hd'; [|by left].
    destruct (Hdk' eq_refl) as [k Hkk]. rewrite <- Hk, Hkk. right. constructor.
Qed.
End Refinement.

(** ** Witness *)

Import Concrete.

Module SystemDemo.
Definition turns : list turn_of :=
  [SenderReads Codec.env; Writes true Codec.env; ReceiverReads true Codec.env; Takes; Writes true Codec.env; Writes true Codec.env;
   ReceiverReads true Codec.env; Takes; Writes true Codec.env; ReceiverReads true Codec.env; Takes; ReceiverReads true Codec.env; Takes].
Definition is_stage (st st' : stage) : bool :=
  match st, st' with Pending, Pending | Kept, Kept | Reported, Reported => true | _, _ => false end.
Lemma is_stage_spec st st' : is_stage st st' = true -> st = st'.
Proof. by destruct st, st'. Qed.
End SystemDemo.

Example transfer_refines_atomic_delivery_witness :
  exists p0, Codec.pair = Some p0 /\
    let s := system_run FileDemo.render FileDemo.disk (lit "a.txt") 3
               (system_start p0 (fst (stream FileDemo.reads FileDemo.all 3)) FileDemo.dir) SystemDemo.turns in
    stage_of s = Kept
    /\ stage_of (system_step FileDemo.render FileDemo.disk (lit "a.txt") 3 s (SenderReads Codec.env)) = Reported
    /\ exists target, dir s = <[target := FileDemo.content]> FileDemo.dir.
Proof.
  eexists. split; [reflexivity|]. cbv zeta.
  match goal with |- context [system_start ?p0 _ _] =>
    pose proof (transfer_refines_atomic_delivery FileDemo.render (lit "ab12") (lit "cd34") (lit "nas") (lit "laptop") (lit "a.txt")
      (lit "a.txt") 3 600 true p0 FileDemo.reads FileDemo.all FileDemo.disk FileDemo.dir SystemDemo.turns (SenderReads Codec.env)
      ltac:(done) eq_refl) as [_ Hd]
  end.
  match goal with |- ?P /\ ?Q /\ _ =>
    assert (Hk : P) by (apply SystemDemo.is_stage_spec; by vm_compute);
    assert (Hr : Q) by (apply SystemDemo.is_stage_spec; by vm_compute)
  end.
  split; [exact Hk|]. split; [exact Hr|]. rewrite Hk in Hd. destruct Hd as (c & target & Hc & _ & _ & Hdir).
  exists target. by injection Hc as <-.
Defined.
