(* ===== verification/Network.v ===== *)
(** * A network of daemons

    Nodes, each the whole state of a daemon; the roster pushes on their way
    between them, in no order; and the links a daemon is in the middle of
    serving.  What happens is a list of events: commands at a node, bytes on a
    stream to it, a push arriving or lost, a link being checked, registered and
    caught up, a node's own tasks.  A node serves one request after the other
    here; [Schedules] lets it serve many at once. *)

From S2P Require Import Prelude External Proto Names Net Tun Membership MembershipProps MembershipLookup Peers Routes Stats Files Transfer Node NodeProps Admin AdminProps Wire Authz Ipc IpcProps.

Local Abbreviation list := Datatypes.list.

Section Network.
Context `{!EndpointIds, !Sha256, !HexCrate, !Bs58, !WireJson, !AdminJson} {Link : Type}.
Notation State := (State (Link := Link)).
Implicit Types (k c from : EndpointId) (n : State).

Record Network := {
  nodes : gmap EndpointId State;
  wire : list (EndpointId * push);                (* who sends it, to whom, and what *)
  checked : list (EndpointId * Connection);       (* links a node has found to be a member's *)
  catching : list (EndpointId * EndpointId);      (* whom a node is about to send its roster *)
}.

(** A node's own tasks, which nobody asked for. *)
Definition own_task (m : method (Link := Link)) : bool :=
  match m with MSetDns _ | MUnlinked _ | MFile _ | MDialed | MRequestDial _ => true | _ => false end.

Inductive event :=
  | Commands k (o : Outside) (req : Request)
  | Asks from k (w : World) (now : Z) (data : list Z)        (* anybody else, with the key proved *)
  | Arrives (i : nat) (w : World) (now : Z)                  (* any push on the wire *)
  | Lost (i : nat)
  | Checks k (conn : Connection)                             (* a link comes up: is it a member's? *)
  | Registers (i : nat)                                      (* one that was goes into the table *)
  | CatchesUp (i : nat)                                      (* and is sent the roster as it is by then *)
  | Works k (w : World) (m : method (Link := Link)).

Definition with_nodes f (s : Network) : Network :=
  {| nodes := f (nodes s); wire := wire s; checked := checked s; catching := catching s |}.
Definition with_wire f (s : Network) : Network :=
  {| nodes := nodes s; wire := f (wire s); checked := checked s; catching := catching s |}.
Definition with_checked f (s : Network) : Network :=
  {| nodes := nodes s; wire := wire s; checked := f (checked s); catching := catching s |}.
Definition with_catching f (s : Network) : Network :=
  {| nodes := nodes s; wire := wire s; checked := checked s; catching := f (catching s) |}.

(** A node acts; its pushes go on the wire. *)
Definition at_node (s : Network) k (f : State -> State * list push) : Network :=
  match nodes s !! k with
  | Some n => let '(n', pushes) := f n in with_wire (fun l => l ++ ((k,.) <$> pushes)) (with_nodes <[k := n']> s)
  | None => s
  end.

Definition commanded (o : Outside) (req : Request) n : State * list push :=
  let '(n', _, pushes) := Ipc.dispatch o n req in (n', pushes).
Definition asked (w : World) (from : EndpointId) (now : Z) (data : list Z) n : State * list push :=
  let '(n', _, pushes) := serves w n from data now in (n', pushes).

(** A node does not connect to itself. *)
Definition asks (s : Network) (from k : EndpointId) (w : World) (now : Z) (data : list Z) : Network :=
  if bool_decide (from = k) then s else at_node s k (asked w from now data).

(** [serve_link]: the check, which closes a stranger's link; *)
Definition checks (s : Network) k (conn : Connection) : Network :=
  match nodes s !! k with
  | Some n =>
      if negb (bool_decide (remote_id conn = k)) && is_member n (show_id (remote_id conn))
      then with_checked (fun l => l ++ [(k, conn)]) s else s
  | None => s
  end.

(** the table, which takes one link for each peer; *)
Definition registered (conn : Connection) n : State :=
  with_mesh (fst (register (peers n) (remote_id conn) conn)) (routes n) (kernel n) (dial_tx n) n.

Definition registers (s : Network) (i : nat) : Network :=
  match checked s !! i with
  | Some (k, conn) =>
      let s := with_checked (delete i) s in
      match nodes s !! k with
      | Some n =>
          let s := with_nodes <[k := registered conn n]> s in
          if snd (register (peers n) (remote_id conn) conn) && is_coordinator n
          then with_catching (fun l => l ++ [(k, remote_id conn)]) s else s
      | None => s
      end
  | None => s
  end.

(** and the roster, which a task of its own sends. *)
Definition catches_up (s : Network) (i : nat) : Network :=
  match catching s !! i with
  | Some (k, peer) =>
      at_node (with_catching (delete i) s) k (fun n => (n, [(peer, Roster (network_name (membership n)) (Node.roster n))]))
  | None => s
  end.

Definition network_step (s : Network) (e : event) : Network :=
  match e with
  | Commands k o req => at_node s k (commanded o req)
  | Asks from k w now data => asks s from k w now data
  | Arrives i w now =>
      match wire s !! i with
      | Some (from, (to, req)) =>
          let s := with_wire (delete i) s in
          match request_to_vec req with Ok data => asks s from to w now data | Err _ => s end
      | None => s
      end
  | Lost i => with_wire (delete i) s
  | Checks k conn => checks s k conn
  | Registers i => registers s i
  | CatchesUp i => catches_up s i
  | Works k w m => if own_task m then at_node s k (fun n => (call w n m, [])) else s
  end.

Definition network_run (s : Network) (l : list event) : Network := foldl network_step s l.

(** All goes well for node [k]: its saves and its route commands succeed, and
    nobody it registers was removed since it checked them. *)
Definition goes_well k (s : Network) (e : event) : Prop :=
  match e with
  | Commands k' o _ => k' = k -> fair (world o)
  | Asks _ k' w _ _ => k' = k -> fair w
  | Arrives i w _ => forall from req, wire s !! i = Some (from, (k, req)) -> fair w
  | Registers i => forall conn n, checked s !! i = Some (k, conn) -> nodes s !! k = Some n -> remote_id conn ∈ other_ids n
  | _ => True
  end.

Fixpoint smoothly k (s : Network) (l : list event) : Prop :=
  match l with
  | [] => True
  | e :: l => goes_well k s e /\ smoothly k (network_step s e) l
  end.

(** ** What is on the wire *)

Definition a_roster (p : push) : Prop := exists name l, snd p = Roster name l.

#[local] Hint Resolve Forall_nil_2 : core.

Lemma rosters_broadcast n subject name l : Forall a_roster (broadcast_roster n subject name l).
Proof.
  apply Forall_forall. intros [to req] Hp.
  unfold broadcast_roster in Hp. apply list_elem_of_omap in Hp as (i & Hi & Hs).
  destruct (parse_id i) as [id|]; [|done]. injection Hs as _ <-. by exists name, l.
Qed.

Lemma rosters_dispatch o n req : Forall a_roster (snd (Ipc.dispatch o n req)).
Proof.
  destruct req as [peer| |name h|ttl|code h| |user|h force|peer|name size target ttl| |id|id];
    cbn [Ipc.dispatch]; try apply Forall_nil_2; unfold answer.
  - by destruct (probe _ _ _ _ _) as [? []].
  - by destruct (Ipc.create_network _ _ _ _) as [? []].
  - destruct (negb _); [done|]. by destruct (generate_invite _ _ _ _ _) as [? []].
  - destruct (join_network _ _ _ _); [|done]. by destruct (set_joined _ _ _ _ _) as [? []].
  - by destruct (Node.leave _ _) as [? []].
  - destruct (resolve_user _ _ _); [|done]. by destruct (set_operator _ _ _ _) as [? []].
  - unfold Ipc.set_hostname. destruct (validate _ _) as [wanted|]; [|done]. destruct (is_coordinator n).
    + destruct (Node.claim_hostname _ _ _ _ _) as [n' [[a|e]|e]]; [apply rosters_broadcast|done..].
    + destruct (coordinator_id _) as [c|]; [|done]. destruct (parse_id c); [|done].
      destruct (Admin.claim_hostname _ _); by destruct (adopt_hostname _ _ _) as [? []].
  - unfold Ipc.kick. destruct (negb _); [done|].
    destruct (Node.kick _ _ _) as [n' [[x|e]|e]]; [apply rosters_broadcast|done..].
  - destruct (reject (files n) id (Ipc.now o)) as [[] ?]; cbn [snd]; apply Forall_nil_2.
Qed.

Lemma rosters_admin w n req requester now : Forall a_roster (snd (Admin.dispatch w n req requester now)).
Proof.
  destruct req as [tok h| |h|name l|]; cbn [Admin.dispatch]; try done.
  - unfold Admin.join. destruct (negb _); [done|]. destruct (decode_token _); [|done].
    destruct (Node.redeem_invite _ _ _ _ _ _) as [n' [[[? ?]|]|e]]; [apply rosters_broadcast|done..].
  - unfold Admin.leave. destruct (negb _); [done|].
    destruct (Node.remove_member _ _ _) as [n' [[]|e]]; [apply rosters_broadcast|done..].
  - unfold Admin.set_hostname. destruct (negb _); [done|]. destruct (negb _); [done|].
    destruct (Node.claim_hostname _ _ _ _ _) as [n' [[a|e]|e]]; [apply rosters_broadcast|done..].
Qed.

(** ** What a node does with what it is sent *)

Lemma serves_dispatch w n remote data now :
  serves w n remote data now = (n, snd (fst (serves w n remote data now)), [])
  \/ exists req, fst (fst (serves w n remote data now)) = fst (fst (Admin.dispatch w n req (show_id remote) now))
     /\ snd (serves w n remote data now) = snd (Admin.dispatch w n req (show_id remote) now).
Proof.
  unfold serves, accept. destruct (_ <? _)%nat; [by left|]. destruct (request_from_slice data) as [req|e]; [right|by left].
  exists req. by destruct (Admin.dispatch w n req (show_id remote) now) as [[n' resp] pushes].
Qed.

Lemma rosters_asked w from now data n : Forall a_roster (snd (asked w from now data n)).
Proof.
  unfold asked. pose proof (serves_dispatch w n from data now) as Hs. destruct (serves _ _ _ _ _) as [[n' back] pushes]. cbn [fst snd] in *.
  destruct Hs as [[= -> ->]|(req & _ & ->)]; [done|apply rosters_admin].
Qed.

(** *** In step *)

Definition steady k n : Prop := own n = k /\ in_step n.

Lemma steady_asked w from now data k n : fair w -> steady k n -> steady k (fst (asked w from now data n)).
Proof.
  intros Hw [Ho Hi]. unfold asked. pose proof (serves_dispatch w n from data now) as Hs.
  destruct (serves _ _ _ _ _) as [[n' back] pushes]. cbn [fst snd] in *. destruct Hs as [[= -> ->]|(req & -> & _)]; [done|].
  split; [|by apply admin_dispatch_in_step].
  destruct (admin_dispatch_is_a_method w n req (show_id from) now) as [->|(m & _ & -> & _)]; [done|].
  by rewrite (proj2 (call_membership w n m)).
Qed.

Lemma steady_commanded o req k n : fair (world o) -> steady k n -> steady k (fst (commanded o req n)).
Proof.
  intros Hf [Ho Hi]. unfold commanded. pose proof (dispatch_in_step o n req Hf Hi) as Hstep.
  destruct (dispatch_is_a_method o n req) as [He|(m & _ & He)];
    destruct (Ipc.dispatch o n req) as [[n' resp] pushes]; cbn [fst snd] in *; subst n'; [done|].
  split; [by rewrite (proj2 (call_membership (world o) n m))|done].
Qed.

Lemma steady_works w m k n : own_task m = true -> steady k n -> steady k (call w n m).
Proof.
  intros Hm [Ho Hi]. split; [by rewrite (proj2 (call_membership w n m))|].
  replace (call w n m) with (call {| save_to := Ok tt; succeeds := fun _ => true; capacity := capacity w |} n m) by by destruct m.
  by apply call_in_step.
Qed.

Lemma steady_registered conn k n : remote_id conn ∈ other_ids n -> steady k n -> steady k (registered conn n).
Proof.
  intros Hin [Ho Hi]. split; [done|].
  pose proof (call_in_step {| save_to := Ok tt; succeeds := fun _ => true; capacity := 0%nat |} n (MLinked conn) (conj eq_refl (fun _ => eq_refl)) Hi) as Hc.
  cbn [call] in Hc. by rewrite bool_decide_eq_true_2 in Hc.
Qed.

(** What becomes of one node when another acts, or it does. *)
Lemma at_node_lookup s k j f n : nodes s !! j = Some n ->
  nodes (at_node s k f) !! j = Some (if bool_decide (k = j) then fst (f n) else n).
Proof.
  intros Hn. unfold at_node. destruct (nodes s !! k) as [m|] eqn:Em.
  - case_bool_decide as He; [subst|].
    + assert (m = n) as -> by congruence. destruct (f n) as [n' p]. cbn. by rewrite lookup_insert_eq.
    + destruct (f m) as [m' p]. cbn. by rewrite lookup_insert_ne.
  - rewrite bool_decide_eq_false_2; [done|]. intros ->. congruence.
Qed.

Lemma at_node_steady s k j f n : nodes s !! j = Some n -> steady j n -> (k = j -> steady j (fst (f n))) ->
  exists n', nodes (at_node s k f) !! j = Some n' /\ steady j n'.
Proof. intros Hn Hs Hf. eexists. split; [by apply at_node_lookup|]. case_bool_decide; auto. Qed.

Lemma step_steady s e k n : nodes s !! k = Some n -> steady k n -> goes_well k s e ->
  exists n', nodes (network_step s e) !! k = Some n' /\ steady k n'.
Proof.
  intros Hn Hs Hg. destruct e as [k' o req|from k' w now data|i w now|i|k' conn|i|i|k' w m]; cbn [network_step goes_well] in *.
  - apply (at_node_steady s k' k _ n); [done|done|]. intros ->. by apply steady_commanded; [apply Hg|].
  - unfold asks. case_bool_decide; [by exists n|]. apply (at_node_steady s k' k _ n); [done|done|]. intros ->. by apply steady_asked; [apply Hg|].
  - destruct (wire s !! i) as [[from [to req]]|] eqn:Ew; [|by exists n]. destruct (request_to_vec req) as [data|e]; [|by exists n].
    unfold asks. case_bool_decide; [by exists n|]. apply (at_node_steady (with_wire _ s) to k _ n); [done|done|].
    intros ->. apply steady_asked; [by eapply Hg|done].
  - by exists n.
  - exists n. split; [|done]. unfold checks. destruct (nodes s !! k'); [|done]. by destruct (_ && _).
  - unfold registers. destruct (checked s !! i) as [[k' conn]|] eqn:Ec; [|by exists n].
    cbn [nodes with_checked]. destruct (nodes s !! k') as [m|] eqn:Em; [|by exists n].
    assert (Hl : exists n', (<[k' := registered conn m]> (nodes s)) !! k = Some n' /\ steady k n').
    { destruct (decide (k' = k)) as [->|Hne]; [|exists n; by rewrite lookup_insert_ne].
      assert (m = n) as -> by congruence. exists (registered conn n). rewrite lookup_insert_eq. split; [done|].
      apply steady_registered; [by eapply Hg|done]. }
    by destruct (_ && _).
  - unfold catches_up. destruct (catching s !! i) as [[k' peer]|]; [|by exists n].
    by apply (at_node_steady (with_catching _ s) k' k _ n).
  - destruct (own_task m) eqn:Em; [|by exists n]. apply (at_node_steady s k' k _ n); [done|done|]. intros ->. by apply steady_works.
Qed.

Lemma run_steady s l k n : nodes s !! k = Some n -> steady k n -> smoothly k s l ->
  exists n', nodes (network_run s l) !! k = Some n' /\ steady k n'.
Proof.
  revert s n. induction l as [|e l IH]; intros s n Hn Hs; [intros _; by exists n|]. intros [He Hl].
  destruct (step_steady s e k n Hn Hs He) as (n' & Hn' & Hs'). by apply (IH _ n').
Qed.

(** *** Nothing but rosters *)

Definition only_rosters (s : Network) : Prop := Forall (fun p => a_roster (snd p)) (wire s).

Lemma rosters_at_node s k f : (forall n, Forall a_roster (snd (f n))) -> only_rosters s -> only_rosters (at_node s k f).
Proof.
  intros Hf Hs. unfold at_node. destruct (nodes s !! k) as [n|]; [|done]. specialize (Hf n). destruct (f n) as [n' pushes].
  apply Forall_app. split; [done|]. by apply Forall_fmap.
Qed.

Lemma rosters_delete s i : only_rosters s -> only_rosters (with_wire (delete i) s).
Proof.
  unfold only_rosters. rewrite !Forall_forall. intros Hs x Hx. apply Hs. eapply elem_of_submseteq; [exact Hx|apply submseteq_delete].
Qed.

Lemma step_rosters s e : only_rosters s -> only_rosters (network_step s e).
Proof.
  intros Hs. destruct e as [k o req|from k w now data|i w now|i|k conn|i|i|k w m]; cbn [network_step].
  - apply rosters_at_node; [|done]. intros n. unfold commanded. pose proof (rosters_dispatch o n req) as Hp.
    by destruct (Ipc.dispatch o n req) as [[n' resp] pushes].
  - unfold asks. case_bool_decide; [done|]. apply rosters_at_node; [|done]. apply rosters_asked.
  - destruct (wire s !! i) as [[from [to req]]|]; [|done]. apply (rosters_delete s i) in Hs.
    destruct (request_to_vec req) as [data|e]; [|done]. unfold asks. case_bool_decide; [done|].
    apply rosters_at_node; [|done]. apply rosters_asked.
  - by apply rosters_delete.
  - unfold checks. destruct (nodes s !! k); [|done]. by destruct (_ && _).
  - unfold registers. destruct (checked s !! i) as [[k conn]|]; [|done]. destruct (nodes _ !! k); [|done]. by destruct (_ && _).
  - unfold catches_up. destruct (catching s !! i) as [[k peer]|]; [|done]. apply rosters_at_node; [|done].
    intros n. apply Forall_singleton. by eexists _, _.
  - destruct (own_task m); [|done]. by apply rosters_at_node.
Qed.

(** ** Properties *)

(** C7: whatever is asked of the nodes, by whom, in whatever bytes, and in whatever
    order what they push to each other arrives or gets lost, every node whose own
    saves and route commands succeed, and which registers no link of somebody
    removed since it checked them, stays in step with itself, under its own key;
    what fails elsewhere does not matter to it; and nothing but rosters is ever
    pushed.  (A node serves one request after the other here; [Schedules] says what
    is left of this when it serves many at once.) *)
Theorem network_stays_in_step s l :
  (forall k n, nodes s !! k = Some n -> own n = k -> in_step n -> smoothly k s l ->
     exists n', nodes (network_run s l) !! k = Some n' /\ own n' = k /\ in_step n')
  /\ (Forall (fun p => exists name roster, snd (snd p) = Roster name roster) (wire s) ->
      Forall (fun p => exists name roster, snd (snd p) = Roster name roster) (wire (network_run s l))).
Proof.
  split; [intros k n Hn Ho Hi; by apply (run_steady s l k n)|].
  change (only_rosters s -> only_rosters (network_run s l)).
  revert s. induction l as [|e l IH]; intros s Hs; [done|]. by apply IH, step_rosters.
Qed.

(** *** A link, from its check to the roster it brings *)

(** What a pushed roster leaves a member with once it is saved, whatever becomes
    of the system's routes. *)
Lemma set_roster_saved w n name l : save_to w = Ok tt ->
  let n' := fst (Node.set_roster w n name l) in
  membership n' = fst (Membership.set_roster (membership n) (own_id n) name l)
  /\ conflicts n' = snd (Membership.set_roster (membership n) (own_id n) name l)
  /\ own n' = own n /\ Peers.routes (peers n') = foldl add_routes ∅ (other_ids n').
Proof.
  intros Hs. unfold Node.set_roster. destruct (Membership.set_roster _ _ _ _) as [m found]. unfold save. rewrite Hs.
  cbn [fst snd]. unfold refresh_routes. destruct (Files.set_roster _ _) as [fs ended].
  set (n1 := with_conflicts _ _). assert (Hr : Peers.routes (fst (set_routes (peers n1) (other_ids n1))) = foldl add_routes ∅ (other_ids n1)) by done.
  destruct (set_routes _ _) as [p dropped]. cbn [fst] in Hr. by destruct (Routes.sync _ _ _ _).
Qed.

(** A fresh link of a member at its coordinator, with nothing coming in between. *)
Lemma link_served s c conn nc :
  let k := remote_id conn in
  nodes s !! c = Some nc -> is_coordinator nc = true -> k <> c -> Node.is_member nc (show_id k) = true -> link (peers nc) k = None ->
  network_run s [Checks c conn; Registers (length (checked s)); CatchesUp (length (catching s))]
  = {| nodes := <[c := registered conn nc]> (nodes s); wire := wire s ++ [(c, (k, Roster (network_name (membership nc)) (Node.roster nc)))];
       checked := checked s; catching := catching s |}.
Proof.
  intros k Hn Hco Hne Hm Hl. subst k. unfold network_run. cbn [foldl network_step].
  assert (Hchk : checks s c conn = with_checked (fun l => l ++ [(c, conn)]) s).
  { unfold checks. rewrite Hn, bool_decide_eq_false_2 by done. by rewrite Hm. }
  assert (Hreg : registers (with_checked (fun l => l ++ [(c, conn)]) s) (length (checked s))
    = with_catching (fun l => l ++ [(c, remote_id conn)]) (with_nodes <[c := registered conn nc]> s)).
  { unfold registers. cbn [checked with_checked]. rewrite list_lookup_middle by done. cbn [nodes with_checked].
    rewrite Hn, Hco. unfold register. unfold link in Hl. rewrite Hl. cbn [snd andb].
    unfold with_catching, with_nodes, with_checked. cbn. by rewrite delete_middle, app_nil_r. }
  rewrite Hchk, Hreg. unfold catches_up. cbn [catching with_catching]. rewrite list_lookup_middle by done.
  unfold at_node. cbn [nodes with_catching with_nodes]. rewrite lookup_insert_eq. unfold with_wire. cbn.
  by rewrite delete_middle, app_nil_r, insert_insert_eq.
Qed.

(** C10: a link that comes up brings a member into agreement with its coordinator,
    however stale its roster was and however the network came to be as it is: once
    the link has been checked and registered, and the roster it sets off has been
    sent and has arrived, with nothing else happening meanwhile, the member lists
    exactly whom the coordinator lists and has a route to every other of them; and
    unless it reports a conflict, their rosters are the same, name for name.  That
    is so as long as the roster is no more than the 64 KiB a member reads, and the
    member can save it. *)
Theorem a_link_brings_agreement s c k conn w now nc nk text :
  nodes s !! c = Some nc -> nodes s !! k = Some nk -> own nc = c -> own nk = k ->
  wf (membership nc) -> wf (membership nk) ->
  is_coordinator nc = true -> coordinator_id (membership nk) = Some (show_id c) ->
  own_id nc ∈ ids (members (membership nc)) -> own_id nk ∈ ids (members (membership nc)) ->
  k <> c -> remote_id conn = k -> link (peers nc) k = None ->
  request_to_vec (Roster (network_name (membership nc)) (Node.roster nc)) = Ok text -> (length text <= REQUEST_LIMIT)%nat ->
  save_to w = Ok tt ->
  let s' := network_run s [Checks c conn; Registers (length (checked s)); CatchesUp (length (catching s)); Arrives (length (wire s)) w now] in
  exists nc' nk', nodes s' !! c = Some nc' /\ nodes s' !! k = Some nk' /\ wire s' = wire s
    /\ membership nc' = membership nc /\ link (peers nc') k = Some conn
    /\ (forall i, i ∈ ids (members (membership nk')) <-> i ∈ ids (members (membership nc')))
    /\ (forall i id, i ∈ ids (members (membership nc')) -> parse_id i = Some id -> id <> k ->
          is_Some (route (peers nk') (v4_of id)) /\ is_Some (route (peers nk') (v6_of id)))
    /\ (conflicts nk' = [] -> Node.roster nk' = Node.roster nc').
Proof.
  intros Hnc Hnk Hownc Hownk Hwc Hwk Hco Hck Hoc Hok Hne Hr Hlink Htext Hfit Hsave s'.
  rewrite <- Hr in Hnk, Hownk, Hne, Hlink |- *. clear Hr.
  assert (Hm : Node.is_member nc (show_id (remote_id conn)) = true) by (apply is_member_spec; unfold own_id in Hok; by rewrite Hownk in Hok).
  set (name := network_name (membership nc)) in *.
  set (nk' := fst (Node.set_roster w nk name (Node.roster nc))).
  assert (Hasked : fst (asked w c now text nk) = nk' /\ snd (asked w c now text nk) = []).
  { unfold asked. rewrite (serves_fits _ _ _ _ _ _ Htext Hfit). cbn [Admin.dispatch]. unfold Admin.roster.
    rewrite bool_decide_eq_true_2 by done. cbn [negb]. subst nk'. by destruct (Node.set_roster _ _ _ _) as [n' [[]|e]]. }
  assert (Hs' : s' = {| nodes := <[remote_id conn := nk']> (<[c := registered conn nc]> (nodes s)); wire := wire s;
    checked := checked s; catching := catching s |}).
  { subst s'. change (network_run s [Checks c conn; Registers (length (checked s)); CatchesUp (length (catching s)); Arrives (length (wire s)) w now])
      with (network_step (network_run s [Checks c conn; Registers (length (checked s)); CatchesUp (length (catching s))]) (Arrives (length (wire s)) w now)).
    rewrite (link_served s c conn nc Hnc Hco Hne Hm Hlink). cbn [network_step wire].
    rewrite list_lookup_middle by done. fold name. rewrite Htext.
    unfold asks. rewrite bool_decide_eq_false_2 by done. unfold at_node. cbn [nodes with_wire].
    rewrite lookup_insert_ne, Hnk by done. destruct (asked w c now text nk) as [n' pushes]. cbn [fst snd] in Hasked.
    destruct Hasked as [-> ->]. unfold with_wire, with_nodes. cbn. by rewrite delete_middle, !app_nil_r. }
  exists (registered conn nc), nk'. rewrite Hs'. cbn [nodes wire].
  rewrite lookup_insert_ne, !lookup_insert_eq by done. do 4 (split; [done|]). split.
  { unfold registered, register. unfold link in Hlink. rewrite Hlink. unfold link. cbn. apply lookup_insert_eq. }
  destruct (set_roster_saved w nk name (Node.roster nc) Hsave) as (Hmk & Hcf & Hokk & Hroutes).
  fold nk' in Hmk, Hcf, Hokk, Hroutes.
  destruct (set_roster_spec (membership nk) (own_id nk) name (Node.roster nc)) as (_ & Hids & _ & _).
  rewrite <- Hmk in Hids.
  assert (Hids' : forall i, i ∈ ids (members (membership nk')) <-> i ∈ ids (members (membership nc))).
  { intros i. rewrite Hids, elem_of_node_roster, Hck. unfold own_id in *. rewrite <- Hownc. naive_solver. }
  split; [done|]. split.
  - intros i id Hi Hp Hid. unfold route. rewrite Hroutes. apply routes_complete, elem_of_other_ids.
    split; [congruence|]. exists i. by rewrite Hids'.
  - intros Hnoc. unfold Node.roster. change (membership (registered conn nc)) with (membership nc).
    rewrite Hcf in Hnoc. unfold Membership.set_roster in Hnoc, Hmk.
    assert (Hp : members (membership nk') ≡ₚ Node.roster nc).
    { rewrite Hmk. apply apply_roster_faithful; [|done| | | |done].
      - apply wf_no_members; [done|]. apply Hwk.
      - unfold ids, Node.roster, Membership.roster. rewrite merge_sort_Permutation. apply Hwc.
      - by rewrite elem_of_node_roster.
      - cbn. rewrite Hck. intros ? [= <-]. rewrite elem_of_node_roster, <- Hownc. done. }
    symmetry. apply roster_ext; [apply Hwc|]. rewrite Hp. unfold Node.roster, Membership.roster. by rewrite merge_sort_Permutation.
Qed.
End Network.

(** ** Witnesses *)

Import Concrete WireDemo.

Module NetworkDemo.
Definition fresh (k : EndpointId) (m : Membership) : State (Link := unit) :=
  {| own := k; membership := m; saved := m; settings := Settings_default; saved_settings := Settings_default;
     peers := Peers_default; routes := Routes.new (lit "quix"); kernel := ∅;
     conflicts := []; dns := Unavailable None None; dial_tx := []; files := Registry_default; effects := [] |}.
Definition boots (k : EndpointId) (m : Membership) : State (Link := unit) := refresh_routes NodeDemo.world (fresh k m).

(** K2 as it was when it joined K1's network, and K3, who was never invited. *)
Definition joined : Membership := Membership.set_joined Membership_default Demo.id1 Demo.id2 (Some (lit "home")) [Demo.member1; Demo.member2].
Definition k1 : EndpointId := K1.
Definition k2 : EndpointId := K2.
Definition k3 : EndpointId := K3.
Definition start : Network (Link := unit) :=
  {| nodes := <[k1 := boots k1 Demo.state]> (<[k2 := boots k2 joined]> (<[k3 := boots k3 Membership_default]> ∅)); wire := []; checked := []; catching := [] |}.

Lemma start_k1 : nodes start !! k1 = Some (boots k1 Demo.state).
Proof. apply lookup_insert_eq. Qed.
Lemma k1_k2 : k1 <> k2.
Proof. assert (Hb : bool_decide (k1 = k2) = false) by (by vm_compute). by apply bool_decide_eq_false in Hb. Qed.
Lemma start_k2 : nodes start !! k2 = Some (boots k2 joined).
Proof. cbn [start nodes]. rewrite lookup_insert_ne by exact k1_k2. apply lookup_insert_eq. Qed.
Lemma boots_in_step k m : in_step (boots k m).
Proof. exact (new_in_step NodeDemo.world k (lit "quix") (Ok m) (Ok Settings_default) (fresh k m) NodeDemo.fair_world eq_refl). Qed.
Lemma boots_fields k m : membership (boots k m) = m /\ own (boots k m) = k.
Proof. destruct (refresh_fields NodeDemo.world (fresh k m)) as (Ha & _ & Hb). by split. Qed.

Definition outside : Outside :=
  {| world := NodeDemo.world; now := 0; random := replicate 16 3; token := AdminDemo.token;
     admin_call := fun _ _ _ => Err (Fmt "connect" []); notice_in_time := false; waited := None; rtt := fun _ => None;
     debug := AdminDemo.debug; users := {| user_name := fun _ => None; user_by_name := fun _ => None |};
     windows := false; counters := Counters_default |}.

Definition text (req : AdminRequest) : list Z := match request_to_vec req with Ok data => data | Err _ => [] end.

Lemma text_of req : request_to_vec req = Ok (text req).
Proof. done. Qed.

(** K1 lets K3 in and kicks it again: two pushes on their way to K2. *)
Definition in_and_out : list (event (Link := unit)) :=
  [Commands k1 outside (Invite 300); Asks k3 k1 NodeDemo.world 1 (text (Admin.Join (hex_encode AdminDemo.token) None));
   Commands k1 outside (Kick Demo.id3)].

Definition late : list (event (Link := unit)) := in_and_out ++ [Arrives 1 NodeDemo.world 2; Arrives 0 NodeDemo.world 3].

Lemma in_and_out_smooth k : smoothly k start in_and_out.
Proof. repeat split. Qed.
Lemma in_and_out_late k : smoothly k start late.
Proof. repeat split. Qed.
Lemma start_in_step j n : nodes start !! j = Some n -> own n = j /\ in_step n.
Proof.
  intros Hk. cbn [start nodes] in Hk.
  apply lookup_insert_Some in Hk as [[<- <-]|[_ Hk]]; [|apply lookup_insert_Some in Hk as [[<- <-]|[_ Hk]];
    [|apply lookup_insert_Some in Hk as [[<- <-]|[_ Hk]]; [|by rewrite lookup_empty in Hk]]];
    (split; [apply boots_fields|apply boots_in_step]).
Qed.

Definition sees (s : Network (Link := unit)) (k : EndpointId) (p : State (Link := unit) -> bool) : bool :=
  match nodes s !! k with Some n => p n | None => false end.
Lemma sees_spec s k p : sees s k p = true -> exists n, nodes s !! k = Some n /\ p n = true.
Proof. unfold sees. destruct (nodes s !! k) as [n|]; [|done]. by exists n. Qed.
Definition is_nil {A} (u : list A) : bool := match u with [] => true | _ => false end.
Lemma is_nil_spec {A} (u : list A) : is_nil u = true -> u = [].
Proof. by destruct u. Qed.
End NetworkDemo.

Import NetworkDemo.

Example network_stays_in_step_witness :
  exists n, nodes (network_run start in_and_out) !! k1 = Some n /\ in_step n.
Proof.
  destruct (proj1 (network_stays_in_step start in_and_out) k1 (boots k1 Demo.state)) as (n & Hn & _ & Hi).
  - exact start_k1.
  - apply boots_fields.
  - apply boots_in_step.
  - apply in_and_out_smooth.
  - exists n. split; [exact Hn|exact Hi].
Defined.

Module LinkDemo.
Definition n1 : State (Link := unit) := boots k1 Demo.state.
Definition n2 : State (Link := unit) := boots k2 joined.
Lemma few_members : (ids_length (members Demo.state) <=? 1000)%nat = true.
Proof. by vm_compute. Qed.
Lemma roster_fits name t : request_to_vec (Roster name (Node.roster n1)) = Ok t -> (length t <= REQUEST_LIMIT)%nat.
Proof.
  intros [= <-]. cbn [length in_request]. unfold pad. rewrite length_replicate. unfold Node.roster. rewrite ids_length_roster.
  unfold n1. rewrite (proj1 (boots_fields k1 Demo.state)). etrans; [apply le_n_S, Nat.leb_le, few_members|]. unfold REQUEST_LIMIT. lia.
Qed.
Lemma link_leads : is_coordinator n1 = true.
Proof. unfold is_coordinator, own_id, n1. rewrite (proj1 (boots_fields k1 Demo.state)), (proj2 (boots_fields k1 Demo.state)). by vm_compute. Qed.
Lemma link_missing : link (peers n1) k2 = None.
Proof.
  destruct (link (peers n1) k2) eqn:E; [|done]. exfalso.
  assert (Hb : bool_decide (is_Some (link (peers n1) k2)) = false) by by vm_compute.
  apply bool_decide_eq_false in Hb. apply Hb. by eexists.
Qed.
Lemma follows : coordinator_id joined = Some (show_id k1).
Proof. by vm_compute. Qed.
Lemma link_listed k : Membership.is_member Demo.state (show_id k) = true -> show_id k ∈ ids (members Demo.state).
Proof. apply is_member_spec. Qed.
End LinkDemo.

Example a_link_brings_agreement_witness :
  exists n, nodes (network_run start [Checks k1 NodeDemo.conn; Registers 0; CatchesUp 0; Arrives 0 NodeDemo.world 0]) !! k2 = Some n
    /\ forall i, i ∈ ids (members (membership n)) <-> i ∈ ids (members Demo.state).
Proof.
  destruct (boots_fields k1 Demo.state) as [Hm1 Ho1]. destruct (boots_fields k2 joined) as [Hm2 Ho2].
  destruct (a_link_brings_agreement start k1 k2 NodeDemo.conn NodeDemo.world 0 LinkDemo.n1 LinkDemo.n2
    (text (Roster (network_name (membership LinkDemo.n1)) (Node.roster LinkDemo.n1))) start_k1 start_k2 Ho1 Ho2)
    as (nc & nk & _ & Hk & _ & Hmc & _ & Hi & _).
  - unfold LinkDemo.n1. rewrite Hm1. exact Demo.wf_state.
  - unfold LinkDemo.n2. rewrite Hm2. apply wf_set_joined.
  - exact LinkDemo.link_leads.
  - unfold LinkDemo.n2. rewrite Hm2. exact LinkDemo.follows.
  - unfold own_id, LinkDemo.n1. rewrite Ho1, Hm1. apply LinkDemo.link_listed. by vm_compute.
  - unfold own_id, LinkDemo.n1, LinkDemo.n2. rewrite Ho2, Hm1. apply LinkDemo.link_listed. by vm_compute.
  - intros He. exact (k1_k2 (eq_sym He)).
  - reflexivity.
  - exact LinkDemo.link_missing.
  - exact (text_of _).
  - exact (LinkDemo.roster_fits _ _ (text_of _)).
  - reflexivity.
  - exists nk. split; [exact Hk|]. intros i. unfold LinkDemo.n1 in *. by rewrite Hi, Hmc, Hm1.
Defined.

(** pushes carry no version and are sent by separate tasks, so one set off by an
    admission can arrive after the one set off by the kick that followed it: with
    nothing left on the wire a member then lists, and routes to, somebody its
    coordinator has thrown out, and reports nothing. *)
Theorem a_late_push_brings_back_a_kicked_member :
  exists (s : Network (Link := unit)) l c k x nc nk,
    (forall j n, nodes s !! j = Some n -> own n = j /\ in_step n) /\ (forall j, smoothly j s l) /\ wire (network_run s l) = []
    /\ nodes (network_run s l) !! c = Some nc /\ is_coordinator nc = true /\ Node.is_member nc (show_id x) = false
    /\ nodes (network_run s l) !! k = Some nk /\ coordinator_id (membership nk) = Some (show_id c)
    /\ Node.is_member nk (show_id x) = true /\ is_Some (route (peers nk) (v6_of x)) /\ conflicts nk = [].
Proof.
  set (l := late).
  destruct (sees_spec (network_run start l) k1 (fun n => is_coordinator n && negb (Node.is_member n (show_id k3)))) as (nc & Hc & Hpc).
  { by vm_compute. }
  destruct (sees_spec (network_run start l) k2 (fun n => bool_decide (coordinator_id (membership n) = Some (show_id k1))
    && Node.is_member n (show_id k3) && bool_decide (is_Some (route (peers n) (v6_of k3)))
    && is_nil (conflicts n))) as (nk & Hk & Hpk).
  { by vm_compute. }
  assert (Hw : is_nil (wire (network_run start l)) = true) by by vm_compute.
  apply andb_true_iff in Hpc as [Hpc1 Hpc2%negb_true_iff].
  apply andb_true_iff in Hpk as [[[Hpk1 Hpk2]%andb_true_iff Hpk3]%andb_true_iff Hpk4].
  apply bool_decide_eq_true in Hpk1, Hpk3.
  exists start, l, k1, k2, k3, nc, nk. split; [exact start_in_step|]. split; [exact in_and_out_late|].
  split; [exact (is_nil_spec _ Hw)|]. split; [exact Hc|]. split; [exact Hpc1|]. split; [exact Hpc2|]. split; [exact Hk|].
  split; [exact Hpk1|]. split; [exact Hpk2|]. split; [exact Hpk3|]. exact (is_nil_spec _ Hpk4).
Qed.
