(* ===== verification/Elevate.v ===== *)
(** * Arguments of an elevated relaunch ([cli/src/elevate.rs])

    A relaunch hands Windows one string, which the new process splits apart
    again: what it splits into is what was joined. *)

From S2P Require Import Prelude Proto.

Local Abbreviation list := Datatypes.list.

Definition BACKSLASH : char := 92%N.
Definition QUOTE : char := 34%N.
Definition SPACE : char := 32%N.
Definition TAB : char := 9%N.

Definition OUTPUT_FLAG : rstr := lit "--elevated-output".

(** ** Joining *)

(** [arg.contains([' ', '\t', QUOTE, '\\'])]. *)
Definition special (c : char) : bool := (c =? SPACE)%N || (c =? TAB)%N || (c =? QUOTE)%N || (c =? BACKSLASH)%N.

(** [quote]'s loop: what it pushes from here on, [backslashes] of them just pushed. *)
Fixpoint quote_loop (cs : rstr) (backslashes : nat) : rstr :=
  match cs with
  | [] => replicate backslashes BACKSLASH ++ [QUOTE]
  | c :: cs =>
      if (c =? BACKSLASH)%N then c :: quote_loop cs (S backslashes)
      else if (c =? QUOTE)%N then replicate (S backslashes) BACKSLASH ++ QUOTE :: quote_loop cs 0
      else c :: quote_loop cs 0
  end.

Definition quote (arg : rstr) : rstr :=
  if negb (is_empty arg) && negb (existsb special arg) then arg else QUOTE :: quote_loop arg 0.

Fixpoint join_args (args : list rstr) : rstr :=
  match args with
  | [] => []
  | [arg] => quote arg
  | arg :: args => quote arg ++ SPACE :: join_args args
  end.

(** What [run_elevated] passes on: the flag and the file first, then its own
    arguments, the program's name left out. *)
Definition relaunch_args (output : rstr) (args : list rstr) : list rstr := OUTPUT_FLAG :: output :: tail args.

(** ** Splitting *)

(** Where the splitter is: the arguments before, the one being read, whether it is
    inside quotes, and whether a quote began it. *)
Record Splitter := { done_ : list rstr; current : rstr; in_quotes : bool; started : bool }.

Definition push (s : rstr) (p : Splitter) : Splitter :=
  {| done_ := done_ p; current := current p ++ s; in_quotes := in_quotes p; started := started p |}.
Definition toggle (p : Splitter) : Splitter :=
  {| done_ := done_ p; current := current p; in_quotes := negb (in_quotes p); started := true |}.
Definition emit (p : Splitter) : Splitter :=
  if started p || negb (is_empty (current p))
  then {| done_ := done_ p ++ [current p]; current := []; in_quotes := in_quotes p; started := false |} else p.

(** How [CommandLineToArgvW] reads a line: [slashes] is the run of backslashes
    before this character, which only a quote after it gives a meaning. *)
Fixpoint split_loop (cs : rstr) (slashes : nat) (p : Splitter) : Splitter :=
  match cs with
  | [] => emit (push (replicate slashes BACKSLASH) p)
  | c :: cs =>
      if (c =? BACKSLASH)%N then split_loop cs (S slashes) p
      else if (c =? QUOTE)%N then
        let p := push (replicate (slashes / 2) BACKSLASH) p in
        if (slashes mod 2 =? 1)%nat then split_loop cs 0 (push [QUOTE] p) else split_loop cs 0 (toggle p)
      else
        let p := push (replicate slashes BACKSLASH) p in
        if ((c =? SPACE)%N || (c =? TAB)%N) && negb (in_quotes p) then split_loop cs 0 (emit p)
        else split_loop cs 0 (push [c] p)
  end.

Definition split (line : rstr) : list rstr :=
  done_ (split_loop line 0 {| done_ := []; current := []; in_quotes := false; started := false |}).

(** ** Splitting what was joined *)

Lemma push_push s t p : push t (push s p) = push (s ++ t) p.
Proof. unfold push. cbn. by rewrite <- app_assoc. Qed.

Lemma push_nil p : push [] p = p.
Proof. destruct p. unfold push. cbn. by rewrite app_nil_r. Qed.

Lemma split_slashes n k cs p : split_loop (replicate n BACKSLASH ++ cs) k p = split_loop cs (n + k) p.
Proof.
  revert k. induction n as [|n IH]; intros k; [done|]. cbn [replicate app split_loop]. rewrite N.eqb_refl, IH. f_equal. lia.
Qed.

Lemma split_plain c cs k p : special c = false ->
  split_loop (c :: cs) k p = split_loop cs 0 (push (replicate k BACKSLASH ++ [c]) p).
Proof.
  unfold special. intros Hc. cbn [split_loop]. apply orb_false_iff in Hc as [[[-> ->]%orb_false_iff ->]%orb_false_iff ->].
  cbn [orb andb]. by rewrite push_push.
Qed.

Lemma half_even n : ((n + n) / 2 = n)%nat /\ ((n + n) mod 2 = 0)%nat.
Proof. split; [symmetry; apply (Nat.div_unique _ _ _ 0); lia|symmetry; apply (Nat.mod_unique _ _ n); lia]. Qed.
Lemma half_odd n : ((S n + n) / 2 = n)%nat /\ ((S n + n) mod 2 = 1)%nat.
Proof. split; [symmetry; apply (Nat.div_unique _ _ _ 1); lia|symmetry; apply (Nat.mod_unique _ _ n); lia]. Qed.

(** Inside quotes, [n] backslashes read and as many pushed. *)
Lemma split_quote_loop cs n rest p : in_quotes p = true ->
  split_loop (quote_loop cs n ++ rest) n p = split_loop rest 0 (toggle (push (replicate n BACKSLASH ++ cs) p)).
Proof.
  revert n p. induction cs as [|c cs IH]; intros n p Hp; cbn [quote_loop].
  - rewrite <- app_assoc, split_slashes. cbn [app split_loop]. destruct (half_even n) as [-> ->]. by rewrite app_nil_r.
  - destruct (N.eqb_spec c BACKSLASH) as [->|Hb]; [|destruct (N.eqb_spec c QUOTE) as [->|Hq]].
    + cbn [app split_loop]. rewrite N.eqb_refl, IH by done. do 3 f_equal.
      rewrite replicate_S_end, <- app_assoc. done.
    + rewrite <- app_assoc, split_slashes. cbn [app split_loop]. destruct (half_odd n) as [-> ->].
      cbn [N.eqb BACKSLASH QUOTE Pos.eqb Nat.eqb]. rewrite IH by done. by rewrite !push_push, <- ?app_assoc.
    + cbn [app split_loop]. rewrite (proj2 (N.eqb_neq _ _) Hb), (proj2 (N.eqb_neq _ _) Hq). cbv zeta.
      cbn [in_quotes push]. rewrite Hp, andb_false_r, IH by done. by rewrite !push_push, <- ?app_assoc.
Qed.

Lemma split_plain_word cs rest p : existsb special cs = false -> split_loop (cs ++ rest) 0 p = split_loop rest 0 (push cs p).
Proof.
  revert p. induction cs as [|c cs IH]; intros p Hc; [by rewrite push_nil|].
  cbn [existsb] in Hc. apply orb_false_iff in Hc as [Hc Hcs]. cbn [app]. rewrite split_plain by done. rewrite IH by done.
  by rewrite push_push.
Qed.

Lemma split_quoted arg rest l :
  split_loop (quote arg ++ rest) 0 {| done_ := l; current := []; in_quotes := false; started := false |}
  = split_loop rest 0 {| done_ := l; current := arg; in_quotes := false; started := existsb special arg || is_empty arg |}.
Proof.
  unfold quote. destruct (is_empty arg) eqn:Ee; [|destruct (existsb special arg) eqn:Es]; cbn [negb andb orb].
  - apply is_empty_spec in Ee as ->. reflexivity.
  - cbn [app split_loop]. change (QUOTE =? BACKSLASH)%N with false. rewrite N.eqb_refl. cbv zeta.
    change (0 mod 2 =? 1)%nat with false. cbv iota. rewrite split_quote_loop by done. reflexivity.
  - rewrite split_plain_word by done. done.
Qed.

Lemma emit_arg l arg :
  emit {| done_ := l; current := arg; in_quotes := false; started := existsb special arg || is_empty arg |}
  = {| done_ := l ++ [arg]; current := []; in_quotes := false; started := false |}.
Proof. unfold emit. cbn. destruct arg as [|c arg]; [done|]. cbn [is_empty negb]. by rewrite orb_true_r. Qed.

Lemma split_join_loop args l : args <> [] ->
  done_ (split_loop (join_args args) 0 {| done_ := l; current := []; in_quotes := false; started := false |}) = l ++ args.
Proof.
  revert l. induction args as [|arg args IH]; intros l Hne; [done|]. destruct args as [|next args].
  - cbn [join_args]. rewrite <- (app_nil_r (quote arg)), split_quoted. cbn [split_loop replicate]. by rewrite push_nil, emit_arg.
  - change (join_args (arg :: next :: args)) with (quote arg ++ SPACE :: join_args (next :: args)).
    rewrite split_quoted. cbn [split_loop]. change (SPACE =? BACKSLASH)%N with false. change (SPACE =? QUOTE)%N with false.
    change (SPACE =? SPACE)%N with true. cbv zeta. cbn [replicate]. rewrite push_nil. cbn [orb andb in_quotes negb].
    rewrite emit_arg, IH by done. by rewrite <- app_assoc.
Qed.

Lemma split_join args : split (join_args args) = args.
Proof. destruct args as [|arg l]; [reflexivity|]. unfold split. by rewrite split_join_loop. Qed.

(** Joining adds quotes, backslashes and spaces only. *)
Lemma Forall_quote (P : char -> Prop) arg : P QUOTE -> P BACKSLASH -> Forall P arg -> Forall P (quote arg).
Proof.
  intros Hq Hb Ha. unfold quote. destruct (_ && _); [done|]. constructor; [done|]. generalize 0%nat.
  induction Ha as [|c l Hc _ IH]; intros n; cbn [quote_loop].
  - apply Forall_app. split; [by apply Forall_replicate|by repeat constructor].
  - repeat case_match; repeat first [done | apply IH | apply Forall_app; split | apply Forall_replicate | constructor].
Qed.

Lemma Forall_join_args (P : char -> Prop) args : P QUOTE -> P BACKSLASH -> P SPACE -> Forall (Forall P) args -> Forall P (join_args args).
Proof.
  intros Hq Hb Hs. induction args as [|arg [|next args] IH]; intros Ha; [constructor| |].
  - apply Forall_quote; [done..|]. by inversion Ha.
  - apply Forall_cons in Ha as [Ha Hl]. cbn [join_args]. apply Forall_app. split; [by apply Forall_quote|].
    constructor; [done|]. by apply IH.
Qed.

(** ** Properties *)

(** what an elevated relaunch passes on arrives as it was, argument for
    argument, whatever spaces, quotes and backslashes are in it: none is split,
    merged, dropped or made up, the empty ones included. *)
Theorem elevated_arguments_arrive_intact args output :
  split (join_args args) = args
  /\ split (join_args (relaunch_args output args)) = OUTPUT_FLAG :: output :: tail args.
Proof.
  split; apply split_join.
Qed.
