(* ===== verification/Relaunch.v ===== *)
(** * Running again as Administrator ([cli/src/elevate.rs])

    Whether this process is elevated, the copy that is started elevated, waited for
    and reported as if it were this one, and the output of that copy; as programs
    that call Windows.  How the arguments are joined is in [Elevate]. *)

From S2P Require Import Prelude Proto Utf8 Win32 Elevate.

Local Abbreviation list := Datatypes.list.

Definition ERROR_CANCELLED : Z := 1223.
(** The size of a [TOKEN_ELEVATION]. *)
Definition ELEVATION_SIZE : Z := 4.

Definition is_elevated : prog bool :=
  opened ← ask OpenProcessToken;
  match opened with
  | None => Ret false
  | Some token =>
      '(_, elevation) ← ask (GetTokenInformation token TokenElevation ELEVATION_SIZE ELEVATION_SIZE);
      _ ← ask (CloseHandle token);
      Ret (match elevation with Some e => negb (e =? 0) | None => false end)
  end.

Definition wait_for (process : HANDLE) : prog (result message Z) :=
  _ ← ask (WaitForSingleObject process);
  code ← ask (GetExitCodeProcess process);
  _ ← ask (CloseHandle process);
  Ret (match code with
       | None => Err (Fmt "the elevated command ran but its result could not be read" [])
       | Some code => Ok (as_i32 code)
       end).

(** [dir] is the current directory, when there is one. *)
Definition shell_execute_runas (exe : rstr) (dir : option rstr) (params : rstr) : prog (result message Z) :=
  started ← ask (ShellExecuteExW (wide (lit "runas")) (wide exe) (wide params) (wide (default [] dir)));
  match started with
  | Some process => wait_for process
  | None =>
      code ← ask GetLastError;
      Ret (Err (if as_i32 code =? ERROR_CANCELLED
                then Fmt "elevation was declined — this command needs Administrator" []
                else context (Fmt "could not ask for Administrator" []) (os_error code)))
  end.

Definition output_path (temp_dir : rstr) (join : rstr -> rstr -> rstr) (id : Z) : rstr :=
  join temp_dir (lit "quix-elevated-" ++ lit (pretty id) ++ lit ".out").

(** What this process then does besides. *)
Inductive deed := Prints (text : rstr) | RemovesFile (path : rstr).

(** [show]: nothing when the file cannot be read. *)
Definition show (read_to_string : option rstr) : list deed := match read_to_string with Some text => [Prints text] | None => [] end.

(** [read_back] is what is in the file once the copy has ended. *)
Definition run_elevated (current_exe : result message rstr) (dir : option rstr) (output : rstr) (args : list rstr)
    (read_back : option rstr) : prog (list deed * result message Z) :=
  match current_exe with
  | Err e => Ret ([], Err (context (Fmt "locating the running executable" []) e))
  | Ok exe =>
      code ← shell_execute_runas exe dir (join_args (relaunch_args output args));
      Ret (show read_back ++ [RemovesFile output], code)
  end.

(** How this process ends: its exit code, and what it says on the way. *)
Definition relaunch current_exe dir output args read_back : prog (list deed * option message * Z) :=
  '(deeds, r) ← run_elevated current_exe dir output args read_back;
  Ret (match r with Ok code => (deeds, None, code) | Err e => (deeds, Some e, 1) end).

(** An error on the way drops the file; otherwise it is leaked. *)
Fixpoint redirect_streams (file : HANDLE) (l : list StdStream) : prog (result message ()) :=
  match l with
  | [] => Ret (Ok tt)
  | stream :: l =>
      ok ← ask (SetStdHandle stream file);
      if ok : bool then redirect_streams file l
      else
        code ← ask GetLastError;
        _ ← ask (CloseHandle file);
        Ret (Err (context (Fmt "redirecting output" []) (os_error code)))
  end.

Definition redirect_output (path : rstr) : prog (result message ()) :=
  opened ← ask (OpenAppend path);
  match opened with
  | Err e => Ret (Err (context (Fmt "opening {}" [Text path]) e))
  | Ok file => redirect_streams file [STD_OUTPUT_HANDLE; STD_ERROR_HANDLE]
  end.

(** ** Properties *)

(** this process is taken for elevated exactly when Windows says that its token is,
    and the token is closed. *)
Theorem is_elevated_functional w tr o : runs is_elevated tr o -> honest_trace w idle tr ->
  all_allowed idle tr /\ handles (at_end idle tr) = []
  /\ exists b, o = Returns b /\ (b = true -> id_elevated (self w) = true)
     /\ (b = false -> id_elevated (self w) = true -> exists n,
          tr = [Event OpenProcessToken None]
          \/ exists h, tr = [Event OpenProcessToken (Some h); Event (GetTokenInformation h TokenElevation ELEVATION_SIZE ELEVATION_SIZE) (n, None);
                             Event (CloseHandle h) tt]).
Proof.
  unfold is_elevated. cbn. intros ([h|] & tr1 & -> & Hr).
  - cbn in Hr. destruct Hr as ([n e] & tr2 & -> & [] & tr3 & -> & -> & ->). cbn. intros (Ht & (Hn & He) & _).
    split; [split_and!; try done; try (by left); unfold ELEVATION_SIZE; lia|]. split; [by rewrite Z.eqb_refl|].
    eexists. split; [done|]. rewrite Ht in He. destruct e as [e|]; [rewrite He|]; cbn in *.
    + split; [done|]. intros -> ?. done.
    + split; [done|]. intros _ _. exists n. right. by exists h.
  - cbn in Hr. destruct Hr as [-> ->]. intros _. split; [done|]. split; [done|]. exists false. split; [done|]. split; [done|].
    intros _ _. exists 0. by left.
Qed.

(** The processes a trace tries to start, and the exit codes it asks for. *)
Definition launches (tr : list event) : list (list Z * list Z * list Z * list Z * option HANDLE) :=
  omap (fun '(Event c r) =>
    match c in call R return R -> option (list Z * list Z * list Z * list Z * option HANDLE) with
    | ShellExecuteExW verb file params dir => fun started => Some (verb, file, params, dir, started)
    | _ => fun _ => None
    end r) tr.
Definition exits (tr : list event) : list (HANDLE * option Z) :=
  omap (fun '(Event c r) =>
    match c in call R return R -> option (HANDLE * option Z) with
    | GetExitCodeProcess h => fun code => Some (h, code)
    | _ => fun _ => None
    end r) tr.

(** One copy is asked for, with this process's own arguments, and a code is told
    exactly when it is the copy's. *)
Definition relaunched (output : rstr) (args : list rstr) (exe : rstr) dir (tr : list event) (r : result message Z) : Prop :=
  exists started,
    launches tr = [(wide (lit "runas"), wide exe, wide (join_args (relaunch_args output args)), wide (default [] dir), started)]
    /\ forall code, r = Ok code <-> exists h exit, started = Some h /\ exits tr = [(h, Some exit)] /\ code = as_i32 exit.

Lemma shell_execute_runs exe dir output args tr o : runs (shell_execute_runas exe dir (join_args (relaunch_args output args))) tr o ->
  all_allowed idle tr /\ handles (at_end idle tr) = [] /\ exists r, o = Returns r /\ relaunched output args exe dir tr r.
Proof.
  unfold shell_execute_runas, wait_for. cbn. intros ([h|] & tr1 & -> & Hr).
  - cbn in Hr. destruct Hr as ([] & tr2 & -> & code & tr3 & -> & [] & tr4 & -> & -> & ->). cbn. rewrite Z.eqb_refl.
    split; [split_and!; try done; by left|]. split; [done|]. eexists. split; [done|]. exists (Some h). split; [done|].
    destruct code; cbn; naive_solver.
  - cbn in Hr. destruct Hr as (code & tr2 & -> & -> & ->). split; [done|]. split; [done|]. eexists. split; [done|]. exists None.
    split; [done|]. naive_solver.
Qed.

(** C34: a copy that is started elevated is this program, in this directory, and reads
    exactly this process's arguments after the file its output goes to; what it
    wrote is shown and the file removed however it ended; this process ends with
    its exit code, read as Windows programs write it, and with 1 and a reason when
    there is none; and no handle is left open. *)
Theorem the_elevated_copy_stands_in exe dir output args read_back tr o :
  Forall (fun arg => Forall scalar arg /\ 0%N ∉ arg) (output :: tail args) ->
  runs (relaunch (Ok exe) dir output args read_back) tr o ->
  all_allowed idle tr /\ handles (at_end idle tr) = []
  /\ exists said code params started, o = Returns (show read_back ++ [RemovesFile output], said, code)
  /\ launches tr = [(wide (lit "runas"), wide exe, params, wide (default [] dir), started)]
  /\ split (from_utf16_lossy (before_nul params)) = OUTPUT_FLAG :: output :: tail args
  /\ (said = None <-> exists h exit, started = Some h /\ exits tr = [(h, Some exit)])
  /\ (forall h exit, started = Some h -> exits tr = [(h, Some exit)] -> code = as_i32 exit)
  /\ (said <> None -> code = 1).
Proof.
  intros Hargs Hr. unfold relaunch, run_elevated in Hr.
  apply runs_bind in Hr as [(tr1 & tr2 & [deeds r] & -> & Hr & [-> ->])|[Hr ->]].
  2: { apply runs_bind in Hr as [(tr1 & tr2 & r & -> & Hr & [_ ?])|[Hr _]]; [done|].
       by apply shell_execute_runs in Hr as (_ & _ & r & ? & _). }
  apply runs_bind in Hr as [(tr1' & tr2 & r' & -> & Hr & [-> Ho])|[_ ?]]; [|done]. rewrite !app_nil_r. injection Ho as -> ->.
  apply shell_execute_runs in Hr as (Ha & Hh & r & [= <-] & started & Hl & Hc). split; [done|]. split; [done|].
  assert (Hsplit : split (from_utf16_lossy (before_nul (wide (join_args (relaunch_args output args))))) = OUTPUT_FLAG :: output :: tail args).
  { assert (Hj : Forall (fun c => scalar c /\ c <> 0%N) (join_args (relaunch_args output args))).
    { assert (Hsc : forall c, (0 < c < 128)%N -> scalar c /\ c <> 0%N) by (intros c Hcr; split; [left; lia|lia]).
      apply Forall_join_args; [by apply Hsc..|]. constructor; [eapply Forall_impl; [|apply Hsc]; by repeat constructor|].
      eapply Forall_impl; [exact Hargs|]. intros arg [Hs Hn]. apply Forall_forall. intros c Hcin. rewrite Forall_forall in Hs.
      split; [by apply Hs|]. by intros ->. }
    rewrite wide_reads_back; [apply split_join|..].
    - eapply Forall_impl; [exact Hj|]. by intros c [? _].
    - intros Hin. rewrite Forall_forall in Hj. by destruct (Hj _ Hin). }
  destruct r' as [code|e].
  - destruct (proj1 (Hc code) eq_refl) as (h & exit & -> & Hx & ->).
    eexists None, _, _, _. split; [done|]. split; [done|]. split; [exact Hsplit|]. split; [naive_solver|]. split; [|done].
    intros h' exit' [= <-] Hx'. rewrite Hx in Hx'. by injection Hx' as <-.
  - eexists (Some e), _, _, _. split; [done|]. split; [done|]. split; [exact Hsplit|].
    assert (Hno : forall h exit, started = Some h -> exits tr1' <> [(h, Some exit)]).
    { intros h exit -> Hx. discriminate (proj2 (Hc (as_i32 exit)) ltac:(by exists h, exit)). }
    split; [|split; [|done]]; [split; [done|]|]; naive_solver.
Qed.

(** where the two streams of an elevated copy go: both to the file, which stays open,
    or nothing is and the file closed; but where only the second cannot be pointed
    there, the first is left at a file that is closed. *)
Theorem redirecting_is_all_or_reported path tr o : runs (redirect_output path) tr o ->
  all_allowed idle tr
  /\ exists r, o = Returns r
  /\ (r = Ok () <-> exists h, handles (at_end idle tr) = [h] /\ streams (at_end idle tr) = [(STD_ERROR_HANDLE, h); (STD_OUTPUT_HANDLE, h)])
  /\ (r <> Ok () -> handles (at_end idle tr) = []
        /\ (streams (at_end idle tr) = [] \/ exists h, streams (at_end idle tr) = [(STD_OUTPUT_HANDLE, h)])).
Proof.
  unfold redirect_output. cbn. intros ([h|e] & tr1 & -> & Hr); cbn in Hr.
  - destruct Hr as ([] & tr2 & -> & Hr); cbn in Hr.
    + destruct Hr as ([] & tr3 & -> & Hr); cbn in Hr.
      * destruct Hr as [-> ->]. cbn. split; [split_and!; try done; by left|]. eexists. split; [done|]. split; [|done]. naive_solver.
      * destruct Hr as (code & tr4 & -> & [] & tr5 & -> & -> & ->). cbn. rewrite Z.eqb_refl. split; [split_and!; try done; by left|].
        eexists. split; [done|]. split; [naive_solver|]. intros _. split; [done|]. right. by exists h.
    + destruct Hr as (code & tr4 & -> & [] & tr5 & -> & -> & ->). cbn. rewrite Z.eqb_refl. split; [split_and!; try done; by left|].
      eexists. split; [done|]. split; [naive_solver|]. intros _. split; [done|]. by left.
  - destruct Hr as [-> ->]. split; [done|]. eexists. split; [done|]. split; [naive_solver|]. intros _. split; [done|]. by left.
Qed.

(** ** A copy that succeeds *)

Module Prompted.
Definition os : forall R, call R -> R := fun R c =>
  match c with
  | ShellExecuteExW _ _ _ _ => Some 6
  | GetExitCodeProcess _ => Some 4294967295
  | ImpersonateNamedPipeClient | RevertToSelf => true
  | OpenThreadToken | OpenProcessToken => None
  | CloseHandle _ | LocalFree _ | WaitForSingleObject _ => tt
  | GetTokenInformation _ _ _ _ => (0, None)
  | ConvertSidToStringSidW _ | ConvertStringSecurityDescriptorToSecurityDescriptorW _ => None
  | Memory _ => []
  | LookupAccountSidW _ _ _ _ _ => (false, ([], 0), ([], 0))
  | GetLastError | SetNamedSecurityInfoW _ _ _ => 0
  | GetSecurityDescriptorDacl _ => None
  | OpenAppend _ => Ok 7
  | SetStdHandle _ _ => true
  end.
Definition args : list rstr := [lit "quix"; lit "create"; lit "my home"].
Definition output : rstr := lit "C:\tmp\quix-elevated-7.out".
Definition copy := relaunch (Ok (lit "C:\quix.exe")) None output args (Some (lit "done")).
End Prompted.

Example the_elevated_copy_stands_in_witness :
  exists params, launches (fst (ran Prompted.os Prompted.copy)) = [(wide (lit "runas"), wide (lit "C:\quix.exe"), params, wide [], Some 6)]
  /\ split (from_utf16_lossy (before_nul params)) = OUTPUT_FLAG :: Prompted.output :: tail Prompted.args
  /\ snd (ran Prompted.os Prompted.copy) = Returns ([Prints (lit "done"); RemovesFile Prompted.output], None, -1).
Proof.
  destruct (the_elevated_copy_stands_in (lit "C:\quix.exe") None Prompted.output Prompted.args (Some (lit "done")) _ _
    ltac:(repeat constructor; by apply (bool_decide_eq_true_1 _)) (ran_runs Prompted.os Prompted.copy))
    as (_ & _ & said & code & params & started & _ & Hl & Hs & _).
  exists params. assert (Hst : started = Some 6) by (vm_compute in Hl; congruence). rewrite Hst in Hl.
  split; [exact Hl|]. split; [exact Hs|reflexivity].
Defined.
