(* ===== verification/Format.v ===== *)
(** * How offers look ([cli/src/commands/file/format.rs])

    Sizes, durations, progress, and the tables a script takes apart.  A [f64] is
    the number it holds: a size is converted once, which rounds it to 53 bits, and
    then divided by powers of two, which is exact. *)

From S2P Require Import Prelude External Proto Net Filename Frame Peers Files Transfer.

Local Abbreviation list := Datatypes.list.

(** ** Floating point *)

(** [n / d] to the nearest whole, ties to even. *)
Definition round_half_even (n d : Z) : Z :=
  let q := n / d in
  let r := n mod d in
  if 2 * r <? d then q else if d <? 2 * r then q + 1 else if Z.even q then q else q + 1.

(** [bytes as f64]. *)
Definition as_f64 (n : Z) : Z :=
  if n <? 2 ^ 53 then n
  else let e := Z.log2 n - 52 in round_half_even n (2 ^ e) * 2 ^ e.

(** ["{:.1}"] of [n / d]. *)
Definition show_tenths (n d : Z) : rstr :=
  let t := round_half_even (10 * n) d in show_Z (t / 10) ++ lit "." ++ show_Z (t mod 10).

(** ** Sizes *)

Definition UNITS : list rstr := lit <$> ["KiB"; "MiB"; "GiB"; "TiB"; "PiB"]%string.

(** The loop: [value] is [n / 1024 ^ (unit + 1)]; it divides at most four times. *)
Fixpoint pick_unit (n : Z) (unit more : nat) : nat :=
  match more with
  | O => unit
  | S more => if 1024 ^ (Z.of_nat unit + 2) <=? n then pick_unit n (S unit) more else unit
  end.

Definition size (bytes : Z) : rstr :=
  if bytes <? 1024 then show_Z bytes ++ lit " B"
  else
    let value := as_f64 bytes in
    let unit := pick_unit value 0 4 in
    show_tenths value (1024 ^ (Z.of_nat unit + 1)) ++ lit " " ++ nth unit UNITS [].

(** ** Durations *)

Definition duration (seconds : Z) : rstr :=
  let h := seconds / 3600 in
  let m := seconds mod 3600 / 60 in
  let s := seconds mod 60 in
  if (h =? 0) && (m =? 0) then show_Z s ++ lit "s"
  else if h =? 0 then show_Z m ++ lit "m " ++ show_Z s ++ lit "s"
  else show_Z h ++ lit "h " ++ show_Z m ++ lit "m".

(** [elapsed], of a duration in nanoseconds; tenths of a second below a minute,
    where [as_secs_f64] is exact to far more than a tenth. *)
Definition elapsed (nanos : Z) : rstr :=
  let secs := nanos / 10 ^ 9 in
  if secs =? 0 then show_Z (nanos / 10 ^ 6) ++ lit "ms"
  else if secs <? 60 then show_tenths nanos (10 ^ 9) ++ lit "s"
  else duration secs.

(** ** Progress and countdown *)

(** Whether a redraw is due, and the percentage it shows: [saturating_mul] and
    [checked_div] on [u64]. *)
Definition due (enabled : bool) (since_shown : option Z) : bool :=
  enabled && match since_shown with None => true | Some nanos => 100 * 10 ^ 6 <=? nanos end.

Definition percent (done_ total : Z) : Z :=
  if total =? 0 then 100 else Z.min u64_max (done_ * 100) / total.

Definition progress_line (done_ total : Z) : rstr :=
  size done_ ++ lit " / " ++ size total ++ lit "  " ++ show_Z (percent done_ total) ++ lit "%".

(** The seconds [Countdown::show] draws, of what is left in nanoseconds. *)
Definition countdown_secs (remaining_nanos : Z) : Z :=
  let remaining_nanos := Z.max 0 remaining_nanos in
  remaining_nanos / 10 ^ 9 + (if 0 <? remaining_nanos mod 10 ^ 9 then 1 else 0).

(** ** Lines and tables *)

Definition TAB : rstr := [9%N].
Definition NEWLINE : rstr := [10%N].

Definition incoming_line (o : IncomingOffer) : rstr :=
  in_id o ++ lit "  " ++ in_from o ++ lit "  " ++ in_name o ++ lit "  " ++ size (in_size o) ++ lit "  expires in "
  ++ duration (in_expires_in_secs o).

(** [push_str] of one row, tab by tab. *)
Definition row (a b c d e : rstr) : rstr := a ++ TAB ++ b ++ TAB ++ c ++ TAB ++ d ++ TAB ++ e ++ NEWLINE.

Definition incoming_header : rstr := row (lit "ID") (lit "FROM") (lit "NAME") (lit "SIZE") (lit "EXPIRES").
Definition incoming_row (o : IncomingOffer) : rstr :=
  row (in_id o) (in_from o) (in_name o) (size (in_size o)) (duration (in_expires_in_secs o)).

Definition incoming_table (offers : list IncomingOffer) : rstr :=
  foldl (fun table o => table ++ incoming_row o) incoming_header offers.

Definition state (o : OutgoingOffer) : rstr :=
  match out_state o, out_expires_in_secs o, out_detail o with
  | Offered, Some secs, _ => lit "offered, expires in " ++ duration secs
  | st, _, Some detail => label st ++ lit " (" ++ detail ++ lit ")"
  | st, _, None => label st
  end.

Definition outgoing_header : rstr := row (lit "ID") (lit "TO") (lit "NAME") (lit "SIZE") (lit "STATE").
Definition outgoing_row (o : OutgoingOffer) : rstr :=
  row (out_id o) (out_to o) (out_name o) (size (out_size o)) (state o).

Definition outgoing_table (offers : list OutgoingOffer) : rstr :=
  foldl (fun table o => table ++ outgoing_row o) outgoing_header offers.

(** What a script makes of a table: lines, cut at tabs. *)
Fixpoint split_on (c : char) (s : rstr) : list rstr :=
  match s with
  | [] => [[]]
  | x :: s =>
      if (x =? c)%N then [] :: split_on c s
      else match split_on c s with f :: fs => (x :: f) :: fs | [] => [[x]] end
  end.
Definition cells (table : rstr) : list (list rstr) := split_on 9%N <$> removelast (split_on 10%N table).

(** ** Properties of rounding *)

Lemma round_half_even_close n d : 0 < d -> Z.abs (2 * n - 2 * d * round_half_even n d) <= d.
Proof.
  intros Hd. unfold round_half_even. pose proof (Z.div_mod n d) as Hn. pose proof (Z.mod_pos_bound n d) as Hm.
  destruct (Z.ltb_spec (2 * (n mod d)) d); [nia|]. destruct (Z.ltb_spec d (2 * (n mod d))); [nia|].
  destruct (Z.even _); nia.
Qed.

Lemma round_half_even_lower n d q : 0 < d -> q * d <= n -> q <= round_half_even n d.
Proof.
  intros Hd Hq. assert (q <= n / d) by (apply Z.div_le_lower_bound; lia).
  unfold round_half_even. repeat case_match; lia.
Qed.

Lemma round_half_even_upper n d q : 0 < d -> n <= q * d -> round_half_even n d <= q.
Proof.
  intros Hd Hq. pose proof (round_half_even_close n d Hd) as Hc.
  destruct (Z.le_gt_cases (round_half_even n d) q) as [|Hgt]; [done|exfalso].
  assert (q + 1 <= round_half_even n d) by lia. assert (2 * d * (q + 1) <= 2 * d * round_half_even n d) by nia. lia.
Qed.

Lemma as_f64_close n : 0 <= n <= u64_max -> Z.abs (as_f64 n - n) <= 2 ^ 10 /\ (n < 2 ^ 53 -> as_f64 n = n).
Proof.
  intros Hn. unfold as_f64. destruct (Z.ltb_spec n (2 ^ 53)) as [Hlt|Hge]; [lia|]. split; [|lia].
  set (e := Z.log2 n - 52).
  assert (He : 1 <= e <= 11).
  { assert (53 <= Z.log2 n) by (apply Z.log2_le_pow2; lia). assert (Z.log2 n < 64) by (apply Z.log2_lt_pow2; unfold u64_max in *; lia). lia. }
  assert (0 < 2 ^ e <= 2 ^ 11) by (split; [lia|apply Z.pow_le_mono_r; lia]).
  pose proof (round_half_even_close n (2 ^ e) ltac:(lia)). lia.
Qed.

(** Where the division stops: the largest unit that fits, of the five. *)
Lemma pick_unit_spec n u more :
  1024 ^ (Z.of_nat u + 1) <= n ->
  let v := pick_unit n u more in
  (u <= v <= u + more)%nat /\ 1024 ^ (Z.of_nat v + 1) <= n /\ (v = (u + more)%nat \/ n < 1024 ^ (Z.of_nat v + 2)).
Proof.
  revert u. induction more as [|more IH]; intros u Hu; cbn [pick_unit]; [split; [lia|split; [done|left; lia]]|].
  destruct (Z.leb_spec (1024 ^ (Z.of_nat u + 2)) n) as [Hle|Hlt].
  - destruct (IH (S u)) as (Ha & Hb & Hc); [by replace (Z.of_nat (S u) + 1) with (Z.of_nat u + 2) by lia|].
    split; [lia|]. split; [done|]. destruct Hc as [->|?]; [left; lia|by right].
  - split; [lia|]. split; [done|]. by right.
Qed.

(** ** Properties *)

(** a size on screen is true to within half a tenth of the unit it is shown in,
    which is the largest of the five that fits: below 1024 the exact bytes, above
    it a number of tenths from 1.0, up to 1024.0 where rounding reaches the next
    unit; converting to floating point moves a size by a kibibyte at most, and not
    at all below eight pebibytes. *)
Theorem sizes_are_true_to_a_tenth bytes :
  0 <= bytes <= u64_max ->
  Z.abs (as_f64 bytes - bytes) <= 2 ^ 10 /\ (bytes < 2 ^ 53 -> as_f64 bytes = bytes)
  /\ (bytes < 1024 -> size bytes = show_Z bytes ++ lit " B")
  /\ (1024 <= bytes -> exists t u,
        (u <= 4)%nat /\ let unit := 1024 ^ (Z.of_nat u + 1) in
        size bytes = show_Z (t / 10) ++ lit "." ++ show_Z (t mod 10) ++ lit " " ++ nth u UNITS []
        /\ Z.abs (20 * as_f64 bytes - 2 * unit * t) <= unit
        /\ 10 <= t /\ ((u < 4)%nat -> t <= 10240 /\ as_f64 bytes < 1024 * unit)).
Proof.
  intros Hb. destruct (as_f64_close bytes Hb) as [Hc He]. split; [done|]. split; [done|]. unfold size. split.
  - intros Hlt. by rewrite (proj2 (Z.ltb_lt _ _)).
  - intros Hge. rewrite (proj2 (Z.ltb_ge _ _)) by done. cbv zeta.
    assert (Hv : 1024 ^ (Z.of_nat 0 + 1) <= as_f64 bytes).
    { destruct (Z.le_gt_cases (2 ^ 53) bytes) as [?|?]; [|rewrite He by done; exact Hge]. cbn. lia. }
    destruct (pick_unit_spec (as_f64 bytes) 0 4 Hv) as (Hu & Hlo & Hhi).
    set (u := pick_unit (as_f64 bytes) 0 4) in *. set (unit := 1024 ^ (Z.of_nat u + 1)) in *.
    assert (Hpos : 0 < unit) by (apply Z.pow_pos_nonneg; lia).
    exists (round_half_even (10 * as_f64 bytes) unit), u. split; [lia|]. split; [unfold show_tenths; by rewrite <- !app_assoc|].
    split; [|split].
    + pose proof (round_half_even_close (10 * as_f64 bytes) unit Hpos). lia.
    + apply round_half_even_lower; lia.
    + intros Hu4. destruct Hhi as [?|Hhi]; [lia|].
      assert (Hn : 1024 ^ (Z.of_nat u + 2) = 1024 * unit).
      { unfold unit. replace (Z.of_nat u + 2) with (Z.succ (Z.of_nat u + 1)) by lia. by rewrite Z.pow_succ_r by lia. }
      split; [|lia]. apply round_half_even_upper; lia.
Qed.

(** just below a unit's end a size reads as a thousand and twenty-four of it. *)
Theorem a_size_can_read_1024 : size 1048575 = lit "1024.0 KiB" /\ size 1048576 = lit "1.0 MiB".
Proof. split; apply str_eqb_eq; by vm_compute. Qed.

(** a countdown starts at the whole window, never shows more than is left rounded
    up, and reads zero exactly once the offer has run out. *)
Theorem countdown_reads_zero_at_the_end secs passed :
  0 <= secs -> 0 <= passed ->
  let shown := countdown_secs (secs * 10 ^ 9 - passed) in
  0 <= shown <= secs /\ (shown = 0 <-> secs * 10 ^ 9 <= passed) /\ (passed = 0 -> shown = secs)
  /\ (passed <= secs * 10 ^ 9 -> secs * 10 ^ 9 - passed <= shown * 10 ^ 9 < secs * 10 ^ 9 - passed + 10 ^ 9).
Proof.
  intros Hs Hp. cbv zeta. unfold countdown_secs. set (l := Z.max 0 (secs * 10 ^ 9 - passed)).
  pose proof (Z.div_mod l (10 ^ 9) ltac:(lia)). pose proof (Z.mod_pos_bound l (10 ^ 9) ltac:(lia)).
  destruct (Z.ltb_spec 0 (l mod 10 ^ 9)); lia.
Qed.

(** the percentage is the share that is done, rounded down, for anything below
    184 petabytes, and never passes a hundred. *)
Theorem percent_is_the_share done_ total :
  0 <= done_ <= total -> total <= u64_max ->
  0 <= percent done_ total <= 100
  /\ (total * 100 <= u64_max -> 0 < total -> percent done_ total = done_ * 100 / total /\ (percent done_ total = 100 <-> done_ = total)).
Proof.
  intros Hd Ht. unfold percent. destruct (Z.eqb_spec total 0) as [->|Hne]; [lia|]. split.
  - split; [apply Z.div_pos; unfold u64_max in *; lia|].
    apply Z.div_le_upper_bound; lia.
  - intros Hmax _. rewrite Z.min_r by lia. split; [done|]. split; [|intros ->; rewrite Z.mul_comm; apply Z.div_mul; lia].
    intros Hq. pose proof (Z.div_mod (done_ * 100) total ltac:(lia)). pose proof (Z.mod_pos_bound (done_ * 100) total ltac:(lia)). nia.
Qed.

(** ** Tables *)

Lemma split_on_nil c s : split_on c s <> [].
Proof. destruct s as [|x s]; cbn [split_on]; [done|]. destruct (x =? c)%N; [done|]. by destruct (split_on c s). Qed.

Lemma split_on_app c s rest : Forall (fun x => x <> c) s -> split_on c (s ++ c :: rest) = s :: split_on c rest.
Proof.
  induction 1 as [|x s Hx Hs IH]; cbn [app split_on]; [by rewrite N.eqb_refl|].
  by rewrite (proj2 (N.eqb_neq _ _) Hx), IH.
Qed.

Lemma split_on_last c s : Forall (fun x => x <> c) s -> split_on c s = [s].
Proof. induction 1 as [|x s Hx Hs IH]; cbn [split_on]; [done|]. by rewrite (proj2 (N.eqb_neq _ _) Hx), IH. Qed.

Definition clean (s : rstr) : Prop := Forall (fun x => x <> 9%N /\ x <> 10%N) s.

Lemma clean_app s t : clean s -> clean t -> clean (s ++ t).
Proof. intros. by apply Forall_app. Qed.

Lemma clean_cons x s : x <> 9%N -> x <> 10%N -> clean s -> clean (x :: s).
Proof. intros. by apply Forall_cons. Qed.

#[local] Hint Resolve clean_app : core.

Definition clean_check (s : rstr) : bool := forallb (fun x => negb (x =? 9)%N && negb (x =? 10)%N) s.
Lemma clean_checked s : clean_check s = true -> clean s.
Proof.
  unfold clean_check. rewrite forallb_forall. intros Hs. apply Forall_forall. intros x Hx. apply list_elem_of_In, Hs in Hx. lia.
Qed.

Lemma clean_show n : clean (show_Z n).
Proof.
  unfold show_Z. eapply Forall_impl; [apply show_nat_digits|]. intros x Hx. cbn in Hx. unfold is_digit in Hx. lia.
Qed.

#[local] Hint Resolve clean_show : core.
#[local] Hint Extern 1 (clean (lit _)) => apply clean_checked; reflexivity : core.

Lemma clean_size n : clean (size n).
Proof.
  unfold size, show_tenths. destruct (n <? 1024); auto. repeat apply clean_app; auto.
  destruct (pick_unit _ 0 4) as [|[|[|[|[|k]]]]]; cbn [nth UNITS fmap list_fmap]; auto. destruct k; apply Forall_nil_2.
Qed.

Lemma clean_duration n : clean (duration n).
Proof. unfold duration. repeat case_match; repeat apply clean_app; auto. Qed.

Lemma split_row a b c d e rest : clean a -> clean b -> clean c -> clean d -> clean e ->
  exists line, row a b c d e ++ rest = line ++ 10%N :: rest /\ Forall (fun x => x <> 10%N) line /\ split_on 9%N line = [a; b; c; d; e].
Proof.
  intros Ha Hb Hc Hd He. exists (a ++ TAB ++ b ++ TAB ++ c ++ TAB ++ d ++ TAB ++ e).
  assert (Hn : forall s, clean s -> Forall (fun x => x <> 10%N) s) by (intros s Hs; eapply Forall_impl; [exact Hs|by intros x []]).
  assert (Ht : forall s, clean s -> Forall (fun x => x <> 9%N) s) by (intros s Hs; eapply Forall_impl; [exact Hs|by intros x []]).
  split; [unfold row, NEWLINE; by rewrite <- !app_assoc|]. split.
  - assert (Forall (fun x => x <> 10%N) TAB) by by apply Forall_singleton. repeat (apply Forall_app; split); auto.
  - unfold TAB. cbn [app]. by rewrite !split_on_app, split_on_last by auto.
Qed.

Lemma cells_row a b c d e rest : clean a -> clean b -> clean c -> clean d -> clean e ->
  cells (row a b c d e ++ rest) = [a; b; c; d; e] :: cells rest.
Proof.
  intros Ha Hb Hc Hd He. destruct (split_row a b c d e rest) as (line & -> & Hl & Hs); [done..|].
  unfold cells. rewrite split_on_app by done. destruct (split_on 10%N rest) eqn:E; [by apply split_on_nil in E|].
  cbn [removelast fmap list_fmap]. by rewrite Hs.
Qed.

Lemma foldl_rows {A} (f : A -> rstr) h l : foldl (fun table o => table ++ f o) h l = h ++ mjoin (f <$> l).
Proof.
  revert h. induction l as [|x l IH]; intros h; cbn [foldl]; [by rewrite app_nil_r|]. rewrite IH.
  change (mjoin (f <$> x :: l)) with (f x ++ mjoin (f <$> l)). by rewrite app_assoc.
Qed.

Lemma cells_rows {A} (f : A -> rstr) (g : A -> list rstr) l :
  Forall (fun x => forall rest, cells (f x ++ rest) = g x :: cells rest) l -> cells (mjoin (f <$> l)) = g <$> l.
Proof.
  induction 1 as [|x l Hx Hl IH]; [done|]. change (mjoin (f <$> x :: l)) with (f x ++ mjoin (f <$> l)). by rewrite Hx, IH.
Qed.

Lemma clean_checked_name name platform : check name platform = Ok () -> clean name.
Proof.
  intros Hc. apply check_spec in Hc as [Hs _]. eapply Forall_impl; [apply Hs|].
  intros x Hx. cbn in Hx. unfold is_control, is_cc in Hx. lia.
Qed.

(** the tables come apart again: cut at newlines and tabs, each is its header and
    one line per offer, with exactly the five fields that were put in, as long as
    the file names are ones the daemon lets through and nobody else's words have
    tabs or newlines in them. *)
Theorem tables_come_apart platform incoming outgoing :
  Forall (fun o => clean (in_id o) /\ clean (in_from o) /\ check (in_name o) platform = Ok ()) incoming ->
  Forall (fun o => clean (out_id o) /\ clean (out_to o) /\ check (out_name o) platform = Ok ()
                   /\ forall d, out_detail o = Some d -> clean d) outgoing ->
  cells (incoming_table incoming)
    = [lit "ID"; lit "FROM"; lit "NAME"; lit "SIZE"; lit "EXPIRES"]
      :: ((fun o => [in_id o; in_from o; in_name o; size (in_size o); duration (in_expires_in_secs o)]) <$> incoming)
  /\ cells (outgoing_table outgoing)
    = [lit "ID"; lit "TO"; lit "NAME"; lit "SIZE"; lit "STATE"]
      :: ((fun o => [out_id o; out_to o; out_name o; size (out_size o); state o]) <$> outgoing).
Proof.
  intros Hi Ho. unfold incoming_table, outgoing_table, incoming_header, outgoing_header. rewrite !foldl_rows. split.
  - rewrite cells_row by auto. f_equal. apply cells_rows. eapply Forall_impl; [exact Hi|].
    intros o (Ha & Hb & Hc) rest. apply cells_row; eauto using clean_size, clean_duration, clean_checked_name.
  - rewrite cells_row by auto. f_equal. apply cells_rows. eapply Forall_impl; [exact Ho|].
    intros o (Ha & Hb & Hc & Hd) rest. apply cells_row; eauto using clean_size, clean_checked_name.
    unfold state. destruct (out_state o); cbn [label]; destruct (out_expires_in_secs o), (out_detail o);
      repeat apply clean_app; auto using clean_duration.
Qed.

(** but the reason a receiving machine gives for stopping is kept as it came and
    shown as it is, so it can put a line of its own in the sender's table. *)
Theorem a_receivers_reason_can_forge_a_row `{!EndpointIds, !WireJson} (s : Sender) env a b c d e o :
  s_phase s = Relaying -> clean a -> clean b -> clean c -> clean d -> clean e ->
  clean (out_id o) -> clean (out_to o) -> clean (out_name o) -> out_state o = Failed ->
  let reason := lit "x)" ++ NEWLINE ++ row a b c d e ++ lit "x" in
  out_detail o = Some reason ->
  s_calls (send_step s (FromLink (Ok (Error reason)) env)) = s_calls s ++ [(Failed, Some reason)]
  /\ [a; b; c; d; e] ∈ cells (outgoing_table [o]).
Proof.
  intros Hs Ha Hb Hc Hd He Hi Ht Hn Ho reason Hdet. split; [unfold send_step; by rewrite Hs|].
  unfold outgoing_table, outgoing_header. cbn [foldl]. rewrite cells_row by auto. apply elem_of_cons. right.
  unfold outgoing_row, state. rewrite Ho, Hdet. unfold reason. cbn [label].
  set (first := lit "failed" ++ lit " (" ++ lit "x)").
  assert (Heq : row (out_id o) (out_to o) (out_name o) (size (out_size o))
      (lit "failed" ++ lit " (" ++ (lit "x)" ++ NEWLINE ++ row a b c d e ++ lit "x") ++ lit ")")
    = row (out_id o) (out_to o) (out_name o) (size (out_size o)) first ++ row a b c d e ++ (lit "x)" ++ NEWLINE)).
  { unfold row at 1 3, first. rewrite <- !app_assoc. by change (lit "x" ++ lit ")" ++ NEWLINE) with (lit "x)" ++ NEWLINE). }
  rewrite Heq, cells_row, cells_row; auto using clean_size; [|apply clean_checked; reflexivity].
  apply elem_of_cons. right. apply elem_of_cons. by left.
Qed.

(** ** Witnesses *)

Example sizes_are_true_to_a_tenth_witness : exists t u, size 1536 = show_Z (t / 10) ++ lit "." ++ show_Z (t mod 10) ++ lit " " ++ nth u UNITS [] /\ 10 <= t.
Proof.
  destruct (sizes_are_true_to_a_tenth 1536 ltac:(unfold u64_max; lia)) as (_ & _ & _ & Hs).
  destruct (Hs ltac:(lia)) as (t & u & _ & He & _ & Ht & _). by exists t, u.
Defined.

Example countdown_reads_zero_at_the_end_witness : countdown_secs (600 * 10 ^ 9 - 0) = 600.
Proof. by apply (countdown_reads_zero_at_the_end 600 0). Defined.

Example tables_come_apart_witness :
  cells (incoming_table [{| in_id := lit "0000aaaa"; in_from := lit "nas"; in_name := lit "photo.jpg"; in_size := 2048; in_expires_in_secs := 570 |}])
  = [lit "ID"; lit "FROM"; lit "NAME"; lit "SIZE"; lit "EXPIRES"]
    :: [[lit "0000aaaa"; lit "nas"; lit "photo.jpg"; size 2048; duration 570]].
Proof.
  match goal with |- cells (incoming_table ?l) = _ => destruct (tables_come_apart Unix l []) as [Hi _] end.
  - apply Forall_singleton. split; [by apply clean_checked|]. split; [by apply clean_checked|]. by vm_compute.
  - apply Forall_nil_2.
  - exact Hi.
Defined.
