(* ===== verification/Terminal.v ===== *)
(** * What a transfer does to the terminal ([Progress] and [Countdown] of [cli/src/commands/file/format.rs], [interrupted] of [cli/src/commands/file/mod.rs])

    The one line that is redrawn in place, when it is drawn and when it is cleared,
    as a sequence of what is written to stderr; and what interrupts a transfer.
    Instants are nanoseconds. *)

From S2P Require Import Prelude Proto Format.

Local Abbreviation list := Datatypes.list.

(** ["\r\x1b[K"] and what follows it on the line. *)
Inductive written := Redraws (line : rstr).
Definition clears : written := Redraws [].

(** ** Progress *)

Record Progress := { total : Z; shown : option Z; enabled : bool }.

Definition Progress_new (is_terminal : bool) (total : Z) : Progress := {| total := total; shown := None; enabled := is_terminal |}.

(** [Instant::elapsed] does not go below zero. *)
Definition since (now at_ : Z) : Z := Z.max 0 (now - at_).

Definition update (now : Z) (p : Progress) (done_ : Z) : Progress * list written :=
  if due (enabled p) (since now <$> shown p)
  then ({| total := total p; shown := Some now; enabled := enabled p |}, [Redraws (progress_line done_ (total p))])
  else (p, []).

Definition Progress_done (p : Progress) : list written :=
  if enabled p && bool_decide (is_Some (shown p)) then [clears] else [].

(** The updates of a transfer, each at its time. *)
Fixpoint updates (p : Progress) (l : list (Z * Z)) : Progress * list written :=
  match l with
  | [] => (p, [])
  | (now, done_) :: l => let '(p, w) := update now p done_ in let '(p, w') := updates p l in (p, w ++ w')
  end.

(** ** Countdown *)

Record Countdown := { deadline : Z; drawn : bool; c_enabled : bool }.

Definition Countdown_new (now : Z) (is_terminal : bool) (seconds : Z) : Countdown :=
  {| deadline := now + seconds * 10 ^ 9; drawn := false; c_enabled := is_terminal |}.

Definition show (now : Z) (c : Countdown) : Countdown * list written :=
  if negb (c_enabled c) then (c, [])
  else ({| deadline := deadline c; drawn := true; c_enabled := c_enabled c |},
        [Redraws (lit "expires in " ++ duration (countdown_secs (deadline c - now)))]).

Definition Countdown_done (c : Countdown) : list written := if c_enabled c && drawn c then [clears] else [].

Fixpoint shows (c : Countdown) (l : list Z) : Countdown * list written :=
  match l with
  | [] => (c, [])
  | now :: l => let '(c, w) := show now c in let '(c, w') := shows c l in (c, w ++ w')
  end.

(** ** Interruptions *)

Inductive signal := CtrlC | Hangup | Terminate.
#[export] Instance signal_eq_dec : EqDecision signal.
Proof. solve_decision. Defined.

(** Whether waiting ends: both handlers are needed for either to be listened to. *)
Definition interrupted (unix : bool) (hangup terminate : result message ()) (ctrl_c : bool) (l : list signal) : bool :=
  let by_ctrl_c := negb ctrl_c || bool_decide (CtrlC ∈ l) in
  match unix, hangup, terminate with
  | true, Ok _, Ok _ => by_ctrl_c || bool_decide (Hangup ∈ l) || bool_decide (Terminate ∈ l)
  | _, _, _ => by_ctrl_c
  end.

(** ** Properties *)

Lemma update_cases now p d : let '(p', w) := update now p d in
  total p' = total p /\ enabled p' = enabled p
  /\ ((w = [] /\ shown p' = shown p) \/ (enabled p = true /\ shown p' = Some now /\ length w = 1%nat)).
Proof.
  unfold update. destruct (due _ _) eqn:E; [|auto]. split; [done|]. split; [done|]. right.
  unfold due in E. by apply andb_true_iff in E as [-> _].
Qed.

Lemma updates_cases p l : let '(p', w) := updates p l in
  enabled p' = enabled p /\ (enabled p = false -> w = []) /\ (shown p = None -> (is_Some (shown p') <-> w <> []))
  /\ (is_Some (shown p) -> is_Some (shown p')).
Proof.
  revert p. induction l as [|[now d] l IH]; intros p; cbn [updates].
  - split; [done|]. split; [done|]. split; [|done]. intros ->. split; [by intros []|done].
  - pose proof (update_cases now p d) as Hu. destruct (update now p d) as [p1 w1]. destruct Hu as (Ht & He & Hc).
    specialize (IH p1). destruct (updates p1 l) as [p2 w2]. destruct IH as (He2 & Hf & Hn & Hk). split; [congruence|].
    destruct Hc as [[-> Hs]|(Hen & Hs & Hl)].
    + rewrite Hs in Hn, Hk. split; [intros E; rewrite Hf; [done|congruence]|]. split; [exact Hn|exact Hk].
    + split; [congruence|]. split; intros _; [split; [intros _ Hw|intros _]|]; try (apply Hk; by rewrite Hs).
      apply app_eq_nil in Hw as [-> _]. done.
Qed.

(** a transfer's progress is nobody's business but a terminal's: a script that
    captures stderr gets none of it, and at a terminal, whatever was drawn, the
    line is clear once the transfer is over, and nothing is written if nothing was
    drawn. *)
Theorem progress_leaves_the_line_clear is_terminal n l :
  let '(p, w) := updates (Progress_new is_terminal n) l in
  let all := w ++ Progress_done p in
  (is_terminal = false -> all = []) /\ (all = [] \/ last all = Some clears)
  /\ (all = [] <-> w = []).
Proof.
  pose proof (updates_cases (Progress_new is_terminal n) l) as Hc. destruct (updates _ l) as [p w].
  destruct Hc as (He & Hf & Hn & _). cbn [enabled shown Progress_new] in *. specialize (Hn eq_refl). cbv zeta. unfold Progress_done. rewrite He.
  destruct is_terminal; cbn [andb].
  - split; [done|]. case_bool_decide as Hs.
    + split; [right; by rewrite last_snoc|]. split; [by intros [_ ?]%app_eq_nil|]. intros Hw. by destruct (proj1 Hn Hs).
    + assert (w = []) as -> by (destruct w; [done|]; destruct Hs; by apply Hn). split; [by left|done].
  - rewrite (Hf eq_refl). cbn. split; [done|]. split; [by left|done].
Qed.

(** the same of the countdown on an offer, which reads the whole window when it
    starts and nothing only once the offer has run out. *)
Theorem countdown_leaves_the_line_clear now is_terminal seconds l : 0 <= seconds ->
  let '(c, w) := shows (Countdown_new now is_terminal seconds) l in
  let all := w ++ Countdown_done c in
  (is_terminal = false -> all = []) /\ (all = [] \/ last all = Some clears)
  /\ countdown_secs (deadline (Countdown_new now is_terminal seconds) - now) = seconds
  /\ forall t, countdown_secs (deadline (Countdown_new now is_terminal seconds) - t) = 0 <-> now + seconds * 10 ^ 9 <= t.
Proof.
  intros Hs. assert (Hc : forall c, c_enabled (fst (shows c l)) = c_enabled c
    /\ (c_enabled c = false -> snd (shows c l) = []) /\ (snd (shows c l) = [] \/ drawn (fst (shows c l)) = true)
    /\ (drawn c = true -> drawn (fst (shows c l)) = true)).
  { induction l as [|t l IH]; intros c; cbn [shows]; [auto|]. unfold show. destruct (c_enabled c) eqn:E; cbn [negb].
    - specialize (IH {| deadline := deadline c; drawn := true; c_enabled := true |}). destruct (shows _ l) as [c' w]. cbn in *.
      destruct IH as (H1 & H2 & H3 & H4). split; [done|]. split; [done|]. split; [right; by apply H4|by intros _; apply H4].
    - specialize (IH c). destruct (shows c l) as [c' w]. cbn in *. rewrite E in IH. exact IH. }
  specialize (Hc (Countdown_new now is_terminal seconds)). destruct (shows _ l) as [c w]. cbn [fst snd c_enabled drawn Countdown_new deadline] in *.
  destruct Hc as (He & Hf & Hd & _). cbv zeta. unfold Countdown_done. rewrite He.
  split; [intros ->; by rewrite (Hf eq_refl)|]. split.
  - destruct is_terminal; cbn [andb]; [|left; by rewrite (Hf eq_refl)]. destruct Hd as [->| ->].
    + destruct (drawn c); [by right|by left].
    + right. by rewrite last_snoc.
  - split.
    + unfold countdown_secs. rewrite (Z.max_r 0) by lia. replace (now + seconds * 10 ^ 9 - now) with (seconds * 10 ^ 9) by lia.
      rewrite Z.div_mul, Z.mod_mul by lia. cbn. lia.
    + intros t. unfold countdown_secs. pose proof (Z.div_mod (Z.max 0 (now + seconds * 10 ^ 9 - t)) (10 ^ 9) ltac:(lia)).
      pose proof (Z.mod_pos_bound (Z.max 0 (now + seconds * 10 ^ 9 - t)) (10 ^ 9) ltac:(lia)).
      destruct (Z.ltb_spec 0 (Z.max 0 (now + seconds * 10 ^ 9 - t) mod 10 ^ 9)); lia.
Qed.

(** a transfer is interrupted exactly by Ctrl+C and, on Unix where both could be
    caught, by the terminal closing or a request to terminate. *)
Theorem interrupted_functional unix hangup terminate ctrl_c l :
  interrupted unix hangup terminate ctrl_c l = true <->
  ctrl_c = false \/ CtrlC ∈ l
  \/ (unix = true /\ hangup = Ok () /\ terminate = Ok () /\ (Hangup ∈ l \/ Terminate ∈ l)).
Proof.
  unfold interrupted. destruct ctrl_c; cbn [negb orb]; [|destruct unix, hangup, terminate; naive_solver].
  destruct unix, hangup as [[]|e], terminate as [[]|e']; rewrite ?orb_true_iff, ?bool_decide_eq_true; naive_solver.
Qed.
