(* ===== verification/Service.v ===== *)
(** * The background service ([cli/src/service_manager.rs], [cli/src/commands/service.rs])

    What [quix service] asks of systemd or of the Service Control Manager.  A
    program run is its argument list; what running it comes to, the socket
    appearing and the clock are arguments. *)

From S2P Require Import Prelude Proto Files.

Local Abbreviation list := Datatypes.list.

Definition NAME : rstr := lit "quixd".
Definition argv : Type := list rstr.
Definition args (l : list String.string) : argv := lit <$> l.

(** A program that ran: its exit status shown, and what it printed. *)
Record Output := { success : bool; shown_status : message; stdout : rstr; stderr : rstr }.

(** [None] where the program could not be started. *)
Definition runner : Type := argv -> option Output.

(** [str::contains]. *)
Fixpoint contains_str (needle hay : rstr) : bool :=
  match strip_prefix needle hay with
  | Some _ => true
  | None => match hay with [] => false | _ :: hay => contains_str needle hay end
  end.

(** [quiet]. *)
Definition quiet (os : runner) (command : argv) : bool := match os command with Some out => success out | None => false end.

(** [run]: the words of a failure.  Lowering the case of other than ASCII letters
    cannot spell [authentication]. *)
Definition failure_words (out : Output) : message :=
  let text := if is_empty (trim (stderr out)) then trim (stdout out) else trim (stderr out) in
  let words := if is_empty text then Fmt "exited with {}" [shown_status out] else Text text in
  if contains_str (lit "Access is denied") text || contains_str (lit "access denied") text
     || contains_str (lit "authentication") (to_ascii_lowercase text)
  then Fmt "{message}\n(this needs root — try again with sudo)" [words] else words.

Definition run_tool (os : runner) (command : argv) : result message () :=
  match os command with
  | None => Err (context (Fmt "running the service manager" []) (Fmt "{}" []))
  | Some out => if success out then Ok tt else Err (failure_words out)
  end.

(** ** What is installed, running and enabled *)

Record State := { installed : bool; running : bool; enabled : bool }.

Definition sc_says (os : runner) (command : argv) (needle : rstr) : bool :=
  match os command with Some out => contains_str needle (stdout out) | None => false end.

Definition is_installed (windows : bool) (os : runner) : bool :=
  quiet os (if windows then args ["sc"; "query"; "quixd"]%string else args ["systemctl"; "cat"; "quixd"]%string).
Definition is_running (windows : bool) (os : runner) : bool :=
  if windows then sc_says os (args ["sc"; "query"; "quixd"]%string) (lit "RUNNING")
  else quiet os (args ["systemctl"; "is-active"; "--quiet"; "quixd"]%string).
Definition is_enabled (windows : bool) (os : runner) : bool :=
  if windows then sc_says os (args ["sc"; "qc"; "quixd"]%string) (lit "AUTO_START")
  else quiet os (args ["systemctl"; "is-enabled"; "--quiet"; "quixd"]%string).

Definition state (windows : bool) (os : runner) : State :=
  let installed := is_installed windows os in
  {| installed := installed; running := installed && is_running windows os; enabled := installed && is_enabled windows os |}.

(** ** Changing it *)

(** What is run to change something, in order, and how it went. *)
Definition change : Type := list argv * result message ().

Definition tool (os : runner) (command : argv) : change := ([command], run_tool os command).
Definition unix_tool (os : runner) (verb : String.string) : change := tool os (args ["systemctl"; verb; "quixd"]%string).

(** What [systemctl] is run for before a start: what it comes to is not looked at. *)
Definition after_reset (c : change) : change := (args ["systemctl"; "reset-failed"; "quixd"]%string :: fst c, snd c).

(** The wait after [sc stop]: [still] is whether the n-th look finds it running. *)
Fixpoint wait_stopped (still : nat -> bool) (n more : nat) : result message () :=
  match more with
  | O => Err (Fmt "the service did not stop within 20s" [])
  | S more => if negb (still n) then Ok tt else wait_stopped still (S n) more
  end.

Definition start (windows : bool) (os : runner) : change :=
  if windows then tool os (args ["sc"; "start"; "quixd"]%string) else after_reset (unix_tool os "start").

Definition stop (windows : bool) (os : runner) (still : nat -> bool) : change :=
  if windows then
    let '(ran, res) := tool os (args ["sc"; "stop"; "quixd"]%string) in
    (ran, match res with Ok _ => wait_stopped still 0 40 | Err e => Err e end)
  else unix_tool os "stop".

Definition restart (windows : bool) (os : runner) (still : nat -> bool) : change :=
  if windows then
    if is_running windows os then
      match stop windows os still with
      | (ran, Err e) => (ran, Err e)
      | (ran, Ok _) => let '(then_, res) := start windows os in (ran ++ then_, res)
      end
    else start windows os
  else after_reset (unix_tool os "restart").

Definition enable (windows : bool) (os : runner) : change :=
  if windows then tool os (args ["sc"; "config"; "quixd"; "start="; "auto"]%string) else unix_tool os "enable".
Definition disable (windows : bool) (os : runner) : change :=
  if windows then tool os (args ["sc"; "config"; "quixd"; "start="; "demand"]%string) else unix_tool os "disable".

(** ** Waiting for the daemon *)

Definition READY_TIMEOUT : Z := from_secs 25.

(** [wait_until_ready]: at its n-th turn the socket is there or not, and the clock
    reads [clock n] when it is looked at.  [None] while it is still waiting. *)
Fixpoint wait_until_ready (deadline : Z) (answerable : nat -> bool) (clock : nat -> Z) (n fuel : nat) : option bool :=
  match fuel with
  | O => None
  | S fuel =>
      if answerable n then Some true
      else if deadline <=? clock n then Some false
      else wait_until_ready deadline answerable clock (S n) fuel
  end.

(** ** [quix service] *)

Inductive Action := Start | Stop | Restart | Enable | Disable | ServiceStatus.

(** The machine while the command runs. *)
Record Manager := {
  on_windows : bool;
  os : runner;
  still_running : nat -> bool;
  ready : bool;                  (* what waiting for the daemon came to *)
}.

Record ServiceRun := { printed : list message; ran : list argv; ended : result message () }.

Definition settle (m : Manager) : list message * result message () :=
  if ready m then ([Fmt "running" []], Ok tt)
  else ([], Err (Fmt "started, but the daemon did not become answerable — check the log\n(Linux: journalctl -u {}; Windows: Event Viewer, Windows Logs, Application)" [Text NAME])).

(** A change, and what is printed and done after it went well. *)
Definition changing (c : change) (next : list message * result message ()) : ServiceRun :=
  match c with
  | (ran, Err e) => {| printed := []; ran := ran; ended := Err e |}
  | (ran, Ok _) => {| printed := fst next; ran := ran; ended := snd next |}
  end.

Definition yes_no (b : bool) : message := Text (if b then lit "yes" else lit "no").

Definition run (m : Manager) (a : Action) : ServiceRun :=
  let st := state (on_windows m) (os m) in
  let says l := {| printed := l; ran := []; ended := Ok tt |} in
  if negb (installed st) then
    {| printed := []; ran := [];
       ended := Err (Fmt "the {} service is not installed — run the installer first (see the README), or start the daemon by hand" [Text NAME]) |}
  else
    match a with
    | ServiceStatus =>
        says [Fmt "{:<12} {}" [Text (lit "running"); yes_no (running st)];
              Fmt "{:<12} {}" [Text (lit "at boot"); Text (if enabled st then lit "enabled" else lit "disabled")]]
    | Start =>
        if running st then says [Fmt "already running" []]
        else changing (start (on_windows m) (os m)) (settle m)
    | Stop =>
        if negb (running st) then says [Fmt "already stopped" []]
        else changing (stop (on_windows m) (os m) (still_running m)) ([Fmt "stopped" []], Ok tt)
    | Restart => changing (restart (on_windows m) (os m) (still_running m)) (settle m)
    | Enable =>
        changing (enable (on_windows m) (os m))
          (Fmt "will start at boot" []
             :: (if negb (running st) then [Fmt "note: not running now — `quix service start` to start it" []] else []), Ok tt)
    | Disable =>
        changing (disable (on_windows m) (os m))
          (Fmt "will not start at boot" []
             :: (if running st then [Fmt "note: still running — `quix service stop` to stop it now" []] else []), Ok tt)
    end.

(** ** Properties *)

(** C38: waiting for the daemon ends: a hundred and one looks are enough, whatever
    they find, as each turn sleeps a quarter of a second; it says the daemon is
    ready exactly when a look up to the deadline finds the socket, and gives up
    only once the deadline has passed. *)
Theorem waiting_for_the_daemon_ends answerable clock t0 :
  (forall n, t0 + Z.of_nat n * (250 * 10 ^ 6) <= clock n) ->
  exists n, (n <= 100)%nat
  /\ (forall k, (k < n)%nat -> answerable k = false /\ clock k < t0 + READY_TIMEOUT)
  /\ forall fuel, (n < fuel)%nat ->
       wait_until_ready (t0 + READY_TIMEOUT) answerable clock 0 fuel = Some (answerable n)
       /\ (answerable n = false -> t0 + READY_TIMEOUT <= clock n).
Proof.
  intros Hc. set (deadline := t0 + READY_TIMEOUT).
  assert (Hlast : deadline <= clock 100%nat) by (specialize (Hc 100%nat); unfold deadline, READY_TIMEOUT, from_secs, NANOS in *; lia).
  assert (Hgo : forall more n, (n + more = 100)%nat ->
    exists j, (n <= j <= 100)%nat /\ (forall k, (n <= k < j)%nat -> answerable k = false /\ clock k < deadline)
      /\ forall fuel, (j - n < fuel)%nat -> wait_until_ready deadline answerable clock n fuel = Some (answerable j)
           /\ (answerable j = false -> deadline <= clock j)).
  { assert (Hhere : forall n, (n <= 100)%nat -> answerable n = true \/ deadline <= clock n ->
      exists j, (n <= j <= 100)%nat /\ (forall k, (n <= k < j)%nat -> answerable k = false /\ clock k < deadline)
        /\ forall fuel, (j - n < fuel)%nat -> wait_until_ready deadline answerable clock n fuel = Some (answerable j)
             /\ (answerable j = false -> deadline <= clock j)).
    { intros n Hn Hor. exists n. split; [lia|]. split; [lia|]. intros [|fuel] Hf; [lia|]. cbn [wait_until_ready].
      destruct (answerable n) eqn:Ea; [done|]. destruct Hor as [?|Hd]; [done|]. by rewrite (proj2 (Z.leb_le _ _)). }
    induction more as [|more IH]; intros n Hn; [apply Hhere; [lia|right; by replace n with 100%nat by lia]|].
    destruct (answerable n) eqn:Ea; [apply Hhere; [lia|by left]|].
    destruct (Z.le_gt_cases deadline (clock n)) as [Hd|Hd]; [apply Hhere; [lia|by right]|].
    destruct (IH (S n) ltac:(lia)) as (j & Hj & Hb & Hw). exists j. split; [lia|]. split.
    - intros k Hk. destruct (decide (k = n)) as [->|]; [split; [done|lia]|]. apply Hb. lia.
    - intros [|fuel] Hf; [lia|]. cbn [wait_until_ready]. rewrite Ea, (proj2 (Z.leb_gt _ _)) by lia. apply Hw. lia. }
  destruct (Hgo 100%nat 0%nat eq_refl) as (j & Hj & Hb & Hw). exists j. split; [lia|]. split.
  - intros k Hk. apply Hb. lia.
  - intros fuel Hf. apply Hw. lia.
Qed.

Lemma wait_stopped_ok still n more : wait_stopped still n more = Ok () -> exists k, (n <= k < n + more)%nat /\ still k = false.
Proof.
  revert n. induction more as [|more IH]; intros n; cbn [wait_stopped]; [done|].
  destruct (still n) eqn:E; cbn [negb]; [|intros _; exists n; split; [lia|done]].
  intros Hw. apply IH in Hw as (k & Hk & Hs). exists k. split; [lia|done].
Qed.

Lemma changing_ran c next : ran (changing c next) = fst c.
Proof. by destruct c as [l [[]|e]]. Qed.
Lemma changing_ok c next : ended (changing c next) = Ok () -> snd c = Ok () /\ snd next = Ok ().
Proof. by destruct c as [l [[]|e]]. Qed.

(** [quix service] runs a tool only where there is something to change: not for
    a service that is not installed, not to look, not to start what runs or stop
    what does not.  And when it reports success the service is what was asked for:
    after a start or a restart it answers, and on Windows after a stop it has been
    seen gone. *)
Theorem service_does_what_it_reports m a :
  let st := state (on_windows m) (os m) in
  let r := run m a in
  (ran r = [] <-> installed st = false \/ a = ServiceStatus \/ (a = Start /\ running st = true) \/ (a = Stop /\ running st = false))
  /\ (installed st = false -> exists e, ended r = Err e)
  /\ (ended r = Ok () ->
        (a = Start -> running st = true \/ ready m = true) /\ (a = Restart -> ready m = true)
        /\ (a = Stop -> running st = true -> on_windows m = true -> exists k, (k < 40)%nat /\ still_running m k = false)).
Proof.
  cbv zeta. unfold run. destruct (installed _) eqn:Ei; cbn [negb]; [|naive_solver].
  destruct a; cbn [ran ended]; rewrite ?changing_ran.
  - destruct (running _) eqn:Er; cbn [ran ended]; [naive_solver|]. rewrite changing_ran. split; [|split; [done|]].
    + unfold start, after_reset, unix_tool, tool. destruct (on_windows m); naive_solver.
    + intros [_ Hs]%changing_ok. unfold settle in Hs. destruct (ready m); naive_solver.
  - destruct (running _) eqn:Er; cbn [negb ran ended]; [|naive_solver]. rewrite changing_ran. split; [|split; [done|]].
    + unfold stop, unix_tool, tool. destruct (on_windows m); naive_solver.
    + intros [Hc _]%changing_ok. split; [done|]. split; [done|]. intros _ _ Hw. unfold stop in Hc. rewrite Hw in Hc.
      unfold tool in Hc. cbn [snd] in Hc. destruct (run_tool _ _) as [[]|e]; [|done].
      apply wait_stopped_ok in Hc as (k & Hk & Hs). exists k. split; [lia|done].
  - split; [|split; [done|]].
    + split; [|naive_solver]. unfold restart, start, stop, after_reset, unix_tool, tool.
      destruct (on_windows m); [|done]. destruct (is_running _ _); [|done]. destruct (run_tool _ _) as [[]|e]; [|done].
      by destruct (wait_stopped _ _ _).
    + intros [_ Hs]%changing_ok. unfold settle in Hs. destruct (ready m); naive_solver.
  - split; [|split; [done|]]; [|naive_solver]. unfold enable, unix_tool, tool. destruct (on_windows m); naive_solver.
  - split; [|split; [done|]]; [|naive_solver]. unfold disable, unix_tool, tool. destruct (on_windows m); naive_solver.
  - naive_solver.
Qed.

(** ** Witness *)

Example waiting_for_the_daemon_ends_witness :
  exists n, (n <= 100)%nat /\ wait_until_ready (0 + READY_TIMEOUT) (fun k => (3 <=? k)%nat) (fun k => Z.of_nat k * (250 * 10 ^ 6)) 0 101 = Some (3 <=? n)%nat.
Proof.
  destruct (waiting_for_the_daemon_ends (fun k => (3 <=? k)%nat) (fun k => Z.of_nat k * (250 * 10 ^ 6)) 0 ltac:(lia)) as (n & Hn & _ & Hw).
  exists n. split; [exact Hn|]. apply Hw. lia.
Defined.
