(* ===== verification/Update.v ===== *)
(** * Updating ([cli/src/commands/update.rs])

    What [quix update] decides, fetches, checks and hands over to, as the list of
    what it does to the machine.  The releases, the file system and the programs
    run are arguments. *)

From S2P Require Import Prelude External Proto Names Service.

Local Abbreviation list := Datatypes.list.

Definition REPO : rstr := lit "quixvpn/quix".

Inductive Plan := Report | UpToDate | Install.

Definition plan (current latest : rstr) (check force : bool) : Plan :=
  if check then Report else if str_eqb current latest && negb force then UpToDate else Install.

(** ** Names and places *)

Definition archive_name (platform : rstr) : rstr :=
  match strip_prefix (lit "windows") platform with
  | Some _ => lit "quix-" ++ platform ++ lit ".zip"
  | None => lit "quix-" ++ platform ++ lit ".tar.gz"
  end.

Definition release_url (tag asset : rstr) : rstr :=
  lit "https://github.com/" ++ REPO ++ lit "/releases/download/" ++ tag ++ lit "/" ++ asset.

Definition platform (os arch : rstr) : result message rstr :=
  let this o a := str_eqb os (lit o) && str_eqb arch (lit a) in
  if this "linux"%string "x86_64"%string then Ok (lit "linux-x86_64")
  else if this "linux"%string "aarch64"%string then Ok (lit "linux-aarch64")
  else if this "windows"%string "x86_64"%string then Ok (lit "windows-x86_64")
  else Err (Fmt "no prebuilt release for {os}-{arch}; build from source" [Text os; Text arch]).

(** [Path::join] and [push], of a relative name. *)
Definition join (windows : bool) (dir name : rstr) : rstr :=
  let separated := ends_with_char 47 dir || windows && ends_with_char 92 dir in
  dir ++ (if is_empty dir || separated then [] else if windows then lit "\" else lit "/") ++ name.

Definition system32 (SystemRoot : option rstr) (parts : list rstr) : rstr :=
  foldl (join true) (join true (match SystemRoot with Some r => r | None => lit "C:\Windows" end) (lit "System32")) parts.

(** A program with its arguments, and what is added to its environment. *)
Record Command := { program : rstr; arguments : list rstr; env : list (rstr * rstr) }.

Definition extract_command (SystemRoot : option rstr) (archive into : rstr) (windows : bool) : Command :=
  let '(program, flags) :=
    if windows then (system32 SystemRoot [lit "tar.exe"], lit "-xf") else (lit "tar", lit "-xzf") in
  {| program := program; arguments := [flags; archive; lit "-C"; into]; env := [] |}.

Definition installer_command (SystemRoot : option rstr) (package install_dir : rstr) (windows : bool) : Command :=
  if windows then
    {| program := system32 SystemRoot (lit <$> ["WindowsPowerShell"; "v1.0"; "powershell.exe"]%string);
       arguments := (lit <$> ["-NoProfile"; "-ExecutionPolicy"; "Bypass"; "-File"]%string)
         ++ [join true package (lit "install.ps1"); lit "-From"; package; lit "-InstallDir"; install_dir; lit "-KeepOperator"];
       env := [] |}
  else
    {| program := lit "bash"; arguments := [join false package (lit "install.sh"); lit "--from"; package; lit "--keep-operator"];
       env := [(lit "INSTALL_DIR", install_dir)] |}.

Definition required (windows : bool) : list rstr :=
  if windows then lit <$> ["quix.exe"; "quixd.exe"; "install.ps1"]%string
  else lit <$> ["quix"; "quixd"; "quixd.service"; "install.sh"]%string.

(** [check_package]: [is_file] of the names in the extracted package. *)
Definition check_package (is_file : rstr -> bool) (windows : bool) : result message () :=
  match List.find (fun file => negb (is_file file)) (required windows) with
  | Some file => Err (Fmt "{file} is missing from the release package" [Text file])
  | None => Ok tt
  end.

(** What a helper tool comes to: it could not be started, or its status and what it
    wrote to its standard error. *)
Inductive output := Unstarted (e : message) | Exited (success : bool) (status : message) (stderr : rstr).

Definition run_quietly (command : Command) (out : output) : result message () :=
  match out with
  | Unstarted e => Err (context (Fmt "running {program}" [Text (program command)]) e)
  | Exited true _ _ => Ok tt
  | Exited false status stderr => Err (Fmt "{program} failed ({}): {}" [Text (program command); status; Text (trim stderr)])
  end.

Lemma run_quietly_ok c out : run_quietly c out = Ok () <-> exists status stderr, out = Exited true status stderr.
Proof. destruct out as [e|[] status stderr]; naive_solver. Qed.

(** ** Asking GitHub *)

(** What a request comes to, step by step. *)
Record Http (B : Type) := {
  built : result message ();
  sent : result message ();
  error_for_status : result message ();
  body : result message B;
}.
Arguments built {B}. Arguments sent {B}. Arguments error_for_status {B}. Arguments body {B}.

(** [tag_name]: what the answer, an object, has under that name, when it is text. *)
Definition latest_tag (tag_name : Http (option rstr)) : result message rstr :=
  _ ← built tag_name;
  _ ← map_err (context (Fmt "asking GitHub for the latest release" [])) (sent tag_name);
  _ ← map_err (context (Fmt "no published release found" [])) (error_for_status tag_name);
  tag ← body tag_name;
  ok_or (Fmt "release has no tag" []) tag.

Definition download (url : rstr) (h : Http (list Z)) : result message (list Z) :=
  let downloading := context (Fmt "downloading {url}" [Text url]) in
  _ ← built h;
  _ ← map_err downloading (sent h);
  _ ← map_err downloading (error_for_status h);
  body h.

(** ** The checksum *)

Fixpoint split_whitespace (word : rstr) (s : rstr) : list rstr :=
  match s with
  | [] => if is_empty word then [] else [word]
  | c :: s =>
      if is_whitespace c then (if is_empty word then [] else [word]) ++ split_whitespace [] s
      else split_whitespace (word ++ [c]) s
  end.

Section Update.
Context `{!Sha256}.

Definition hex_digit (d : Z) : char := Z.to_N (if d <? 10 then 48 + d else 87 + d).
Definition hex (bytes : list Z) : rstr := mjoin ((fun b => [hex_digit (b / 16); hex_digit (b mod 16)]) <$> bytes).

Variable utf8_lossy : list Z -> rstr.      (* [String::from_utf8_lossy] *)
Variable to_lowercase : rstr -> rstr.      (* [str::to_lowercase] *)

(** The outside of one run. *)
Record Machine := {
  on_windows : bool;
  manager_installed : bool;                   (* [manager::state().installed] *)
  privileged : bool;                          (* root, or elevated *)
  os : rstr; arch : rstr;
  SystemRoot : option rstr;
  temp_dir : rstr; pid : Z;
  creates : result message ();                (* what creating the stage comes to *)
  github : Http (option rstr);
  release : rstr -> Http (list Z);            (* by URL *)
  write_archive : result message ();
  tar : output;                               (* what unpacking comes to *)
  is_file : rstr -> bool;                     (* in the extracted package *)
  exe : result message (option rstr);         (* where this copy runs from: its directory, if it has one *)
  installs : result message (option message); (* the installer: [Some code] where it failed *)
}.

Definition latest_release (m : Machine) : result message rstr := latest_tag (github m).
Definition get (m : Machine) (url : rstr) : result message (list Z) := download url (release m url).

Definition install_dir (m : Machine) : result message rstr :=
  dir ← map_err (context (Fmt "locating the running executable" [])) (exe m);
  ok_or (Fmt "executable has no parent directory" []) dir.

Definition download_verified (get : rstr -> result message (list Z)) (tag asset : rstr) : result message (list Z) :=
  bytes ← get (release_url tag asset);
  sums ← get (release_url tag (asset ++ lit ".sha256"));
  expected ← ok_or (Fmt "malformed checksum file" []) (head (split_whitespace [] (utf8_lossy sums)));
  if negb (str_eqb (to_lowercase expected) (hex (sha256 bytes))) then
    Err (Fmt "checksum mismatch for {asset} — refusing to install" [Text asset])
  else Ok bytes.

(** What a run does to the machine, in order. *)
Inductive act :=
  | Says (m : message)
  | Writes (path : rstr) (bytes : list Z)
  | Runs (c : Command)
  | Creates (dir : rstr)
  | Removes (dir : rstr).                     (* [remove_dir_all], its outcome ignored *)

Inductive ending := Relaunches | Ends (r : result message ()).

(** [Stage::new]'s directory. *)
Definition stage (m : Machine) : rstr := join (on_windows m) (temp_dir m) (lit "quix-update-" ++ show_nat (Z.to_nat (pid m))).

(** From the stage on: whatever happens, it is removed last. *)
Definition staged (m : Machine) (platform archive : rstr) (bytes : list Z) (stage : rstr) : list act * result message () :=
  let archive_path := join (on_windows m) stage archive in
  match write_archive m with
  | Err e => ([], Err (context (Fmt "saving the release archive" []) e))
  | Ok _ =>
      let extract := extract_command (SystemRoot m) archive_path stage (on_windows m) in
      let acts := [Writes archive_path bytes; Runs extract] in
      match run_quietly extract (tar m) with
      | Err e => (acts, Err (context (Fmt "extracting the release archive" []) e))
      | Ok _ =>
          let package := join (on_windows m) stage (lit "quix-" ++ platform) in
          match check_package (is_file m) (on_windows m) with
          | Err e => (acts, Err e)
          | Ok _ =>
              let acts := acts ++ [Says (Fmt "running the release installer" [])] in
              match install_dir m with
              | Err e => (acts, Err e)
              | Ok dir =>
                  let acts := acts ++ [Runs (installer_command (SystemRoot m) package dir (on_windows m))] in
                  match installs m with
                  | Err e => (acts, Err (context (Fmt "starting the installer" []) e))
                  | Ok (Some code) => (acts, Err (Fmt "the installer failed ({code})" [code]))
                  | Ok None => (acts, Ok tt)
                  end
              end
          end
      end
  end.

(** [ensure_privileged]: on Windows the command is run again, elevated. *)
Definition ensure_privileged (m : Machine) : option ending :=
  if privileged m then None
  else if on_windows m then Some Relaunches
  else Some (Ends (Err (Fmt "updating installs a system service — run it as root: sudo quix update" []))).

Definition run (m : Machine) (current : rstr) (check force : bool) : list act * ending :=
  match latest_release m with
  | Err e => ([], Ends (Err e))
  | Ok tag =>
      let latest := trim_start_matches (N.eqb 118) tag in
      let said := [Says (Fmt "installed {current}, latest {latest}" [Text current; Text latest])] in
      match plan current latest check force with
      | Report => (said, Ends (Ok tt))
      | UpToDate => (said ++ [Says (Fmt "already on the latest version (v{latest})" [Text latest])], Ends (Ok tt))
      | Install =>
          if negb (manager_installed m) then
            (said, Ends (Err (Fmt "the {} service is not installed, so this copy was not set up by the installer — run the installer instead (see the README)" [Text NAME])))
          else
            match ensure_privileged m with
            | Some ending => (said, ending)
            | None =>
                match platform (os m) (arch m) with
                | Err e => (said, Ends (Err e))
                | Ok platform =>
                    let archive := archive_name platform in
                    let said := said ++ [Says (Fmt "downloading {archive}" [Text archive])] in
                    match download_verified (get m) tag archive with
                    | Err e => (said, Ends (Err e))
                    | Ok bytes =>
                        let said := said ++ [Removes (stage m)] in
                        match creates m with
                        | Err e => (said, Ends (Err (context (Fmt "creating {}" [Text (stage m)]) e)))
                        | Ok _ =>
                            let '(acts, res) := staged m platform archive bytes (stage m) in
                            (said ++ Creates (stage m) :: acts ++ [Removes (stage m)], Ends res)
                        end
                    end
                end
            end
      end
  end.

(** ** Properties *)

Lemma download_verified_ok get tag asset bytes : download_verified get tag asset = Ok bytes ->
  get (release_url tag asset) = Ok bytes
  /\ exists sums word, get (release_url tag (asset ++ lit ".sha256")) = Ok sums
     /\ head (split_whitespace [] (utf8_lossy sums)) = Some word /\ to_lowercase word = hex (sha256 bytes).
Proof.
  unfold download_verified. destruct (get (release_url tag asset)) as [b|e] eqn:Eg; [|done]. cbn [mbind result_bind].
  destruct (get (release_url tag (asset ++ _))) as [sums|e] eqn:Es; [|done]. cbn [mbind result_bind].
  destruct (head _) as [word|] eqn:Eh; [|done]. cbn [ok_or mbind result_bind].
  destruct (str_eqb _ _) eqn:Ee; cbn [negb]; [|done]. intros [= <-]. apply str_eqb_eq in Ee. split; [done|]. by exists sums, word.
Qed.

Definition touches (a : act) : bool := match a with Says _ => false | _ => true end.

Lemma plan_install current latest check force : plan current latest check force = Install <-> check = false /\ (force = true \/ current <> latest).
Proof using.
  unfold plan. destruct check; [by split; [|intros [? _]]|].
  destruct (str_eqb current latest) eqn:E; [apply str_eqb_eq in E|apply str_eqb_neq in E]; destruct force; cbn; split; try done; auto;
    by intros [_ [?|?]].
Qed.

Definition unpacked (m : Machine) : Prop := exists status stderr, tar m = Exited true status stderr.

(** What is done to the stage. *)
Lemma staged_spec m platform archive bytes st :
  let '(acts, res) := staged m platform archive bytes st in
  (forall path b, Writes path b ∈ acts -> path = join (on_windows m) st archive /\ b = bytes)
  /\ (forall dir, Creates dir ∉ acts)
  /\ (forall c, Runs c ∈ acts ->
        c = extract_command (SystemRoot m) (join (on_windows m) st archive) st (on_windows m)
        \/ unpacked m /\ (forall file, file ∈ required (on_windows m) -> is_file m file = true)
           /\ exists dir, install_dir m = Ok dir
              /\ c = installer_command (SystemRoot m) (join (on_windows m) st (lit "quix-" ++ platform)) dir (on_windows m))
  /\ (res = Ok () <-> write_archive m = Ok () /\ unpacked m /\ check_package (is_file m) (on_windows m) = Ok ()
       /\ is_ok (install_dir m) = true /\ installs m = Ok None).
Proof.
  assert (Hpkg : check_package (is_file m) (on_windows m) = Ok () -> forall file, file ∈ required (on_windows m) -> is_file m file = true).
  { unfold check_package. destruct (List.find _ _) eqn:E; [done|]. intros _ file Hf. apply list_elem_of_In in Hf.
    apply (List.find_none _ _ E) in Hf. by apply negb_false_iff. }
  unfold staged. cbv zeta.
  destruct (write_archive m) as [[]|e]; [|split_and!; set_solver].
  destruct (run_quietly _ _) as [[]|e] eqn:Et.
  2:{ assert (~ unpacked m) by (intros Hu; rewrite (proj2 (run_quietly_ok _ _) Hu) in Et; done). split_and!; set_solver. }
  apply run_quietly_ok in Et. change (unpacked m) in Et.
  destruct (check_package _ _) as [[]|e]; [|split_and!; set_solver]. specialize (Hpkg eq_refl).
  destruct (install_dir m) as [dir|e]; [|split_and!; set_solver].
  destruct (installs m) as [[code|]|e]; split_and!; set_solver.
Qed.

(** C17: an update touches the machine only for a release that is asked for or newer
    than this one, on a machine with the service installed and with the rights to
    install; every byte it writes is the archive of the release GitHub named, with
    the checksum published beside it; the release's own installer is run, if at
    all, only on a package that unpacked and is complete; success is reported only
    for an installer that succeeded, or with nothing to do; and whatever happens
    the staging directory goes last. *)
Theorem nothing_unverified_is_installed m current check force :
  let '(acts, e) := run m current check force in
  (exists a, a ∈ acts /\ touches a = true) ->
  exists tag pf bytes,
    latest_release m = Ok tag /\ check = false /\ (force = true \/ current <> trim_start_matches (N.eqb 118) tag)
    /\ manager_installed m = true /\ privileged m = true /\ platform (os m) (arch m) = Ok pf
    /\ get m (release_url tag (archive_name pf)) = Ok bytes
    /\ (exists sums word, get m (release_url tag (archive_name pf ++ lit ".sha256")) = Ok sums
          /\ head (split_whitespace [] (utf8_lossy sums)) = Some word /\ to_lowercase word = hex (sha256 bytes))
    /\ (forall path b, Writes path b ∈ acts -> path = join (on_windows m) (stage m) (archive_name pf) /\ b = bytes)
    /\ (forall c, Runs c ∈ acts ->
          c = extract_command (SystemRoot m) (join (on_windows m) (stage m) (archive_name pf)) (stage m) (on_windows m)
          \/ unpacked m /\ (forall file, file ∈ required (on_windows m) -> is_file m file = true)
             /\ exists dir, install_dir m = Ok dir
                /\ c = installer_command (SystemRoot m) (join (on_windows m) (stage m) (lit "quix-" ++ pf)) dir (on_windows m))
    /\ (e = Ends (Ok ()) -> installs m = Ok None)
    /\ (last acts = Some (Removes (stage m))).
Proof.
  unfold run. destruct (latest_release m) as [tag|er]; [|intros (a & Ha & _); by apply elem_of_nil in Ha].
  set (latest := trim_start_matches (N.eqb 118) tag).
  assert (Hsaid : forall l : list message, ~ exists a, a ∈ Says <$> l /\ touches a = true).
  { intros l (a & Ha & Ht). apply list_elem_of_fmap in Ha as (x & -> & _). done. }
  destruct (plan current latest check force) eqn:Ep.
  { intros H'. by destruct (Hsaid [Fmt "installed {current}, latest {latest}" [Text current; Text latest]]). }
  { intros H'. by destruct (Hsaid [Fmt "installed {current}, latest {latest}" [Text current; Text latest];
      Fmt "already on the latest version (v{latest})" [Text latest]]). }
  apply plan_install in Ep as [Hch Hv].
  set (s1 := Fmt "installed {current}, latest {latest}" [Text current; Text latest]) in *.
  destruct (manager_installed m) eqn:Em; cbn [negb]; [|intros H'; by destruct (Hsaid [s1])].
  unfold ensure_privileged. destruct (privileged m) eqn:Epr.
  2:{ destruct (on_windows m); intros H'; by destruct (Hsaid [s1]). }
  destruct (platform (os m) (arch m)) as [pf|er] eqn:Epf; [|intros H'; by destruct (Hsaid [s1])].
  set (s2 := Fmt "downloading {archive}" [Text (archive_name pf)]).
  destruct (download_verified _ _ _) as [bytes|er] eqn:Ed; [|intros H'; by destruct (Hsaid [s1; s2])].
  apply download_verified_ok in Ed as [Hb Hsum].
  assert (Hsays : forall m0 : act, m0 ∈ [Says s1] ++ [Says s2] -> exists x, m0 = Says x) by set_solver.
  destruct (creates m) as [[]|er].
  2:{ intros _. exists tag, pf, bytes. split_and!; try done; set_solver. }
  pose proof (staged_spec m pf (archive_name pf) bytes (stage m)) as Hst.
  destruct (staged m pf (archive_name pf) bytes (stage m)) as [acts res]. destruct Hst as (Hw & _ & Hr & Hres).
  intros _. exists tag, pf, bytes. split_and!; try done.
  - intros path b Hin. apply Hw. set_solver.
  - intros c Hin. apply Hr. set_solver.
  - intros [= ->]. by apply Hres.
  - change (Creates (stage m) :: acts ++ [Removes (stage m)]) with ((Creates (stage m) :: acts) ++ [Removes (stage m)]).
    rewrite (app_assoc _ (Creates (stage m) :: acts) [Removes (stage m)]). apply last_snoc.
Qed.

(** a machine that is up to date, or only asked, is left alone, without the
    network being asked for more than the version and without a prompt. *)
Theorem a_current_machine_is_left_alone m current check force tag :
  latest_release m = Ok tag -> check = true \/ (force = false /\ current = trim_start_matches (N.eqb 118) tag) ->
  let '(acts, e) := run m current check force in e = Ends (Ok ()) /\ forall a, a ∈ acts -> touches a = false.
Proof.
  intros Ht Hor. unfold run. rewrite Ht. destruct (plan _ _ _ _) eqn:Ep; [..|apply plan_install in Ep; naive_solver];
    (split; [done|]); intros a Ha; set_solver.
Qed.
End Update.

(** ** Witnesses *)

Import Concrete.

Module UpdateDemo.
Definition text (s : rstr) : list Z := Z.of_N <$> s.
Definition lossy (l : list Z) : rstr := Z.to_N <$> l.
Definition tag : rstr := lit "v0.2.0".
Definition asset : rstr := lit "quix-linux-x86_64.tar.gz".
Definition archive : list Z := [31; 139; 8; 0].
Definition answered {B} (b : B) : Http B := {| built := Ok tt; sent := Ok tt; error_for_status := Ok tt; body := Ok b |}.
Definition machine : Machine :=
  {| on_windows := false; manager_installed := true; privileged := true; os := lit "linux"; arch := lit "x86_64";
     SystemRoot := None; temp_dir := lit "/tmp"; pid := 42; creates := Ok tt; github := answered (Some tag);
     release := fun url => answered (if str_eqb url (release_url tag asset) then archive
                                     else text (hex (sha256 archive) ++ lit "  " ++ asset));
     write_archive := Ok tt; tar := Exited true (Fmt "exit status: 0" []) []; is_file := fun _ => true;
     exe := Ok (Some (lit "/usr/local/bin"));
     installs := Ok None |}.
End UpdateDemo.

Example nothing_unverified_is_installed_witness :
  last (fst (run UpdateDemo.lossy to_ascii_lowercase UpdateDemo.machine (lit "0.1.0") false false)) = Some (Removes (lit "/tmp/quix-update-42")).
Proof.
  pose proof (nothing_unverified_is_installed UpdateDemo.lossy to_ascii_lowercase UpdateDemo.machine (lit "0.1.0") false false) as Hn.
  assert (Ht : existsb touches (fst (run UpdateDemo.lossy to_ascii_lowercase UpdateDemo.machine (lit "0.1.0") false false)) = true) by by vm_compute.
  assert (Hs : str_eqb (stage UpdateDemo.machine) (lit "/tmp/quix-update-42") = true) by by vm_compute.
  destruct (run _ _ _ _ _ _) as [acts e]. cbn [fst] in *.
  destruct Hn as (tag & pf & bytes & _ & _ & _ & _ & _ & _ & _ & _ & _ & _ & _ & Hl).
  - apply existsb_exists in Ht as (a & Ha & Ht). exists a. split; [by apply list_elem_of_In|exact Ht].
  - apply str_eqb_eq in Hs. rewrite <- Hs. exact Hl.
Defined.

Example a_current_machine_is_left_alone_witness :
  snd (run UpdateDemo.lossy to_ascii_lowercase UpdateDemo.machine (lit "0.2.0") false false) = Ends (Ok ()).
Proof.
  assert (Hv : str_eqb (lit "0.2.0") (trim_start_matches (N.eqb 118) UpdateDemo.tag) = true) by by vm_compute.
  apply str_eqb_eq in Hv.
  pose proof (a_current_machine_is_left_alone UpdateDemo.lossy to_ascii_lowercase UpdateDemo.machine (lit "0.2.0") false false UpdateDemo.tag
    eq_refl (or_intror (conj eq_refl Hv))) as Hc.
  destruct (run _ _ _ _ _ _) as [acts e]. apply Hc.
Defined.
