(* ===== verification/Build.v ===== *)
(** * The version a build reports ([proto/build.rs])

    Where the version comes from, and that a build of a release is what
    [quix update] takes for that release. *)

From S2P Require Import Prelude External Proto Names Utf8 Service Update.

Local Abbreviation list := Datatypes.list.

Definition normalize (raw : rstr) : option rstr :=
  let trimmed := trim_start_matches (N.eqb 118) (trim raw) in
  if is_empty trimmed then None else Some trimmed.

(** What the build script finds: the environment, and what [git describe]
    printed and whether it succeeded, if it could be run. *)
Record Checkout := {
  QUIX_VERSION : option rstr;
  git_describe : option (bool * list Z);
  CARGO_PKG_VERSION : option rstr;
}.

Definition from_env (c : Checkout) : option rstr := raw ← QUIX_VERSION c; normalize raw.

Definition from_git (c : Checkout) : option rstr :=
  '(success, stdout) ← git_describe c;
  if (success : bool) then raw ← from_utf8 stdout; normalize raw else None.

Definition or_else {A} (a b : option A) : option A := match a with Some _ => a | None => b end.

Definition version (c : Checkout) : rstr :=
  default (lit "unknown") (or_else (or_else (from_env c) (from_git c)) (CARGO_PKG_VERSION c)).

(** The two lines that become [proto::VERSION] and [proto::VERSION_TAG]. *)
Definition main (c : Checkout) : rstr * rstr := (version c, lit "v" ++ version c).

(** ** Properties *)

(** [c] is checked out at [tag], cleanly: CI says so, or git does. *)
Definition at_tag (c : Checkout) (tag : rstr) : Prop :=
  QUIX_VERSION c = Some tag
  \/ (from_env c = None /\ git_describe c = Some (true, as_bytes (tag ++ [10%N]))).

(** A tag: git allows no white space in one, and it is more than [v]s. *)
Definition is_tag (tag : rstr) : Prop :=
  Forall scalar tag /\ Forall (fun c => is_whitespace c = false) tag /\ trim_start_matches (N.eqb 118) tag <> [].

Lemma normalize_tag tag : is_tag tag -> normalize tag = Some (trim_start_matches (N.eqb 118) tag).
Proof. intros (_ & Hw & Hn). unfold normalize. rewrite trim_id by done. by destruct (trim_start_matches _ tag). Qed.

Lemma trim_line s : Forall (fun c => is_whitespace c = false) s -> trim (s ++ [10%N]) = trim s.
Proof.
  intros Hs. rewrite (trim_id s Hs). unfold trim, trim_matches, trim_start_matches.
  assert (Hd : drop_while is_whitespace (s ++ [10%N]) = match s with [] => [] | _ => s ++ [10%N] end).
  { destruct s as [|c s]; [by vm_compute|]. apply drop_while_id. cbn. by apply Forall_cons in Hs as [? _]. }
  rewrite Hd. destruct s as [|c s]; [done|]. set (t := c :: s) in *. clearbody t. unfold trim_end_matches.
  rewrite rev_app_distr. cbn [rev app drop_while]. change (is_whitespace 10) with true. cbn iota.
  rewrite drop_while_id; [apply rev_involutive|]. apply Forall_rev in Hs. destruct (rev t); [done|]. by apply Forall_cons in Hs as [? _].
Qed.

Lemma normalize_line tag : is_tag tag -> normalize (tag ++ [10%N]) = normalize tag.
Proof. intros (_ & Hw & _). unfold normalize. by rewrite trim_line. Qed.

Lemma version_at_tag c tag : is_tag tag -> at_tag c tag -> version c = trim_start_matches (N.eqb 118) tag.
Proof.
  intros Ht [Hc|[He Hg]]; unfold version.
  - unfold from_env. rewrite Hc. cbn [mbind option_bind]. by rewrite (normalize_tag tag Ht).
  - unfold from_git. rewrite He, Hg. cbn [mbind option_bind].
    rewrite from_utf8_as_bytes by (apply Forall_app; split; [apply Ht|repeat constructor; by vm_compute]).
    cbn [mbind option_bind]. by rewrite (normalize_line tag Ht), (normalize_tag tag Ht).
Qed.

Section Releases.
Context `{!Sha256}.
Variables (utf8_lossy : list Z -> rstr) (to_lowercase : rstr -> rstr).     (* [Update]'s *)

(** a copy built from the latest release, by CI or from a clean checkout of its
    tag, knows that it is: [quix update] says so and stops; and a copy of any other
    version, older, newer or in between, goes on to install it. *)
Theorem a_release_knows_itself m c tag : is_tag tag -> latest_release m = Ok tag ->
  (at_tag c tag -> exists said, run utf8_lossy to_lowercase m (version c) false false = (said, Ends (Ok ())) /\ forall a, a ∈ said -> touches a = false)
  /\ (version c <> trim_start_matches (N.eqb 118) tag -> plan (version c) (trim_start_matches (N.eqb 118) tag) false false = Install).
Proof.
  intros Ht Hl. split.
  - intros Hc. rewrite (version_at_tag c tag Ht Hc). unfold run. rewrite Hl. unfold plan. rewrite str_eqb_refl. cbn [andb negb].
    eexists. split; [done|]. intros a Ha. rewrite !elem_of_app, !list_elem_of_singleton in Ha. by destruct Ha as [->| ->].
  - intros Hne. unfold plan. by rewrite (proj2 (str_eqb_neq _ _)).
Qed.
End Releases.

(** ** A checkout of [v0.2.0] *)

Import Concrete.

Definition checkout : Checkout :=
  {| QUIX_VERSION := None; git_describe := Some (true, as_bytes (UpdateDemo.tag ++ [10%N])); CARGO_PKG_VERSION := Some (lit "0.1.0") |}.

Example a_release_knows_itself_witness :
  main checkout = (lit "0.2.0", lit "v0.2.0")
  /\ exists said, run UpdateDemo.lossy to_ascii_lowercase UpdateDemo.machine (version checkout) false false = (said, Ends (Ok ())) /\ forall a, a ∈ said -> touches a = false.
Proof.
  split; [by vm_compute|]. apply (a_release_knows_itself UpdateDemo.lossy to_ascii_lowercase UpdateDemo.machine checkout UpdateDemo.tag); [|reflexivity|].
  - split; [|split; [|done]]; repeat constructor; by vm_compute.
  - right. split; reflexivity.
Defined.
