(* ===== verification/Commands.v ===== *)
(** * Commands of one question ([cli/src/commands/*.rs])

    How a command asks the daemon ([client.rs]), what it asks and what it makes of
    the answer.  A line printed is a [message]; what the socket gives is an
    argument. *)

From S2P Require Import Prelude External Proto Net.

Local Abbreviation list := Datatypes.list.

(** ** The socket ([client.rs]) *)

(** The process asking: [ask] is what the n-th exchange with the daemon comes to. *)
Record Terminal := {
  windows : bool;
  elevated : bool;                                    (* always false off Windows *)
  ask : nat -> Request -> result message Response;
}.

Inductive sent :=
  | Relaunches                                        (* never returns *)
  | Answered (r : result message Response).

Definition send (t : Terminal) (req : Request) : sent :=
  match ask t 0 req with
  | Ok (RUnauthorized m) => if windows t && negb (elevated t) then Relaunches else Answered (Err m)
  | r => Answered r
  end.

Definition ELEVATION_NOTE (windows : bool) : rstr :=
  if windows then
    lit "
(file transfers are never retried elevated: the file would then belong to Administrators instead of you)"
  else [].

(** [send_as_caller] and the answer of [open_transfer]: the n-th exchange. *)
Definition send_as_caller (t : Terminal) (n : nat) (req : Request) : result message Response :=
  match ask t n req with
  | Ok (RUnauthorized m) => Err (Fmt "{message}{}" [m; Text (ELEVATION_NOTE (windows t))])
  | r => r
  end.

(** ** What is made of the answer *)

(** What is printed, and how the command ends. *)
Definition report : Type := list message * result message ().

Definition says (l : list message) : report := (l, Ok tt).
Definition bails (m : message) : report := ([], Err m).
Definition unexpected : report := bails (Fmt "unexpected response" []).

Definition create_report (r : Response) : report :=
  match r with
  | ROk _ => says [Fmt "network created, you are the coordinator" []]
  | RError message => bails (Fmt "create failed: {message}" [message])
  | _ => unexpected
  end.

(** [described] is the window in words. *)
Definition invite_report (described : rstr) (r : Response) : report :=
  match r with
  | RInvite code expires_at =>
      says [Fmt "invite code: {code}" [Text code];
            Fmt "expires:     {} ({})" [Text described; num expires_at];
            Fmt "single use — redeeming it consumes it, whatever time is left" []]
  | RError message => bails (Fmt "invite failed: {message}" [message])
  | _ => unexpected
  end.

Definition reachable_at (hostname zone : rstr) : rstr :=
  if is_empty zone then [] else lit " (reachable at " ++ hostname ++ lit "." ++ zone ++ lit ")".

Definition join_report (r : Response) : report :=
  match r with
  | RJoined network_name hostname zone =>
      says (match network_name with
            | Some name => Fmt "joined network: {name}" [Text name]
            | None => Fmt "joined network" []
            end
            :: match hostname with
               | Some h => [Fmt "hostname: {hostname}{}" [Text h; Text (reachable_at h zone)]]
               | None => []
               end)
  | RError message => bails (Fmt "join failed: {message}" [message])
  | _ => unexpected
  end.

Definition leave_report (r : Response) : report :=
  match r with
  | RLeft network_name coordinator_notified =>
      says (match network_name with
            | Some name => Fmt "Sucessfully left {name}." [Text name]
            | None => Fmt "Not a member of any network!" []
            end
            :: if negb coordinator_notified
               then [Fmt "NOTE: The coordinator could not be reached, so it may still list you." []] else [])
  | RError message => bails (Fmt "Leave failed: {message}" [message])
  | _ => bails (Fmt "Unexpected response." [])
  end.

Definition kick_report (r : Response) : report :=
  match r with
  | RKicked name id notified =>
      says (Fmt "kicked {name} ({id})" [Text name; Text id]
            :: if negb notified then
                 [Fmt "NOTE: {name} could not be reached, so it still thinks it is in the network. Members refuse its links once they have the new roster." [Text name]]
               else [])
  | RError message => bails (Fmt "kick failed: {message}" [message])
  | _ => unexpected
  end.

(** [to_lowercase] is Unicode's. *)
Definition hostname_report (to_lowercase : rstr -> rstr) (requested : rstr) (r : Response) : report :=
  match r with
  | RHostnameSet hostname _ =>
      says (Fmt "hostname set to {hostname}" [Text hostname]
            :: (if negb (str_eqb hostname (to_lowercase requested))
                then [Fmt "({requested} was taken, so a suffix was added)" [Text requested]] else [])
            ++ [Fmt "run `quix status` to see the full name it resolves under" []])
  | RError message => bails (Fmt "hostname failed: {message}" [message])
  | _ => unexpected
  end.

Definition ping_report (r : Response) : report :=
  match r with
  | RPong v6 v4 rtt_ms =>
      says [match rtt_ms with
            | Some rtt => Fmt "{v6}  linked  rtt {rtt:.1}ms" [Text v6; num rtt]
            | None => Fmt "{v6}  linked" [Text v6]
            end;
            Fmt "{v4}  (IPv4 compatibility)" [Text v4]]
  | RError message => bails (Fmt "ping failed: {message}" [message])
  | _ => unexpected
  end.

Definition operator_report (r : Response) : report :=
  match r with
  | ROperatorSet user uid => says [Fmt "operator set to {user} (uid {uid})" [Text user; num uid]]
  | RError message => bails (Fmt "set-operator failed: {message}" [message])
  | _ => unexpected
  end.

(** ** [quix status] *)

Definition MTU : Z := 1280.
Definition INDENT : rstr := lit "               ".

(** [print_peer]'s lines; [●] and [○] are the marks of a link. *)
Definition print_peer (zone : rstr) (verbose : bool) (p : PeerStatus) : list message :=
  let mark := if ps_linked p then [9679%N] else [9675%N] in
  let unnamed := if ps_named p then [] else lit "  (no hostname set)" in
  [Fmt "  {mark} {}.{zone}{unnamed}" [Text mark; Text (ps_name p); Text zone; Text unnamed];
   Fmt "    {:<16} {}" [Text (ps_v4 p); Text (ps_id p)];
   Fmt "    {}" [Text (ps_v6 p)]]
  ++ match ps_datagram_max p with
     | Some max =>
         if max <? MTU then [Fmt "    datagram {max} — under the {MTU} MTU, large packets drop" [num max; num MTU]]
         else if verbose then [Fmt "    datagram {max}" [num max]]
         else []
     | None => []
     end.

Definition dns_line (d : DnsRegistration) : option message :=
  match d with
  | Registered => None
  | Retrying fallback =>
      Some (Fmt "DNS ---------  not registered with the system resolver yet, retrying — names resolve only via {fallback} meanwhile" [Text fallback])
  | Unavailable fallback remedy =>
      Some (Fmt "{}{}{}"
        [Fmt "DNS ---------  .{ZONE} names do not resolve system-wide" [Text ZONE];
         match remedy with
         | Some remedy => Fmt "\n{INDENT}{remedy}" [Text INDENT; Text remedy]
         | None => Fmt "\n{INDENT}the daemon log says why" [Text INDENT]
         end;
         match fallback with
         | Some fallback => Fmt "\n{INDENT}until then they resolve only by asking {fallback} directly" [Text INDENT; Text fallback]
         | None => Text []
         end])
  | Unknown =>
      Some (Fmt "DNS ---------  this daemon does not report whether .{ZONE} names resolve system-wide\n{INDENT}it predates the check — `quix update` to find out" [Text ZONE; Text INDENT])
  end.

(** Each cause of a lost packet with its counter, in the order a packet meets them. *)
Definition drops (t : Traffic) : list (rstr * Z) :=
  [(lit "not a member", no_route t); (lit "no link", no_link t); (lit "too big", oversize t); (lit "send failed", send_err t);
   (lit "tun write failed", tun_tx_err t)].

Definition print_traffic (t : Traffic) : list message :=
  let dropped := filter (fun '(_, n) => 0 < n) (drops t) in
  [Fmt "\noutbound  tun read {}  ->  sent {}" [num (tun_rx t); num (mesh_tx t)];
   Fmt "inbound   received {}  ->  tun write {}" [num (mesh_rx t); num (tun_tx t)]]
  ++ match dropped with
     | [] => []
     | _ => [Fmt "dropped   {}" ((fun '(label, n) => Fmt "{label} {n}" [Text label; num n]) <$> dropped)]
     end.

Definition status_report (verbose : bool) (r : Response) : report :=
  match r with
  | RStatus endpoint_id name named v6 v4 network coordinator peers zone traffic conflicts dns =>
      let role := if coordinator then lit "coordinator" else lit "member" in
      let unnamed := if named then [] else lit "  (no hostname set)" in
      says
        ([match network with
          | Some name => Fmt "Network - {name}  ({role})" [Text name; Text role]
          | None => Fmt "Network - none. Run `quix create <name>` or `quix join <code>`" []
          end;
          Fmt "Hostname ----  {name}.{zone}{unnamed}" [Text name; Text zone; Text unnamed];
          Fmt "IPv4 --------  {v4}" [Text v4];
          Fmt "IPv6 --------  {v6}" [Text v6];
          Fmt "ID ----------  {endpoint_id}" [Text endpoint_id]]
         ++ option_list (dns_line dns)
         ++ match peers with
            | [] => [Fmt "\nNo peers yet!" []]
            | _ => Fmt "\npeers  {linked}/{} linked"
                     [num (Z.of_nat (length (filter (fun p => ps_linked p = true) peers))); num (Z.of_nat (length peers))]
                   :: mjoin (print_peer zone verbose <$> peers)
            end
         ++ match conflicts with
            | [] => []
            | _ => Fmt "\nName conflicts!" [] :: ((fun c => Fmt "  {conflict}" [c]) <$> conflicts)
            end
         ++ if verbose then print_traffic traffic else [])
  | RError message => bails (Fmt "status failed: {message}" [message])
  | _ => unexpected
  end.

(** ** Properties *)

(** [quix status] hides nothing that needs somebody's attention, verbose or not:
    every peer, with its address and key, and whether it is linked; a link too
    narrow for full packets; every name conflict; and that names do not resolve,
    with where they still do and what to do about it.  Only what is fine is left
    out, and the counters of lost packets are those above zero. *)
Theorem status_hides_nothing verbose endpoint_id name named v6 v4 network coordinator peers zone traffic conflicts dns :
  let '(lines, res) := status_report verbose (RStatus endpoint_id name named v6 v4 network coordinator peers zone traffic conflicts dns) in
  res = Ok ()
  /\ (forall p, p ∈ peers -> exists unnamed,
        Fmt "  {mark} {}.{zone}{unnamed}" [Text (if ps_linked p then [9679%N] else [9675%N]); Text (ps_name p); Text zone; Text unnamed] ∈ lines
        /\ Fmt "    {:<16} {}" [Text (ps_v4 p); Text (ps_id p)] ∈ lines
        /\ (forall max, ps_datagram_max p = Some max -> max < MTU ->
              Fmt "    datagram {max} — under the {MTU} MTU, large packets drop" [num max; num MTU] ∈ lines))
  /\ (forall c, c ∈ conflicts -> Fmt "  {conflict}" [c] ∈ lines)
  /\ (forall l, dns_line dns = Some l -> l ∈ lines) /\ (dns_line dns = None <-> dns = Registered)
  /\ (verbose = true -> forall label n, (label, n) ∈ drops traffic -> 0 < n ->
        exists all, Fmt "dropped   {}" all ∈ lines /\ Fmt "{label} {n}" [Text label; num n] ∈ all).
Proof.
  unfold status_report, says. split; [done|]. split_and!.
  - intros p Hp. exists (if ps_named p then [] else lit "  (no hostname set)").
    assert (Hin : forall l, l ∈ print_peer zone verbose p -> l ∈ match peers with
        | [] => [Fmt "\nNo peers yet!" []]
        | _ => Fmt "\npeers  {linked}/{} linked"
                 [num (Z.of_nat (length (filter (fun p => ps_linked p = true) peers))); num (Z.of_nat (length peers))]
               :: mjoin (print_peer zone verbose <$> peers) end).
    { intros l Hl. destruct peers as [|q ps]; [by apply elem_of_nil in Hp|]. apply elem_of_cons. right.
      apply list_elem_of_join. exists (print_peer zone verbose p). split; [done|]. apply list_elem_of_fmap. by exists p. }
    assert (Hall : forall (l : message) a b c, l ∈ b -> l ∈ a ++ b ++ c) by (intros l a b c Hl; rewrite !elem_of_app; auto).
    split_and!; [..|intros max Hm Hlt]; rewrite (app_assoc _ (option_list _)); apply Hall, Hin; unfold print_peer.
    + apply elem_of_app. left. constructor.
    + apply elem_of_app. left. constructor. constructor.
    + apply elem_of_app. right. rewrite Hm, (proj2 (Z.ltb_lt _ _)) by done. constructor.
  - intros c Hc. rewrite !elem_of_app. right; right; right; left. destruct conflicts; [by apply elem_of_nil in Hc|].
    apply elem_of_cons. right. apply list_elem_of_fmap. by exists c.
  - intros l Hl. rewrite !elem_of_app. right; left. rewrite Hl. constructor.
  - by destruct dns.
  - intros -> label n Hn Hpos. unfold print_traffic.
    assert (Hf : (label, n) ∈ filter (fun '(_, n) => 0 < n) (drops traffic)) by (apply list_elem_of_filter; done).
    destruct (filter _ (drops traffic)) as [|d ds]; [by apply elem_of_nil in Hf|].
    eexists. split; [rewrite !elem_of_app; right; right; right; right; right; apply elem_of_cons; by left|].
    apply list_elem_of_fmap. by exists (label, n).
Qed.
