(* ===== verification/Client.v ===== *)
(** * A command and the daemon over the socket ([cli/src/commands/client.rs] and [handle] of [daemon/src/ipc.rs])

    Requests and responses are lines of JSON.  What the two ends need of the
    serialisation is an interface; both ends over it; and that asking over the
    socket is no different from handing the request to the daemon's dispatcher. *)

From S2P Require Import Prelude External Proto Names Net Membership MembershipProps Node NodeProps Admin Authz Ipc IpcProps Commands.

Local Abbreviation list := Datatypes.list.

Definition NEWLINE : char := 10%N.

(** [serde_json] for one type: a value that can be written is written on one line
    without white space around it, and read back as itself.  (It escapes control
    characters, and starts and ends with a brace or a quotation mark.) *)
Class Json (A : Type) := {
  to_json : A -> result message rstr;
  from_json : rstr -> result message A;
  json_roundtrip a s : to_json a = Ok s -> from_json s = Ok a;
  json_line a s : to_json a = Ok s -> NEWLINE ∉ s /\ trim s = s;
}.

(** [read_line] of what the other end has sent and will send until it closes. *)
Definition read_line (stream : rstr) : rstr :=
  match split_once NEWLINE stream with Some (line, _) => line ++ [NEWLINE] | None => stream end.
Definition after_line (stream : rstr) : rstr := match split_once NEWLINE stream with Some (_, rest) => rest | None => [] end.

(** ** The command's end *)

(** What the socket comes to: its name, connecting, writing a line, and reading
    one of what comes back. *)
Record Socket := {
  named : result message ();
  connected : result message ();
  writes : rstr -> result message ();
  answer : rstr -> result message rstr;
}.

Definition connect (s : Socket) : result message () :=
  _ ← named s;
  map_err (context (Fmt "is quixd running?" [])) (connected s).

Section Ends.
Context `{!Json Request, !Json Response}.

(** A request goes out as a line and a line comes back. *)
Definition exchange (s : Socket) (req : Request) : result message rstr :=
  _ ← connect s;
  text ← to_json req;
  let payload := text ++ [NEWLINE] in
  _ ← writes s payload;
  answer s payload.

Definition ask (s : Socket) (req : Request) : result message Response :=
  line ← exchange s req;
  from_json (trim line).

Definition open_transfer (windows : bool) (s : Socket) (req : Request) : result message Response :=
  line ← exchange s req;
  if is_empty line then Err (Fmt "the daemon closed the connection without answering" [])
  else
    response ← from_json (trim line);
    match response with
    | RUnauthorized message => Err (Fmt "{message}{}" [message; Text (ELEVATION_NOTE windows)])
    | response => Ok response
    end.

(** ** The daemon's end *)

Context `{!EndpointIds, !Sha256, !HexCrate, !Bs58} {Link : Type}.
Implicit Types n : Node.State (Link := Link).

(** [respond]: the line, when it can be made. *)
Definition respond (r : Response) : rstr := match to_json r with Ok text => text ++ [NEWLINE] | Err _ => [] end.

(** One connection that is no transfer: the daemon afterwards, what it wrote back,
    and the pushes left. *)
Definition serves o n caller (stream : rstr) : Node.State (Link := Link) * rstr * list push :=
  match handle from_json o n (read_line stream) caller (negb (is_empty (after_line stream))) with
  | (n, Replied r pushes) => (n, respond r, pushes)
  | (n, _) => (n, [], [])
  end.

(** A command asking this daemon over a socket that works. *)
Definition to_daemon o n caller : Socket :=
  {| named := Ok tt; connected := Ok tt; writes := fun _ => Ok tt;
     answer := fun sent => let '(_, back, _) := serves o n caller sent in Ok (read_line back) |}.

(** ** Lines *)

Lemma split_once_line s rest : NEWLINE ∉ s -> split_once NEWLINE (s ++ NEWLINE :: rest) = Some (s, rest).
Proof.
  induction s as [|c s IH]; cbn; [by rewrite N.eqb_refl|]. rewrite not_elem_of_cons. intros [Hc Hs].
  destruct (N.eqb_spec c NEWLINE) as [->|_]; [done|]. by rewrite IH.
Qed.

Lemma split_once_no_line s : NEWLINE ∉ s -> split_once NEWLINE s = None.
Proof.
  induction s as [|c s IH]; cbn; [done|]. rewrite not_elem_of_cons. intros [Hc Hs].
  destruct (N.eqb_spec c NEWLINE) as [->|_]; [done|]. by rewrite IH.
Qed.

Lemma json_no_newline {A} `{!Json A} (a : A) s : to_json a = Ok s -> NEWLINE ∉ s.
Proof. intros Ha. by apply json_line in Ha as [Hs _]. Qed.

Lemma trim_newline s : trim s = s -> trim (s ++ [NEWLINE]) = s.
Proof.
  intros Hs. unfold trim, trim_matches, trim_start_matches in *.
  destruct (drop_while_suffix is_whitespace (s ++ [NEWLINE])) as (pre & Hp & _).
  destruct s as [|c s]; [by vm_compute|].
  assert (Hc : is_whitespace c = false).
  { destruct (is_whitespace c) eqn:E; [|done]. exfalso. apply (f_equal length) in Hs. cbn [drop_while] in Hs. rewrite E in Hs.
    pose proof (length_trim_end is_whitespace (drop_while is_whitespace s)).
    destruct (drop_while_suffix is_whitespace s) as (p & Hp' & _). apply (f_equal length) in Hp'. rewrite length_app in Hp'. cbn in Hs. lia. }
  cbn [app drop_while] in *. rewrite Hc in *. unfold trim_end_matches in *. change (c :: s ++ [NEWLINE]) with ((c :: s) ++ [NEWLINE]).
  rewrite rev_app_distr. cbn [rev app drop_while]. change (is_whitespace NEWLINE) with true. cbn iota. exact Hs.
Qed.

(** A value that was written is read back from its line, whatever follows it. *)
Lemma line_reads_back {A} `{!Json A} (a : A) s rest : to_json a = Ok s ->
  read_line (s ++ NEWLINE :: rest) = s ++ [NEWLINE] /\ after_line (s ++ NEWLINE :: rest) = rest
  /\ from_json (trim (s ++ [NEWLINE])) = Ok a.
Proof.
  intros Ha. unfold read_line, after_line. rewrite split_once_line by (by eapply json_no_newline). split; [done|]. split; [done|].
  rewrite trim_newline by (by apply (json_line a)). by apply json_roundtrip.
Qed.

(** ** Properties *)

(** C25: asking the daemon over the socket comes to exactly what its dispatcher says to
    that very request, or to the refusal of its caller: nothing is lost, changed or
    made up on the way, and what the daemon then is, and whom it has pushes for, is
    what handling that request leaves; provided both can be written as JSON. *)
Theorem the_socket_changes_nothing o n caller req text : is_transfer req = false -> to_json req = Ok text ->
  let '(n', resp, pushes) :=
    match check (Ipc.windows o) (users o) req caller (operator n) with
    | Ok _ => dispatch o n req
    | Err m => (n, RUnauthorized m, [])
    end in
  serves o n caller (text ++ [NEWLINE]) = (n', respond resp, pushes)
  /\ (forall back, to_json resp = Ok back -> ask (to_daemon o n caller) req = Ok resp)
  /\ (forall m, resp = RUnauthorized m -> n' = n /\ is_read_only req = false).
Proof.
  intros Ht Hq. destruct (line_reads_back req text [] Hq) as (Hl & Hr & Hf).
  assert (Hs : serves o n caller (text ++ [NEWLINE]) =
    let '(n', resp, pushes) := match check (Ipc.windows o) (users o) req caller (operator n) with
      | Ok _ => dispatch o n req | Err m => (n, RUnauthorized m, []) end in (n', respond resp, pushes)).
  { unfold serves, handle. rewrite Hl, Hr, Hf. destruct (check _ _ _ _ _); [|done]. rewrite Ht. by destruct (dispatch o n req) as [[n1 r] p]. }
  destruct (match check _ _ req caller _ with Ok _ => _ | Err _ => _ end) as [[n' resp] pushes] eqn:E.
  split; [exact Hs|]. split.
  - intros back Hb. unfold ask, exchange, connect. cbn [named connected to_daemon map_err mbind result_bind]. rewrite Hq.
    cbn [mbind result_bind writes answer to_daemon]. rewrite Hs. unfold respond. rewrite Hb.
    destruct (line_reads_back resp back [] Hb) as (Hlb & _ & Hfb). cbn [mbind result_bind]. by rewrite Hlb.
  - intros m ->. destruct (check _ _ req caller _) eqn:Ec; [by pose proof (dispatch_authorized o n req m) as Hd; rewrite E in Hd|].
    injection E as <- _ <-. split; [done|]. unfold check in Ec. by destruct (is_read_only req).
Qed.

(** a refused transfer says why and that it is never run elevated, and refusing it
    changed nothing; one that gets no line at all is told so. *)
Theorem refused_transfers_are_explained windows o n caller req text : to_json req = Ok text ->
  (forall m back, to_json (RUnauthorized m) = Ok back -> check (Ipc.windows o) (users o) req caller (operator n) = Err m ->
     open_transfer windows (to_daemon o n caller) req = Err (Fmt "{message}{}" [m; Text (ELEVATION_NOTE windows)])
     /\ fst (fst (serves o n caller (text ++ [NEWLINE]))) = n)
  /\ (forall s, connect s = Ok () -> writes s (text ++ [NEWLINE]) = Ok () -> answer s (text ++ [NEWLINE]) = Ok [] ->
     open_transfer windows s req = Err (Fmt "the daemon closed the connection without answering" []))
  /\ (forall s e, named s = Ok () -> connected s = Err e -> open_transfer windows s req = Err (context (Fmt "is quixd running?" []) e)).
Proof.
  intros Hq. destruct (line_reads_back req text [] Hq) as (Hl & Hr & Hf). split; [|split].
  - intros m back Hb Hc. assert (Hs : serves o n caller (text ++ [NEWLINE]) = (n, back ++ [NEWLINE], [])).
    { unfold serves, handle, respond. rewrite Hl, Hf, Hc. by rewrite Hb. }
    split; [|by rewrite Hs]. unfold open_transfer, exchange, connect.
    cbn [named connected to_daemon map_err mbind result_bind]. rewrite Hq. cbn [mbind result_bind writes answer to_daemon]. rewrite Hs.
    destruct (line_reads_back _ back [] Hb) as (Hlb & _ & Hfb). cbn [mbind result_bind]. rewrite Hlb.
    replace (is_empty (back ++ [NEWLINE])) with false by (by destruct back). by rewrite Hfb.
  - intros s Hc Hw Ha. unfold open_transfer, exchange. rewrite Hc, Hq. cbn [mbind result_bind]. by rewrite Hw, Ha.
  - intros s e Hn Hc. unfold open_transfer, exchange, connect. by rewrite Hn, Hc.
Qed.
End Ends.

(** ** Leaving a network *)

Import Concrete.

Module ClientDemo.
(** Enough of JSON for one request and its answer. *)
Definition request_out (r : Request) : result message rstr :=
  match r with Proto.Leave => Ok (lit "leave") | _ => Err (Fmt "" []) end.

#[export, refine] Instance request_json : Json Request := {| to_json := request_out; from_json _ := Ok Proto.Leave |}.
Proof.
  - intros [] s; cbn; congruence.
  - intros [] s; cbn; try congruence. intros [= <-]. split; [apply (bool_decide_eq_true_1 _); by vm_compute|by vm_compute].
Defined.

Definition flag (b : bool) : char := if b then 121%N else 110%N.
Definition response_out (r : Response) : result message rstr :=
  match r with
  | RLeft (Some name) b => if forallb label_char name then Ok (flag b :: name) else Err (Fmt "" [])
  | _ => Err (Fmt "" [])
  end.
Definition response_in (s : rstr) : result message Response :=
  match s with c :: name => Ok (RLeft (Some name) (c =? 121)%N) | [] => Err (Fmt "" []) end.

Lemma response_out_ok r s : response_out r = Ok s -> exists name b, r = RLeft (Some name) b /\ s = flag b :: name /\ forallb label_char name = true.
Proof.
  destruct r as [| | | | |[name|] b| | | | | | | | |]; cbn; try congruence.
  destruct (forallb label_char name) eqn:E; [|congruence]. intros [= <-]. by exists name, b.
Qed.

#[export, refine] Instance response_json : Json Response := {| to_json := response_out; from_json := response_in |}.
Proof.
  - intros r s (name & b & -> & -> & _)%response_out_ok. by destruct b.
  - intros r s (name & b & -> & -> & E)%response_out_ok. assert (Hw : Forall (fun c => is_whitespace c = false) (flag b :: name)).
    { constructor; [by destruct b|]. apply Forall_forall. intros c Hc. rewrite forallb_forall in E. apply label_char_not_ws, E. by apply list_elem_of_In. }
    split; [|by apply trim_id]. intros Hin. rewrite Forall_forall in Hw. by discriminate (Hw _ Hin).
Defined.
End ClientDemo.
Import ClientDemo.

Example the_socket_changes_nothing_witness :
  ask (to_daemon IpcDemo.alone NodeDemo.linked (Uid 0)) Proto.Leave = Ok (RLeft (Some (lit "home")) false).
Proof.
  pose proof (the_socket_changes_nothing IpcDemo.alone NodeDemo.linked (Uid 0) Proto.Leave (lit "leave") eq_refl eq_refl) as Hs.
  assert (Hr : exists resp, resp = RLeft (Some (lit "home")) false /\ snd (fst (match check (Ipc.windows IpcDemo.alone) (users IpcDemo.alone) Proto.Leave (Uid 0)
    (operator NodeDemo.linked) with Ok _ => dispatch IpcDemo.alone NodeDemo.linked Proto.Leave | Err m => (NodeDemo.linked, RUnauthorized m, []) end)) = resp).
  { eexists. split; [reflexivity|]. vm_compute. reflexivity. }
  destruct (match check _ _ _ _ _ with Ok _ => _ | Err _ => _ end) as [[n' resp] pushes]. cbn [fst snd] in Hr.
  destruct Hr as (r & Hr & ->). destruct Hs as (_ & Ha & _). rewrite Hr in Ha. exact (Ha (lit "nhome") eq_refl).
Defined.
