(* ===== verification/FileCommands.v ===== *)
(** * [quix file] ([cli/src/commands/file/send.rs], [receive.rs], [list.rs], [mod.rs])

    The commands around what [CliFile] does with the bytes: what is printed, what
    a person is asked, and how the command ends.  The daemon's frames, Ctrl+C and
    the person's answers are arguments. *)

From S2P Require Import Prelude External Proto Names Net Filename Utf8 Frame Peers Files Transfer TransferProps Expiry CliFile CliFileProps Format Commands.

Local Abbreviation list := Datatypes.list.

(** ** How a command ends ([mod.rs], [main.rs]) *)

Inductive failure :=
  | Plain (m : message)
  | Ended (code : Z) (m : message).

Definition REJECTED : Z := 3.
Definition EXPIRED : Z := 4.
Definition CANCELLED : Z := 130.

(** [main]: what the process exits with, and the line on stderr. *)
Definition exit_code (r : result failure ()) : Z :=
  match r with Ok _ => 0 | Err (Ended code _) => code | Err (Plain _) => 1 end.
Definition last_words (r : result failure ()) : option message :=
  match r with Ok _ => None | Err (Ended _ m) => Some m | Err (Plain m) => Some (Fmt "Error: {error:?}" [m]) end.

Definition plain {A} (r : result message A) : result failure A := map_err Plain r.

(** What the daemon says: [None] once it is gone. *)
Definition heard : Type := option Frame.

(** A wait that Ctrl+C races: [None] where it won. *)
Definition wait (A : Type) : Type := option A.

Section FileCommands.
Context `{!Blake3}.
(** [Frame::parse::<FileEvent>]: [serde_json]'s. *)
Variable parse_event : list Z -> result message FileEvent.
Variable render : message -> rstr.

(** ** Sending *)

(** What happens after the offer was made: the answer, what streaming the file
    came to, what the daemon said when the stream broke, and its last word. *)
Record Sending := {
  answer : wait heard;
  streamed : wait verdict;
  why_broken : heard;
  outcome : wait heard;
}.

(** [broken_off]. *)
Definition broken_off (h : heard) : message :=
  match h with
  | Some (Error message) => Fmt "send failed: {message}" [Text message]
  | _ => Fmt "send failed: the daemon stopped the transfer" []
  end.

(** What [stream] returns. *)
Definition stream_result (name : rstr) (v : verdict) (why : heard) : result message () :=
  match v with
  | Sent => Ok tt
  | ReadFailed e => Err (Fmt "reading {name} failed: {e}" [Text name; Text e])
  | Grew => Err (Fmt "the file grew while it was being sent" [])
  | Shrank => Err (Fmt "the file shrank while it was being sent" [])
  | BrokenOff => Err (broken_off why)
  end.

(** The answer to the offer. *)
Definition judge_answer (to name : rstr) (h : heard) : result failure () :=
  match h with
  | Some (Control json) =>
      event ← plain (parse_event json);
      match event with
      | Accepted => Ok tt
      | Rejected => Err (Ended REJECTED (Fmt "{to} rejected {name}" [Text to; Text name]))
      | Expired => Err (Ended EXPIRED (Fmt "{to} did not answer in time; the offer expired" [Text to]))
      | Delivered => Err (Plain (Fmt "the daemon reported a delivery before any transfer" []))
      end
  | Some (Error message) => Err (Plain (Fmt "send failed: {message}" [Text message]))
  | Some _ => Err (Plain (Fmt "unexpected message from the daemon" []))
  | None => Err (Plain (Fmt "the daemon went away" []))
  end.

(** The daemon's last word. *)
Definition judge_outcome (to : rstr) (h : heard) : result failure () :=
  match h with
  | Some (Control json) =>
      event ← plain (parse_event json);
      if bool_decide (event = Delivered) then Ok tt else Err (Plain (Fmt "unexpected message from the daemon" []))
  | Some (Error message) => Err (Plain (Fmt "send failed: {message}" [Text message]))
  | Some _ => Err (Plain (Fmt "unexpected message from the daemon" []))
  | None => Err (Plain (Fmt "the daemon went away before {to} confirmed the file arrived" [Text to]))
  end.

Definition cancelled (m : String.string) : failure := Ended CANCELLED (Fmt m []).

(** [run], from the offer on: [countdown] is whether the time left counts down on
    the terminal. *)
Definition offered (to name : rstr) (size expires_in_secs : Z) (countdown : bool) (s : Sending) : list message * result failure () :=
  let expiry := if countdown then Text [] else Fmt ", expires in {}" [Text (duration expires_in_secs)] in
  let waiting := Fmt "Waiting for {to} to accept {name} ({}){expiry}... press Ctrl+C to cancel"
                   [Text to; Text name; Text (Format.size size); expiry] in
  match answer s with
  | None => ([waiting], Err (cancelled "cancelled; the offer was withdrawn"))
  | Some h =>
      match judge_answer to name h with
      | Err e => ([waiting], Err e)
      | Ok _ =>
          let printed := [waiting; Fmt "{to} accepted, sending..." [Text to]] in
          match streamed s with
          | None => (printed, Err (cancelled "cancelled; the transfer was abandoned"))
          | Some v =>
              match stream_result name v (why_broken s) with
              | Err e => (printed, Err (Plain e))
              | Ok _ =>
                  match outcome s with
                  | None => (printed, Err (cancelled "stopped waiting; whether the file arrived is unknown"))
                  | Some h =>
                      match judge_outcome to h with
                      | Err e => (printed, Err e)
                      | Ok _ => (printed ++ [Fmt "Delivered {name} to {to}" [Text name; Text to]], Ok tt)
                      end
                  end
              end
          end
      end
  end.

(** [send::run]: [opened] is what [open_transfer] came to, given the request. *)
Definition send_run (expires : option (rstr * rstr)) (prepared : result message Prepared) (host : rstr)
    (opened : Request -> result message Response) (countdown : bool) (s : Sending) : list message * result failure () :=
  match
    ttl_secs ← file_ttl_secs expires;
    p ← prepared;
    response ← opened (FileSend (p_name p) (p_size p) host ttl_secs);
    match response with
    | RFileOffered _ to expires_in_secs => Ok (p, to, expires_in_secs)
    | RError message => Err (Fmt "send failed: {message}" [message])
    | _ => Err (Fmt "unexpected response" [])
    end
  with
  | Err e => ([], Err (Plain e))
  | Ok (p, to, expires_in_secs) => offered to (p_name p) (p_size p) expires_in_secs countdown s
  end.

(** ** Receiving *)

(** [receive::reject] and [receive::offers]. *)
Definition reject_result (r : result message Response) : result message (rstr * rstr) :=
  response ← r;
  match response with
  | RFileRejected _ name from => Ok (name, from)
  | RError message => Err (Fmt "reject failed: {message}" [message])
  | _ => Err (Fmt "unexpected response" [])
  end.
Definition offers_result (r : result message Response) : result message (list IncomingOffer * list OutgoingOffer) :=
  response ← r;
  match response with
  | RFiles incoming outgoing => Ok (incoming, outgoing)
  | RError message => Err (Fmt "list failed: {message}" [message])
  | _ => Err (Fmt "unexpected response" [])
  end.

(** When Ctrl+C came: not at all, while frames were still coming, or while the last
    frame, the commitment or a refusal, was on its way out. *)
Inductive interruption := Uninterrupted | MidTransfer | AtTheLastWrite.

(** What accepting meets, in the directory it saves into: [part] is creating the
    part file, [space] the free space, [frames] what comes after the answer. *)
Record Place := {
  platform : Platform;
  part : result message ();
  space : Z -> result message ();
  disk : Disk;
  before : Dir;
  frames : list Frame;
  interrupted : interruption;
  took : Z;
}.

(** What accepting did: what it asked the daemon, in order, what it printed, the
    frames it wrote, the directory after it, and where the file landed. *)
Record Accepting := {
  a_asked : list Request;
  a_printed : list message;
  a_wrote : list Frame;
  a_dir : Dir;
  a_saved : result failure rstr;
}.

(** [receive::accept]: [ask] is the n-th exchange with the daemon. *)
Definition accept (ask : nat -> Request -> result message Response) (w : Place) (id : rstr) : Accepting :=
  let over asked wrote e := {| a_asked := asked; a_printed := []; a_wrote := wrote; a_dir := before w; a_saved := Err (Plain e) |} in
  match part w with
  | Err e => over [] [] e
  | Ok _ =>
      match
        offers ← offers_result (ask 0%nat FileList);
        let listed := List.find (fun offer => str_eqb (in_id offer) id) (fst offers) in
        match listed with
        | Some offer => _ ← check_name (in_name offer) (platform w); _ ← space w (in_size offer); Ok listed
        | None => Ok listed
        end
      with
      | Err e => over [FileList] [] e
      | Ok listed =>
          let asked := [FileList; FileAccept id] in
          match
            response ← ask 1%nat (FileAccept id);
            match response with
            | RFileIncoming _ from name size => Ok (name, size, from)
            | RError message => Err (Fmt "accept failed: {message}" [message])
            | _ => Err (Fmt "unexpected response" [])
            end
          with
          | Err e => over asked [] e
          | Ok (name, size, from) =>
              match
                _ ← check_name name (platform w);
                match listed with Some _ => Ok tt | None => space w size end
              with
              | Err refusal => over asked [Error (render refusal)] refusal
              | Ok _ =>
                  let receiving := Fmt "receiving {name} ({}) from {from}..." [Text name; Text (Format.size size); Text from] in
                  let r := receive render (disk w) (before w) name size (frames w) in
                  let stopped := Err (cancelled "cancelled; nothing was saved") in
                  match interrupted w with
                  | MidTransfer =>
                      {| a_asked := asked; a_printed := [receiving]; a_wrote := []; a_dir := before w; a_saved := stopped |}
                  | AtTheLastWrite =>
                      {| a_asked := asked; a_printed := [receiving]; a_wrote := []; a_dir := r_dir r; a_saved := stopped |}
                  | Uninterrupted =>
                      {| a_asked := asked;
                         a_printed := receiving :: (if is_ok (r_saved r) then [Fmt "Downloaded {} in {}" [Text (Format.size size); Text (elapsed (took w))]] else []);
                         a_wrote := r_said r; a_dir := r_dir r; a_saved := plain (r_saved r) |}
                  end
              end
          end
      end
  end.

(** The same, with Ctrl+C just then. *)
Definition stopped_late (w : Place) : Place :=
  {| platform := platform w; part := part w; space := space w; disk := disk w; before := before w; frames := frames w;
     interrupted := AtTheLastWrite; took := took w |}.

(** [run_accept] and [run_reject]. *)
Definition run_accept (dest : result message Destination) (accept : rstr -> list message * result failure rstr)
    : list message * result failure () :=
  match dest with
  | Err e => ([], Err (Plain e))
  | Ok dest =>
      let '(printed, saved) := accept (dest_dir dest) in
      let printed := option_list (dest_note dest) ++ printed in
      match saved with
      | Ok saved => (printed ++ [Fmt "saved {}" [Text saved]], Ok tt)
      | Err e => (printed, Err e)
      end
  end.
Definition run_reject (r : result message Response) : list message * result failure () :=
  match reject_result r with
  | Ok (name, from) => ([Fmt "rejected {name} from {from}" [Text name; Text from]], Ok tt)
  | Err e => ([], Err (Plain e))
  end.

(** ** The list *)

(** One round of the interactive list: the line picked, the answer, what accepting
    or rejecting came to, and the offers asked for again. *)
Record Round := {
  picked : result message (option nat);
  confirmed : result message (option bool);
  accepting : result failure rstr;
  rejecting : result message (rstr * rstr);
  refreshed : result message (list IncomingOffer);
}.

(** What a round did about an offer. *)
Inductive deed := Accepts (id : rstr) | Rejects (id : rstr).

(** [pick]. *)
Definition pick (incoming : list IncomingOffer) (r : Round) : result message (option IncomingOffer) :=
  match incoming with
  | [only] => Ok (Some only)
  | _ =>
      chosen ← picked r;
      Ok (i ← chosen; incoming !! i)
  end.

Inductive next := Again (incoming : list IncomingOffer) | Over (r : result failure ()).

Definition refresh (r : Round) : next := match refreshed r with Ok l => Again l | Err e => Over (Err (Plain e)) end.

(** One turn of the loop: what is printed, what is done, and how it goes on.
    [note] says where accepted files go, where that needs saying. *)
Definition round (note : option message) (incoming : list IncomingOffer) (r : Round) : list message * list deed * next :=
  match incoming with
  | [] => ([Fmt "No offers waiting." []], [], Over (Ok tt))
  | _ =>
      match pick incoming r with
      | Err e => ([], [], Over (Err (Plain e)))
      | Ok None => ([], [], Over (Ok tt))
      | Ok (Some offer) =>
          match confirmed r with
          | Err e => ([], [], Over (Err (Plain e)))
          | Ok (Some true) =>
              let '(said, then_) :=
                match accepting r with
                | Ok saved => ([Fmt "saved {}" [Text saved]], refresh r)
                | Err (Ended code m) => ([], Over (Err (Ended code m)))
                | Err (Plain e) => ([Fmt "{e:#}" [e]], refresh r)
                end in
              (option_list note ++ said, [Accepts (in_id offer)], then_)
          | Ok (Some false) =>
              ([match rejecting r with
                | Ok (name, from) => Fmt "rejected {name} from {from}" [Text name; Text from]
                | Err e => Fmt "{e:#}" [e]
                end], [Rejects (in_id offer)], refresh r)
          | Ok None => ([], [], if (length incoming =? 1)%nat then Over (Ok tt) else refresh r)
          end
      end
  end.

(** The loop, over the rounds that happen; [None] while the person is still at it. *)
Fixpoint list_loop (note : option message) (incoming : list IncomingOffer) (rounds : list Round)
    : list message * list deed * option (result failure ()) :=
  match rounds with
  | [] => ([], [], None)
  | r :: rounds =>
      match round note incoming r with
      | (said, deeds, Over res) => (said, deeds, Some res)
      | (said, deeds, Again incoming) =>
          let '(said', deeds', res) := list_loop note incoming rounds in (said ++ said', deeds ++ deeds', res)
      end
  end.

(** [str::lines] of a text that ends in a newline, and [replace('\t', "  ")]. *)
Definition lines (s : rstr) : list rstr := removelast (split_on 10%N s).
Definition spaced (s : rstr) : rstr := mjoin ((fun c => if (c =? 9)%N then lit "  " else [c]) <$> s).

(** [list::run]. *)
Definition list_run (dest : result message Destination) (offers : result message (list IncomingOffer * list OutgoingOffer))
    (interactive : bool) (rounds : list Round) : list message * list deed * option (result failure ()) :=
  match (d ← dest; o ← offers; Ok (d, o)) with
  | Err e => ([], [], Some (Err (Plain e)))
  | Ok (dest, (incoming, outgoing)) =>
      if negb interactive then
        (Text (incoming_table incoming)
           :: match outgoing with [] => [] | _ => [Text []; Text (outgoing_table outgoing)] end, [], Some (Ok tt))
      else
        let sent :=
          match outgoing with
          | [] => []
          | _ => Fmt "Sent:" [] :: ((fun line => Fmt "  {}" [Text (spaced line)]) <$> tail (lines (outgoing_table outgoing))) ++ [Text []]
          end in
        let '(said, deeds, res) := list_loop (dest_note dest) incoming rounds in (sent ++ said, deeds, res)
  end.

(** ** Properties *)

(** The daemon said [event]. *)
Definition says_event (event : FileEvent) (h : wait heard) : bool :=
  match h with
  | Some (Some (Control json)) => match parse_event json with Ok e => bool_decide (e = event) | Err _ => false end
  | _ => false
  end.

Definition codes (accepted rejected expired delivered : bool) (went_out stopped_waiting stopped_sending stopped_confirming : bool) (code : Z) : Prop :=
  (code = 0 <-> accepted = true /\ went_out = true /\ delivered = true)
  /\ (code = REJECTED <-> rejected = true)
  /\ (code = EXPIRED <-> expired = true)
  /\ (code = CANCELLED <-> stopped_waiting = true \/ (accepted = true /\ stopped_sending = true)
                          \/ (accepted = true /\ went_out = true /\ stopped_confirming = true))
  /\ (code = 0 \/ code = REJECTED \/ code = EXPIRED \/ code = CANCELLED \/ code = 1).

Definition went_out (w : wait verdict) : bool := match w with Some Sent => true | _ => false end.
Definition stopped {A} (w : wait A) : bool := match w with None => true | Some _ => false end.

Lemma judge_outcome_code to h :
  judge_outcome to h = Ok () /\ says_event Delivered (Some h) = true
  \/ (exists m, judge_outcome to h = Err (Plain m)) /\ says_event Delivered (Some h) = false.
Proof.
  unfold judge_outcome, plain. destruct h as [[data|hash| |json|m]|]; cbn; eauto.
  destruct (parse_event json) as [ev|e]; cbn; eauto. case_bool_decide; eauto.
Qed.

Lemma offered_codes to name size secs countdown s :
  codes (says_event Accepted (answer s)) (says_event Rejected (answer s)) (says_event Expired (answer s))
    (says_event Delivered (outcome s)) (went_out (streamed s)) (stopped (answer s)) (stopped (streamed s)) (stopped (outcome s))
    (exit_code (snd (offered to name size secs countdown s))).
Proof using parse_event.
  clear render.
  unfold codes, offered, REJECTED, EXPIRED, CANCELLED. cbv zeta. remember (says_event Delivered (outcome s)) as d eqn:Ed.
  destruct (answer s) as [[[data|hash| |json|m]|]|]; cbn; try (intuition (discriminate || lia)).
  destruct (parse_event json) as [[]|e]; cbn; try (intuition (discriminate || lia)).
  destruct (streamed s) as [[]|]; cbn; try (intuition (discriminate || lia)).
  destruct (outcome s) as [w|]; [|subst d; cbn; intuition (discriminate || lia)].
  destruct (judge_outcome_code to w) as [[-> Hd]|[[m ->] Hd]]; rewrite Hd in Ed; subst d; cbn; intuition (discriminate || lia).
Qed.

(** What a send whose exit code is 0 has been told. *)
Lemma exit_zero_told expires prepared host opened countdown s :
  exit_code (snd (send_run expires prepared host opened countdown s)) = 0 ->
  says_event Accepted (answer s) = true /\ streamed s = Some Sent /\ says_event Delivered (outcome s) = true.
Proof.
  unfold send_run. destruct (_ ← _; _) as [[[p to] secs]|e]; [|done].
  intros He. apply (proj1 (offered_codes to (p_name p) (p_size p) secs countdown s)) in He as (Ha & Hw & Hd).
  by destruct (streamed s) as [[]|].
Qed.

(** C31: the exit code of [quix file send] tells a script what happened.  Once the offer
    is made it is 0 exactly when the offer was accepted, the whole file went out
    and the daemon then said it was delivered; 3 exactly when it was rejected, 4
    exactly when it expired, 130 exactly when Ctrl+C came first, while waiting,
    while sending or while waiting for the confirmation; anything else is 1, and so
    is every refusal before the offer, with nothing printed. *)
Theorem exit_codes_tell_what_happened expires prepared host opened countdown s :
  let '(printed, res) := send_run expires prepared host opened countdown s in
  (printed = [] /\ exit_code res = 1)
  \/ (printed <> []
      /\ codes (says_event Accepted (answer s)) (says_event Rejected (answer s)) (says_event Expired (answer s))
           (says_event Delivered (outcome s)) (went_out (streamed s)) (stopped (answer s)) (stopped (streamed s)) (stopped (outcome s))
           (exit_code res)).
Proof.
  unfold send_run. destruct (_ ← _; _) as [[[p to] secs]|e]; [|by left].
  pose proof (offered_codes to (p_name p) (p_size p) secs countdown s) as Hc.
  destruct (offered _ _ _ _ _ _) as [printed res] eqn:Eo. right. split; [|exact Hc]. revert Eo.
  unfold offered. cbv zeta. by repeat case_match; intros [= <- <-].
Qed.

Lemma check_name_ok name platform : check_name name platform = Ok () <-> Filename.check name platform = Ok ().
Proof. unfold check_name. by destruct (Filename.check name platform) as [[]|]. Qed.

(** Accepting gets as far as writing only past every check. *)
Lemma accept_cases ask w id :
  (a_dir (accept ask w id) = before w /\ End_ ∉ a_wrote (accept ask w id) /\ is_ok (a_saved (accept ask w id)) = false)
  \/ exists i from name size,
       ask 1%nat (FileAccept id) = Ok (RFileIncoming i from name size) /\ Filename.check name (platform w) = Ok ()
       /\ let r := receive render (disk w) (before w) name size (frames w) in
          match interrupted w with
          | MidTransfer => a_dir (accept ask w id) = before w /\ a_wrote (accept ask w id) = []
          | AtTheLastWrite => a_dir (accept ask w id) = r_dir r /\ a_wrote (accept ask w id) = []
          | Uninterrupted => a_dir (accept ask w id) = r_dir r /\ a_wrote (accept ask w id) = r_said r
          end
          /\ a_saved (accept ask w id)
             = match interrupted w with Uninterrupted => plain (r_saved r) | _ => Err (cancelled "cancelled; nothing was saved") end.
Proof.
  unfold accept. cbv zeta. destruct (part w) as [[]|e]; [|left; split_and!; [done|apply not_elem_of_nil|done]].
  destruct (offers ← offers_result (ask 0%nat FileList); _) as [listed|e]; [|left; split_and!; [done|apply not_elem_of_nil|done]].
  destruct (ask 1%nat (FileAccept id)) as [[]|e] eqn:Ea; cbn [mbind result_bind]; try (left; split_and!; [done|apply not_elem_of_nil|done]).
  destruct (check_name name (platform w)) as [[]|e] eqn:Ec; cbn [mbind result_bind]; [|left; split_and!; [done|set_solver|done]].
  destruct (match listed with Some _ => Ok () | None => space w size end) as [[]|e]; [|left; split_and!; [done|set_solver|done]].
  right. exists id0, from, name, size. split; [done|]. split; [by apply check_name_ok|]. cbv zeta. by destruct (interrupted w).
Qed.

Lemma accept_asks ask w id : FileAccept id ∈ a_asked (accept ask w id) ->
  part w = Ok () /\ exists incoming outgoing, ask 0%nat FileList = Ok (RFiles incoming outgoing)
  /\ forall o, List.find (fun offer => str_eqb (in_id offer) id) incoming = Some o ->
       Filename.check (in_name o) (platform w) = Ok () /\ space w (in_size o) = Ok ().
Proof.
  unfold accept. cbv zeta. destruct (part w) as [[]|e]; [|by intros ?%elem_of_nil]. intros Hin. split; [done|]. revert Hin.
  unfold offers_result. destruct (ask 0%nat FileList) as [[]|e]; cbn [mbind result_bind fst]; try (by intros ?%list_elem_of_singleton).
  intros Hin. exists incoming, outgoing. split; [done|]. intros o Ho. rewrite Ho in Hin.
  destruct (check_name (in_name o) (platform w)) as [[]|e] eqn:Ec; cbn [mbind result_bind] in Hin; [|by apply list_elem_of_singleton in Hin].
  destruct (space w (in_size o)) as [[]|e]; [|by apply list_elem_of_singleton in Hin]. split; [by apply check_name_ok|done].
Qed.


(** "nothing was saved" is not always so: a Ctrl+C that comes while the commitment
    is being written is answered with it, and leaves the file in place with the
    daemon not told. *)
Theorem a_cancelled_accept_can_leave_the_file ask w id target :
  interrupted w = Uninterrupted -> a_saved (accept ask w id) = Ok target ->
  let a := accept ask (stopped_late w) id in
  a_saved a = Err (Ended CANCELLED (Fmt "cancelled; nothing was saved" [])) /\ a_wrote a = []
  /\ before w !! target = None /\ is_Some (a_dir a !! target).
Proof.
  intros Hi Hs. cbv zeta. destruct (accept_cases ask w id) as [(_ & _ & Hn)|(i & from & name & size & Ha & Hc & Hd & Hsv)].
  { by rewrite Hs in Hn. }
  rewrite Hi in Hsv, Hd. rewrite Hs in Hsv. destruct (r_saved _) as [t|e] eqn:Er; [|done]. injection Hsv as ->.
  pose proof (receive_spec render (disk w) (before w) name size (frames w)) as Hr. cbv zeta in Hr. rewrite Er in Hr.
  destruct Hr as (pre & post & k & _ & _ & _ & _ & _ & _ & Hfree & _ & Hdir & _).
  assert (Hl : a_saved (accept ask (stopped_late w) id) = Err (cancelled "cancelled; nothing was saved")
    /\ a_wrote (accept ask (stopped_late w) id) = [] /\ a_dir (accept ask (stopped_late w) id) = a_dir (accept ask w id)).
  { revert Hs. unfold accept. cbn [stopped_late part platform space disk before frames interrupted took]. rewrite Hi. cbv zeta.
    destruct (part w); [|done]. destruct (offers ← offers_result (ask 0%nat FileList); _); [|done].
    destruct (response ← ask 1%nat (FileAccept id); _) as [[[nm sz] fr]|]; [|done].
    by destruct (_ ← check_name nm (platform w); _). }
  destruct Hl as (-> & -> & ->). rewrite (proj1 Hd), Hdir. split_and!; [done..|]. eexists. apply lookup_insert_eq.
Qed.

(** What was on screen in the k-th round. *)
Definition shown (incoming : list IncomingOffer) (rounds : list Round) (k : nat) : option (list IncomingOffer) :=
  match k with O => Some incoming | S k => r ← rounds !! k; to_option (refreshed r) end.

Lemma round_deed note incoming r d :
  d ∈ snd (fst (round note incoming r)) ->
  exists o, o ∈ incoming /\ (d = Accepts (in_id o) /\ confirmed r = Ok (Some true) \/ d = Rejects (in_id o) /\ confirmed r = Ok (Some false)).
Proof.
  unfold round. destruct incoming as [|o0 inc]; [by intros ?%elem_of_nil|]. set (l := o0 :: inc).
  destruct (pick l r) as [[o|]|e] eqn:Ep; [|by intros ?%elem_of_nil..].
  assert (Ho : o ∈ l).
  { unfold pick in Ep. destruct l as [|x [|y l']] eqn:El; [done|injection Ep as <-; constructor|].
    destruct (picked r) as [[i|]|e]; cbn in Ep; try done. injection Ep as Ep. by eapply list_elem_of_lookup_2. }
  destruct (confirmed r) as [[[]|]|e] eqn:Ec; try (by intros ?%elem_of_nil).
  - destruct (accepting r) as [saved|[m|code m]]; cbn; intros ->%list_elem_of_singleton; exists o; auto.
  - cbn. intros ->%list_elem_of_singleton. exists o; auto.
Qed.

(** the list acts only on what it shows and only when told to: whatever is
    accepted or rejected was on screen in that round, and the answer to its
    question was yes or no; and a transfer stopped with Ctrl+C is the last thing
    that happens. *)
Theorem the_list_acts_only_on_what_it_shows note incoming rounds :
  let '(said, deeds, res) := list_loop note incoming rounds in
  (forall d, d ∈ deeds -> exists k r l o,
      rounds !! k = Some r /\ shown incoming rounds k = Some l /\ o ∈ l
      /\ (d = Accepts (in_id o) /\ confirmed r = Ok (Some true) \/ d = Rejects (in_id o) /\ confirmed r = Ok (Some false)))
  /\ (forall code m, res = Some (Err (Ended code m)) ->
        exists o before r, deeds = before ++ [Accepts o] /\ r ∈ rounds /\ accepting r = Err (Ended code m)).
Proof.
  revert incoming. induction rounds as [|r rounds IH]; intros incoming; cbn [list_loop].
  { split; [by intros d ?%elem_of_nil|done]. }
  pose proof (round_deed note incoming r) as Hd. destruct (round note incoming r) as [[said deeds] nxt] eqn:Er. cbn [fst snd] in Hd.
  assert (Hfirst : forall d, d ∈ deeds -> exists k r0 l o, (r :: rounds) !! k = Some r0 /\ shown incoming (r :: rounds) k = Some l /\ o ∈ l
      /\ (d = Accepts (in_id o) /\ confirmed r0 = Ok (Some true) \/ d = Rejects (in_id o) /\ confirmed r0 = Ok (Some false))).
  { intros d Hin. destruct (Hd d Hin) as (o & Ho & Hor). exists 0%nat, r, incoming, o. done. }
  destruct nxt as [inc|res].
  - assert (Hinc : refreshed r = Ok inc).
    { revert Er. unfold round, refresh. destruct incoming; [done|].
      destruct (pick _ r) as [[o|]|e]; [|done..]. destruct (confirmed r) as [[[]|]|e]; [| | |done].
      - destruct (accepting r) as [|[|]]; destruct (refreshed r); intros [= ]; congruence.
      - destruct (refreshed r); intros [= ]; congruence.
      - destruct (_ =? _)%nat; [done|]. destruct (refreshed r); intros [= ]; congruence. }
    specialize (IH inc). destruct (list_loop note inc rounds) as [[said' deeds'] res']. destruct IH as [IH1 IH2]. split.
    + intros d [Hin|Hin]%elem_of_app; [by apply Hfirst|]. destruct (IH1 d Hin) as (k & r0 & l & o & Hr & Hs & Ho).
      exists (S k), r0, l, o. split; [done|]. split; [|done]. destruct k as [|k]; cbn in Hs |- *; [rewrite Hinc; by injection Hs as ->|done].
    + intros code m Hres. destruct (IH2 code m Hres) as (o & before & r0 & -> & Hin & Ha). exists o, (deeds ++ before), r0.
      rewrite app_assoc. split; [done|]. split; [by right|done].
  - split; [done|]. intros code m [= ->]. revert Er. unfold round, refresh. destruct incoming; [done|].
    destruct (pick _ r) as [[o|]|e]; [|done..]. destruct (confirmed r) as [[[]|]|e]; [| | |done].
    + destruct (accepting r) as [saved|[|code' m']] eqn:Ea; [by destruct (refreshed r)..|].
      intros [= _ <- -> ->]. exists (in_id o), [], r. split; [done|]. split; [constructor|done].
    + by destruct (refreshed r).
    + destruct (_ =? _)%nat; [done|]. by destruct (refreshed r).
Qed.
End FileCommands.
