(* ===== verification/Cli.v ===== *)
(** * The command line ([cli/src/commands/mod.rs], [cli/src/main.rs])

    What an invocation of [quix] does before and around its command: its
    arguments checked, Administrator asked for, the command run, and the exit
    code. *)

From S2P Require Import Prelude External Proto Names Net Tun Filename Utf8 Frame Peers Stats Files Transfer TransferProps Node Admin Authz Ipc Expiry CliFile CliFileProps Format Commands FileCommands Elevate Service Update.

Local Abbreviation list := Datatypes.list.

Inductive FileAction :=
  | FSend (path host : rstr) (expires : option (rstr * rstr))
  | FList (here : bool)
  | FAccept (id : rstr) (here : bool)
  | FReject (id : rstr).

Inductive Command :=
  | CCreate (name : rstr) (hostname : option rstr)
  | CInvite (expires : option (rstr * rstr))
  | CJoin (code : rstr) (hostname : option rstr)
  | CLeave
  | CKick (peer : rstr)
  | CHostname (name : rstr) (force : bool)
  | CFile (action : FileAction)
  | CPing (peer : rstr)
  | CStatus (verbose : bool)
  | CSetOperator (user : rstr)
  | CService (action : Action)
  | CUpdate (check force : bool)
  | CVersion.

Definition needs_elevation (c : Command) : bool :=
  match c with
  | CService ServiceStatus => false
  | CService _ => true
  | CUpdate _ _ | CCreate _ _ | CInvite _ | CJoin _ _ | CLeave | CKick _ | CHostname _ _
  | CSetOperator _ | CFile _ | CStatus _ | CPing _ | CVersion => false
  end.

(** [file::check_args] and [check_args]. *)
Definition file_check_args (a : FileAction) : result message () :=
  match a with FSend _ _ expires => _ ← file_ttl_secs expires; Ok tt | _ => Ok tt end.

Definition check_args (c : Command) : result message () :=
  match c with
  | CInvite expires => _ ← invite_ttl_secs expires; Ok tt
  | CFile a => file_check_args a
  | _ => Ok tt
  end.

(** The question a command of one question asks. *)
Definition question (c : Command) : option Request :=
  match c with
  | CCreate name hostname => Some (CreateNetwork name hostname)
  | CInvite expires => match invite_ttl_secs expires with Ok ttl => Some (Invite ttl) | Err _ => None end
  | CJoin code hostname => Some (Proto.Join code hostname)
  | CLeave => Some Proto.Leave
  | CKick peer => Some (Kick peer)
  | CHostname name force => Some (Proto.SetHostname name force)
  | CPing peer => Some (Ping peer)
  | CStatus _ => Some Status
  | CSetOperator user => Some (SetOperator user)
  | CFile _ | CService _ | CUpdate _ _ | CVersion => None
  end.

Section Cli.
Context `{!EndpointIds, !Sha256, !Blake3, !HexCrate, !Bs58, !WireJson} {Link : Type}.
Variable parse_event : list Z -> result message FileEvent.
Variable render : message -> rstr.
Variable utf8_lossy : list Z -> rstr.
Variable to_lowercase : rstr -> rstr.

(** Everything outside the process: its terminal, and what the commands that do
    not ask one question meet. *)
Record Process := {
  term : Terminal;
  elevated_output : option rstr;
  redirects : result message ();                       (* [redirect_output] *)
  (* of [quix file] *)
  prepared : rstr -> result message Prepared;
  dest : bool -> result message Destination;
  countdown : bool;
  sending : Sending;
  saving_in : rstr -> Place;                          (* what accepting meets, by directory *)
  interactive : bool;
  rounds : list Round;
  (* of [quix service] and [quix update] *)
  manager : Manager;
  machine : Machine;
  VERSION : rstr;
}.

Inductive Ending :=
  | Relaunched
  | Ran (printed : list message) (res : result failure ())
  | AtTheList (printed : list message).                (* the person is still there *)

Definition reported (r : report) : Ending := Ran (fst r) (plain (snd r)).

(** Asking the one question. *)
Definition asking (p : Process) (req : Request) (make : Response -> report) : Ending :=
  match send (term p) req with
  | Commands.Relaunches => Relaunched
  | Answered (Err e) => Ran [] (Err (Plain e))
  | Answered (Ok r) => reported (make r)
  end.

Definition file_run (p : Process) (a : FileAction) : Ending :=
  let ran '(said, res) := Ran said res in
  match a with
  | FSend path host expires =>
      ran (send_run parse_event expires (prepared p path) host (send_as_caller (term p) 0) (countdown p) (sending p))
  | FList here =>
      match list_run (dest p here) (offers_result (send_as_caller (term p) 0 FileList)) (interactive p) (rounds p) with
      | (said, _, Some res) => Ran said res
      | (said, _, None) => AtTheList said
      end
  | FAccept id here =>
      ran (run_accept (dest p here) (fun dir =>
        let a := accept render (send_as_caller (term p)) (saving_in p dir) id in (a_printed a, a_saved a)))
  | FReject id => ran (run_reject (send_as_caller (term p) 0 (FileReject id)))
  end.

Definition update_run (p : Process) (check force : bool) : Ending :=
  let '(acts, e) := Update.run utf8_lossy to_lowercase (machine p) (VERSION p) check force in
  let said := omap (fun a => match a with Says m => Some m | _ => None end) acts in
  match e with Update.Relaunches => Relaunched | Ends r => Ran said (plain r) end.

(** The [match] at the end of [run]. *)
Definition command_run (p : Process) (c : Command) : Ending :=
  match c with
  | CCreate name hostname => asking p (CreateNetwork name hostname) create_report
  | CInvite expires =>
      match invite_ttl_secs expires with
      | Err e => Ran [] (Err (Plain e))
      | Ok ttl_secs => asking p (Invite ttl_secs) (invite_report (Expiry.describe ttl_secs))
      end
  | CJoin code hostname => asking p (Proto.Join code hostname) join_report
  | CLeave => asking p Proto.Leave leave_report
  | CKick peer => asking p (Kick peer) kick_report
  | CHostname name force => asking p (Proto.SetHostname name force) (hostname_report to_lowercase name)
  | CFile a => file_run p a
  | CPing peer => asking p (Ping peer) ping_report
  | CStatus verbose => asking p Status (status_report verbose)
  | CSetOperator user => asking p (SetOperator user) operator_report
  | CService a => let r := Service.run (manager p) a in Ran (printed r) (plain (ended r))
  | CUpdate check force => update_run p check force
  | CVersion => Ran [Fmt "quix {VERSION}" [Text (VERSION p)]] (Ok tt)
  end.

(** [run]. *)
Definition run (p : Process) (c : Command) : Ending :=
  match check_args c with
  | Err e => Ran [] (Err (Plain e))
  | Ok _ =>
      if windows (term p) then
        match c with
        | CSetOperator _ =>
            Ran [] (Err (Plain (Fmt "set-operator is not supported on Windows: authorization here is by Administrator elevation, so run the command elevated instead" [])))
        | _ =>
            match elevated_output p with
            | Some _ => match redirects p with Ok _ => command_run p c | Err e => Ran [] (Err (Plain e)) end
            | None => if needs_elevation c && negb (elevated (term p)) then Relaunched else command_run p c
            end
        end
      else command_run p c
  end.

(** ** Properties *)

Lemma send_relaunches t req : send t req = Commands.Relaunches <->
  windows t = true /\ elevated t = false /\ exists m, ask t 0 req = Ok (RUnauthorized m).
Proof.
  unfold send. destruct (ask t 0 req) as [[]|e]; try (split; [done|by intros (_ & _ & m' & Hm)]).
  destruct (windows t), (elevated t); cbn; naive_solver.
Qed.

Lemma asking_relaunches p req make : asking p req make = Relaunched <-> send (term p) req = Commands.Relaunches.
Proof. unfold asking. destruct (send (term p) req) as [|[r|e]]; naive_solver. Qed.

Lemma command_run_relaunches p c : command_run p c = Relaunched <->
  (exists req, question c = Some req /\ send (term p) req = Commands.Relaunches)
  \/ exists check force, c = CUpdate check force
       /\ snd (Update.run utf8_lossy to_lowercase (machine p) (VERSION p) check force) = Update.Relaunches.
Proof.
  assert (Hone : forall req make, question c = Some req -> (forall check force, c <> CUpdate check force) ->
    command_run p c = asking p req make ->
    command_run p c = Relaunched <->
    (exists req, question c = Some req /\ send (term p) req = Commands.Relaunches)
    \/ exists check force, c = CUpdate check force
       /\ snd (Update.run utf8_lossy to_lowercase (machine p) (VERSION p) check force) = Update.Relaunches).
  { intros req make Hq Hn ->. rewrite asking_relaunches, Hq. naive_solver. }
  destruct c as [name h|ex|code h| |peer|name f|a|peer|v|user|a|ck f|]; try (by eapply Hone).
  - cbn [command_run question]. destruct (invite_ttl_secs ex) as [ttl|e] eqn:E; [|naive_solver].
    rewrite asking_relaunches. naive_solver.
  - cbn [command_run question]. unfold file_run. destruct a as [path host ex|here|id here|id].
    + destruct (send_run _ _ _ _ _ _ _). naive_solver.
    + destruct (list_run _ _ _ _) as [[said deeds] [res|]]; naive_solver.
    + destruct (run_accept _ _). naive_solver.
    + destruct (run_reject _). naive_solver.
  - cbn [command_run question]. naive_solver.
  - cbn [command_run question]. unfold update_run. destruct (Update.run _ _ _ _ _ _) as [acts [|r]] eqn:E; cbn.
    + split; [|done]. intros _. right. exists ck, f. by rewrite E.
    + split; [done|]. intros [(req & ? & _)|(ck' & f' & [= <- <-] & Hu)]; [done|]. by rewrite E in Hu.
  - cbn [command_run question]. naive_solver.
Qed.

Lemma update_relaunches m current check force :
  snd (Update.run utf8_lossy to_lowercase m current check force) = Update.Relaunches <->
  check = false /\ on_windows m = true /\ privileged m = false /\ manager_installed m = true
  /\ exists tag, latest_release m = Ok tag /\ (force = true \/ current <> trim_start_matches (N.eqb 118) tag).
Proof.
  unfold Update.run. destruct (latest_release m) as [tag|e]; [|naive_solver].
  destruct (plan current (trim_start_matches (N.eqb 118) tag) check force) eqn:Ep.
  1,2: split; [done|]; intros (Hc & _ & _ & _ & tag' & [= <-] & Hf);
    assert (Hi : plan current (trim_start_matches (N.eqb 118) tag) check force = Install) by (by apply plan_install); congruence.
  apply plan_install in Ep as [Hc Hf]. destruct (manager_installed m) eqn:Em; cbn [negb]; [|naive_solver].
  unfold ensure_privileged. destruct (privileged m) eqn:Ep.
  - split; [|naive_solver]. destruct (platform _ _); [|done]. destruct (download_verified _ _ _ _ _); [|done].
    destruct (creates m); [|done]. by destruct (staged _ _ _ _ _).
  - destruct (on_windows m) eqn:Ew; [|naive_solver]. split; [|done]. intros _. split_and!; try done. by exists tag.
Qed.

(** The terminal and the updater are on the same machine, under the same user. *)
Definition same_process (p : Process) : Prop :=
  on_windows (machine p) = windows (term p)
  /\ (windows (term p) = true -> privileged (machine p) = elevated (term p)).

(** What asking for Administrator can be for: the service is to be changed, the
    daemon has just refused this very question, or an update is about to install. *)
Inductive wants_elevation (p : Process) : Command -> Prop :=
  | for_the_service c : needs_elevation c = true -> elevated_output p = None -> wants_elevation p c
  | for_the_daemon c req m : question c = Some req -> ask (term p) 0 req = Ok (RUnauthorized m) -> wants_elevation p c
  | for_an_update force tag : latest_release (machine p) = Ok tag -> manager_installed (machine p) = true ->
      force = true \/ VERSION p <> trim_start_matches (N.eqb 118) tag -> wants_elevation p (CUpdate false force).

Lemma command_run_wants p c : same_process p -> needs_elevation c = false \/ elevated_output p <> None ->
  command_run p c = Relaunched <-> windows (term p) = true /\ elevated (term p) = false /\ wants_elevation p c.
Proof.
  intros [Hw Hp] Hn. rewrite command_run_relaunches. split.
  - intros [(req & Hq & Hs)|(ck & f & -> & Hu)].
    + apply send_relaunches in Hs as (? & ? & m & Hm). split_and!; try done. by eapply for_the_daemon.
    + apply update_relaunches in Hu as (-> & How & Hpr & Hi & tag & Ht & Hf). rewrite Hw in How. rewrite Hp in Hpr by done.
      split_and!; try done. by eapply for_an_update.
  - intros (How & Hel & Hwants). inversion Hwants as [c' Hc Ho|c' req m Hq Hm|f tag Ht Hi Hf]; subst.
    + destruct Hn as [Hn|Hn]; [|by destruct (Hn Ho)]. by rewrite Hc in Hn.
    + left. exists req. split; [done|]. apply send_relaunches. naive_solver.
    + right. exists false, f. split; [done|]. apply update_relaunches. rewrite Hw, Hp, Hel by done. naive_solver.
Qed.

Lemma run_relaunches p c : same_process p ->
  run p c = Relaunched <->
    windows (term p) = true /\ elevated (term p) = false /\ check_args c = Ok () /\ (forall user, c <> CSetOperator user)
    /\ (elevated_output p <> None -> redirects p = Ok ()) /\ wants_elevation p c.
Proof.
  intros Hsame. unfold run. destruct (check_args c) as [[]|e]; [|naive_solver].
  destruct (windows (term p)) eqn:Ew.
  2:{ split; [|naive_solver]. intros Hr. apply command_run_relaunches in Hr as [(req & _ & Hs)|(ck & f & -> & Hu)].
      - apply send_relaunches in Hs as [? _]. congruence.
      - apply update_relaunches in Hu as (_ & How & _). destruct Hsame as [Hw _]. congruence. }
  assert (Hso : (exists user, c = CSetOperator user) \/ forall user, c <> CSetOperator user) by (destruct c; eauto; by right).
  destruct Hso as [[user ->]|Hn]; [naive_solver|].
  transitivity (match elevated_output p with
                | Some _ => match redirects p with Ok _ => command_run p c | Err e => Ran [] (Err (Plain e)) end
                | None => if needs_elevation c && negb (elevated (term p)) then Relaunched else command_run p c
                end = Relaunched).
  { destruct c; try done. by destruct (Hn user). }
  pose proof (command_run_wants p c Hsame) as Hc. rewrite Ew in Hc.
  destruct (elevated_output p) as [out|] eqn:Eo.
  - destruct (redirects p) as [[]|e]; [|naive_solver]. rewrite Hc by (by right). naive_solver.
  - destruct (needs_elevation c) eqn:Ene; cbn [andb].
    + destruct (elevated (term p)) eqn:Eel; cbn [negb].
      * split; [|naive_solver]. intros Hr. apply command_run_relaunches in Hr as [(req & Hq & _)|(ck & f & -> & _)]; [|done].
        by destruct c.
      * split; [|done]. intros _. split_and!; try done. by apply for_the_service.
    + rewrite Hc by (by left). naive_solver.
Qed.

(** Administrator is asked for exactly where it could change the outcome: on
    Windows, by a process that is not elevated and whose arguments are in order,
    to change the service, for an update that is about to install, or because the
    daemon has just refused the command's own question. *)
Theorem elevation_is_asked_for_only_where_it_helps p c : same_process p ->
  run p c = Relaunched <->
    windows (term p) = true /\ elevated (term p) = false /\ check_args c = Ok () /\ (forall user, c <> CSetOperator user)
    /\ (elevated_output p <> None -> redirects p = Ok ()) /\ wants_elevation p c.
Proof. apply run_relaunches. Qed.

(** What a file command saves belongs to the user who typed it: it is never run
    again as Administrator, not even when the daemon refuses. *)
Theorem file_commands_never_relaunch p a : run p (CFile a) <> Relaunched.
Proof.
  unfold run. cbn [check_args needs_elevation andb].
  assert (Hf : command_run p (CFile a) <> Relaunched).
  { rewrite command_run_relaunches. naive_solver. }
  destruct (file_check_args a); [|done]. destruct (windows (term p)); [|done].
  destruct (elevated_output p); [|done]. by destruct (redirects p).
Qed.
End Cli.

(** ** Witnesses *)

Import Concrete.

Module CliDemo.
Definition parse_event (json : list Z) : result message FileEvent := Err (Fmt "not asked" []).
Definition text (s : rstr) : list Z := Z.of_N <$> s.
Definition lossy (l : list Z) : rstr := Z.to_N <$> l.
Definition alice : Caller := WindowsCaller (lit "S-1-5-21-1") (Some (lit "alice")) false.
Definition denied : Response := RUnauthorized (denial true {| user_name := fun _ => None; user_by_name := fun _ => None |} alice).
(** An unelevated terminal on Windows, whose user the daemon does not know. *)
Definition stranger : Process :=
  {| term := {| windows := true; elevated := false; ask := fun _ _ => Ok denied |};
     elevated_output := None; redirects := Ok tt;
     prepared := fun _ => Err (Fmt "no such file" []); dest := fun _ => Err (Fmt "no home" []); countdown := false;
     sending := {| answer := None; streamed := None; why_broken := None; outcome := None |};
     saving_in := fun _ => {| FileCommands.platform := Windows; part := Err (Fmt "denied" []); space := fun _ => Ok tt; disk := FileDemo.disk; before := ∅;
                           frames := []; interrupted := Uninterrupted; took := 0 |}; interactive := false; rounds := [];
     manager := {| Service.on_windows := true; Service.os := fun _ => None; still_running := fun _ => false; ready := true |};
     machine := {| on_windows := true; manager_installed := true; privileged := false; os := lit "windows"; arch := lit "x86_64";
                   SystemRoot := None; temp_dir := lit "C:\Temp"; pid := 42; creates := Ok tt;
                   github := UpdateDemo.answered (Some (lit "v0.2.0"));
                   release := fun _ => {| built := Ok tt; sent := Err (Fmt "offline" []); error_for_status := Ok tt; body := Ok [] |};
                   write_archive := Ok tt; tar := Update.Unstarted (Fmt "not found" []); is_file := fun _ => true;
                   exe := Ok (Some (lit "C:\quix")); installs := Ok None |};
     VERSION := lit "0.2.0" |}.
Lemma one_process : same_process stranger.
Proof. by split. Qed.
End CliDemo.

(** [quix leave] prompts a stranger, [quix status] and an update with nothing to
    install do not. *)
Example elevation_is_asked_for_only_where_it_helps_witness :
  Cli.run CliDemo.parse_event FileDemo.render CliDemo.lossy to_ascii_lowercase CliDemo.stranger CLeave = Relaunched
  /\ Cli.run CliDemo.parse_event FileDemo.render CliDemo.lossy to_ascii_lowercase CliDemo.stranger (CUpdate false false) <> Relaunched.
Proof.
  split.
  - apply (elevation_is_asked_for_only_where_it_helps _ _ _ _ _ _ CliDemo.one_process). split_and!; try done.
    by eapply for_the_daemon.
  - intros Hr. apply (elevation_is_asked_for_only_where_it_helps _ _ _ _ _ _ CliDemo.one_process) in Hr as (_ & _ & _ & _ & _ & Hw).
    inversion Hw as [c Hn Ho|c req m Hq Hm|force tag Ht Hi Hf]; [done|done|]. injection Ht as <-. by destruct Hf.
Defined.
