(* ===== verification/EndToEnd.v ===== *)
(** * The command line and the daemon together

    What a person at the terminal may conclude: from the exit code of [quix file
    send] about the other machine's disk, and from a prompt for Administrator
    about the daemon that was asked. *)

From S2P Require Import Prelude External Proto Names Net Filename Utf8 Frame Peers Files Transfer TransferProps CliFile CliFileProps Node NodeProps Admin AdminProps Authz Ipc IpcProps System Commands FileCommands Service Update Cli.

Local Abbreviation list := Datatypes.list.

(** ** An exit code *)

Section ExitCode.
Context `{!EndpointIds, !HexCrate, !WireJson, !Blake3} {Link : Type}.
Variable render : message -> rstr.

(** [Frame::control] and [Frame::parse] of an event: [serde_json]'s, a round trip. *)
Variable event_json : FileEvent -> list Z.
Variable parse_event : list Z -> result message FileEvent.
Hypothesis parse_event_json : forall e, parse_event (event_json e) = Ok e.

(** The last word the sending terminal hears is one its daemon has said. *)
Definition hears (p : Pair) (s : Sending) : Prop :=
  forall json, outcome s = Some (Some (Control json)) -> exists e, json = event_json e /\ SEvent e ∈ s_out (snd_ p).

(** C1: [quix file send] exits with 0 only when, on the other machine, the file is
    there: a new name in the receiver's directory, nothing else in it touched,
    with exactly the bytes that were read here, of the size that was offered;
    whatever the two terminals, the two daemons and the network did, in whatever
    order. *)
Theorem exit_zero_means_the_file_is_there id rid to from oname rname size ttl told p0 reads writes disk before ts expires prepared host opened countdown sending :
  0 <= size -> pair_start id rid to from oname size ttl told = Some p0 ->
  let s := system_run render disk rname size (system_start p0 (fst (stream reads writes size)) before) ts in
  hears (pair s) sending ->
  exit_code (snd (send_run parse_event expires prepared host opened countdown sending)) = 0 ->
  exists c target, read_content reads = Some c /\ data_len c = size
    /\ before !! target = None /\ dir s = <[target := c]> before.
Proof.
  intros Hsz Hp0 s Hh He.
  destruct (transfer_run_ok render id rid to from oname rname size ttl told p0 reads writes disk before ts Hsz Hp0) as (l & Hs & Hpair).
  fold s in Hs, Hpair. pose proof (ok_describes _ _ _ _ _ _ _ _ _ _ Hsz Hs Hpair) as Hd.
  apply exit_zero_told in He as (_ & _ & Ho). destruct (outcome sending) as [[[data|hash| |json|m]|]|] eqn:Eo; try done.
  destruct (Hh json Eo) as (e & -> & Hin). cbn [says_event] in Ho. rewrite parse_event_json in Ho. apply bool_decide_eq_true in Ho as ->.
  unfold stage_of in Hd.
  by rewrite (proj2 (was_delivered_spec _) Hin) in Hd.
Qed.
End ExitCode.

(** ** A prompt *)

Section Prompts.
Context `{!EndpointIds, !Sha256, !Blake3, !HexCrate, !Bs58, !WireJson} {Link : Type}.
Variable parse_event : list Z -> result message FileEvent.
Variable render : message -> rstr.
Variable utf8_lossy : list Z -> rstr.
Variable to_lowercase : rstr -> rstr.

(** The command's one question is answered by a daemon in state [n]; [n'] and
    [pushes] are what answering it left behind. *)
Definition answered_by (from_str : rstr -> result message Request) (o : Outside) (n : Node.State (Link := Link)) (caller : Caller)
    (req : Request) (resp : Response) (n' : Node.State (Link := Link)) (pushes : list push) : Prop :=
  exists line buffered, from_str (trim line) = Ok req /\ Ipc.handle from_str o n line caller buffered = (n', Replied resp pushes).

(** What refusing leaves behind is nothing. *)
Lemma refusal_spec from_str o (n : Node.State (Link := Link)) caller req m n' pushes :
  answered_by from_str o n caller req (RUnauthorized m) n' pushes ->
  n' = n /\ pushes = [] /\ is_read_only req = false /\ is_superuser caller = false /\ is_operator caller (operator n) = false.
Proof.
  intros (line & buffered & Hf & Hh). unfold Ipc.handle in Hh. rewrite Hf in Hh.
  destruct (check _ _ req caller (operator n)) as [u|e] eqn:Ec.
  - destruct (is_transfer req); [by destruct buffered|].
    pose proof (dispatch_authorized o n req m) as Hd. destruct (dispatch o n req) as [[n1 r] p]. injection Hh as <- -> <-. by destruct Hd.
  - injection Hh as <- _ <-. unfold check in Ec. destruct (is_read_only req), (is_superuser caller), (is_operator caller (operator n)); done.
Qed.

(** C18: nobody who did not need to is asked for Administrator.  A command is run
    again elevated only on Windows, by a process that is not elevated, and for one
    of three reasons: it is to change the service; it is an update and there is a
    release to install; or it asked the daemon its one question and was refused.
    In that last case the command changes something, its caller is neither root,
    nor already elevated, nor the operator, and refusing changed nothing there, so
    the second run repeats no work. *)
Theorem only_strangers_are_prompted from_str o (n : Node.State (Link := Link)) caller p c :
  same_process p ->
  (forall req resp, question c = Some req -> ask (term p) 0 req = Ok resp ->
     exists n' pushes, answered_by from_str o n caller req resp n' pushes) ->
  Cli.run parse_event render utf8_lossy to_lowercase p c = Relaunched ->
  windows (term p) = true /\ elevated (term p) = false
  /\ ((exists a, c = CService a /\ a <> ServiceStatus)
      \/ (exists force tag, c = CUpdate false force /\ latest_release (machine p) = Ok tag /\ manager_installed (machine p) = true
            /\ (force = true \/ VERSION p <> trim_start_matches (N.eqb 118) tag))
      \/ exists req m, question c = Some req /\ ask (term p) 0 req = Ok (RUnauthorized m)
            /\ is_read_only req = false /\ is_superuser caller = false /\ is_operator caller (operator n) = false
            /\ forall m n' pushes, answered_by from_str o n caller req (RUnauthorized m) n' pushes -> n' = n /\ pushes = []).
Proof.
  intros Hsame Ha Hr. apply run_relaunches in Hr as (Hwin & He & _ & _ & _ & Hw); [|done]. split; [done|]. split; [done|].
  inversion Hw as [c' Hn Ho|c' req m Hq Hm|force tag Ht Hi Hf]; subst.
  - left. destruct c as [| | | | | | | | | |[]| |]; try done; by eexists.
  - right; right. exists req, m. destruct (Ha _ _ Hq Hm) as (n' & pushes & Hby).
    apply refusal_spec in Hby as (_ & _ & Hro & Hs & Ho). split_and!; try done.
    intros m' n2 p2 Hby. apply refusal_spec in Hby. naive_solver.
  - right; left. by exists force, tag.
Qed.
End Prompts.

(** ** Witnesses *)

Import Concrete.

Module EndToEndDemo.
Definition code (e : FileEvent) : Z := match e with Accepted => 1 | Rejected => 2 | Expired => 3 | Delivered => 4 end.
Definition event_json (e : FileEvent) : list Z := [code e].
Definition parse_event (json : list Z) : result message FileEvent :=
  match json with
  | [1] => Ok Accepted | [2] => Ok Rejected | [3] => Ok Expired | [4] => Ok Delivered
  | _ => Err (Fmt "invalid type" [])
  end.
Lemma parse_event_json e : parse_event (event_json e) = Ok e.
Proof. by destruct e. Qed.
Definition says (e : FileEvent) : wait heard := Some (Some (Control (event_json e))).
Definition sending : Sending := {| answer := says Accepted; streamed := Some Sent; why_broken := None; outcome := says Delivered |}.
Definition opened (r : Request) : result message Response := Ok (RFileOffered (lit "ab12") (lit "nas") 600).
Definition turns : list turn_of := SystemDemo.turns ++ [SenderReads Codec.env].
End EndToEndDemo.

Example exit_zero_means_the_file_is_there_witness :
  exists p0, Codec.pair = Some p0 /\ exists target,
    dir (system_run FileDemo.render FileDemo.disk (lit "a.txt") 3 (system_start p0 (fst (stream FileDemo.reads FileDemo.all 3)) FileDemo.dir)
           EndToEndDemo.turns) = <[target := FileDemo.content]> FileDemo.dir.
Proof.
  eexists. split; [reflexivity|].
  match goal with |- context [system_start ?p0 _ _] =>
    pose proof (exit_zero_means_the_file_is_there FileDemo.render EndToEndDemo.event_json EndToEndDemo.parse_event EndToEndDemo.parse_event_json
      (lit "ab12") (lit "cd34") (lit "nas") (lit "laptop") (lit "a.txt") (lit "a.txt") 3 600 true p0 FileDemo.reads FileDemo.all FileDemo.disk
      FileDemo.dir EndToEndDemo.turns None (Ok {| p_name := lit "a.txt"; p_size := 3 |}) (lit "nas") EndToEndDemo.opened false EndToEndDemo.sending
      ltac:(done) eq_refl) as Hd
  end.
  destruct Hd as (c & target & Hc & _ & _ & Hdir).
  - intros json [= <-]. exists Delivered. split; [reflexivity|]. apply was_delivered_spec. by vm_compute.
  - by vm_compute.
  - exists target. by injection Hc as <-.
Defined.

(** The daemon of the prompt: Windows, with an operator who is not alice. *)
Module PromptDemo.
Definition daemon : Outside :=
  {| world := world IpcDemo.alone; now := 0; random := random IpcDemo.alone; token := token IpcDemo.alone;
     admin_call := admin_call IpcDemo.alone; notice_in_time := false; waited := None; rtt := fun _ => None;
     debug := debug IpcDemo.alone; users := users IpcDemo.alone; Ipc.windows := true; counters := counters IpcDemo.alone |}.
Lemma not_the_operator : is_operator CliDemo.alice (operator NodeDemo.linked) = false.
Proof. by vm_compute. Qed.
Lemma answers req resp : question CLeave = Some req -> ask (term CliDemo.stranger) 0 req = Ok resp ->
  exists n' pushes, answered_by IpcDemo.parse daemon NodeDemo.linked CliDemo.alice req resp n' pushes.
Proof.
  intros [= <-] [= <-]. exists NodeDemo.linked, []. exists (lit "{}"), false. split; [reflexivity|].
  unfold Ipc.handle. cbn [IpcDemo.parse]. unfold check. rewrite not_the_operator. reflexivity.
Qed.
End PromptDemo.

Example only_strangers_are_prompted_witness :
  is_read_only Proto.Leave = false /\ is_operator CliDemo.alice (operator NodeDemo.linked) = false.
Proof.
  destruct (only_strangers_are_prompted CliDemo.parse_event FileDemo.render CliDemo.lossy to_ascii_lowercase IpcDemo.parse PromptDemo.daemon NodeDemo.linked
    CliDemo.alice CliDemo.stranger CLeave CliDemo.one_process PromptDemo.answers eq_refl)
    as (_ & _ & [(a & Hc & _)|[(f & t & Hc & _)|(req & m & Hq & _ & Hr & _ & Ho & _)]]); [discriminate Hc|discriminate Hc|].
  injection Hq as <-. exact (conj Hr Ho).
Defined.
